(* ===== verification/_CoqProject ===== *)
-Q . S2P
Prelude.v
Errors.v
ConnState.v
Backoff.v
Config.v
Validation.v
Version.v
Json.v
Rfc3339.v
Base64.v
JsonRead.v
Sha2.v
Metrics.v
Flow.v
Handshake.v
Dispatcher.v
Pool.v
Interfaces.v
Storage.v
BookText.v
AddressBook.v
Mock.v
Heap.v
Crypto.v
CryptoModule.v
Peer.v
Gater.v
Host.v
Tracing.v
Proc.v
RelyGuarantee.v
Compose.v
FileSystem.v
StorageCalls.v
StorageConcurrency.v
StorageAtomicity.v
Subscriptions.v
SubscriptionBehaviour.v
Stats.v
Streams.v
StreamBehaviour.v
StreamManager.v
SecureChannel.v
StreamSafety.v
StreamInvariant.v
ConnManager.v
ConnInvariant.v
ConnTimers.v
ConnBehaviour.v
ConnRecovery.v
System.v
Node.v
NodeRefinement.v
NodeBehaviour.v
NodeLifecycle.v
NodeHandshake.v
NodeChannel.v
NodePeers.v
NodeWitness.v
Debug.v
DebugText.v
FileTransfer.v
Exchange.v
ExampleHandshake.v
Flood.v
Cluster.v
Rpc.v
Blockchain.v
