(* ===== verification/Prelude.v ===== *)
(** * Glueberry, a peer-to-peer node library over libp2p

    This development models the Go code of the library's own components and
    proves what makes them correct.  The node (src/node.go) owns an address
    book, a crypto module, a connection manager, a stream manager, an event
    dispatcher, a flow controller per stream name and a statistics tracker per
    peer; the libp2p host it starts asks the connection gater about every
    connection and hands every incoming stream to a handler of the node.  The
    connection manager and the gater are clients of the address book; the
    connection manager drives connections through a state machine, with a
    timer per handshake and a goroutine per reconnection, and reports each
    change as an event; the stream manager encrypts under keys of the crypto
    module and reads each stream in a goroutine; two goroutines of the node
    forward the messages and the events to the application.

    ** Files

    - [Prelude]: Go's 64-bit integers, durations and times, bounded channels,
      the state monad [ST] (a critical section is an [ST] function on the state
      its mutex protects), list and boolean tactics.
    - [Errors] (src/errors.go): error values, their codes, hints and the walks
      of errors.Is and errors.As.
    - [ConnState] (src/pkg/connection/state.go, src/state.go, src/events.go):
      connection states, their transition table, the public states and events.
    - [Backoff] (src/pkg/connection/reconnect.go): delays and attempt counts.
    - [Config] (src/config.go): validation, defaults, option functions, and the
      check of New in src/node.go.
    - [Validation] (src/validation.go, src/pkg/protocol/ids.go): stream names,
      metadata and protocol identifiers.
    - [Version] (src/version.go): printing, parsing and comparing versions.
    - [Json], [Rfc3339], [Base64]: what encoding/json, time and encoding/base64
      write and read, on bytes: UTF-8 strings with their escapes, the indented
      and the compact form, integers, maps, times of the Gregorian calendar;
      [JsonRead]: what json.Unmarshal makes of a value.
    - [Sha2]: SHA-256 and SHA-512, executable.
    - [Metrics] (src/metrics.go, src/logging.go,
      src/internal/observability/prometheus/metrics.go): the metrics and logging
      interfaces, the implementations that do nothing, and the exporter over a
      Prometheus registry.
    - [Flow] (src/internal/flow/controller.go): the back-pressure of a stream,
      as a controller and any number of senders that interleave.
    - [Handshake] (src/internal/handshake/state.go): the stages of a handshake.
    - [Dispatcher] (src/internal/eventdispatch/dispatcher.go): the event queue.
    - [Pool] (src/internal/pool/buffer.go): the buffer pools.
    - [Interfaces]: what is taken from libp2p, and the class [PeerBook] with
      its laws, which the manager and the gater are written against.
    - [Storage] (src/pkg/addressbook/storage.go, storage_unix.go, types.go): the
      file of the address book, with the outcome of every system call and every
      file system an operation goes through.
    - [BookText] (types.go, storage.go): the bytes of that file.
    - [AddressBook] (src/pkg/addressbook/book.go): the book over that file; it
      is an instance of [PeerBook] ([book_PeerBook], [book_PeerBookLaws]).
    - [Mock] (src/internal/testutil/mock.go): the mock node, and how far it
      stands in for the address book of a node.
    - [Heap]: byte slices that hold secrets, by reference, so that aliasing and
      zeroing can be stated.
    - [Crypto] (src/pkg/crypto/keys.go, ecdh.go, cipher.go, secure.go) and
      [CryptoModule] (src/pkg/crypto/module.go): key conversion, key agreement,
      encryption, and the module with its key cache; concurrent derivations
      are steps between its lock sections.
    - [Peer] (src/pkg/connection/peer.go): one connection, its timer and key.
    - [Gater] (src/pkg/protocol/gater.go): the connection gater.
    - [Host] (src/pkg/protocol/host.go, handlers.go): the wrapper of the libp2p
      host, each method as the calls it makes.
    - [Tracing] (src/internal/observability/otel/tracing.go): the spans.
    - [Proc]: code that several goroutines run, as a free monad of lock
      sections, calls to the environment and go statements, with a step
      relation for all interleavings and the rule that lifts a relation every
      lock section respects to all executions.
    - [RelyGuarantee]: a program logic for such code (what holds of every
      answer and section under a rely the other goroutines keep), and [Compose]:
      a component inside a program, with the theorem that every execution of
      the program is one of the component ([composition_refines]).
    - [FileSystem]: files, directory entries, descriptors, file locks and
      mutexes of the processes of a machine, with kills and losses of power, on
      Unix and on Windows ([Platform]).  [StorageCalls] (storage.go,
      storage_unix.go, storage_windows.go): load and save as the system calls
      they make, and the machine that interleaves them.  [StorageConcurrency],
      [StorageAtomicity]: that machine refines an abstract storage in which
      load and save are single steps.
    - [Subscriptions] (SubscribeEvents, FilteredEvents and the broadcast of
      forwardEvents in src/node.go), [SubscriptionBehaviour]: subscribers with
      channels that are closed while others send.
    - [Stats] (src/stats.go): the trackers and their snapshots.
    - [Streams] (src/pkg/streams/encrypted.go, unencrypted.go, handshake.go):
      the stream objects and their read loops, over a store that holds the
      objects, the keys and the channel of incoming messages;
      [StreamBehaviour]: what each method and one turn of a loop does.
    - [StreamManager] (src/pkg/streams/manager.go); [SecureChannel]: its
      methods run one after the other, and two nodes that talk;
      [StreamSafety], [StreamInvariant]: what holds in every interleaving.
    - [ConnManager] (src/pkg/connection/manager.go): every method, callback and
      goroutine of the manager in that form.
    - [ConnInvariant], [ConnTimers]: invariants of every interleaving.
    - [ConnBehaviour], [ConnRecovery]: what each method does on each branch;
      reconnection, cooldown, incoming connections and shutdown.
    - [System]: the address book, the gater and the manager together.
    - [Node] (src/node.go, src/health.go): the node, a record of all of the
      above; a component's method runs on its part of the record with its own
      sections, calls and goroutines.  [NodeRefinement]: every execution of a
      node is one of its managers.  [NodeBehaviour] (sending), [NodeLifecycle]
      (Start and Stop), [NodeHandshake] (PrepareStreams, FinalizeHandshake and
      the handlers), [NodeChannel] (forwarding, and a message from node to
      node), [NodePeers] (disconnecting, blacklisting, the events): what the
      methods do.  [NodeWitness]: the theorems on concrete nodes.
    - [Debug] (src/debug.go): the dumped records and summaries; [DebugText]
      (src/debug.go, src/health.go): their JSON and printed form, and what the
      health handlers write.
    - Applications: [Exchange], two parties that answer each other's messages,
      and the handshake that src/doc.go documents; [ExampleHandshake], the one
      of src/examples/basic, simple-chat, rpc and file-transfer;
      [FileTransfer] (src/examples/file-transfer); [Flood], a message passed on
      through a network, with the class [Floods] of what a node has to do;
      [Cluster] (src/examples/cluster) and the gossip of [Blockchain]
      (src/examples/blockberry-integration), instances of it; [Rpc]
      (src/examples/rpc), remote calls.

    ** What is proved

    - The address book loses nothing it promised to keep: a crash at any point
      of a save leaves the old or the new file ([save_crash_safe]), a restart
      after any operations recovers every entry up to the batched last-seen
      times ([restart_recovers]), a blacklisted peer stays so
      ([blacklist_sticky]); entries, metadata and files round-trip, down to
      the bytes ([book_text_roundtrip]).  This holds of identifiers that can be
      decoded: one that cannot makes the file unreadable
      ([invalid_id_loses_book]).
    - Goroutines and processes that load and save at once, are killed, or lose
      power in the middle, see and leave whole books: every execution is one
      of the abstract storage ([storage_atomic], [storage_whole]), and nobody
      waits for ever ([storage_returns]).
    - The exported metrics are what the documentation says of the calls
      ([exported_metrics]); dumps and health reports are JSON that says what
      the records say ([dump_reads_back], [health_reads_back]); a stream is
      served by the handler registered last ([last_registration_serves]).
    - A connection follows the state machine in every interleaving
      ([connection_state_machine]), the manager's maps stay consistent
      ([manager_consistent]), and a connection that waits for its handshake has
      an armed timer ([connected_arms_timer]) which, when it fires, ends the
      connection ([handshake_timeout_enforced]) and which an established
      connection is safe from ([established_not_timed_out]).
    - Connecting, failing, refusing, reconnecting until the attempts are spent,
      accepting and shutting down do exactly what the method documents.
    - Blacklisting isolates a peer at every level ([blacklisting_isolates]).
    - Two nodes derive the same key, decrypt what the other encrypted
      ([modules_agree]), keep right keys in the cache under every interleaving
      ([derive_interleaved]) and leave no key behind ([Module_Close_final]).
    - A message goes from one node to the other through the streams both have
      established ([secure_channel]); whatever interleaves, what is written is
      sealed ([send_only_sealed]), streams and messages are those of the peer
      and name they say ([streams_well_typed]), bad frames are dropped
      ([bad_frames_skipped]), and closing forgets ([CloseStreams_forgets]).
    - Snapshots count what was recorded ([snapshot_counts]); filters forward
      exactly what they select ([filter_forwards]), a broadcast offers an event
      to everybody ([broadcast_delivers]), without panics while nobody leaves
      ([running_never_panics]).
    - A node made by New refines its connection manager and its stream manager
      ([node_refines_manager], [node_refines_streams]), so that their
      invariants hold inside it ([node_invariant]).  Completing a handshake
      establishes ([handshake_completes]), sending is accounted for and gives
      its slot back ([send_accounted], [send_refused]), messages are forwarded
      in order and counted ([messages_forwarded]), disconnecting and stopping
      release and zero everything ([disconnect_cleans], [stop_releases]); and
      what one application sends the other receives ([node_to_node]).
    - Applications that follow the documentation agree on their keys and both
      finalize ([two_phase_handshake]); files arrive whole, whatever else the
      receiver is sent ([files_arrive]); a broadcast reaches every member of a
      cluster once ([broadcast_reaches_all]), and a transaction every node of
      a blockchain ([transaction_reaches_all]), whose peers are of its own chain
      ([only_own_chain]) and finish their handshakes ([own_chain_handshake]);
      remote calls return what the handlers answer ([call_answered]).
    - The flow controller bounds what is pending and loses no wake-up; the
      handshake machine terminates and goes through its stages in order; the
      dispatcher keeps order and accounts for what it drops; delays,
      configurations, names, versions and buffers are in their ranges.
    - Where the code does not do what it documents, a theorem states what it
      does ([derive_race_zero_key], [close_race_zero_key], [eof_keeps_key],
      [leaving_panics], [late_subscription_panics], [stopped_but_healthy],
      [handshake_handler_hijacked], [stale_event_drops_streams],
      [blacklist_leaves_streams], [stale_timer_ends_new_handshake],
      [reconnect_stays_reconnecting], [expired_cooldown_refused],
      [finished_loop_drops_newer], [incoming_ignored],
      [Close_then_Release_panics], [failed_save_not_retried],
      [NextDelay_overflow], [Get_after_odd_Put], [no_unlimited_reconnects],
      [high_watermark_one], [ValidateStreamName_accepts_latin1],
      [StreamProtocolID_not_handshake], [invalid_id_loses_book],
      [set_not_removed], [never_started], [mock_differs]), and so for the
      examples ([loop_mixes_peers], [hello_never_ends], [other_file_overwritten],
      [hostile_size_panics], [name_leaves_directory], [null_peer_panics],
      [identifiers_collide], [anybody_answers], [parse_error_unheard],
      [short_hash_panics]).

    ** Conventions, bounds and fuel

    An integer of the code is a [Z], wrapped to 64 bits where an operation can
    overflow.  Times are nanoseconds.  An error keeps its format string and the
    error it wraps; the arguments the format prints are left out where no
    property depends on them.  A panic is [None].  A critical section is one
    step, as the mutex makes it; sections interleave between locks.  Fuel is
    used by [reconnect_rounds], which runs a goroutine that starts
    itself again: [reconnection_gives_up] gives the number of rounds that is
    enough, one per attempt left and one to give up; by [run_client]
    in the witnesses of the storage; and by the JSON parser, the length of
    its input, which [parse_print] shows to be enough for what is printed.  The
    loops of [backoff_loop] and of the other parsers recurse on their counter
    or input.

    ** What is outside, and not modelled

    Third-party code is a parameter with its documented laws: go-libp2p's
    identifiers and addresses ([Libp2p], [Libp2pLaws]), the cryptographic
    primitives ([CryptoLib], [CryptoLaws]), the Unicode tables ([Unicode]).
    Any string can stand for an identifier; [valid_id] are those that can be
    decoded.  The Prometheus registry and the libp2p host are parameters
    ([Prometheus], [LibP2PLib]).  The environment of the manager chooses the answers of
    the network, the clock, the random jitter and when a timer fires.

    A method that calls the network while it holds a lock gives the lock back
    around the call here, which allows more interleavings than the code has.
    The framing of messages on a libp2p stream (the cramberry library) is an
    answer of the environment.

    Not modelled: the getters that only hand out libp2p's own objects (Network,
    Peerstore, LibP2PHost, PeerID, Addrs, PeerAddrs), the values that loggers
    are given, the test suites; of the examples the flags, the console and what
    they print. *)

From Stdlib Require Export ZArith Lia.
From stdpp Require Export base tactics gmap strings list option relations pretty.

#[global] Set Default Goal Selector "!".

Declare Scope go_scope.
Delimit Scope go_scope with go.

(** ** Machine integers

    Go's [int], [int64] and [time.Duration] are 64-bit two's complement on
    every platform the library targets; [uint8] is the type of a version
    component and of a byte.  A value is a [Z]; an operation that can
    overflow wraps explicitly. *)

Module GoInt.
Local Open Scope Z_scope.

Definition two63 : Z := 2 ^ 63.
Definition maxInt64 : Z := 2 ^ 63 - 1.
Definition minInt64 : Z := - 2 ^ 63.

Definition in_int64 (z : Z) : Prop := minInt64 <= z <= maxInt64.

Definition wrap64 (z : Z) : Z := (z + 2 ^ 63) mod 2 ^ 64 - 2 ^ 63.

(** Saturation: what [time.Time.Sub] does outside the int64 range. *)
Definition clamp64 (z : Z) : Z := Z.max minInt64 (Z.min maxInt64 z).

Lemma wrap64_id z : in_int64 z → wrap64 z = z.
Proof.
  unfold in_int64, minInt64, maxInt64, wrap64. intros H.
  rewrite Z.mod_small; lia.
Qed.

Lemma wrap64_range z : in_int64 (wrap64 z).
Proof.
  unfold in_int64, minInt64, maxInt64, wrap64.
  pose proof (Z.mod_pos_bound (z + 2 ^ 63) (2 ^ 64) ltac:(lia)). lia.
Qed.

(** Wrapping a summand early makes no difference. *)
Lemma wrap64_add_l a b : wrap64 (wrap64 a + b) = wrap64 (a + b).
Proof.
  unfold wrap64. f_equal.
  replace ((a + 2 ^ 63) mod 2 ^ 64 - 2 ^ 63 + b + 2 ^ 63) with ((a + 2 ^ 63) mod 2 ^ 64 + b) by lia.
  rewrite Zplus_mod_idemp_l. f_equal. lia.
Qed.

Lemma clamp64_id z : in_int64 z → clamp64 z = z.
Proof. unfold in_int64, clamp64. lia. Qed.
End GoInt.
Export GoInt.

Notation "a +₆₄ b" := (wrap64 (a + b)) (at level 50, left associativity) : go_scope.
Notation "a *₆₄ b" := (wrap64 (a * b)) (at level 40, left associativity) : go_scope.

(** ** Time

    A [time.Time] is the number of nanoseconds since the zero [Time], so that
    [IsZero] is the test against 0; a [time.Duration] is an int64 number of
    nanoseconds. *)

Notation time := Z (only parsing).
Notation duration := Z (only parsing).

Module GoTime.
Local Open Scope Z_scope.
Definition Nanosecond : duration := 1.
Definition Millisecond : duration := 1000000.
Definition Second : duration := 1000 * Millisecond.
Definition Minute : duration := 60 * Second.
Definition Hour : duration := 60 * Minute.

Definition zero : time := 0.
Definition IsZero (t : time) : bool := t =? 0.
(** [t.Sub(u)], which saturates instead of wrapping. *)
Definition Sub (t u : time) : duration := clamp64 (t - u).
Definition Before (t u : time) : bool := t <? u.
Definition After (t u : time) : bool := u <? t.
End GoTime.

(** ** A state monad

    Go code that mutates shared state is a function from the state to the
    returned value and the new state; [x ← m; k] is stdpp's bind notation. *)

Definition ST (S A : Type) : Type := S → A * S.
Global Instance ST_ret S : MRet (ST S) := λ A a s, (a, s).
Global Instance ST_bind S : MBind (ST S) := λ A B f m s, let (a, s') := m s in f a s'.

Definition st_get {S} : ST S S := λ s, (s, s).
Definition st_put {S} (s : S) : ST S unit := λ _, (tt, s).
Definition st_modify {S} (f : S → S) : ST S unit := λ s, (tt, f s).
Definition st_gets {S A} (f : S → A) : ST S A := λ s, (f s, s).

(** Results of Go functions [(T, error)]: exactly one of the two is
    meaningful in the code modelled here. *)
Definition result (E A : Type) : Type := E + A.
Notation Ok a := (inr a) (only parsing).
Notation Err e := (inl e) (only parsing).

Definition is_ok {E A} (r : result E A) : bool :=
  match r with Ok _ => true | Err _ => false end.

(** ** Reachability for step relations (stdpp's [rtc]) *)

(** An invariant that holds initially and is preserved by every step holds in
    every reachable state. *)
Lemma rtc_invariant {A} (R : relation A) (P : A → Prop) (x y : A) :
  (∀ a b, R a b → P a → P b) → P x → rtc R x y → P y.
Proof. intros Hstep Hx Hr. induction Hr; eauto. Qed.

(** ** Generic lemmas *)

Lemma map_Forall_alter {K A} `{Countable K} (P : K → A → Prop) (m : gmap K A) f k :
  map_Forall P m → (∀ x, m !! k = Some x → P k x → P k (f x)) →
  map_Forall P (alter f k m).
Proof.
  intros Hm Hf i x. rewrite lookup_alter. case_decide as Hik; [subst |]; [| by apply Hm].
  intros (y & Hy & ->)%fmap_Some. auto.
Qed.

(** ** Automation

    [go_cases] splits on every match of the goal and cleans up; it is the
    common first step of a proof that runs a handler on all its branches. *)

Ltac go_cases :=
  repeat (case_match || case_decide); simplify_eq/=.

Ltac go_bool :=
  repeat match goal with
  | H : andb _ _ = true |- _ => apply andb_true_iff in H as [??]
  | H : andb _ _ = false |- _ => apply andb_false_iff in H
  | H : orb _ _ = true |- _ => apply orb_true_iff in H
  | H : orb _ _ = false |- _ => apply orb_false_iff in H as [??]
  | H : negb _ = true |- _ => apply negb_true_iff in H
  | H : negb _ = false |- _ => apply negb_false_iff in H
  | H : (_ <? _)%Z = true |- _ => apply Z.ltb_lt in H
  | H : (_ <? _)%Z = false |- _ => apply Z.ltb_ge in H
  | H : (_ <=? _)%Z = true |- _ => apply Z.leb_le in H
  | H : (_ <=? _)%Z = false |- _ => apply Z.leb_gt in H
  | H : (_ =? _)%Z = true |- _ => apply Z.eqb_eq in H
  | H : (_ =? _)%Z = false |- _ => apply Z.eqb_neq in H
  end.

Create HintDb go.
Create Rewrite HintDb go.
#[export] Hint Resolve wrap64_range : go.
