(* ===== verification/Errors.v ===== *)
(** * Errors ([errors.go])

    Go's [error] values as a sum: sentinels, [fmt.Errorf] wrappers and the
    library's structured [Error]; the standard library's [errors.Is] and
    [errors.As] as the walks along the unwrap chain that they are. *)

From S2P Require Import Prelude.

(** ** Error codes *)

Inductive ErrorCode :=
| ErrCodeUnknown
| ErrCodeConnectionFailed
| ErrCodeHandshakeFailed
| ErrCodeHandshakeTimeout
| ErrCodeStreamClosed
| ErrCodeEncryptionFailed
| ErrCodeDecryptionFailed
| ErrCodePeerNotFound
| ErrCodePeerBlacklisted
| ErrCodeBufferFull
| ErrCodeContextCanceled
| ErrCodeInvalidConfig
| ErrCodeNodeNotStarted
| ErrCodeNodeAlreadyStarted
| ErrCodeVersionMismatch
| ErrCodeMessageTooLarge
| ErrCodeBackpressure
| ErrCodeOther (n : Z)   (** any other value of the [int] type *).

Global Instance ErrorCode_eq_dec : EqDecision ErrorCode.
Proof. solve_decision. Defined.

(** [fmt.Sprintf("ErrorCode(%d)", c)] needs the decimal rendering of an int,
    which stdpp's [pretty] provides. *)
Definition ErrorCode_String (c : ErrorCode) : string :=
  match c with
  | ErrCodeUnknown => "Unknown"
  | ErrCodeConnectionFailed => "ConnectionFailed"
  | ErrCodeHandshakeFailed => "HandshakeFailed"
  | ErrCodeHandshakeTimeout => "HandshakeTimeout"
  | ErrCodeStreamClosed => "StreamClosed"
  | ErrCodeEncryptionFailed => "EncryptionFailed"
  | ErrCodeDecryptionFailed => "DecryptionFailed"
  | ErrCodePeerNotFound => "PeerNotFound"
  | ErrCodePeerBlacklisted => "PeerBlacklisted"
  | ErrCodeBufferFull => "BufferFull"
  | ErrCodeContextCanceled => "ContextCanceled"
  | ErrCodeInvalidConfig => "InvalidConfig"
  | ErrCodeNodeNotStarted => "NodeNotStarted"
  | ErrCodeNodeAlreadyStarted => "NodeAlreadyStarted"
  | ErrCodeVersionMismatch => "VersionMismatch"
  | ErrCodeMessageTooLarge => "MessageTooLarge"
  | ErrCodeBackpressure => "Backpressure"
  | ErrCodeOther n => "ErrorCode(" +:+ pretty n +:+ ")"
  end.

(** ** Error values

    [ErrSentinel v] is the value of the package-level variable [v]; two
    sentinels are the same value exactly when they are the same variable.
    [Errorf fmt w] is what [fmt.Errorf] returns: the format string (its
    rendered arguments are not kept) and the error wrapped by [%w], if any.
    [GlueError] is an [Error] pointer with the fields of the struct. *)

Inductive error :=
| ErrSentinel (var : string)
| Errorf (fmt : string) (wrapped : option error)
| GlueError (Code : ErrorCode) (Message : string) (PeerID Stream : string)
    (Cause : option error) (Retriable : bool) (Hint : string).

(** The standard library's context errors. *)
Definition context_Canceled : error := ErrSentinel "context.Canceled".
Definition context_DeadlineExceeded : error := ErrSentinel "context.DeadlineExceeded".

(** A context as the code observes it: its [Err()] at the successive
    points where the code looks at it.  [ctx_live] is [context.Background()]. *)
Notation ctx := (nat → option error) (only parsing).
Definition ctx_live : ctx := λ _, None.

(** A context that is done stays done, with the same error. *)
Definition ctx_monotone (c : ctx) : Prop :=
  ∀ i j e, i ≤ j → c i = Some e → c j = Some e.

(** [Unwrap] of the three kinds of error. *)
Definition Unwrap (e : error) : option error :=
  match e with
  | ErrSentinel _ => None
  | Errorf _ w => w
  | GlueError _ _ _ _ c _ _ => c
  end.

(** The chain that [errors.Is] and [errors.As] walk: the error, then
    whatever it unwraps to. *)
Fixpoint chain (e : error) : list error :=
  e :: match e with
       | ErrSentinel _ => []
       | Errorf _ None => []
       | Errorf _ (Some w) => chain w
       | GlueError _ _ _ _ None _ _ => []
       | GlueError _ _ _ _ (Some c) _ _ => chain c
       end.

(** [Error.Error]: the causes' messages after the message.  [msg_of]
    renders the other errors; a wrapper's text is its format string. *)
Fixpoint Error_String (e : error) : string :=
  match e with
  | ErrSentinel v => v
  | Errorf f _ => f
  | GlueError _ m _ _ (Some c) _ _ => "glueberry: " +:+ m +:+ ": " +:+ Error_String c
  | GlueError _ m _ _ None _ _ => "glueberry: " +:+ m
  end.

(** [Error.Is]: same code. *)
Definition Error_Is (e target : error) : bool :=
  match e, target with
  | GlueError c _ _ _ _ _ _, GlueError t _ _ _ _ _ _ => bool_decide (t = c)
  | _, _ => false
  end.

(** One round of [errors.Is]: [err == target] for sentinels, then the
    error's own [Is] method. *)
Definition is_match (target e : error) : bool :=
  match e, target with
  | ErrSentinel v, ErrSentinel w => bool_decide (v = w)
  | _, _ => Error_Is e target
  end.

Definition errors_Is (e target : error) : bool := existsb (is_match target) (chain e).

(** [errors.As(err, &gErr)]: the first [Error] of the chain. *)
Definition is_glue (e : error) : bool :=
  match e with GlueError _ _ _ _ _ _ _ => true | _ => false end.

Definition errors_As_Error (e : error) : option error := find is_glue (chain e).

Definition IsRetriable (e : error) : bool :=
  match errors_As_Error e with
  | Some (GlueError _ _ _ _ _ Retriable _) => Retriable
  | _ => false
  end.

Definition IsPermanent (e : error) : bool :=
  match errors_As_Error e with
  | Some (GlueError Code _ _ _ _ _ _) =>
      match Code with
      | ErrCodePeerBlacklisted | ErrCodeInvalidConfig => true
      | _ => false
      end
  | _ => false
  end.

(** ** Constructors *)

Definition defaultHint (code : ErrorCode) : string :=
  match code with
  | ErrCodeConnectionFailed =>
      "Check that the peer is online and reachable. Verify the multiaddress is correct and any firewalls allow the connection."
  | ErrCodeHandshakeFailed =>
      "Ensure both peers are using compatible protocol versions and the handshake logic is correct."
  | ErrCodeHandshakeTimeout =>
      "The peer may be slow or unresponsive. Consider increasing HandshakeTimeout in config, or check network connectivity."
  | ErrCodeStreamClosed =>
      "The stream was closed by the remote peer or due to a network issue. Reconnect if needed."
  | ErrCodeEncryptionFailed =>
      "This may indicate a bug in message serialization or the encryption key is invalid."
  | ErrCodeDecryptionFailed =>
      "The message may be corrupted, or the shared key does not match. Ensure both peers completed handshake correctly."
  | ErrCodePeerNotFound =>
      "Add the peer to the address book using AddPeer() before connecting."
  | ErrCodePeerBlacklisted =>
      "The peer was blacklisted. Use RemoveFromBlacklist() if you want to allow connections."
  | ErrCodeBufferFull =>
      "The application is not consuming events/messages fast enough. Increase buffer sizes or process messages faster."
  | ErrCodeContextCanceled =>
      "The operation was cancelled. This is usually intentional via context cancellation."
  | ErrCodeInvalidConfig =>
      "Check that all required configuration fields are set correctly."
  | ErrCodeNodeNotStarted =>
      "Call node.Start() before performing operations."
  | ErrCodeNodeAlreadyStarted =>
      "The node is already running. Call Stop() first if you need to restart."
  | ErrCodeVersionMismatch =>
      "The remote peer is running an incompatible protocol version. Ensure all peers are using compatible library versions."
  | ErrCodeMessageTooLarge =>
      "Reduce message size or increase MaxMessageSize in config."
  | ErrCodeBackpressure =>
      "The send buffer is full. Wait for the peer to acknowledge messages, or increase SendBufferSize."
  | ErrCodeUnknown | ErrCodeOther _ => ""
  end.

Definition NewError (code : ErrorCode) (message : string) : error :=
  GlueError code message "" "" None false (defaultHint code).

Definition NewErrorWithCause (code : ErrorCode) (message : string) (cause : option error) : error :=
  GlueError code message "" "" cause false (defaultHint code).

Definition NewPeerError (code : ErrorCode) (message peerID : string) : error :=
  GlueError code message peerID "" None false (defaultHint code).

Definition NewStreamError (code : ErrorCode) (message peerID stream : string) : error :=
  GlueError code message peerID stream None false (defaultHint code).

(** [e.WithHint(hint)] copies the struct and sets the hint. *)
Definition WithHint (e : error) (hint : string) : error :=
  match e with
  | GlueError c m p s cause r _ => GlueError c m p s cause r hint
  | _ => e
  end.

(** ** Sentinels *)

Definition ErrPeerNotFound := ErrSentinel "ErrPeerNotFound".
Definition ErrPeerBlacklisted := ErrSentinel "ErrPeerBlacklisted".
Definition ErrNotConnected := ErrSentinel "ErrNotConnected".
Definition ErrNoStreamsRequested := ErrSentinel "ErrNoStreamsRequested".
Definition ErrInvalidPrivateKey := ErrSentinel "ErrInvalidPrivateKey".
Definition ErrInvalidConfig := ErrSentinel "ErrInvalidConfig".
Definition ErrMissingPrivateKey := ErrSentinel "ErrMissingPrivateKey".
Definition ErrMissingAddressBookPath := ErrSentinel "ErrMissingAddressBookPath".
Definition ErrMissingListenAddrs := ErrSentinel "ErrMissingListenAddrs".
Definition ErrNodeNotStarted := ErrSentinel "ErrNodeNotStarted".
Definition ErrNodeAlreadyStarted := ErrSentinel "ErrNodeAlreadyStarted".
Definition ErrInvalidStreamName := ErrSentinel "ErrInvalidStreamName".
Definition ErrStreamNameTooLong := ErrSentinel "ErrStreamNameTooLong".
Definition ErrMetadataTooLarge := ErrSentinel "ErrMetadataTooLarge".

(** ** Lemmas *)

Lemma chain_unfold e : chain e = e :: from_option chain [] (Unwrap e).
Proof. destruct e as [|? []|? ? ? ? [] ? ?]; reflexivity. Qed.

Lemma errors_Is_unwrap e target :
  errors_Is e target = is_match target e || from_option (λ w, errors_Is w target) false (Unwrap e).
Proof.
  unfold errors_Is. rewrite chain_unfold. destruct (Unwrap e); simpl; [done |].
  by rewrite orb_false_r.
Qed.

(** A [%w] wrapper around an error is transparent to [errors.Is]. *)
Lemma errors_Is_wrapped f w target : errors_Is (Errorf f (Some w)) target = errors_Is w target.
Proof. rewrite errors_Is_unwrap. destruct target; reflexivity. Qed.

Lemma errors_As_wrapped f w : errors_As_Error (Errorf f (Some w)) = errors_As_Error w.
Proof. reflexivity. Qed.

(** Any number of wrappers around an error. *)
Fixpoint wrap_all (fs : list string) (e : error) : error :=
  match fs with [] => e | f :: fs => Errorf f (Some (wrap_all fs e)) end.

#[export] Hint Rewrite errors_Is_wrapped errors_As_wrapped : go.
