(* ===== verification/ConnState.v ===== *)
(** * Connection states ([pkg/connection/state.go], [events.go]) *)

From S2P Require Import Prelude Errors.

(** [ConnectionState] is an [int] with six named values; [StateOther n] stands
    for every other int, which the code's [default] branches handle. *)
Inductive ConnectionState :=
| StateDisconnected
| StateConnecting
| StateConnected
| StateEstablished
| StateReconnecting
| StateCooldown
| StateOther (n : Z).

Global Instance ConnectionState_eq_dec : EqDecision ConnectionState.
Proof. solve_decision. Defined.

Definition ConnectionState_String (s : ConnectionState) : string :=
  match s with
  | StateDisconnected => "Disconnected"
  | StateConnecting => "Connecting"
  | StateConnected => "Connected"
  | StateEstablished => "Established"
  | StateReconnecting => "Reconnecting"
  | StateCooldown => "Cooldown"
  | StateOther n => "Unknown(" +:+ pretty n +:+ ")"
  end.

Definition IsTerminal (s : ConnectionState) : bool :=
  bool_decide (s = StateDisconnected) || bool_decide (s = StateCooldown).

Definition IsActive (s : ConnectionState) : bool :=
  bool_decide (s = StateConnecting) || bool_decide (s = StateConnected)
  || bool_decide (s = StateEstablished).

(** The map literal of [CanTransitionTo]. *)
Definition validTransitions : list (ConnectionState * list ConnectionState) :=
  [ (StateDisconnected, [StateConnecting; StateReconnecting]);
    (StateConnecting, [StateConnected; StateDisconnected]);
    (StateConnected, [StateEstablished; StateDisconnected; StateCooldown]);
    (StateEstablished, [StateDisconnected]);
    (StateReconnecting, [StateConnecting; StateDisconnected]);
    (StateCooldown, [StateDisconnected; StateReconnecting]) ].

Fixpoint map_literal_lookup {V} (m : list (ConnectionState * V)) (k : ConnectionState) : option V :=
  match m with
  | [] => None
  | (k', v) :: m => if decide (k = k') then Some v else map_literal_lookup m k
  end.

Definition CanTransitionTo (s target : ConnectionState) : bool :=
  match map_literal_lookup validTransitions s with
  | None => false
  | Some allowed => existsb (λ t, bool_decide (t = target)) allowed
  end.

Definition ValidateTransition (s target : ConnectionState) : option error :=
  if negb (CanTransitionTo s target)
  then Some (Errorf "invalid state transition: %s -> %s" None)
  else None.

(** ** The public copy of the type ([events.go])

    Package [glueberry] re-declares the type; [node.go] converts with
    [ConnectionState(evt.State)], a conversion between two int types. *)
Module Public.
Inductive ConnectionState :=
| StateDisconnected | StateConnecting | StateConnected
| StateEstablished | StateReconnecting | StateCooldown | StateOther (n : Z).

Definition ConnectionState_String (s : ConnectionState) : string :=
  match s with
  | StateDisconnected => "Disconnected"
  | StateConnecting => "Connecting"
  | StateConnected => "Connected"
  | StateEstablished => "Established"
  | StateReconnecting => "Reconnecting"
  | StateCooldown => "Cooldown"
  | StateOther _ => "Unknown"
  end.

Definition to_int (s : ConnectionState) : Z :=
  match s with
  | StateDisconnected => 0 | StateConnecting => 1 | StateConnected => 2
  | StateEstablished => 3 | StateReconnecting => 4 | StateCooldown => 5
  | StateOther n => n
  end%Z.

Definition of_int (n : Z) : ConnectionState :=
  match n with
  | 0 => StateDisconnected | 1 => StateConnecting | 2 => StateConnected
  | 3 => StateEstablished | 4 => StateReconnecting | 5 => StateCooldown
  | _ => StateOther n
  end%Z.

(** [ConnectionEvent] of [events.go]. *)
Record ConnectionEvent := {
  PeerID : string; State : ConnectionState; Error : option error; Timestamp : time }.

Definition IsError (e : ConnectionEvent) : bool :=
  match Error e with Some _ => true | None => false end.
End Public.

(** The iota values of [state.go]. *)
Definition to_int (s : ConnectionState) : Z :=
  match s with
  | StateDisconnected => 0 | StateConnecting => 1 | StateConnected => 2
  | StateEstablished => 3 | StateReconnecting => 4 | StateCooldown => 5
  | StateOther n => n
  end%Z.

Definition to_public (s : ConnectionState) : Public.ConnectionState := Public.of_int (to_int s).

(** ** Lemmas *)

(** A state is a member of the six named ones. *)
Definition named (s : ConnectionState) : bool :=
  match s with StateOther _ => false | _ => true end.

(** The transition table as a relation. *)
Definition edge (s t : ConnectionState) : Prop := CanTransitionTo s t = true.

Global Instance edge_dec s t : Decision (edge s t).
Proof. unfold edge. apply _. Defined.

Lemma CanTransitionTo_other n t : CanTransitionTo (StateOther n) t = false.
Proof. reflexivity. Qed.

Lemma edge_to_Connected s : edge s StateConnected → s = StateConnecting.
Proof. unfold edge. by destruct s. Qed.

Lemma edge_to_Established s : edge s StateEstablished → s = StateConnected.
Proof. unfold edge. by destruct s. Qed.

Lemma edge_to_Cooldown s : edge s StateCooldown → s = StateConnected.
Proof. unfold edge. by destruct s. Qed.

Lemma edge_named_target s t : edge s t → named t = true.
Proof. unfold edge. by destruct s, t. Qed.

Lemma edge_irrefl s : ¬ edge s s.
Proof. unfold edge. by destruct s. Qed.

Lemma ValidateTransition_None s t : ValidateTransition s t = None ↔ edge s t.
Proof. unfold ValidateTransition, edge. by destruct (CanTransitionTo s t). Qed.

#[export] Hint Resolve edge_to_Connected edge_to_Established edge_to_Cooldown edge_irrefl : go.

(** A path of valid transitions. *)
Notation transitions := (rtc edge) (only parsing).
