(* ===== verification/Backoff.v ===== *)
(** * Reconnection backoff ([pkg/connection/reconnect.go]) *)

From S2P Require Import Prelude.
Local Open Scope Z_scope.
Local Open Scope go_scope.

(** [Cancel] cancels the reconnection goroutine's context; the manager's model
    (file [ConnManager]) keeps that context's state in [rs_cancelled]. *)
Record ReconnectState := {
  Attempts : Z;
  NextAttempt : time;
  CurrentDelay : duration;
  rs_cancelled : bool;
}.

Definition NewReconnectState : ReconnectState :=
  {| Attempts := 0; NextAttempt := GoTime.zero; CurrentDelay := 0; rs_cancelled := false |}.

Record BackoffCalculator := { BaseDelay : duration; MaxDelay : duration }.

Definition NewBackoffCalculator (baseDelay maxDelay : duration) : BackoffCalculator :=
  {| BaseDelay := baseDelay; MaxDelay := maxDelay |}.

(** The doubling loop [for i := 0; i < attempt; i++], [n] rounds left. *)
Fixpoint backoff_loop (bc : BackoffCalculator) (n : nat) (delay : duration) : duration :=
  match n with
  | O => delay
  | S n =>
      let delay := delay *₆₄ 2 in
      if MaxDelay bc <=? delay then MaxDelay bc else backoff_loop bc n delay
  end.

(** [jitter d] is [time.Duration(float64(d) * 0.1 * (2*rand.Float64() - 1))],
    the value drawn from the random source for the delay [d]. *)
Definition NextDelay (bc : BackoffCalculator) (jitter : duration → duration) (attempt : Z) : duration :=
  let attempt := if attempt <? 0 then 0 else attempt in
  let delay := backoff_loop bc (Z.to_nat attempt) (BaseDelay bc) in
  let delay := if MaxDelay bc <? delay then MaxDelay bc else delay in
  let delay := delay +₆₄ jitter delay in
  if delay <? 0 then BaseDelay bc else delay.

Definition ScheduleNext (bc : BackoffCalculator) (jitter : duration → duration) (now : time)
    (rs : ReconnectState) : ReconnectState :=
  let d := NextDelay bc jitter (Attempts rs) in
  {| Attempts := Attempts rs +₆₄ 1; NextAttempt := now + d; CurrentDelay := d;
     rs_cancelled := rs_cancelled rs |}.

Definition ShouldRetry (attempts maxAttempts : Z) : bool :=
  if maxAttempts =? 0 then true else attempts <? maxAttempts.

(** ** Specification *)

(** What the backoff should be before jitter. *)
Definition ideal_delay (bc : BackoffCalculator) (attempt : Z) : Z :=
  Z.min (BaseDelay bc * 2 ^ Z.max 0 attempt) (MaxDelay bc).

(** The random factor lies in [-1, 1), and the three roundings of the
    float64 computation lose less than one part in 2^50. *)
Definition jitter_ok (jitter : duration → duration) : Prop :=
  ∀ d, 0 <= d <= maxInt64 → 10 * Z.abs (jitter d) <= d + d / 2 ^ 50.

Definition sane (bc : BackoffCalculator) : Prop :=
  0 < BaseDelay bc <= MaxDelay bc ∧ MaxDelay bc < 2 ^ 62.

Lemma backoff_loop_closed bc n d :
  0 < d <= MaxDelay bc → MaxDelay bc < 2 ^ 62 →
  backoff_loop bc n d = Z.min (d * 2 ^ Z.of_nat n) (MaxDelay bc).
Proof.
  intros Hd Hmax. revert d Hd. induction n as [|n IH]; intros d Hd.
  { cbn [backoff_loop]. change (2 ^ Z.of_nat 0) with 1. lia. }
  cbn [backoff_loop]. rewrite wrap64_id.
  2: { unfold in_int64, minInt64, maxInt64. lia. }
  assert (2 ^ Z.of_nat (S n) = 2 * 2 ^ Z.of_nat n) as E.
  { rewrite Nat2Z.inj_succ, Z.pow_succ_r; lia. }
  pose proof (Z.pow_pos_nonneg 2 (Z.of_nat n) ltac:(lia) ltac:(lia)).
  destruct (MaxDelay bc <=? d * 2) eqn:Hc; go_bool.
  - rewrite E. nia.
  - rewrite IH by lia. rewrite E. f_equal. ring.
Qed.

Lemma NextDelay_ideal bc jitter attempt :
  sane bc →
  NextDelay bc jitter attempt =
    let d := ideal_delay bc attempt in
    let r := d +₆₄ jitter d in
    if r <? 0 then BaseDelay bc else r.
Proof.
  intros [Hb Hm]. unfold NextDelay, ideal_delay. cbv zeta.
  rewrite backoff_loop_closed by lia.
  assert (Z.of_nat (Z.to_nat (if attempt <? 0 then 0 else attempt)) = Z.max 0 attempt) as ->.
  { destruct (attempt <? 0) eqn:Ha; go_bool; lia. }
  set (d := Z.min _ _).
  destruct (MaxDelay bc <? d) eqn:Hc; [| done]. go_bool. unfold d in Hc. lia.
Qed.

Lemma jitter_bound jitter d : jitter_ok jitter → 0 <= d < 2 ^ 62 →
  10 * Z.abs (jitter d) <= d + d / 2 ^ 50 ∧ in_int64 (d + jitter d) ∧ 0 <= d + jitter d.
Proof.
  intros Hj Hd. unfold in_int64, minInt64, maxInt64.
  specialize (Hj d ltac:(unfold maxInt64; lia)).
  pose proof (Z.div_lt_upper_bound d (2 ^ 50) (2 ^ 62) ltac:(lia) ltac:(lia)).
  assert (d / 2 ^ 50 <= d) by (apply Z.div_le_upper_bound; lia).
  lia.
Qed.

Lemma ideal_delay_range bc attempt : sane bc → 0 < ideal_delay bc attempt < 2 ^ 62.
Proof.
  intros [??]. unfold ideal_delay.
  pose proof (Z.pow_pos_nonneg 2 (Z.max 0 attempt) ltac:(lia) ltac:(lia)). nia.
Qed.

(** ** Properties *)


(** The rounds of [reconnectionLoop]: [n] times [ScheduleNext]. *)
Fixpoint schedule_n (bc : BackoffCalculator) (jitter : duration → duration) (now : nat → time)
    (n : nat) (rs : ReconnectState) : ReconnectState :=
  match n with
  | O => rs
  | S n => schedule_n bc jitter (λ i, now (S i)) n (ScheduleNext bc jitter (now O) rs)
  end.

Lemma schedule_n_Attempts bc jitter now n rs :
  0 <= Attempts rs → Attempts rs + Z.of_nat n <= maxInt64 →
  Attempts (schedule_n bc jitter now n rs) = Attempts rs + Z.of_nat n.
Proof.
  revert now rs. induction n as [|n IH]; intros now rs H0 H1; cbn [schedule_n]; [lia |].
  rewrite IH; cbn [ScheduleNext Attempts]; rewrite ?wrap64_id;
    unfold in_int64, minInt64, maxInt64 in *; lia.
Qed.

(** A bounded reconnection stops: with [maxAttempts > 0] the loop's guard
    admits exactly [maxAttempts] rounds; with 0 it never stops. *)
Theorem ShouldRetry_bounded bc jitter now maxAttempts n :
  0 < maxAttempts <= maxInt64 → Z.of_nat n <= maxAttempts →
  ShouldRetry (Attempts (schedule_n bc jitter now n NewReconnectState)) maxAttempts
    = (Z.of_nat n <? maxAttempts)
  ∧ (∀ a, ShouldRetry a 0 = true).
Proof.
  intros Hm Hn. rewrite schedule_n_Attempts; cbn [NewReconnectState Attempts]; [| lia..].
  split; [| done]. unfold ShouldRetry.
  by destruct (maxAttempts =? 0) eqn:E; go_bool; [lia |].
Qed.

(** Nothing checks the doubling against overflow: with a [MaxDelay] above
    2^62 the product wraps, and the 55th retry of a one-second base is
    scheduled with no delay at all. *)
Theorem NextDelay_overflow :
  NextDelay (NewBackoffCalculator GoTime.Second maxInt64) (λ _, 0) 55 = 0
  ∧ ¬ (GoTime.Second <= NextDelay (NewBackoffCalculator GoTime.Second maxInt64) (λ _, 0) 55).
Proof. vm_compute. split; [done |]. intros H. by apply H. Qed.

(** *** Witnesses *)

Definition default_backoff : BackoffCalculator :=
  NewBackoffCalculator GoTime.Second (5 * GoTime.Minute).

Lemma default_backoff_sane : sane default_backoff.
Proof. unfold sane. vm_compute. repeat split; intros [=]. Qed.

Lemma no_jitter_ok : jitter_ok (λ _, 0).
Proof. intros d Hd. pose proof (Z.div_pos d (2 ^ 50)). lia. Qed.


Lemma ShouldRetry_bounded_witness :
  ShouldRetry (Attempts (schedule_n default_backoff (λ _, 0) (λ _, 0) 10 NewReconnectState)) 10 = false.
Proof.
  destruct (ShouldRetry_bounded default_backoff (λ _, 0) (λ _, 0) 10 10) as [E _];
    [unfold maxInt64; lia | lia | exact E].
Defined.
