(* ===== verification/Config.v ===== *)
(** * Node configuration ([config.go]) *)

From S2P Require Import Prelude Errors.
Local Open Scope Z_scope.

Definition DefaultHandshakeTimeout : duration := 30 * GoTime.Second.
Definition DefaultReconnectBaseDelay : duration := 1 * GoTime.Second.
Definition DefaultReconnectMaxDelay : duration := 5 * GoTime.Minute.
Definition DefaultReconnectMaxAttempts : Z := 10.
Definition DefaultFailedHandshakeCooldown : duration := 1 * GoTime.Minute.
Definition DefaultEventBufferSize : Z := 100.
Definition DefaultMessageBufferSize : Z := 1000.
Definition DefaultHighWatermark : Z := 1000.
Definition DefaultLowWatermark : Z := 100.
Definition DefaultMaxMessageSize : Z := Z.shiftl 1 20.
Definition DefaultConnMgrLowWatermark : Z := 100.
Definition DefaultConnMgrHighWatermark : Z := 400.
Definition DefaultMaxStreamNameLength : Z := 64.
Definition DefaultMaxMetadataSize : Z := 4096.

(** [crypto/ed25519]'s [PrivateKeySize]. *)
Definition ed25519_PrivateKeySize : Z := 64.

(** Interface-typed fields ([Logger], [Metrics]) and the callback are kept as
    the name of the value they hold, [None] being the nil interface. *)
Record Config := {
  PrivateKey : option (list Z);
  AddressBookPath : string;
  ListenAddrs : list string;
  HandshakeTimeout : duration;
  ReconnectBaseDelay : duration;
  ReconnectMaxDelay : duration;
  ReconnectMaxAttempts : Z;
  FailedHandshakeCooldown : duration;
  EventBufferSize : Z;
  MessageBufferSize : Z;
  Logger : option string;
  Metrics : option string;
  HighWatermark : Z;
  LowWatermark : Z;
  MaxMessageSize : Z;
  DisableBackpressure : bool;
  ConnMgrLowWatermark : Z;
  ConnMgrHighWatermark : Z;
  OnDecryptionError : option string;
  MaxStreamNameLength : Z;
  MaxMetadataSize : Z;
}.

Definition invalid (what : string) : option error :=
  Some (Errorf ("%w: " +:+ what) (Some ErrInvalidConfig)).

Definition Validate (c : Config) : option error :=
  match PrivateKey c with
  | None => Some ErrMissingPrivateKey
  | Some key =>
    if negb (Z.of_nat (length key) =? ed25519_PrivateKeySize)
    then Some (Errorf "%w: expected %d bytes, got %d" (Some ErrInvalidPrivateKey))
    else if bool_decide (AddressBookPath c = "") then Some ErrMissingAddressBookPath
    else if (length (ListenAddrs c) =? 0)%nat then Some ErrMissingListenAddrs
    else if HandshakeTimeout c <? 0 then invalid "handshake timeout cannot be negative"
    else if ReconnectBaseDelay c <? 0 then invalid "reconnect base delay cannot be negative"
    else if ReconnectMaxDelay c <? 0 then invalid "reconnect max delay cannot be negative"
    else if (0 <? ReconnectMaxDelay c) && (ReconnectMaxDelay c <? ReconnectBaseDelay c)
    then invalid "reconnect max delay cannot be less than base delay"
    else if ReconnectMaxAttempts c <? 0 then invalid "reconnect max attempts cannot be negative"
    else if FailedHandshakeCooldown c <? 0
    then invalid "failed handshake cooldown cannot be negative"
    else if EventBufferSize c <? 0 then invalid "event buffer size cannot be negative"
    else if MessageBufferSize c <? 0 then invalid "message buffer size cannot be negative"
    else if HighWatermark c <? 0 then invalid "high watermark cannot be negative"
    else if LowWatermark c <? 0 then invalid "low watermark cannot be negative"
    else if (0 <? LowWatermark c) && (0 <? HighWatermark c) && (HighWatermark c <=? LowWatermark c)
    then invalid "low watermark must be less than high watermark"
    else if MaxMessageSize c <? 0 then invalid "max message size cannot be negative"
    else if ConnMgrLowWatermark c <? 0
    then invalid "connection manager low watermark cannot be negative"
    else if ConnMgrHighWatermark c <? 0
    then invalid "connection manager high watermark cannot be negative"
    else if (0 <? ConnMgrLowWatermark c) && (0 <? ConnMgrHighWatermark c)
            && (ConnMgrHighWatermark c <=? ConnMgrLowWatermark c)
    then invalid "connection manager low watermark must be less than high watermark"
    else if MaxStreamNameLength c <? 0 then invalid "max stream name length cannot be negative"
    else if MaxMetadataSize c <? 0 then invalid "max metadata size cannot be negative"
    else None
  end.

(** [if c.F == 0 { c.F = d }] *)
Definition or_default (x d : Z) : Z := if x =? 0 then d else x.

(** The final adjustment of one watermark pair, [div] being 10 or 4.  Both
    operands are positive, so Go's truncated division is [Z.div]. *)
Definition adjust_low (low high div : Z) : Z :=
  if high <=? low
  then let low := Z.quot high div in if low <? 1 then 1 else low
  else low.

Definition applyDefaults (c : Config) : Config :=
  let high := or_default (HighWatermark c) DefaultHighWatermark in
  let low := or_default (LowWatermark c) DefaultLowWatermark in
  let cmLow := or_default (ConnMgrLowWatermark c) DefaultConnMgrLowWatermark in
  let cmHigh := or_default (ConnMgrHighWatermark c) DefaultConnMgrHighWatermark in
  {| PrivateKey := PrivateKey c;
     AddressBookPath := AddressBookPath c;
     ListenAddrs := ListenAddrs c;
     HandshakeTimeout := or_default (HandshakeTimeout c) DefaultHandshakeTimeout;
     ReconnectBaseDelay := or_default (ReconnectBaseDelay c) DefaultReconnectBaseDelay;
     ReconnectMaxDelay := or_default (ReconnectMaxDelay c) DefaultReconnectMaxDelay;
     ReconnectMaxAttempts := or_default (ReconnectMaxAttempts c) DefaultReconnectMaxAttempts;
     FailedHandshakeCooldown := or_default (FailedHandshakeCooldown c) DefaultFailedHandshakeCooldown;
     EventBufferSize := or_default (EventBufferSize c) DefaultEventBufferSize;
     MessageBufferSize := or_default (MessageBufferSize c) DefaultMessageBufferSize;
     Logger := match Logger c with None => Some "NopLogger" | l => l end;
     Metrics := match Metrics c with None => Some "NopMetrics" | m => m end;
     HighWatermark := high;
     LowWatermark := adjust_low low high 10;
     MaxMessageSize := or_default (MaxMessageSize c) DefaultMaxMessageSize;
     DisableBackpressure := DisableBackpressure c;
     ConnMgrLowWatermark := adjust_low cmLow cmHigh 4;
     ConnMgrHighWatermark := cmHigh;
     OnDecryptionError := OnDecryptionError c;
     MaxStreamNameLength := or_default (MaxStreamNameLength c) DefaultMaxStreamNameLength;
     MaxMetadataSize := or_default (MaxMetadataSize c) DefaultMaxMetadataSize |}.

(** ** Functional options *)

Inductive ConfigOption :=
| WithHandshakeTimeout (d : duration)
| WithReconnectBaseDelay (d : duration)
| WithReconnectMaxDelay (d : duration)
| WithReconnectMaxAttempts (n : Z)
| WithFailedHandshakeCooldown (d : duration)
| WithEventBufferSize (size : Z)
| WithMessageBufferSize (size : Z)
| WithLogger (l : option string)
| WithMetrics (m : option string)
| WithHighWatermark (n : Z)
| WithLowWatermark (n : Z)
| WithMaxMessageSize (n : Z)
| WithBackpressureDisabled
| WithConnMgrLowWatermark (n : Z)
| WithConnMgrHighWatermark (n : Z)
| WithDecryptionErrorCallback (cb : option string)
| WithMaxStreamNameLength (n : Z)
| WithMaxMetadataSize (n : Z).

(** What calling the closure of an option does to the configuration. *)
Definition apply_option (c : Config) (o : ConfigOption) : Config :=
  let '(Build_Config key path addrs ht rb rm ra fc eb mb lg mt hi lo ms db cl ch od sn md) := c in
  match o with
  | WithHandshakeTimeout d => Build_Config key path addrs d rb rm ra fc eb mb lg mt hi lo ms db cl ch od sn md
  | WithReconnectBaseDelay d => Build_Config key path addrs ht d rm ra fc eb mb lg mt hi lo ms db cl ch od sn md
  | WithReconnectMaxDelay d => Build_Config key path addrs ht rb d ra fc eb mb lg mt hi lo ms db cl ch od sn md
  | WithReconnectMaxAttempts n => Build_Config key path addrs ht rb rm n fc eb mb lg mt hi lo ms db cl ch od sn md
  | WithFailedHandshakeCooldown d => Build_Config key path addrs ht rb rm ra d eb mb lg mt hi lo ms db cl ch od sn md
  | WithEventBufferSize n => Build_Config key path addrs ht rb rm ra fc n mb lg mt hi lo ms db cl ch od sn md
  | WithMessageBufferSize n => Build_Config key path addrs ht rb rm ra fc eb n lg mt hi lo ms db cl ch od sn md
  | WithLogger l => Build_Config key path addrs ht rb rm ra fc eb mb l mt hi lo ms db cl ch od sn md
  | WithMetrics m => Build_Config key path addrs ht rb rm ra fc eb mb lg m hi lo ms db cl ch od sn md
  | WithHighWatermark n => Build_Config key path addrs ht rb rm ra fc eb mb lg mt n lo ms db cl ch od sn md
  | WithLowWatermark n => Build_Config key path addrs ht rb rm ra fc eb mb lg mt hi n ms db cl ch od sn md
  | WithMaxMessageSize n => Build_Config key path addrs ht rb rm ra fc eb mb lg mt hi lo n db cl ch od sn md
  | WithBackpressureDisabled => Build_Config key path addrs ht rb rm ra fc eb mb lg mt hi lo ms true cl ch od sn md
  | WithConnMgrLowWatermark n => Build_Config key path addrs ht rb rm ra fc eb mb lg mt hi lo ms db n ch od sn md
  | WithConnMgrHighWatermark n => Build_Config key path addrs ht rb rm ra fc eb mb lg mt hi lo ms db cl n od sn md
  | WithDecryptionErrorCallback cb => Build_Config key path addrs ht rb rm ra fc eb mb lg mt hi lo ms db cl ch cb sn md
  | WithMaxStreamNameLength n => Build_Config key path addrs ht rb rm ra fc eb mb lg mt hi lo ms db cl ch od n md
  | WithMaxMetadataSize n => Build_Config key path addrs ht rb rm ra fc eb mb lg mt hi lo ms db cl ch od sn n
  end.

(** The struct literal of [NewConfig]: every other field has its zero value. *)
Definition bare_config (privateKey : option (list Z)) (addressBookPath : string)
    (listenAddrs : list string) : Config :=
  Build_Config privateKey addressBookPath listenAddrs 0 0 0 0 0 0 0 None None 0 0 0 false 0 0 None 0 0.

Definition NewConfig (privateKey : option (list Z)) (addressBookPath : string)
    (listenAddrs : list string) (opts : list ConfigOption) : Config :=
  applyDefaults (foldl apply_option (bare_config privateKey addressBookPath listenAddrs) opts).

(** The first lines of [glueberry.New]: validate, then fill the defaults in. *)
Definition checked_config (c : Config) : result error Config :=
  match Validate c with
  | Some e => Err (Errorf "invalid configuration: %w" (Some e))
  | None => Ok (applyDefaults c)
  end.

(** ** Specification *)

(** The ranges a caller may use, 0 meaning the default. *)
Record valid_ranges (c : Config) : Prop := {
  vr_nonneg : Forall (λ z, 0 <= z)
    [HandshakeTimeout c; ReconnectBaseDelay c; ReconnectMaxDelay c; ReconnectMaxAttempts c;
     FailedHandshakeCooldown c; EventBufferSize c; MessageBufferSize c; HighWatermark c;
     LowWatermark c; MaxMessageSize c; ConnMgrLowWatermark c; ConnMgrHighWatermark c;
     MaxStreamNameLength c; MaxMetadataSize c];
  vr_delays : 0 < ReconnectMaxDelay c → ReconnectBaseDelay c <= ReconnectMaxDelay c;
  vr_water : 0 < LowWatermark c → 0 < HighWatermark c → LowWatermark c < HighWatermark c;
  vr_conn : 0 < ConnMgrLowWatermark c → 0 < ConnMgrHighWatermark c →
            ConnMgrLowWatermark c < ConnMgrHighWatermark c;
}.

Definition required_present (c : Config) : Prop :=
  (∃ key, PrivateKey c = Some key ∧ Z.of_nat (length key) = 64)
  ∧ AddressBookPath c ≠ "" ∧ ListenAddrs c ≠ [].

(** What the rest of the library relies on after [New]. *)
Record operational (c : Config) : Prop := {
  op_positive : Forall (λ z, 0 < z)
    [HandshakeTimeout c; ReconnectBaseDelay c; ReconnectMaxDelay c; ReconnectMaxAttempts c;
     FailedHandshakeCooldown c; EventBufferSize c; MessageBufferSize c; HighWatermark c;
     LowWatermark c; MaxMessageSize c; ConnMgrLowWatermark c; ConnMgrHighWatermark c;
     MaxStreamNameLength c; MaxMetadataSize c];
  op_logger : Logger c ≠ None;
  op_metrics : Metrics c ≠ None;
  op_water : HighWatermark c <> 1 → LowWatermark c < HighWatermark c;
  op_conn : ConnMgrHighWatermark c <> 1 → ConnMgrLowWatermark c < ConnMgrHighWatermark c;
}.

(** ** Lemmas *)

Lemma or_default_pos x d : 0 <= x → 0 < d → 0 < or_default x d.
Proof. unfold or_default. destruct (x =? 0) eqn:E; go_bool; lia. Qed.

Lemma or_default_ne0 x d : d <> 0 → or_default (or_default x d) d = or_default x d.
Proof. unfold or_default. intros Hd. destruct (x =? 0) eqn:E; [by destruct (d =? 0) | by rewrite E]. Qed.

Lemma adjust_low_pos low high div : 0 < low → 0 < adjust_low low high div.
Proof. unfold adjust_low. intros. cbv zeta. destruct (high <=? low); [destruct (_ <? 1) eqn:?; go_bool |]; lia. Qed.

Lemma adjust_low_lt low high div :
  0 < low → 1 < high → 1 < div → adjust_low low high div < high.
Proof.
  unfold adjust_low. intros Hl Hh Hd. cbv zeta.
  destruct (high <=? low) eqn:E; go_bool; [| lia].
  pose proof (Z.quot_lt high div ltac:(lia) ltac:(lia)).
  destruct (_ <? 1) eqn:E'; go_bool; lia.
Qed.

Lemma adjust_low_idem low high div :
  0 < low → 0 < high → 1 < div → adjust_low (adjust_low low high div) high div = adjust_low low high div.
Proof.
  intros Hl Hh Hd. destruct (decide (high = 1)) as [->|Hne].
  - assert (adjust_low low 1 div = 1) as ->.
    { unfold adjust_low. cbv zeta. destruct (1 <=? low) eqn:E; go_bool; [| lia].
      by rewrite Z.quot_small by lia. }
    unfold adjust_low. cbn. by rewrite Z.quot_small by lia.
  - pose proof (adjust_low_lt low high div ltac:(lia) ltac:(lia) ltac:(lia)).
    unfold adjust_low at 1. by destruct (high <=? adjust_low low high div) eqn:E; go_bool; [lia |].
Qed.

Lemma adjust_low_default_idem l dl h dh k :
  0 <= l → 0 < dl → 0 <= h → 0 < dh → 1 < k →
  adjust_low (or_default (adjust_low (or_default l dl) (or_default h dh) k) dl)
             (or_default (or_default h dh) dh) k
    = adjust_low (or_default l dl) (or_default h dh) k.
Proof.
  intros. rewrite (or_default_ne0 h) by lia.
  pose proof (or_default_pos l dl ltac:(lia) ltac:(lia)).
  pose proof (or_default_pos h dh ltac:(lia) ltac:(lia)).
  pose proof (adjust_low_pos (or_default l dl) (or_default h dh) k ltac:(done)) as Hp.
  set (x := adjust_low (or_default l dl) (or_default h dh) k) in *.
  replace (or_default x dl) with x.
  2: { unfold or_default at 1. destruct (x =? 0) eqn:?; go_bool; lia. }
  by apply adjust_low_idem.
Qed.

(** ** Properties *)

(** The checks [Validate] makes hold of the configurations it accepts. *)
Lemma Validate_sound c : Validate c = None → required_present c ∧ valid_ranges c.
Proof.
  intros H. destruct (PrivateKey c) as [key|] eqn:Ek.
  2: { unfold Validate in H. by rewrite Ek in H. }
  unfold Validate in H. rewrite Ek in H. unfold invalid in H.
  repeat match type of H with
  | context [if ?b then _ else _] => let E := fresh "E" in destruct b eqn:E; try discriminate
  end.
  go_bool. split.
  - split; [exists key; split; [done |]; unfold ed25519_PrivateKeySize in *; lia |].
    split; [by apply bool_decide_eq_false in E0 |].
    by destruct (ListenAddrs c).
  - split; [repeat constructor; lia | | |]; intros; repeat match goal with
    | H : _ ∨ _ |- _ => destruct H; go_bool end; lia.
Qed.

(** [Validate] accepts exactly the configurations with the required fields
    present and every number in its range. *)
Theorem Validate_spec c :
  Validate c = None ↔ required_present c ∧ valid_ranges c.
Proof.
  split; [apply Validate_sound |].
  - intros [((key & Ek & Hlen) & Hp & Ha) [Hn Hd Hw Hc]].
    repeat match goal with H : Forall _ (_ :: _) |- _ =>
      apply Forall_cons in H as [? H] end.
    unfold Validate. rewrite Ek. unfold ed25519_PrivateKeySize.
    rewrite (bool_decide_eq_false_2 _ Hp).
    destruct (ListenAddrs c) as [|a l]; [done |]. cbn [length Nat.eqb].
    repeat match goal with
    | |- context [if ?b then _ else _] => let E := fresh "E" in destruct b eqn:E; [exfalso; go_bool; lia |]
    end. done.
Qed.

(** Filling the defaults in is idempotent, so [NewConfig] followed by [New]
    applies them once. *)
Theorem applyDefaults_idempotent c :
  valid_ranges c → applyDefaults (applyDefaults c) = applyDefaults c.
Proof.
  intros [Hn _ _ _].
  repeat match goal with H : Forall _ (_ :: _) |- _ => apply Forall_cons in H as [? H] end.
  unfold applyDefaults; cbn -[or_default adjust_low]. f_equal.
  all: first [ by apply or_default_ne0 | by destruct (Logger c) | by destruct (Metrics c)
             | by apply adjust_low_default_idem ].
Qed.

(** A configuration [New] accepts is operational: every size, delay and
    watermark is positive and the low watermarks lie below the high ones. *)
Theorem checked_config_operational c c' : checked_config c = Ok c' → operational c'.
Proof.
  unfold checked_config. destruct (Validate c) eqn:Hv; [done |]. intros [= <-].
  apply Validate_sound in Hv as [_ [Hn _ _ _]].
  repeat match goal with H : Forall _ (_ :: _) |- _ => apply Forall_cons in H as [? H] end.
  split; cbn -[or_default adjust_low].
  - rewrite !Forall_cons, Forall_nil. split_and!; try apply adjust_low_pos; (done || by apply or_default_pos).
  - by destruct (Logger c).
  - by destruct (Metrics c).
  - intros. apply adjust_low_lt; [by apply or_default_pos | | lia].
    pose proof (or_default_pos (HighWatermark c) DefaultHighWatermark ltac:(done) ltac:(done)). lia.
  - intros. apply adjust_low_lt; [by apply or_default_pos | | lia].
    pose proof (or_default_pos (ConnMgrHighWatermark c) DefaultConnMgrHighWatermark ltac:(done) ltac:(done)). lia.
Qed.

(** The documentation of [ReconnectMaxAttempts] offers 0 for unlimited
    attempts, but 0 is also the unset value: no configuration that went
    through [applyDefaults] retries without limit. *)
Theorem no_unlimited_reconnects key path addrs opts :
  ReconnectMaxAttempts (NewConfig key path addrs opts) ≠ 0.
Proof.
  unfold NewConfig, applyDefaults; cbn -[or_default]. unfold or_default.
  destruct (_ =? 0) eqn:E; [done |]. by go_bool.
Qed.

(** A high watermark of 1 leaves the pair (1, 1) after the defaults: [New]
    accepts the bare configuration and rejects the one [NewConfig] builds. *)
Theorem high_watermark_one :
  let key := Some (replicate 64 0) in
  let c := apply_option (bare_config key "book.json" ["/ip4/0.0.0.0/tcp/9000"]) (WithHighWatermark 1) in
  is_ok (checked_config c) = true
  ∧ is_ok (checked_config (NewConfig key "book.json" ["/ip4/0.0.0.0/tcp/9000"] [WithHighWatermark 1])) = false.
Proof. vm_compute. done. Qed.

(** *** Witnesses *)

Definition sample_config : Config :=
  bare_config (Some (replicate 64 0)) "book.json" ["/ip4/0.0.0.0/tcp/9000"].

Lemma sample_ranges : valid_ranges sample_config.
Proof. split; cbn; [repeat constructor | | |]; cbn; lia. Qed.

Lemma applyDefaults_idempotent_witness :
  applyDefaults (applyDefaults sample_config) = applyDefaults sample_config.
Proof. exact (applyDefaults_idempotent sample_config sample_ranges). Defined.

Lemma checked_config_operational_witness :
  checked_config sample_config = Ok (applyDefaults sample_config)
  ∧ operational (applyDefaults sample_config).
Proof.
  split; [reflexivity |].
  exact (checked_config_operational sample_config (applyDefaults sample_config) eq_refl).
Defined.
