(* ===== verification/Validation.v ===== *)
(** * Input validation ([validation.go]) and protocol identifiers ([pkg/protocol/ids.go])

    [for i, r := range name] decodes UTF-8 the way the language defines it;
    [unicode.IsLetter] and [unicode.IsDigit] are exact up to U+00FF and a
    parameter ([Unicode]) above. *)

From Stdlib Require Import Ascii String.
From S2P Require Import Prelude Errors.
Local Open Scope Z_scope.

(** ** Strings as byte sequences *)

Definition bytes_of (s : string) : list Z :=
  map (λ c, Z.of_N (N_of_ascii c)) (list_ascii_of_string s).

Definition len (s : string) : Z := Z.of_nat (String.length s).

(** ** UTF-8 decoding

    [decode_rune l] is the rune at the front of [l] and the number of bytes it
    takes; an invalid sequence yields U+FFFD for one byte. *)

Definition RuneError : Z := 65533.

Definition cont_byte (lo hi b : Z) : bool := (lo <=? b) && (b <=? hi).

Definition low6 (b : Z) : Z := Z.land b 63.

Definition decode_rune (l : list Z) : Z * nat :=
  match l with
  | [] => (RuneError, 0%nat)
  | b0 :: rest =>
      if b0 <? 128 then (b0, 1%nat)
      else if (194 <=? b0) && (b0 <=? 223) then
        match rest with
        | b1 :: _ => if cont_byte 128 191 b1
                     then (Z.lor (Z.shiftl (Z.land b0 31) 6) (low6 b1), 2%nat)
                     else (RuneError, 1%nat)
        | _ => (RuneError, 1%nat)
        end
      else if (224 <=? b0) && (b0 <=? 239) then
        let lo := if b0 =? 224 then 160 else 128 in
        let hi := if b0 =? 237 then 159 else 191 in
        match rest with
        | b1 :: b2 :: _ => if cont_byte lo hi b1 && cont_byte 128 191 b2
            then (Z.lor (Z.lor (Z.shiftl (Z.land b0 15) 12) (Z.shiftl (low6 b1) 6)) (low6 b2), 3%nat)
            else (RuneError, 1%nat)
        | _ => (RuneError, 1%nat)
        end
      else if (240 <=? b0) && (b0 <=? 244) then
        let lo := if b0 =? 240 then 144 else 128 in
        let hi := if b0 =? 244 then 143 else 191 in
        match rest with
        | b1 :: b2 :: b3 :: _ =>
            if cont_byte lo hi b1 && cont_byte 128 191 b2 && cont_byte 128 191 b3
            then (Z.lor (Z.lor (Z.shiftl (Z.land b0 7) 18) (Z.shiftl (low6 b1) 12))
                        (Z.lor (Z.shiftl (low6 b2) 6) (low6 b3)), 4%nat)
            else (RuneError, 1%nat)
        | _ => (RuneError, 1%nat)
        end
      else (RuneError, 1%nat)
  end.

(** The runes a [range] loop visits; every round consumes at least one byte,
    so the length of the list is enough fuel. *)
Fixpoint runes_fuel (fuel : nat) (l : list Z) : list Z :=
  match fuel, l with
  | S fuel, _ :: _ => let '(r, n) := decode_rune l in r :: runes_fuel fuel (drop n l)
  | _, _ => []
  end.

Definition runes (s : string) : list Z := let l := bytes_of s in runes_fuel (length l) l.

(** ** Character classes *)

(** The Unicode tables above Latin-1. *)
Class Unicode := { ucd_letter : Z → bool; ucd_digit : Z → bool }.

(** U+FFFD is a symbol: neither a letter nor a digit. *)
Class UnicodeLaws `{Unicode} : Prop := {
  ucd_letter_RuneError : ucd_letter RuneError = false;
  ucd_digit_RuneError : ucd_digit RuneError = false;
}.

Section Validation.
Context `{Unicode}.

Definition IsLetter (r : Z) : bool :=
  if r <=? 255 then
    ((65 <=? r) && (r <=? 90)) || ((97 <=? r) && (r <=? 122))
    || (r =? 170) || (r =? 181) || (r =? 186)
    || ((192 <=? r) && (r <=? 214)) || ((216 <=? r) && (r <=? 246)) || (248 <=? r)
  else ucd_letter r.

Definition IsDigit (r : Z) : bool :=
  if r <=? 255 then (48 <=? r) && (r <=? 57) else ucd_digit r.

(** 45 is the hyphen and 95 the underscore. *)
Definition isValidStreamNameChar (r : Z) : bool :=
  IsLetter r || IsDigit r || (r =? 45) || (r =? 95).

Definition ValidateStreamName (name : string) (maxLength : Z) : option error :=
  if bool_decide (name = ""%string)
  then Some (Errorf "%w: stream name cannot be empty" (Some ErrInvalidStreamName))
  else if (0 <? maxLength) && (maxLength <? len name)
  then Some (Errorf "%w: %d characters exceeds maximum of %d" (Some ErrStreamNameTooLong))
  else if existsb (λ r, negb (isValidStreamNameChar r)) (runes name)
  then Some (Errorf "%w: invalid character %q at position %d (only alphanumeric, hyphen, and underscore allowed)"
               (Some ErrInvalidStreamName))
  else None.

Fixpoint first_invalid (names : list string) (maxLength : Z) : option error :=
  match names with
  | [] => None
  | name :: names =>
      match ValidateStreamName name maxLength with
      | Some e => Some e
      | None => first_invalid names maxLength
      end
  end.

Definition ValidateStreamNames (names : list string) (maxLength : Z) : option error :=
  if (length names =? 0)%nat then Some ErrNoStreamsRequested
  else first_invalid names maxLength.
End Validation.

(** The sum of the key and value lengths of a metadata map.  The bytes of a
    map that exists in memory number less than 2^63, so the sum is exact. *)
Definition metadata_size (m : gmap string string) : Z :=
  map_fold (λ k v acc, acc + (len k + len v)) 0 m.

Definition ValidateMetadataSize (metadata : option (gmap string string)) (maxSize : Z) : option error :=
  match metadata with
  | None => None
  | Some m =>
      if maxSize <=? 0 then None
      else if maxSize <? metadata_size m
      then Some (Errorf "%w: %d bytes exceeds maximum of %d bytes" (Some ErrMetadataTooLarge))
      else None
  end.

(** ** Protocol identifiers *)

Definition HandshakeProtocolID : string := "/glueberry/handshake/1.0.0".
Definition StreamProtocolPrefix : string := "/glueberry/stream/".
Definition StreamProtocolSuffix : string := "/1.0.0".
Definition StreamProtocolID (name : string) : string :=
  StreamProtocolPrefix +:+ name +:+ StreamProtocolSuffix.

(** ** Lemmas *)

Lemma bytes_of_app s t : bytes_of (s +:+ t) = bytes_of s ++ bytes_of t.
Proof. unfold bytes_of. induction s as [|c s IH]; simpl; [done | by f_equal]. Qed.

Lemma bytes_of_length s : length (bytes_of s) = String.length s.
Proof. unfold bytes_of. rewrite length_map. by induction s; simpl; f_equal. Qed.

Lemma bytes_of_nonneg s : Forall (λ b, 0 <= b) (bytes_of s).
Proof. unfold bytes_of. induction (list_ascii_of_string s); constructor; [lia | done]. Qed.

(** The bytes of an ASCII string are its runes. *)
Definition ascii_only (s : string) : Prop := Forall (λ b, b < 128) (bytes_of s).

Lemma runes_ascii s : ascii_only s → runes s = bytes_of s.
Proof.
  unfold ascii_only, runes. cbv zeta. generalize (bytes_of s) as l. induction l as [|b l IH]; intros Hl; [done |].
  apply Forall_cons in Hl as [Hb Hl]. cbn [runes_fuel length decode_rune].
  apply Z.ltb_lt in Hb. rewrite Hb. simpl. by rewrite drop_0, IH.
Qed.

Lemma string_app_inj_l (a s t : string) : a +:+ s = a +:+ t → s = t.
Proof. induction a as [|c a IH]; simpl; [done |]. intros [= H]. auto. Qed.

Lemma string_app_inj_r (a s t : string) : s +:+ a = t +:+ a → s = t.
Proof.
  intros H. apply (f_equal list_ascii_of_string) in H.
  assert (∀ u v, list_ascii_of_string (u +:+ v) = list_ascii_of_string u ++ list_ascii_of_string v)
    as Happ.
  { intros u v. induction u as [|c u IH]; [done |].
    change (list_ascii_of_string (String c (u +:+ v)) = c :: list_ascii_of_string u ++ list_ascii_of_string v).
    simpl. by rewrite IH. }
  rewrite !Happ in H. apply app_inv_tail in H.
  apply (f_equal string_of_list_ascii) in H. by rewrite !string_of_list_ascii_of_string in H.
Qed.

(** The characters the documentation allows: a-z, A-Z, 0-9, '-' and '_'. *)
Definition documented_char (b : Z) : Prop :=
  (97 <= b <= 122) ∨ (65 <= b <= 90) ∨ (48 <= b <= 57) ∨ b = 45 ∨ b = 95.

Section Properties.
Context `{Unicode}.

Lemma isValidStreamNameChar_ascii b :
  b < 128 → isValidStreamNameChar b = true ↔ documented_char b.
Proof.
  intros Hb. unfold isValidStreamNameChar, IsLetter, IsDigit, documented_char.
  assert (b <=? 255 = true) as -> by lia. lia.
Qed.

(** On ASCII names the validator accepts exactly what its documentation
    says: non-empty, within the limit, and made of the documented characters. *)
Theorem ValidateStreamName_ascii name maxLength :
  ascii_only name →
  ValidateStreamName name maxLength = None ↔
    name ≠ ""%string ∧ (0 < maxLength → len name <= maxLength)
    ∧ Forall documented_char (bytes_of name).
Proof.
  intros Ha. unfold ValidateStreamName. rewrite (runes_ascii name Ha).
  assert (existsb (λ r, negb (isValidStreamNameChar r)) (bytes_of name) = false
          ↔ Forall documented_char (bytes_of name)) as Hc.
  { unfold ascii_only in Ha. induction Ha as [|b l Hb Hl IH]; cbn [existsb]; [done |].
    rewrite orb_false_iff, negb_false_iff, IH, isValidStreamNameChar_ascii, Forall_cons by done. done. }
  rewrite <- Hc. destruct (bool_decide_reflect (name = ""%string)) as [|Hne]; [naive_solver |].
  destruct ((0 <? maxLength) && (maxLength <? len name)) eqn:E.
  - go_bool. split; [done | intros (_ & ? & _); lia].
  - destruct (existsb _ _); [naive_solver |].
    split; [| done]. intros _. split_and!; [done | | done]. intros. apply andb_false_iff in E as [E|E]; lia.
Qed.

(** Each rejection carries the sentinel of its cause: too long names
    [ErrStreamNameTooLong], everything else [ErrInvalidStreamName]. *)
Theorem ValidateStreamName_error name maxLength e :
  ValidateStreamName name maxLength = Some e →
  errors_Is e ErrStreamNameTooLong = ((0 <? maxLength) && (maxLength <? len name))
  ∧ errors_Is e ErrInvalidStreamName = negb ((0 <? maxLength) && (maxLength <? len name)).
Proof.
  unfold ValidateStreamName. destruct (bool_decide_reflect (name = ""%string)) as [->|Hne].
  - intros [= <-]. change (len ""%string) with 0.
    assert ((0 <? maxLength) && (maxLength <? 0) = false) as -> by lia. done.
  - destruct ((0 <? maxLength) && (maxLength <? len name)); [by intros [= <-] |].
    destruct (existsb _ _); [| done]. by intros [= <-].
Qed.

Lemma first_invalid_None names maxLength :
  first_invalid names maxLength = None ↔ Forall (λ n, ValidateStreamName n maxLength = None) names.
Proof.
  induction names as [|n names IH]; cbn [first_invalid]; [done |].
  rewrite Forall_cons. destruct (ValidateStreamName n maxLength); naive_solver.
Qed.
End Properties.

(** The documentation restricts names to a-z, A-Z, 0-9; the code asks the
    Unicode tables, so a name with a Latin-1 letter (here an e with an acute
    accent, bytes 195 169) passes. *)
Theorem ValidateStreamName_accepts_latin1 `{Unicode} :
  let name := string_of_list_ascii [ascii_of_nat 195; ascii_of_nat 169] in
  ValidateStreamName name 64 = None ∧ ¬ Forall documented_char (bytes_of name).
Proof.
  cbv zeta. split; [reflexivity |].
  unfold documented_char. vm_compute bytes_of. intros Hc. apply Forall_cons in Hc as [Hc _]. lia.
Qed.

(** Distinct stream names have distinct protocol identifiers, and none of
    them is the identifier [host.NewHandshakeStream] opens. *)
Theorem StreamProtocolID_inj a b :
  StreamProtocolID a = StreamProtocolID b → a = b.
Proof. intros Hs%string_app_inj_l. by apply string_app_inj_r in Hs. Qed.

Theorem StreamProtocolID_not_handshake name : StreamProtocolID name ≠ HandshakeProtocolID.
Proof. unfold StreamProtocolID, HandshakeProtocolID, StreamProtocolPrefix. simpl. intros [=]. Qed.

(** *** Witnesses *)

#[local] Instance ascii_ucd : Unicode := {| ucd_letter := λ _, false; ucd_digit := λ _, false |}.

Lemma ValidateStreamName_ascii_witness : ValidateStreamName "my-stream_1" 64 = None.
Proof.
  apply (ValidateStreamName_ascii "my-stream_1" 64).
  - unfold ascii_only. vm_compute bytes_of. repeat constructor.
  - split_and!; [discriminate | intros _; vm_compute; discriminate |].
    vm_compute bytes_of. repeat apply Forall_cons_2; unfold documented_char; lia || apply Forall_nil_2.
Defined.

Lemma ValidateStreamName_error_witness :
  errors_Is (Errorf "%w: stream name cannot be empty" (Some ErrInvalidStreamName)) ErrInvalidStreamName = true.
Proof.
  exact (proj2 (ValidateStreamName_error "" 64
    (Errorf "%w: stream name cannot be empty" (Some ErrInvalidStreamName)) eq_refl)).
Defined.

Lemma StreamProtocolID_inj_witness : "chat"%string = "chat"%string.
Proof. exact (StreamProtocolID_inj "chat" "chat" eq_refl). Defined.
