(* ===== verification/Version.v ===== *)
(** * Protocol versions ([version.go])

    [ParseVersion] is [fmt.Sscanf(s, "%d.%d.%d", ...)] on three [uint8]s; the
    scanner is the standard library's, restricted to what this format uses:
    skipping spaces, reading a run of decimal digits, the overflow check
    against 8 bits and the literal dots.  Input after the third number is
    not looked at. *)

From Stdlib Require Import Ascii String.
From S2P Require Import Prelude Errors Validation.
Local Open Scope Z_scope.

Definition ProtocolVersionMajor : Z := 1.
Definition ProtocolVersionMinor : Z := 2.
Definition ProtocolVersionPatch : Z := 9.

Record ProtocolVersion := { Major : Z; Minor : Z; Patch : Z }.

Global Instance ProtocolVersion_eq_dec : EqDecision ProtocolVersion.
Proof. solve_decision. Defined.

(** The fields are [uint8]. *)
Definition uint8 (z : Z) : Prop := 0 <= z < 256.
Definition version_ok (v : ProtocolVersion) : Prop := uint8 (Major v) ∧ uint8 (Minor v) ∧ uint8 (Patch v).

Definition CurrentVersion : ProtocolVersion :=
  {| Major := ProtocolVersionMajor; Minor := ProtocolVersionMinor; Patch := ProtocolVersionPatch |}.

Definition Version_String (v : ProtocolVersion) : string :=
  pretty (Major v) +:+ "." +:+ pretty (Minor v) +:+ "." +:+ pretty (Patch v).

Definition Compatible (v other : ProtocolVersion) : bool :=
  if negb (Major v =? Major other) then false
  else if Minor v <? Minor other then false
  else true.

Definition IsNewer (v other : ProtocolVersion) : bool :=
  if negb (Major v =? Major other) then Major other <? Major v
  else if negb (Minor v =? Minor other) then Minor other <? Minor v
  else Patch other <? Patch v.

Definition Version_Equal (v other : ProtocolVersion) : bool :=
  (Major v =? Major other) && (Minor v =? Minor other) && (Patch v =? Patch other).

(** ** [fmt.Sscanf] *)

Definition between (lo hi r : Z) : bool := (lo <=? r) && (r <=? hi).

(** [fmt]'s own table of spaces. *)
Definition isSpace (r : Z) : bool :=
  between 9 13 r || (r =? 32) || (r =? 133) || (r =? 160) || (r =? 5760)
  || between 8192 8202 r || between 8232 8233 r || (r =? 8239) || (r =? 8287) || (r =? 12288).

(** [SkipSpace] when newlines do not count as space: CR LF is skipped as a
    CR would be, then the bare newline is an error. *)
Fixpoint SkipSpace (l : list Z) : result error (list Z) :=
  match l with
  | [] => Ok []
  | r :: rest =>
      if (r =? 13) && match rest with 10 :: _ => true | _ => false end then SkipSpace rest
      else if r =? 10 then Err (Errorf "unexpected newline" None)
      else if isSpace r then SkipSpace rest
      else Ok l
  end.

Definition is_digit (r : Z) : bool := between 48 57 r.

(** The digits accepted by [scanNumber], and the rest. *)
Fixpoint span_digits (l : list Z) : list Z * list Z :=
  match l with
  | r :: rest => if is_digit r then let '(d, t) := span_digits rest in (r :: d, t) else ([], l)
  | [] => ([], [])
  end.

(** [strconv.ParseUint(tok, 10, _)] without its range check. *)
Definition digits_value (ds : list Z) : Z := foldl (λ acc d, acc * 10 + (d - 48)) 0 ds.

Definition scanUint8 (l : list Z) : result error (Z * list Z) :=
  match SkipSpace l with
  | Err e => Err e
  | Ok [] => Err (ErrSentinel "io.ErrUnexpectedEOF")
  | Ok l =>
      match span_digits l with
      | ([], _) => Err (Errorf "expected integer" None)
      | (ds, rest) =>
          let i := digits_value ds in
          if 255 <? i then Err (Errorf "unsigned integer overflow on token" None) else Ok (i, rest)
      end
  end.

(** The literal dot of the format. *)
Definition scan_dot (l : list Z) : result error (list Z) :=
  match l with
  | [] => Err (ErrSentinel "io.ErrUnexpectedEOF")
  | r :: rest => if r =? 46 then Ok rest else Err (Errorf "input does not match format" None)
  end.

(** The fields assigned before an error stay assigned. *)
Definition ParseVersion (s : string) : ProtocolVersion * option error :=
  let fail v e := (v, Some (Errorf "invalid version format %q: %w" (Some e))) in
  let v := Build_ProtocolVersion 0 0 0 in
  match scanUint8 (runes s) with
  | Err e => fail v e
  | Ok (major, l) =>
    let v := Build_ProtocolVersion major 0 0 in
    match scan_dot l with
    | Err e => fail v e
    | Ok l =>
      match scanUint8 l with
      | Err e => fail v e
      | Ok (minor, l) =>
        let v := Build_ProtocolVersion major minor 0 in
        match scan_dot l with
        | Err e => fail v e
        | Ok l =>
          match scanUint8 l with
          | Err e => fail v e
          | Ok (patch, _) => (Build_ProtocolVersion major minor patch, None)
          end
        end
      end
    end
  end.

(** ** Lemmas *)

(** The decimal rendering of a [uint8], checked value by value. *)
Definition renders (z : Z) : bool :=
  let ds := bytes_of (pretty z) in
  forallb is_digit ds && (digits_value ds =? z) && negb (bool_decide (ds = [])).

Lemma all_uint8_render : forallb (λ n, renders (Z.of_nat n)) (seq 0 256) = true.
Proof. vm_compute. reflexivity. Qed.

Lemma uint8_renders z : uint8 z → renders z = true.
Proof.
  intros Hz. pose proof all_uint8_render as H. rewrite forallb_forall in H.
  specialize (H (Z.to_nat z)). rewrite Z2Nat.id in H by (unfold uint8 in Hz; lia).
  apply H, in_seq. unfold uint8 in Hz. lia.
Qed.

Lemma span_digits_app ds rest :
  forallb is_digit ds = true → from_option (λ r, is_digit r = false) True (head rest) →
  span_digits (ds ++ rest) = (ds, rest).
Proof.
  intros Hds Hr. induction ds as [|d ds IH].
  - destruct rest as [|r rest]; [done |]. cbn in *. by rewrite Hr.
  - cbn in *. go_bool. rewrite H. by rewrite IH.
Qed.

Lemma digit_not_space l r rest : l = r :: rest → is_digit r = true → SkipSpace l = Ok l.
Proof.
  intros -> Hd. unfold is_digit, between in Hd. go_bool. cbn [SkipSpace].
  assert (r =? 13 = false) as -> by lia. assert (r =? 10 = false) as -> by lia. cbn [andb].
  assert (isSpace r = false) as ->; [| done]. unfold isSpace, between. lia.
Qed.

Lemma scanUint8_render z rest :
  uint8 z → from_option (λ r, is_digit r = false) True (head rest) →
  scanUint8 (bytes_of (pretty z) ++ rest) = Ok (z, rest).
Proof.
  intros Hz Hr. pose proof (uint8_renders z Hz) as Hren. unfold renders in Hren. cbv zeta in Hren. go_bool.
  unfold scanUint8. destruct (bytes_of (pretty z)) as [|d ds] eqn:E; [by case_bool_decide |].
  rewrite (digit_not_space _ d (ds ++ rest)) by (done || by cbn in *; go_bool).
  change ((d :: ds) ++ rest) with (d :: (ds ++ rest)) at 1. cbn [app].
  change (d :: ds ++ rest) with ((d :: ds) ++ rest). rewrite span_digits_app by done.
  rewrite H1. unfold uint8 in Hz. by assert (255 <? z = false) as -> by lia.
Qed.

Lemma render_ascii z : uint8 z → ascii_only (pretty z).
Proof.
  intros Hz. pose proof (uint8_renders z Hz) as Hren. unfold renders in Hren. cbv zeta in Hren. go_bool.
  unfold ascii_only. revert H. generalize (bytes_of (pretty z)) as l. induction l; cbn; [constructor |].
  intros. go_bool. constructor; [| auto]. unfold is_digit, between in *. go_bool. lia.
Qed.

(** ** Properties *)

(** Printing then parsing is the identity, for every version. *)
Theorem ParseVersion_String v : version_ok v → ParseVersion (Version_String v) = (v, None).
Proof.
  destruct v as [ma mi pa]. unfold version_ok; cbn [Major Minor Patch]. intros (H1 & H2 & H3).
  unfold ParseVersion, Version_String; cbn [Major Minor Patch].
  rewrite runes_ascii.
  2: { unfold ascii_only. rewrite !bytes_of_app, !Forall_app.
       split_and!; try (by apply render_ascii); vm_compute bytes_of; repeat constructor. }
  rewrite !bytes_of_app. change (bytes_of ".") with [46]. rewrite scanUint8_render by done.
  cbn [app scan_dot]. change (46 =? 46) with true. cbv iota. rewrite scanUint8_render by done.
  cbn [app scan_dot]. change (46 =? 46) with true. cbv iota.
  pose proof (scanUint8_render pa [] H3 I) as E. rewrite app_nil_r in E. by rewrite E.
Qed.

(** Whatever parses fits the three bytes of the struct. *)
Theorem ParseVersion_ok s v e : ParseVersion s = (v, e) → version_ok v.
Proof.
  assert (∀ l z t, scanUint8 l = Ok (z, t) → uint8 z) as Hs.
  { intros l z t. unfold scanUint8. destruct (SkipSpace l) as [|[|]]; try done.
    destruct (span_digits _) as [[|d ds] rest] eqn:Ed; [done |].
    assert (∀ l ds t, span_digits l = (ds, t) → forallb is_digit ds = true) as Hsp.
    { clear. induction l as [|r l IH]; cbn; intros ds t; [by intros [= <- <-] |].
      destruct (is_digit r) eqn:E; [| by intros [= <- <-]].
      destruct (span_digits l) as [d' t']. intros [= <- <-]. cbn. rewrite E. by eapply IH. }
    apply Hsp in Ed. destruct (255 <? digits_value (d :: ds)) eqn:Ev; [done |]. intros [= <- <-].
    go_bool. split; [| lia]. clear Ev.
    assert (∀ acc, 0 <= acc → 0 <= foldl (λ acc d, acc * 10 + (d - 48)) acc (d :: ds)) as Hf; [| by apply Hf].
    revert Ed. generalize (d :: ds) as l2. induction l2 as [|x l2 IH]; cbn; [done |].
    intros. go_bool. apply IH; [done |]. unfold is_digit, between in *. go_bool. lia. }
  unfold ParseVersion, version_ok. cbv zeta.
  destruct (scanUint8 (runes s)) as [|[ma l1]] eqn:E1; [by intros [= <- <-] |].
  apply Hs in E1. destruct (scan_dot l1); [by intros [= <- <-] |].
  destruct (scanUint8 l) as [|[mi l2]] eqn:E2; [by intros [= <- <-] |].
  apply Hs in E2. destruct (scan_dot l2); [by intros [= <- <-] |].
  destruct (scanUint8 l0) as [|[pa l3]] eqn:E3; intros [= <- <-]; [done |].
  by apply Hs in E3.
Qed.

(** [IsNewer] is the strict lexicographic order: irreflexive, transitive and
    total up to [Equal]. *)
Theorem IsNewer_strict_order a b c :
  IsNewer a a = false
  ∧ (IsNewer a b = true → IsNewer b c = true → IsNewer a c = true)
  ∧ (IsNewer a b = true ∧ IsNewer b a = false ∧ Version_Equal a b = false
     ∨ IsNewer a b = false ∧ IsNewer b a = true ∧ Version_Equal a b = false
     ∨ IsNewer a b = false ∧ IsNewer b a = false ∧ Version_Equal a b = true).
Proof.
  destruct a as [a1 a2 a3], b as [b1 b2 b3], c as [c1 c2 c3]; unfold IsNewer, Version_Equal;
    cbn [Major Minor Patch].
  repeat match goal with
  | |- context [?x =? ?y] => destruct (Z.eqb_spec x y); cbn [negb andb]
  | |- context [?x <? ?y] => destruct (Z.ltb_spec x y); cbn [negb andb]
  end; repeat split; try lia; try discriminate; intros; lia || naive_solver.
Qed.

(** Compatibility: reflexive, transitive, blind to the patch number, and
    mutual only between equal major.minor pairs. *)
Theorem Compatible_preorder a b c :
  Compatible a a = true
  ∧ (Compatible a b = true → Compatible b c = true → Compatible a c = true)
  ∧ (Compatible a b = true ∧ Compatible b a = true ↔ Major a = Major b ∧ Minor a = Minor b).
Proof.
  destruct a as [a1 a2 a3], b as [b1 b2 b3], c as [c1 c2 c3]; unfold Compatible; cbn [Major Minor Patch].
  repeat match goal with
  | |- context [?x =? ?y] => destruct (Z.eqb_spec x y); cbn [negb]
  | |- context [?x <? ?y] => destruct (Z.ltb_spec x y)
  end; repeat split; try lia; try discriminate; intros; lia || naive_solver lia.
Qed.

(** *** Witnesses *)

Lemma ParseVersion_String_witness : ParseVersion "1.2.9" = (CurrentVersion, None).
Proof. apply (ParseVersion_String CurrentVersion). repeat split; vm_compute; discriminate || done. Defined.

Lemma ParseVersion_ok_witness : version_ok (Build_ProtocolVersion 7 0 0).
Proof. exact (ParseVersion_ok "7.x" _ _ eq_refl). Defined.
