(* ===== verification/Json.v ===== *)
(** * JSON text

    What [encoding/json] writes and reads: strings, values, the indented form
    of [MarshalIndent] and the compact one, and the parser, on bytes.  A string
    is any sequence of bytes; what is not UTF-8 in it is written, and read, as
    U+FFFD. *)

From Stdlib Require Import Ascii String.
From stdpp Require Import sorting.
From S2P Require Import Prelude Validation.
Local Open Scope Z_scope.

Create HintDb json.

Definition string_of (l : list Z) : string := string_of_list_ascii (map (λ z, ascii_of_N (Z.to_N z)) l).
Definition is_byte (b : Z) : Prop := 0 <= b < 256.

Lemma string_of_bytes_of s : string_of (bytes_of s) = s.
Proof.
  unfold string_of, bytes_of. rewrite map_map. rewrite <- (string_of_list_ascii_of_string s) at 2. f_equal.
  rewrite <- (map_id (list_ascii_of_string s)) at 2. apply map_ext. intros c. by rewrite N2Z.id, ascii_N_embedding.
Qed.

Lemma bytes_of_string_of l : Forall is_byte l → bytes_of (string_of l) = l.
Proof.
  intros Hl. unfold string_of, bytes_of. rewrite list_ascii_of_string_of_list_ascii, map_map.
  rewrite <- (map_id l) at 2. apply map_ext_in. intros z Hz. rewrite List.Forall_forall in Hl. apply Hl in Hz.
  unfold is_byte in Hz. rewrite N_ascii_embedding by lia. lia.
Qed.

Lemma bytes_of_bytes s : Forall is_byte (bytes_of s).
Proof.
  unfold bytes_of. apply List.Forall_forall. intros z (c & <- & _)%in_map_iff. unfold is_byte.
  pose proof (N_ascii_bounded c). lia.
Qed.

Lemma bytes_of_inj s t : bytes_of s = bytes_of t → s = t.
Proof. intros E. by rewrite <- (string_of_bytes_of s), E, string_of_bytes_of. Qed.

(** ** UTF-8, a rune at a time

    [Some] the bytes of a rune, [None] for a byte that starts none. *)

Fixpoint chunks_fuel (fuel : nat) (l : list Z) : list (option (list Z)) :=
  match fuel, l with
  | S fuel, b :: _ =>
      let '(r, n) := decode_rune l in
      (if (r =? RuneError) && (n =? 1)%nat then None else Some (take n l)) :: chunks_fuel fuel (drop n l)
  | _, _ => []
  end.
Definition chunks (l : list Z) : list (option (list Z)) := chunks_fuel (length l) l.

(** U+FFFD. *)
Definition replacement : list Z := [239; 191; 189].

Definition valid_utf8 (l : list Z) : bool := forallb (λ c, match c with Some _ => true | None => false end) (chunks l).

(** What becomes of a string that is written and read. *)
Definition to_valid_bytes (l : list Z) : list Z := chunks l ≫= default replacement.
Definition to_valid (s : string) : string := string_of (to_valid_bytes (bytes_of s)).

(** A complete rune, wherever it stands. *)
Definition rune_bytes (b : list Z) : Prop :=
  b ≠ [] ∧ ∀ x, ∃ r, decode_rune (b ++ x) = (r, length b) ∧ ((r =? RuneError) && (length b =? 1)%nat) = false.

Lemma decode_rune_take b l r n :
  decode_rune (b :: l) = (r, n) → ((r =? RuneError) && (n =? 1)%nat) = false →
  rune_bytes (take n (b :: l)) ∧ (1 <= n <= length (b :: l))%nat.
Proof.
  unfold rune_bytes, decode_rune. intros Hd Hr.
  destruct (b <? 128) eqn:E1; [simplify_eq/=; split; [split; [done |]; intros x; rewrite E1; eauto | lia] |].
  destruct ((194 <=? b) && (b <=? 223)) eqn:E2.
  { destruct l as [|b1 l]; [by simplify_eq |]. destruct (cont_byte 128 191 b1) eqn:E3; [| by simplify_eq].
    simplify_eq/=. split; [split; [done |]; intros x; rewrite E1, E2, E3; eauto | lia]. }
  destruct ((224 <=? b) && (b <=? 239)) eqn:E4.
  { destruct l as [|b1 [|b2 l]]; [by simplify_eq.. |].
    destruct (cont_byte _ _ b1 && cont_byte 128 191 b2) eqn:E3; [| by simplify_eq].
    simplify_eq/=. split; [split; [done |]; intros x; rewrite E1, E2, E4, E3; eauto | lia]. }
  destruct ((240 <=? b) && (b <=? 244)) eqn:E5; [| by simplify_eq].
  destruct l as [|b1 [|b2 [|b3 l]]]; [by simplify_eq.. |].
  destruct (cont_byte _ _ b1 && cont_byte 128 191 b2 && cont_byte 128 191 b3) eqn:E3; [| by simplify_eq].
  simplify_eq/=. split; [split; [done |]; intros x; rewrite E1, E2, E4, E5, E3; eauto | lia].
Qed.

Lemma decode_rune_invalid l r n : decode_rune l = (r, n) → ((r =? RuneError) && (n =? 1)%nat) = true → n = 1%nat.
Proof. intros _ [_ Hn]%andb_true_iff. by apply Nat.eqb_eq. Qed.

Lemma replacement_rune : rune_bytes replacement.
Proof. split; [done |]. intros x. by exists 65533. Qed.

(** More fuel changes nothing. *)
Lemma chunks_fuel_more fuel l : (length l <= fuel)%nat → chunks_fuel fuel l = chunks l.
Proof.
  unfold chunks. remember (length l) as k eqn:Hk. revert fuel l Hk. induction k as [k IH] using lt_wf_ind.
  intros fuel [|b l] Hk Hf; [by subst; destruct fuel |]. destruct fuel as [|fuel]; [cbn in *; lia |]. subst k. cbn [length chunks_fuel].
  destruct (decode_rune (b :: l)) as [r n] eqn:Hd. f_equal.
  assert (1 <= n)%nat as Hn.
  { destruct ((r =? RuneError) && (n =? 1)%nat) eqn:E; [by rewrite (decode_rune_invalid _ _ _ Hd E) | destruct (decode_rune_take _ _ _ _ Hd E); lia]. }
  assert (length (drop n (b :: l)) <= length l)%nat by (rewrite length_drop; cbn; lia).
  cbn in Hf. rewrite (IH (length (drop n (b :: l)))); [| cbn; lia | done | lia].
  symmetry. apply (IH (length (drop n (b :: l)))); [cbn; lia | done | lia].
Qed.

Lemma chunks_rune b x : rune_bytes b → chunks (b ++ x) = Some b :: chunks x.
Proof.
  intros [Hb Hd]. destruct (Hd x) as (r & E & Hr). destruct b as [|b0 b]; [done |].
  unfold chunks at 1. cbn [app length chunks_fuel]. change (b0 :: b ++ x) with ((b0 :: b) ++ x). rewrite E, Hr.
  rewrite take_app_length, drop_app_length. f_equal. apply chunks_fuel_more. rewrite length_app. lia.
Qed.

Lemma chunks_cons b l :
  (∃ c y, rune_bytes c ∧ b :: l = c ++ y ∧ chunks (b :: l) = Some c :: chunks y) ∨ chunks (b :: l) = None :: chunks l.
Proof.
  destruct (decode_rune (b :: l)) as [r n] eqn:Hd. destruct ((r =? RuneError) && (n =? 1)%nat) eqn:E.
  - right. unfold chunks at 1. cbn [length chunks_fuel]. rewrite Hd, E. by rewrite (decode_rune_invalid _ _ _ Hd E).
  - left. destruct (decode_rune_take _ _ _ _ Hd E) as [Hc Hn]. exists (take n (b :: l)), (drop n (b :: l)).
    split; [done |]. rewrite take_drop. split; [done |]. rewrite <- (take_drop n (b :: l)) at 1. by apply chunks_rune.
Qed.

(** Induction over the runes of a string. *)
Lemma chunks_ind (P : list Z → Prop) :
  P [] → (∀ c y, rune_bytes c → chunks (c ++ y) = Some c :: chunks y → P y → P (c ++ y)) →
  (∀ b l, chunks (b :: l) = None :: chunks l → P l → P (b :: l)) → ∀ l, P l.
Proof.
  intros H0 H1 H2 l. remember (length l) as k eqn:Hk. revert l Hk. induction k as [k IH] using lt_wf_ind.
  intros [|b l] Hk; [done |]. destruct (chunks_cons b l) as [(c & y & Hc & E & Hch)|Hch].
  - rewrite E in *. apply H1; [done | done |]. apply (IH (length y)); [| done]. subst k. rewrite length_app.
    destruct Hc as [Hc _]. destruct c; [done | cbn; lia].
  - apply H2; [done |]. apply (IH (length l)); [subst; cbn; lia | done].
Qed.

Lemma to_valid_bytes_rune c y : rune_bytes c → to_valid_bytes (c ++ y) = c ++ to_valid_bytes y.
Proof. intros Hc. unfold to_valid_bytes. by rewrite chunks_rune. Qed.

Lemma to_valid_bytes_idem l : to_valid_bytes (to_valid_bytes l) = to_valid_bytes l.
Proof.
  induction l as [|c y Hc _ IH|b l E IH] using chunks_ind; [done | |].
  - by rewrite !to_valid_bytes_rune, IH by done.
  - unfold to_valid_bytes at 2 3. rewrite E. cbn [mbind list_bind default]. fold (to_valid_bytes l).
    rewrite to_valid_bytes_rune by apply replacement_rune. by rewrite IH.
Qed.

Lemma valid_to_valid_bytes l : valid_utf8 l = true → to_valid_bytes l = l.
Proof.
  unfold valid_utf8, to_valid_bytes. induction l as [|c y Hc E IH|b l E IH] using chunks_ind; [done | |]; rewrite E; cbn; [| done].
  intros Hv. by rewrite IH.
Qed.

(** ASCII is. *)
Lemma rune_ascii b : 0 <= b < 128 → rune_bytes [b].
Proof.
  intros Hb. split; [done |]. intros x. exists b. cbn [app]. unfold decode_rune.
  rewrite (proj2 (Z.ltb_lt b 128)) by lia. split; [done |]. unfold RuneError. lia.
Qed.

Lemma to_valid_ascii s : Forall (λ b, b < 128) (bytes_of s) → to_valid s = s.
Proof.
  intros Hs. unfold to_valid. rewrite <- (string_of_bytes_of s) at 2. f_equal. pose proof (bytes_of_bytes s) as Hb.
  induction Hs as [|b l Hl _ IH]; [done |]. apply Forall_cons in Hb as [[Hb _] Hbl].
  change (b :: l) with ([b] ++ l). rewrite to_valid_bytes_rune by (apply rune_ascii; lia). by rewrite IH.
Qed.

Lemma to_valid_bytes_bytes l : Forall is_byte l → Forall is_byte (to_valid_bytes l).
Proof.
  induction l as [|c y Hc _ IH|b l E IH] using chunks_ind; [done | |].
  - intros [Hbc Hby]%Forall_app. rewrite to_valid_bytes_rune by done. apply Forall_app. auto.
  - intros [_ Hbl]%Forall_cons. unfold to_valid_bytes. rewrite E. cbn. repeat (constructor; [unfold is_byte; lia |]). by apply IH.
Qed.

Lemma to_valid_idem s : to_valid (to_valid s) = to_valid s.
Proof.
  unfold to_valid. rewrite bytes_of_string_of by apply to_valid_bytes_bytes, bytes_of_bytes. by rewrite to_valid_bytes_idem.
Qed.

(** *** Maps with string keys

    Members are written in the order of their keys, and of several with one
    name the last one counts when they are read. *)

Definition key_le {A} (x y : string * A) : Prop := String.leb x.1 y.1 = true.
Global Instance key_le_dec {A} (x y : string * A) : Decision (key_le x y) := decide (String.leb x.1 y.1 = true).
Definition sorted_members {A} (m : gmap string A) : list (string * A) := merge_sort key_le (map_to_list m).
Definition read_members {A} (l : list (string * A)) : gmap string A := list_to_map (reverse l).

(** What is read of a map that was written, its values changed by [f]. *)
Definition written_map {A B} (f : A → B) (m : gmap string A) : gmap string B :=
  read_members ((λ x, (to_valid x.1, f x.2)) <$> sorted_members m).

Lemma sorted_members_perm {A} (m : gmap string A) : sorted_members m ≡ₚ map_to_list m.
Proof. apply merge_sort_Permutation. Qed.

Lemma read_members_fmap {A B} (f : A → B) (l : list (string * A)) :
  read_members ((λ x, (x.1, f x.2)) <$> l) = f <$> read_members l.
Proof.
  unfold read_members. rewrite <- fmap_reverse.
  change (list_to_map (prod_map id f <$> reverse l) =@{gmap string B} f <$> list_to_map (reverse l)). by rewrite list_to_map_fmap.
Qed.

Lemma read_sorted_members {A} (m : gmap string A) : read_members (sorted_members m) = m.
Proof.
  unfold read_members. assert (reverse (sorted_members m) ≡ₚ map_to_list m) as Hp
    by (by rewrite reverse_Permutation, sorted_members_perm).
  rewrite <- (list_to_map_to_list m) at 2. apply list_to_map_proper; [| done].
  rewrite Hp. apply NoDup_fst_map_to_list.
Qed.

Lemma elem_of_sorted_members {A} (m : gmap string A) k x : (k, x) ∈ sorted_members m ↔ m !! k = Some x.
Proof. by rewrite sorted_members_perm, elem_of_map_to_list. Qed.

Definition utf8_keys {A} (m : gmap string A) : Prop := map_Forall (λ k _, to_valid k = k) m.

Lemma written_map_utf8 {A B} (f : A → B) (m : gmap string A) : utf8_keys m → written_map f m = f <$> m.
Proof.
  intros Hm. unfold written_map.
  rewrite (list_fmap_ext _ (λ x, (x.1, f x.2))); [by rewrite read_members_fmap, read_sorted_members |].
  intros i [k x] Hx. apply list_elem_of_lookup_2, elem_of_sorted_members, Hm in Hx. exact (f_equal (λ k', (k', f x)) Hx).
Qed.

Lemma written_map_elem {A B} (f : A → B) (m : gmap string A) k y :
  written_map f m !! k = Some y → ∃ k' x, m !! k' = Some x ∧ k = to_valid k' ∧ y = f x.
Proof.
  unfold written_map, read_members. intros Hk%elem_of_list_to_map_2. rewrite elem_of_reverse in Hk.
  apply list_elem_of_fmap in Hk as ([k' x] & [= -> ->] & Hx%elem_of_sorted_members). eauto.
Qed.

Lemma written_map_keys {A B} (f : A → B) (m : gmap string A) : utf8_keys (written_map f m).
Proof. intros k y (k' & x & _ & -> & _)%written_map_elem. apply to_valid_idem. Qed.

Lemma written_map_empty {A B} (f : A → B) (m : gmap string A) : written_map f m = ∅ → m = ∅.
Proof.
  intros E. apply map_empty. intros k. destruct (m !! k) as [x|] eqn:Hk; [exfalso | done].
  apply elem_of_sorted_members in Hk. unfold written_map in E.
  assert ((to_valid k, f x) ∈ reverse ((λ x, (to_valid x.1, f x.2)) <$> sorted_members m)) as Hin.
  { apply elem_of_reverse, list_elem_of_fmap. by exists (k, x). }
  unfold read_members in E. revert Hin. destruct (reverse _) as [|[k' y] l]; [apply not_elem_of_nil |].
  cbn in E. by apply insert_non_empty in E.
Qed.

(** ** Strings *)

Definition hex_char (d : Z) : Z := if d <? 10 then 48 + d else 87 + d.

(** How a rune is written: the quote, the backslash, control characters, what
    is special in HTML and the two line separators are escaped. *)
Definition escape (b : list Z) : list Z :=
  match b with
  | [c] =>
      if (c =? 34) || (c =? 92) then [92; c]
      else if c =? 8 then [92; 98] else if c =? 12 then [92; 102] else if c =? 10 then [92; 110]
      else if c =? 13 then [92; 114] else if c =? 9 then [92; 116]
      else if (c <? 32) || (c =? 60) || (c =? 62) || (c =? 38) then [92; 117; 48; 48; hex_char (c / 16); hex_char (c mod 16)]
      else [c]
  | [226; 128; 168] => [92; 117; 50; 48; 50; 56]
  | [226; 128; 169] => [92; 117; 50; 48; 50; 57]
  | _ => b
  end.

Definition quote_body (l : list Z) : list Z :=
  chunks l ≫= λ c, match c with Some b => escape b | None => [92; 117; 102; 102; 102; 100] end.
Definition quote (l : list Z) : list Z := 34 :: quote_body l ++ [34].

(** Reading. *)
Definition hex_value (c : Z) : option Z :=
  if (48 <=? c) && (c <=? 57) then Some (c - 48)
  else if (97 <=? c) && (c <=? 102) then Some (c - 87)
  else if (65 <=? c) && (c <=? 70) then Some (c - 55)
  else None.

Definition getu4 (l : list Z) : option (Z * list Z) :=
  match l with
  | a :: b :: c :: d :: rest =>
      a ← hex_value a; b ← hex_value b; c ← hex_value c; d ← hex_value d;
      Some (4096 * a + 256 * b + 16 * c + d, rest)
  | _ => None
  end.

Definition is_surrogate (r : Z) : bool := (55296 <=? r) && (r <=? 57343).

Definition utf8_encode (r : Z) : list Z :=
  if r <? 128 then [r]
  else if r <? 2048 then [192 + r / 64; 128 + r mod 64]
  else if is_surrogate r || (1114111 <? r) then replacement
  else if r <? 65536 then [224 + r / 4096; 128 + r / 64 mod 64; 128 + r mod 64]
  else [240 + r / 262144; 128 + r / 4096 mod 64; 128 + r / 64 mod 64; 128 + r mod 64].

(** After a backslash: the bytes it stands for. *)
Definition unescape (l : list Z) : option (list Z * list Z) :=
  match l with
  | [] => None
  | c :: rest =>
      if (c =? 34) || (c =? 92) || (c =? 47) then Some ([c], rest)
      else if c =? 98 then Some ([8], rest) else if c =? 102 then Some ([12], rest) else if c =? 110 then Some ([10], rest)
      else if c =? 114 then Some ([13], rest) else if c =? 116 then Some ([9], rest)
      else if c =? 117 then
        match getu4 rest with
        | None => None
        | Some (r, rest) =>
            if is_surrogate r then
              match rest with
              | 92 :: 117 :: rest' =>
                  match getu4 rest' with
                  | Some (r1, rest'') =>
                      if (r <? 56320) && (56320 <=? r1) && (r1 <=? 57343)
                      then Some (utf8_encode (65536 + 1024 * (r - 55296) + (r1 - 56320)), rest'')
                      else Some (replacement, rest)
                  | None => Some (replacement, rest)
                  end
              | _ => Some (replacement, rest)
              end
            else Some (utf8_encode r, rest)
        end
      else None
  end.

(** After the opening quote: the string and what follows it. *)
Fixpoint parse_string (fuel : nat) (l : list Z) : option (list Z * list Z) :=
  match fuel, l with
  | S fuel, b :: rest =>
      if b =? 34 then Some ([], rest)
      else if b =? 92 then
        match unescape rest with
        | Some (s, rest) => '(s', rest) ← parse_string fuel rest; Some (s ++ s', rest)
        | None => None
        end
      else if b <? 32 then None
      else
        let '(r, n) := decode_rune l in
        '(s', rest) ← parse_string fuel (drop n l);
        Some ((if (r =? RuneError) && (n =? 1)%nat then replacement else take n l) ++ s', rest)
  | _, _ => None
  end.

Lemma rune_cases b :
  Forall is_byte b → rune_bytes b → (∃ c, b = [c] ∧ 0 <= c < 128) ∨ ∃ c d l, b = c :: d :: l ∧ 128 <= c.
Proof.
  intros Hb [Hne Hd]. destruct b as [|c b]; [done |]. apply Forall_cons in Hb as [Hc _]. unfold is_byte in Hc.
  destruct (Hd []) as (r & E & Hr). rewrite app_nil_r in E. destruct (c <? 128) eqn:Ec.
  - left. unfold decode_rune in E. rewrite Ec in E. simplify_eq/=. destruct b; [| done]. eexists; split; [done | lia].
  - right. destruct b as [|d l]; [| exists c, d, l; split; [done | lia]]. exfalso.
    unfold decode_rune in E. rewrite Ec in E. cbn in E. repeat case_match; simplify_eq; by vm_compute in Hr.
Qed.

(** One rune is read as it was written, with one unit of fuel. *)
Lemma parse_rune b fuel tail :
  Forall is_byte b → rune_bytes b →
  parse_string (S fuel) (escape b ++ tail) = ('(s, rest) ← parse_string fuel tail; Some (b ++ s, rest)).
Proof.
  intros Hb Hr. destruct (rune_cases b Hb Hr) as [(c & -> & Hc)|(c & d & l & -> & Hc)].
  - assert (c ∈ seqZ 0 128) as Hin by (apply elem_of_seqZ; lia). clear -Hin. vm_compute in Hin.
    repeat (apply elem_of_cons in Hin as [->|Hin]; [reflexivity |]). by apply elem_of_nil in Hin.
  - destruct (decide (c :: d :: l = [226; 128; 168])) as [->|N1]; [reflexivity |].
    destruct (decide (c :: d :: l = [226; 128; 169])) as [->|N2]; [reflexivity |].
    assert (escape (c :: d :: l) = c :: d :: l) as ->.
    { unfold escape. repeat case_match; subst; done. }
    destruct Hr as [_ Hd]. destruct (Hd tail) as (r & E & Hr).
    cbn [app parse_string]. change (c :: d :: l ++ tail) with ((c :: d :: l) ++ tail).
    rewrite (proj2 (Z.eqb_neq c 34)), (proj2 (Z.eqb_neq c 92)), (proj2 (Z.ltb_ge c 32)) by lia.
    rewrite E, Hr, take_app_length, drop_app_length. done.
Qed.

Lemma escape_nonempty b : b ≠ [] → escape b ≠ [].
Proof. unfold escape. repeat case_match; done. Qed.

(** What is read back of a string that was written: the string, with U+FFFD for
    what was not UTF-8. *)
Lemma parse_quote l rest fuel :
  Forall is_byte l → (length (quote_body l) < fuel)%nat →
  parse_string fuel (quote_body l ++ 34 :: rest) = Some (to_valid_bytes l, rest).
Proof.
  unfold quote_body, to_valid_bytes. revert fuel.
  induction l as [|c y Hc E IH|b l E IH] using chunks_ind; intros fuel Hb Hf.
  - destruct fuel; [lia | done].
  - apply Forall_app in Hb as [Hbc Hby]. rewrite E in *. cbn [mbind list_bind default] in *.
    rewrite length_app in Hf. destruct fuel as [|fuel]; [lia |].
    assert (0 < length (escape c))%nat.
    { destruct (escape c) eqn:Ee; [| cbn; lia]. by apply escape_nonempty in Ee; [| apply Hc]. }
    rewrite <- app_assoc, parse_rune by done. rewrite IH by (done || lia). done.
  - apply Forall_cons in Hb as [_ Hby]. rewrite E in *. cbn [mbind list_bind default] in *.
    destruct fuel as [|fuel]; [lia |].
    transitivity ('(s, rest) ← parse_string fuel (quote_body l ++ 34 :: rest); Some (replacement ++ s, rest)); [reflexivity |].
    unfold quote_body. cbn in Hf. rewrite IH by (done || lia). done.
Qed.

(** ** Numbers

    A literal is kept as it is written; an [int] is written in decimal. *)

Definition is_digit (c : Z) : bool := (48 <=? c) && (c <=? 57).
Definition number_char (c : Z) : bool := is_digit c || (c =? 45) || (c =? 43) || (c =? 46) || (c =? 101) || (c =? 69).

Fixpoint take_while (P : Z → bool) (l : list Z) : list Z * list Z :=
  match l with
  | c :: l' => if P c then let (a, b) := take_while P l' in (c :: a, b) else ([], l)
  | [] => ([], [])
  end.

(** A minus sign or none, an integer without leading zeros, a fraction and an
    exponent, either of which may be missing. *)
Definition digits1 (l : list Z) : option (list Z) :=
  match take_while is_digit l with ([], _) => None | (_, rest) => Some rest end.
Definition valid_exponent (l : list Z) : bool :=
  match l with
  | [] => true
  | c :: rest =>
      ((c =? 101) || (c =? 69))
      && let rest := match rest with s :: r => if (s =? 43) || (s =? 45) then r else rest | [] => rest end in
         match digits1 rest with Some [] => true | _ => false end
  end.
Definition valid_fraction (l : list Z) : bool :=
  match l with
  | 46 :: rest => match digits1 rest with Some rest => valid_exponent rest | None => false end
  | _ => valid_exponent l
  end.
Definition valid_number (l : list Z) : bool :=
  let l := match l with 45 :: rest => rest | _ => l end in
  match l with
  | 48 :: rest => valid_fraction rest
  | _ => match digits1 l with Some rest => valid_fraction rest | None => false end
  end.

(** The decimal digits of a number that is not negative; [fuel] is at least
    their number. *)
Fixpoint digits (fuel : nat) (n : Z) (acc : list Z) : list Z :=
  match fuel with
  | O => acc
  | S fuel => if n <? 10 then 48 + n :: acc else digits fuel (n / 10) (48 + n mod 10 :: acc)
  end.
(** An [int] has at most 19 digits. *)
Definition print_int (z : Z) : list Z := if z <? 0 then 45 :: digits 20 (- z) [] else digits 20 z [].

Definition digits_value (a : Z) (l : list Z) : Z := foldl (λ a d, 10 * a + (d - 48)) a l.
(** [strconv.ParseInt(s, 10, 64)] of a literal. *)
Definition parse_int (l : list Z) : option Z :=
  let '(neg, ds) := match l with 45 :: ds => (true, ds) | 43 :: ds => (false, ds) | _ => (false, l) end in
  if (0 <? length ds)%nat && forallb is_digit ds then
    let z := (if neg then -1 else 1) * digits_value 0 ds in
    if (minInt64 <=? z) && (z <=? maxInt64) then Some z else None
  else None.

Lemma digits_spec fuel n acc :
  0 <= n < 10 ^ Z.of_nat fuel →
  digits_value 0 (digits fuel n acc) = digits_value n acc ∧ (0 < fuel → length acc < length (digits fuel n acc))%nat
  ∧ (forallb is_digit acc = true → forallb is_digit (digits fuel n acc) = true)
  ∧ (10 <= n → ∃ d l, digits fuel n acc = d :: l ∧ 49 <= d <= 57).
Proof.
  revert n acc. induction fuel as [|fuel IH]; intros n acc Hn.
  - assert (n = 0) as -> by (cbn in Hn; lia). cbn [digits]. repeat split; [lia | done | lia].
  - cbn [digits]. destruct (n <? 10) eqn:E.
    + unfold digits_value. cbn [foldl]. replace (10 * 0 + (48 + n - 48)) with n by lia.
      repeat split; [cbn; lia | | lia]. intros Ha. cbn. unfold is_digit at 1. rewrite Ha. lia.
    + assert (0 <= n / 10 < 10 ^ Z.of_nat fuel) as Hq.
      { rewrite Nat2Z.inj_succ, Z.pow_succ_r in Hn by lia. split; [apply Z.div_pos; lia | apply Z.div_lt_upper_bound; lia]. }
      destruct (IH (n / 10) (48 + n mod 10 :: acc) Hq) as (E1 & E2 & E3 & E4). rewrite E1.
      pose proof (Z.div_mod n 10 ltac:(lia)) as Hdm. pose proof (Z.mod_pos_bound n 10 ltac:(lia)) as Hm.
      repeat split.
      * unfold digits_value. cbn [foldl]. f_equal. lia.
      * intros _. destruct fuel as [|fuel]; [cbn in Hq; lia |]. specialize (E2 ltac:(lia)). cbn in E2 |- *. lia.
      * intros Ha. apply E3. cbn. unfold is_digit at 1. rewrite Ha. lia.
      * intros _. destruct (decide (10 <= n / 10)) as [Hb|Hb]; [by apply E4 |].
        destruct fuel as [|fuel]; [cbn in Hq; lia |]. cbn [digits]. rewrite (proj2 (Z.ltb_lt _ _)) by lia.
        do 2 eexists. split; [done |]. lia.
Qed.

Lemma parse_print_int z : in_int64 z → parse_int (print_int z) = Some z.
Proof.
  unfold in_int64, parse_int, print_int, minInt64, maxInt64. intros Hz.
  assert (∀ n, 0 <= n < 10 ^ 20 → digits_value 0 (digits 20 n []) = n ∧ (0 <? length (digits 20 n []))%nat && forallb is_digit (digits 20 n []) = true
    ∧ ∃ d l, digits 20 n [] = d :: l ∧ 48 <= d <= 57) as Hd.
  { intros n Hn. destruct (digits_spec 20 n [] Hn) as (E1 & E2 & E3 & E4). specialize (E2 ltac:(lia)). cbn [length] in E2.
    split; [done |]. split; [rewrite E3 by done; apply andb_true_iff; split; [by apply Nat.ltb_lt | done] |].
    specialize (E3 eq_refl). destruct (digits 20 n []) as [|d l]; [cbn in E2; lia |]. exists d, l. split; [done |].
    cbn in E3. apply andb_true_iff in E3 as [E3 _]. unfold is_digit in E3. lia. }
  destruct (z <? 0) eqn:E.
  - destruct (Hd (- z) ltac:(lia)) as (E1 & E2 & _). rewrite E2, E1.
    rewrite (proj2 (Z.leb_le _ _)), (proj2 (Z.leb_le _ _)) by lia. cbn. f_equal. lia.
  - destruct (Hd z ltac:(lia)) as (E1 & E2 & d & l & E3 & Hr). rewrite E3 in *.
    assert ((match d :: l with 45 :: ds => (true, ds) | 43 :: ds => (false, ds) | _ => (false, d :: l) end) = (false, d :: l)) as ->.
    { repeat case_match; simplify_eq; try done; lia. }
    rewrite E2, E1. rewrite (proj2 (Z.leb_le _ _)), (proj2 (Z.leb_le _ _)) by lia. cbn. f_equal. lia.
Qed.

(** An integer of 64 bits, signed or not. *)
Definition in_64_bits (z : Z) : Prop := minInt64 <= z < 2 ^ 64.
Lemma print_number z : in_64_bits z → valid_number (print_int z) = true ∧ Forall (λ c, number_char c = true) (print_int z).
Proof.
  unfold in_64_bits, minInt64. intros Hz.
  assert (∀ P l, forallb P l = true → take_while P l = (l, [])) as Htw.
  { intros P l. induction l as [|c l IH]; cbn; [done |]. intros [-> Hl]%andb_true_iff. by rewrite IH. }
  assert (∀ n, 0 <= n < 10 ^ 20 → valid_number (digits 20 n []) = true ∧ (∃ d l, digits 20 n [] = d :: l ∧ d ≠ 45 ∧ (d = 48 → l = []))
    ∧ Forall (λ c, number_char c = true) (digits 20 n [])) as Hd.
  { intros n Hn. destruct (digits_spec 20 n [] Hn) as (E1 & E2 & E3 & E4). specialize (E2 ltac:(lia)). specialize (E3 eq_refl).
    assert (∃ d l, digits 20 n [] = d :: l ∧ d ≠ 45 ∧ (d = 48 → l = [])) as (d & l & E & Hd & H48).
    { destruct (decide (10 <= n)) as [Hb|Hb].
      - destruct (E4 Hb) as (d & l & E & Hr). exists d, l. split_and!; [done | lia | lia].
      - exists (48 + n), []. split_and!; [| lia | done]. change 20%nat with (S 19). cbn [digits]. by rewrite (proj2 (Z.ltb_lt _ _)) by lia. }
    split_and!; [| by exists d, l |].
    - rewrite E in *. unfold valid_number.
      assert (match d :: l with 45 :: rest => rest | _ => d :: l end = d :: l) as -> by (repeat case_match; simplify_eq; done).
      destruct (decide (d = 48)) as [->|N]; [by rewrite (H48 eq_refl) |].
      assert (digits1 (d :: l) = Some []) as Hd1 by (unfold digits1; by rewrite Htw).
      repeat case_match; simplify_eq; done.
    - apply List.Forall_forall. intros c Hc. rewrite forallb_forall in E3. unfold number_char. by rewrite (E3 c Hc). }
  unfold print_int. destruct (z <? 0) eqn:E.
  - destruct (Hd (- z) ltac:(lia)) as (H1 & (d & l & E1 & H2 & H3) & H4). split; [| by constructor].
    rewrite E1 in *. unfold valid_number in *. cbn [app] in *.
    assert (match d :: l with 45 :: rest => rest | _ => d :: l end = d :: l) as E2 by (repeat case_match; simplify_eq; done).
    by rewrite E2 in H1.
  - destruct (Hd z ltac:(lia)) as (H1 & _ & H4). by split.
Qed.

Lemma print_int_number z : in_int64 z → valid_number (print_int z) = true ∧ Forall (λ c, number_char c = true) (print_int z).
Proof. unfold in_int64, minInt64, maxInt64. intros Hz. apply print_number. unfold in_64_bits, minInt64. lia. Qed.

(** The digits of a number that is not negative. *)
Lemma print_digits z : 0 <= z < 2 ^ 64 → forallb is_digit (print_int z) = true ∧ digits_value 0 (print_int z) = z.
Proof.
  intros Hz. unfold print_int. rewrite (proj2 (Z.ltb_ge z 0)) by lia.
  destruct (digits_spec 20 z [] ltac:(lia)) as (E1 & _ & E2 & _). by auto.
Qed.

(** ** Values *)

Inductive json :=
| JNull
| JBool (b : bool)
| JNum (literal : list Z)
| JStr (s : list Z)
| JArr (l : list json)
| JObj (l : list (list Z * json)).

Section Induction.
Context (P : json → Prop) (Hnull : P JNull) (Hbool : ∀ b, P (JBool b)) (Hnum : ∀ l, P (JNum l)) (Hstr : ∀ s, P (JStr s))
  (Harr : ∀ l, Forall P l → P (JArr l)) (Hobj : ∀ l, Forall (λ x, P x.2) l → P (JObj l)).
Fixpoint json_values_ind (j : json) : P j :=
  match j with
  | JNull => Hnull
  | JBool b => Hbool b
  | JNum l => Hnum l
  | JStr s => Hstr s
  | JArr l => Harr l ((fix go l := match l return Forall P l with [] => List.Forall_nil _ | x :: l => List.Forall_cons _ _ _ (json_values_ind x) (go l) end) l)
  | JObj l => Hobj l ((fix go l := match l return Forall (λ x, P x.2) l with [] => List.Forall_nil _ | x :: l => List.Forall_cons _ _ _ (json_values_ind x.2) (go l) end) l)
  end.
End Induction.

(** *** Printing

    A layout is what stands at the start of a line at a given depth, and after
    the name of a member. *)

Record layout := { newline : nat → list Z; colon : list Z }.
(** [json.MarshalIndent(v, "", "  ")] and [json.Marshal(v)]. *)
Definition indented : layout := {| newline d := 10 :: replicate (2 * d) 32; colon := [58; 32] |}.
Definition compact : layout := {| newline _ := []; colon := [58] |}.

Fixpoint commas (l : list (list Z)) : list Z :=
  match l with
  | [] => []
  | x :: l => x ++ match l with [] => [] | _ => 44 :: commas l end
  end.

Definition surround (lay : layout) (d : nat) (o c : Z) (items : list (list Z)) : list Z :=
  match items with
  | [] => [o; c]
  | _ => o :: commas items ++ newline lay d ++ [c]
  end.

Fixpoint print (lay : layout) (d : nat) (j : json) : list Z :=
  match j with
  | JNull => [110; 117; 108; 108]
  | JBool true => [116; 114; 117; 101]
  | JBool false => [102; 97; 108; 115; 101]
  | JNum l => l
  | JStr s => quote s
  | JArr l => surround lay d 91 93 (map (λ x, newline lay (S d) ++ print lay (S d) x) l)
  | JObj l => surround lay d 123 125 (map (λ x, newline lay (S d) ++ quote x.1 ++ colon lay ++ print lay (S d) x.2) l)
  end.

(** What is read back: strings as they can be written. *)
Fixpoint sanitize (j : json) : json :=
  match j with
  | JStr s => JStr (to_valid_bytes s)
  | JArr l => JArr (map sanitize l)
  | JObj l => JObj (map (λ x, (to_valid_bytes x.1, sanitize x.2)) l)
  | _ => j
  end.

(** *** Reading *)

Definition is_space (c : Z) : bool := (c =? 32) || (c =? 9) || (c =? 10) || (c =? 13).
Fixpoint skip_space (l : list Z) : list Z :=
  match l with c :: l' => if is_space c then skip_space l' else l | [] => [] end.

Fixpoint strip (p l : list Z) : option (list Z) :=
  match p, l with
  | [], _ => Some l
  | a :: p, b :: l => if a =? b then strip p l else None
  | _, [] => None
  end.

(** A value at the front, elements up to the closing bracket, and members up to
    the closing brace. *)
Fixpoint parse_value (fuel : nat) (l : list Z) : option (json * list Z) :=
  match fuel with
  | O => None
  | S fuel =>
      match skip_space l with
      | 110 :: l => r ← strip [117; 108; 108] l; Some (JNull, r)
      | 116 :: l => r ← strip [114; 117; 101] l; Some (JBool true, r)
      | 102 :: l => r ← strip [97; 108; 115; 101] l; Some (JBool false, r)
      | 34 :: l => '(s, r) ← parse_string (S (length l)) l; Some (JStr s, r)
      | 91 :: l =>
          match skip_space l with
          | 93 :: r => Some (JArr [], r)
          | l => '(xs, r) ← parse_elements fuel l; Some (JArr xs, r)
          end
      | 123 :: l =>
          match skip_space l with
          | 125 :: r => Some (JObj [], r)
          | l => '(xs, r) ← parse_members fuel l; Some (JObj xs, r)
          end
      | l => let (n, r) := take_while number_char l in if valid_number n then Some (JNum n, r) else None
      end
  end
with parse_elements (fuel : nat) (l : list Z) : option (list json * list Z) :=
  match fuel with
  | O => None
  | S fuel =>
      '(x, r) ← parse_value fuel l;
      match skip_space r with
      | 44 :: r => '(xs, r) ← parse_elements fuel r; Some (x :: xs, r)
      | 93 :: r => Some ([x], r)
      | _ => None
      end
  end
with parse_members (fuel : nat) (l : list Z) : option (list (list Z * json) * list Z) :=
  match fuel with
  | O => None
  | S fuel =>
      match skip_space l with
      | 34 :: l =>
          '(k, r) ← parse_string (S (length l)) l;
          match skip_space r with
          | 58 :: r =>
              '(x, r) ← parse_value fuel r;
              match skip_space r with
              | 44 :: r => '(xs, r) ← parse_members fuel r; Some ((k, x) :: xs, r)
              | 125 :: r => Some ([(k, x)], r)
              | _ => None
              end
          | _ => None
          end
      | _ => None
      end
  end.

(** A whole text: one value, with space around it. *)
Definition parse (l : list Z) : option json :=
  '(j, r) ← parse_value (S (length l)) l;
  match skip_space r with [] => Some j | _ => None end.

(** *** What is read of what is printed *)

Fixpoint well_formed (j : json) : Prop :=
  match j with
  | JNum l => valid_number l = true ∧ Forall (λ c, number_char c = true) l
  | JStr s => Forall is_byte s
  | JArr l => fold_right (λ x acc, well_formed x ∧ acc) True l
  | JObj l => fold_right (λ x acc, (Forall is_byte x.1 ∧ well_formed x.2) ∧ acc) True l
  | _ => True
  end.

(** A layout adds space only. *)
Definition layout_ok (lay : layout) : Prop :=
  (∀ d, forallb is_space (newline lay d) = true) ∧ ∃ s, colon lay = 58 :: s ∧ forallb is_space s = true.

Lemma indented_ok : layout_ok indented.
Proof.
  split; [| by exists [32]]. intros d. cbn. by induction (d + (d + 0))%nat.
Qed.
Lemma compact_ok : layout_ok compact.
Proof. split; [done | by exists []]. Qed.

Lemma skip_space_app s l : forallb is_space s = true → skip_space (s ++ l) = skip_space l.
Proof. induction s as [|c s IH]; cbn; [done |]. intros [-> Hs]%andb_true_iff. by apply IH. Qed.

(** What follows a value: not a character of a number. *)
Definition number_ends (l : list Z) : Prop := match l with c :: _ => number_char c = false | [] => True end.

Lemma take_while_app P l r :
  Forall (λ c, P c = true) l → match r with c :: _ => P c = false | [] => True end → take_while P (l ++ r) = (l, r).
Proof.
  induction 1 as [|c l Hc Hl IH]; intros Hr; cbn; [destruct r as [|c r]; cbn; [done | by rewrite Hr] |].
  by rewrite Hc, IH.
Qed.

(** The first character of a value. *)
Lemma parse_number fuel l r :
  valid_number l = true → Forall (λ c, number_char c = true) l → number_ends r →
  parse_value (S fuel) (l ++ r) = Some (JNum l, r).
Proof.
  intros Hv Hl Hr. destruct l as [|c l]; [done |]. pose proof (Forall_inv Hl) as Hc. cbn beta in Hc.
  pose proof (take_while_app number_char (c :: l) r Hl Hr) as Ht.
  assert (skip_space ((c :: l) ++ r) = (c :: l) ++ r) as Hs.
  { cbn. destruct (is_space c) eqn:E; [| done]. exfalso. unfold is_space, number_char, is_digit in *. lia. }
  cbn [parse_value]. rewrite Hs.
  transitivity (let (n, r) := take_while number_char ((c :: l) ++ r) in if valid_number n then Some (JNum n, r) else None).
  - cbn [app]. assert (c ≠ 110 ∧ c ≠ 116 ∧ c ≠ 102 ∧ c ≠ 34 ∧ c ≠ 91 ∧ c ≠ 123) as (N1 & N2 & N3 & N4 & N5 & N6).
    { unfold number_char, is_digit in Hc. lia. }
    repeat (case_match; try lia); done.
  - by rewrite Ht, Hv.
Qed.

Lemma skip_space_idem l : skip_space (skip_space l) = skip_space l.
Proof. induction l as [|c l IH]; cbn; [done |]. destruct (is_space c) eqn:E; [done |]. cbn. by rewrite E. Qed.

Lemma parse_value_skip fuel l : parse_value fuel (skip_space l) = parse_value fuel l.
Proof. destruct fuel; [done |]. cbn. by rewrite skip_space_idem. Qed.
Lemma parse_elements_skip fuel l : parse_elements fuel (skip_space l) = parse_elements fuel l.
Proof. destruct fuel; [done |]. cbn. by rewrite parse_value_skip. Qed.
Lemma parse_members_skip fuel l : parse_members fuel (skip_space l) = parse_members fuel l.
Proof. destruct fuel; [done |]. cbn. by rewrite skip_space_idem. Qed.
Lemma parse_value_space fuel s l : forallb is_space s = true → parse_value fuel (s ++ l) = parse_value fuel l.
Proof. intros Hs. by rewrite <- parse_value_skip, skip_space_app, parse_value_skip. Qed.

Lemma space_ends s c r : forallb is_space s = true → number_char c = false → number_ends (s ++ c :: r).
Proof.
  intros Hs Hc. destruct s as [|c' s]; [done |]. cbn in *. apply andb_true_iff in Hs as [Hc' _].
  unfold is_space, number_char, is_digit in *. lia.
Qed.

Section RoundTrip.
Context (lay : layout) (Hlay : layout_ok lay).

(** A value starts with none of the closing characters. *)
Lemma print_head d j : well_formed j → ∃ c l, print lay d j = c :: l ∧ is_space c = false ∧ c ≠ 93 ∧ c ≠ 125.
Proof using Type.
  assert (∀ o c items, ∃ l, surround lay d o c items = o :: l) as Hs by (intros o c []; cbn; eauto).
  destruct j as [|[]|l|s|l|l]; cbn [print]; intros Hw; try (do 2 eexists; split; [reflexivity |]; by vm_compute).
  - destruct Hw as [Hv Hl]. destruct l as [|c l]; [done |]. exists c, l. split; [done |].
    apply Forall_inv in Hl. cbn beta in Hl. unfold number_char, is_digit, is_space in *. lia.
  - destruct (Hs 91 93 (map (λ x, newline lay (S d) ++ print lay (S d) x) l)) as [l' ->]. by exists 91, l'.
  - destruct (Hs 123 125 (map (λ x, newline lay (S d) ++ quote x.1 ++ colon lay ++ print lay (S d) x.2) l)) as [l' ->]. by exists 123, l'.
Qed.

Definition reads (j : json) : Prop := ∀ d rest fuel,
  well_formed j → number_ends rest → (length (print lay d j) <= fuel)%nat →
  parse_value fuel (print lay d j ++ rest) = Some (sanitize j, rest).

Notation item d x := (newline lay (S d) ++ print lay (S d) x) (only parsing).
Notation member d x := (newline lay (S d) ++ quote x.1 ++ colon lay ++ print lay (S d) x.2) (only parsing).

Lemma reads_elements l d rest fuel :
  Forall reads l → l ≠ [] → fold_right (λ x acc, well_formed x ∧ acc) True l →
  (length (commas (map (λ x, item d x) l)) < fuel)%nat →
  parse_elements fuel (commas (map (λ x, item d x) l) ++ newline lay d ++ 93 :: rest) = Some (map sanitize l, rest).
Proof using All.
  destruct Hlay as [Hnl _]. intros Hl. revert fuel. induction Hl as [|x l Hx Hl IH]; intros fuel Hne Hw Hf; [done |].
  destruct fuel as [|fuel]; [cbn in Hf; lia |]. destruct Hw as [Hwx Hwl]. cbn [map commas parse_elements] in *.
  rewrite !length_app in Hf. rewrite <- !app_assoc. rewrite parse_value_space by apply Hnl.
  destruct l as [|y l].
  - cbn [map] in *. rewrite app_nil_l. rewrite (Hx (S d)); [| done | by apply space_ends | cbn in Hf; lia]. cbn [mbind option_bind].
    rewrite skip_space_app by apply Hnl. done.
  - cbn [map] in *. set (more := commas _) in *. cbn [app] in *.
    rewrite (Hx (S d)); [| done | done | cbn in Hf; lia]. cbn [mbind option_bind].
    change (skip_space (44 :: ?t)) with (44 :: t). cbv iota beta.
    rewrite (IH fuel); [done | done | done |]. cbn [length] in Hf. lia.
Qed.

Lemma reads_members l d rest fuel :
  Forall (λ x, reads x.2) l → l ≠ [] → fold_right (λ x acc, (Forall is_byte x.1 ∧ well_formed x.2) ∧ acc) True l →
  (length (commas (map (λ x, member d x) l)) < fuel)%nat →
  parse_members fuel (commas (map (λ x, member d x) l) ++ newline lay d ++ 125 :: rest)
  = Some (map (λ x, (to_valid_bytes x.1, sanitize x.2)) l, rest).
Proof using All.
  destruct Hlay as [Hnl (sp & Hcol & Hsp)]. intros Hl. revert fuel.
  induction Hl as [|[k x] l Hx Hl IH]; intros fuel Hne Hw Hf; [done |].
  destruct fuel as [|fuel]; [cbn in Hf; lia |]. destruct Hw as [[Hwk Hwx] Hwl]. cbn [map commas parse_members fst snd] in *.
  set (more := match map _ l with [] => [] | _ => _ end) in *.
  rewrite !length_app in Hf. rewrite <- !app_assoc, skip_space_app by apply Hnl.
  unfold quote. cbn [app]. change (skip_space (34 :: ?t)) with (34 :: t). cbv iota beta.
  rewrite <- !app_assoc. cbn [app]. rewrite parse_quote; [| done | rewrite length_app; cbn; lia].
  cbn [mbind option_bind]. rewrite Hcol. cbn [app]. change (skip_space (58 :: ?t)) with (58 :: t). cbv iota beta.
  rewrite parse_value_space by done.
  assert (length (print lay (S d) x) <= fuel)%nat as Hfx by (rewrite Hcol in Hf; cbn in Hf; lia).
  destruct l as [|y l].
  - cbn [map] in more. subst more. rewrite app_nil_l. rewrite (Hx (S d)); [| done | by apply space_ends | done]. cbn [mbind option_bind].
    rewrite skip_space_app by apply Hnl. done.
  - change more with (44 :: commas (map (λ x, member d x) (y :: l))) in Hf |- *. clear more. cbn [app].
    rewrite (Hx (S d)); [| done | done | done]. cbn [mbind option_bind].
    change (skip_space (44 :: ?t)) with (44 :: t). cbv iota beta.
    rewrite (IH fuel); [done | done | done |]. cbn [length] in Hf. lia.
Qed.

Lemma reads_all j : reads j.
Proof using All.
  induction j as [|b|l|s|l Hl|l Hl] using json_values_ind; intros d rest fuel Hw Hr Hf.
  - destruct fuel; [cbn in Hf; lia | done].
  - destruct fuel; [destruct b; cbn in Hf; lia | by destruct b].
  - destruct Hw as [Hv Hn]. destruct fuel as [|fuel]; [destruct l; [done | cbn in Hf; lia] |]. by apply parse_number.
  - destruct fuel as [|fuel]; [cbn in Hf; lia |]. cbn [print]. unfold quote. cbn [app parse_value]. rewrite <- app_assoc. cbn [app].
    change (skip_space (34 :: ?t)) with (34 :: t). cbv iota beta. rewrite parse_quote; [done | done |]. rewrite length_app. cbn. lia.
  - cbn [print] in *. destruct fuel as [|fuel]; [destruct l; cbn in Hf; lia |].
    destruct l as [|x l]; [done |]. set (items := map _ (x :: l)) in *.
    assert (∃ i il, items = i :: il) as (i & il & Ei) by (unfold items; cbn; eauto).
    assert (surround lay d 91 93 items = 91 :: commas items ++ newline lay d ++ [93]) as Es by (by rewrite Ei).
    rewrite Es in *. cbn [app parse_value]. change (skip_space (91 :: ?t)) with (91 :: t). cbv iota beta.
    rewrite <- !app_assoc. cbn [app]. cbn [length] in Hf. rewrite !length_app in Hf. cbn [length] in Hf.
    assert (parse_elements fuel (skip_space (commas items ++ newline lay d ++ 93 :: rest)) = Some (map sanitize (x :: l), rest)) as Hp.
    { rewrite parse_elements_skip. apply reads_elements; [done | done | done |]. fold items. lia. }
    assert (∃ c t, skip_space (commas items ++ newline lay d ++ 93 :: rest) = c :: t ∧ c ≠ 93) as (c & t & Ec & Hc).
    { destruct (print_head (S d) x) as (c & t & Ep & Hsc & Hc & _); [by destruct Hw |]. unfold items. cbn [map commas].
      rewrite <- !app_assoc, skip_space_app by apply Hlay. rewrite Ep. cbn. rewrite Hsc. eauto. }
    rewrite Ec in *. repeat case_match; simplify_eq; try done; by rewrite Hp.
  - cbn [print] in *. destruct fuel as [|fuel]; [destruct l; cbn in Hf; lia |].
    destruct l as [|[k x] l]; [done |]. set (items := map _ ((k, x) :: l)) in *.
    assert (∃ i il, items = i :: il) as (i & il & Ei) by (unfold items; cbn; eauto).
    assert (surround lay d 123 125 items = 123 :: commas items ++ newline lay d ++ [125]) as Es by (by rewrite Ei).
    rewrite Es in *. cbn [app parse_value]. change (skip_space (123 :: ?t)) with (123 :: t). cbv iota beta.
    rewrite <- !app_assoc. cbn [app]. cbn [length] in Hf. rewrite !length_app in Hf. cbn [length] in Hf.
    assert (parse_members fuel (skip_space (commas items ++ newline lay d ++ 125 :: rest))
            = Some (map (λ x, (to_valid_bytes x.1, sanitize x.2)) ((k, x) :: l), rest)) as Hp.
    { rewrite parse_members_skip. apply reads_members; [done | done | done |]. fold items. lia. }
    assert (∃ t, skip_space (commas items ++ newline lay d ++ 125 :: rest) = 34 :: t) as (t & Ec).
    { unfold items. cbn [map commas fst snd]. rewrite <- !app_assoc, skip_space_app by apply Hlay. eexists. reflexivity. }
    rewrite Ec in *. by rewrite Hp.
Qed.

(** A text that was printed, at any depth and with either layout, reads back as
    the same value, up to what of its strings is not UTF-8; space may follow. *)
Lemma parse_print_space d j s : well_formed j → forallb is_space s = true → parse (print lay d j ++ s) = Some (sanitize j).
Proof using All.
  intros Hw Hs. unfold parse. rewrite reads_all; [| done | | rewrite length_app; lia].
  - cbn [mbind option_bind]. by rewrite <- (app_nil_r s), skip_space_app.
  - destruct s as [|c s]; [done |]. cbn in *. apply andb_true_iff in Hs as [Hc _].
    unfold is_space, number_char, is_digit in *. lia.
Qed.

Lemma parse_print d j : well_formed j → parse (print lay d j) = Some (sanitize j).
Proof using All. intros Hw. rewrite <- (app_nil_r (print lay d j)). by apply parse_print_space. Qed.
End RoundTrip.

(** ** Building values

    The values of Go strings, integers and maps, a member of an object, and a
    member that [omitempty] may drop. *)

Definition jstr (s : string) : json := JStr (bytes_of s).
Definition jint (z : Z) : json := JNum (print_int z).
Definition jmap {A} (f : A → json) (m : gmap string A) : json :=
  JObj ((λ x, (bytes_of x.1, f x.2)) <$> sorted_members m).
Definition field (k : string) (j : json) : list (list Z * json) := [(bytes_of k, j)].
Definition omit (empty : bool) (k : string) (j : json) : list (list Z * json) := if empty then [] else field k j.

Lemma jstr_well_formed s : well_formed (jstr s).
Proof. apply bytes_of_bytes. Qed.

Lemma jmap_well_formed {A} (f : A → json) (m : gmap string A) : (∀ x, well_formed (f x)) → well_formed (jmap f m).
Proof.
  intros Hf. unfold jmap. cbn [well_formed]. induction (sorted_members m) as [|x l IH]; cbn; [done |].
  split; [| done]. split; [apply bytes_of_bytes | apply Hf].
Qed.

Lemma jint_well_formed z : in_int64 z → well_formed (jint z).
Proof. apply print_int_number. Qed.

Lemma juint_well_formed z : 0 <= z < 2 ^ 64 → well_formed (jint z).
Proof. intros Hz. apply print_number. unfold in_64_bits, minInt64. lia. Qed.

Lemma jbool_well_formed b : well_formed (JBool b).
Proof. exact I. Qed.

Lemma array_well_formed {A} (f : A → json) (l : list A) : (∀ x, x ∈ l → well_formed (f x)) → well_formed (JArr (f <$> l)).
Proof.
  intros Hf. cbn [well_formed]. induction l as [|x l IH]; cbn; [done |]. split; [apply Hf; by left |].
  apply IH. intros y Hy. apply Hf. by right.
Qed.

(** An object is well formed when its members are. *)
Definition members_ok (l : list (list Z * json)) : Prop := well_formed (JObj l).
Lemma members_app l l' : members_ok l → members_ok l' → members_ok (l ++ l').
Proof. unfold members_ok. cbn [well_formed]. induction l as [|x l IH]; cbn; [done |]. intros [? ?] ?. split; auto. Qed.
Lemma field_ok k j : well_formed j → members_ok (field k j).
Proof. intros Hj. split; [split; [apply bytes_of_bytes | exact Hj] | exact I]. Qed.
Lemma omit_ok b k j : well_formed j → members_ok (omit b k j).
Proof. intros Hj. destruct b; [exact I | by apply field_ok]. Qed.
#[export] Hint Resolve members_app field_ok omit_ok jstr_well_formed jint_well_formed juint_well_formed jbool_well_formed : json.
