(* ===== verification/Rfc3339.v ===== *)
(** * Times as text ([time.Time] in JSON and in the debug dump)

    What the standard library writes for a [time.Time] ([Format] with
    [RFC3339Nano] and [RFC3339]) and reads back: the Gregorian calendar from
    nanoseconds since the zero [Time], 0001-01-01 00:00:00 UTC, and the text,
    as bytes.  The offset of the zone a time is shown in, in minutes, is an
    argument. *)

From S2P Require Import Prelude Validation Json.
Local Open Scope Z_scope.

(** ** Digits *)

(** [k] digits, with leading zeros. *)
Fixpoint pad (k : nat) (n : Z) : list Z :=
  match k with O => [] | S k => pad k (n / 10) ++ [48 + n mod 10] end.

(** Exactly [k] digits at the front. *)
Fixpoint number (k : nat) (a : Z) (l : list Z) : option (Z * list Z) :=
  match k, l with
  | O, _ => Some (a, l)
  | S k, c :: l => if is_digit c then number k (10 * a + (c - 48)) l else None
  | S _, [] => None
  end.

Lemma length_pad k n : length (pad k n) = k.
Proof. revert n. induction k as [|k IH]; intros n; cbn; [done |]. rewrite length_app, IH. cbn. lia. Qed.

Lemma pad_digits k n : forallb is_digit (pad k n) = true.
Proof.
  revert n. induction k as [|k IH]; intros n; cbn; [done |]. rewrite forallb_app, IH. cbn.
  unfold is_digit. pose proof (Z.mod_pos_bound n 10). lia.
Qed.

Lemma number_app l a r : forallb is_digit l = true → number (length l) a (l ++ r) = Some (digits_value a l, r).
Proof.
  revert a. induction l as [|c l IH]; intros a; cbn; [done |]. intros [-> Hl]%andb_true_iff. by rewrite IH.
Qed.

Lemma pad_value k a n : 0 <= n < 10 ^ Z.of_nat k → digits_value a (pad k n) = a * 10 ^ Z.of_nat k + n.
Proof.
  revert n. induction k as [|k IH]; intros n Hn; [cbn in *; lia |].
  cbn [pad]. unfold digits_value in *. rewrite foldl_app. cbn [foldl].
  rewrite Nat2Z.inj_succ, Z.pow_succ_r in * by lia. rewrite IH by (split; [apply Z.div_pos; lia | apply Z.div_lt_upper_bound; lia]).
  pose proof (Z.div_mod n 10). lia.
Qed.

Lemma number_pad k n r : 0 <= n < 10 ^ Z.of_nat k → number k 0 (pad k n ++ r) = Some (n, r).
Proof.
  intros Hn. pose proof (number_app (pad k n) 0 r (pad_digits k n)) as E. rewrite length_pad, pad_value in E by done.
  rewrite E. f_equal.
Qed.

(** ** The calendar *)

Definition isLeap (y : Z) : bool := (y mod 4 =? 0) && (negb (y mod 100 =? 0) || (y mod 400 =? 0)).

(** Days from 0001-01-01 to the first day of a year. *)
Definition days_before_year (y : Z) : Z :=
  let n := y - 1 in 365 * n + n / 4 - n / 100 + n / 400.

(** The year of a day, and the day of the year, from 0. *)
Definition year_of_day (d : Z) : Z * Z :=
  let a := d / 146097 in let d := d mod 146097 in
  let b := Z.min 3 (d / 36524) in let d := d - b * 36524 in
  let c := d / 1461 in let d := d mod 1461 in
  let e := Z.min 3 (d / 365) in let d := d - e * 365 in
  (400 * a + 100 * b + 4 * c + e + 1, d).

Definition month_lengths (leap : bool) : list Z := [31; if leap then 29 else 28; 31; 30; 31; 30; 31; 31; 30; 31; 30; 31].

(** The month, from 1, and the day of it, from 1. *)
Fixpoint month_of_day (m : Z) (lengths : list Z) (d : Z) : Z * Z :=
  match lengths with
  | n :: rest => if d <? n then (m, d + 1) else month_of_day (m + 1) rest (d - n)
  | [] => (m, d + 1)
  end.

Definition days_before_month (leap : bool) (m : Z) : Z := foldr Z.add 0 (take (Z.to_nat (m - 1)) (month_lengths leap)).
Definition days_in_month (leap : bool) (m : Z) : Z := default 0 (month_lengths leap !! Z.to_nat (m - 1)).

Definition days_in_year (leap : bool) : Z := if leap then 366 else 365.

Lemma year_of_day_spec d :
  let (y, yd) := year_of_day d in days_before_year y + yd = d ∧ 0 <= yd < days_in_year (isLeap y).
Proof.
  unfold year_of_day, days_before_year, days_in_year, isLeap.
  set (a := d / 146097). set (d1 := d mod 146097). set (b := Z.min 3 (d1 / 36524)). set (d2 := d1 - b * 36524).
  set (c := d2 / 1461). set (d3 := d2 mod 1461). set (e := Z.min 3 (d3 / 365)).
  assert (d = 146097 * a + d1 ∧ 0 <= d1 < 146097) as [Ha Hd1].
  { subst a d1. split; [apply Z.div_mod; lia | apply Z.mod_pos_bound; lia]. }
  assert (d1 = b * 36524 + d2 ∧ 0 <= b <= 3 ∧ 0 <= d2 ∧ (b < 3 → d2 < 36524) ∧ d2 <= 36524) as (Hb12 & Hb & Hd2 & Hd2' & Hd2'').
  { subst b d2. clearbody a d1. pose proof (Z.div_mod d1 36524 ltac:(lia)). pose proof (Z.mod_pos_bound d1 36524 ltac:(lia)). lia. }
  assert (d2 = 1461 * c + d3 ∧ 0 <= d3 < 1461 ∧ 0 <= c <= 24 ∧ (d3 = 1460 → b < 3 → c < 24)) as (Hc & Hd3 & Hc' & Hcb).
  { subst c d3. clearbody d2 b. pose proof (Z.div_mod d2 1461 ltac:(lia)). pose proof (Z.mod_pos_bound d2 1461 ltac:(lia)). lia. }
  assert (0 <= e <= 3 ∧ 0 <= d3 - e * 365 <= 365 ∧ (d3 - e * 365 = 365 → e = 3 ∧ d3 = 1460)) as (He & Hd4 & Hd4').
  { subst e. clearbody d3. pose proof (Z.div_mod d3 365 ltac:(lia)). pose proof (Z.mod_pos_bound d3 365 ltac:(lia)). lia. }
  clearbody a b c e d1 d2 d3.
  set (n := 400 * a + 100 * b + 4 * c + e).
  replace (n + 1 - 1) with n by lia.
  assert (n / 4 = 100 * a + 25 * b + c) as -> by (symmetry; apply (Z.div_unique _ _ _ e); lia).
  assert (n / 100 = 4 * a + b) as -> by (symmetry; apply (Z.div_unique _ _ _ (4 * c + e)); lia).
  assert (n / 400 = a) as -> by (symmetry; apply (Z.div_unique _ _ _ (100 * b + 4 * c + e)); lia).
  split; [lia |].
  assert (d3 - e * 365 = 365 → ((n + 1) mod 4 =? 0) && (negb ((n + 1) mod 100 =? 0) || ((n + 1) mod 400 =? 0)) = true) as Hl.
  { intros E. destruct (Hd4' E) as [-> E3].
    assert ((n + 1) mod 4 = 0) as -> by (symmetry; apply (Z.mod_unique _ _ (100 * a + 25 * b + c + 1)); lia).
    destruct (decide (c = 24)) as [->|N].
    - assert (b = 3) as -> by lia. assert ((n + 1) mod 400 = 0) as -> by (symmetry; apply (Z.mod_unique _ _ (a + 1)); lia).
      by rewrite orb_true_r.
    - assert ((n + 1) mod 100 = 4 * c + 4) as -> by (symmetry; apply (Z.mod_unique _ _ (4 * a + b)); lia). lia. }
  destruct (_ && _); lia.
Qed.

(** Every day of a year is in its month. *)
Definition month_check (leap : bool) (d : Z) : bool :=
  let (m, md) := month_of_day 1 (month_lengths leap) d in
  (1 <=? m) && (m <=? 12) && (1 <=? md) && (md <=? days_in_month leap m) && (days_before_month leap m + (md - 1) =? d).

Lemma month_of_day_spec leap d :
  0 <= d < days_in_year leap →
  let (m, md) := month_of_day 1 (month_lengths leap) d in
  1 <= m <= 12 ∧ 1 <= md <= days_in_month leap m ∧ days_before_month leap m + (md - 1) = d.
Proof.
  intros Hd. assert (forallb (month_check leap) (seqZ 0 (days_in_year leap)) = true) as Hall by (by destruct leap; vm_compute).
  rewrite forallb_forall in Hall. specialize (Hall d). rewrite <- list_elem_of_In, elem_of_seqZ in Hall.
  specialize (Hall ltac:(lia)). unfold month_check in Hall. destruct (month_of_day _ _ _) as [m md]. lia.
Qed.

Lemma days_in_month_bound leap m : days_in_month leap m <= 31.
Proof.
  unfold days_in_month. destruct (month_lengths leap !! _) as [n|] eqn:E; [| cbn; lia].
  assert (Forall (λ n, n <= 31) (month_lengths leap)) as Hl by (destruct leap; repeat constructor; lia).
  rewrite Forall_forall in Hl. apply Hl. by apply list_elem_of_lookup_2 in E.
Qed.

(** ** Formatting *)

Definition day_ns : Z := 86400 * GoTime.Second.
Definition minute_ns : Z := GoTime.Minute.

(** Trailing zeros go. *)
Fixpoint drop_zeros (l : list Z) : list Z :=
  match l with
  | [] => []
  | c :: l => match drop_zeros l with [] => if c =? 48 then [] else [c] | l => c :: l end
  end.

(** The date and the time of day of an instant that is shown in the zone. *)
Definition format_seconds (local : Z) : list Z :=
  let (y, yd) := year_of_day (local / day_ns) in
  let (m, d) := month_of_day 1 (month_lengths (isLeap y)) yd in
  let s := local mod day_ns / GoTime.Second in
  pad 4 y ++ [45] ++ pad 2 m ++ [45] ++ pad 2 d ++ [84]
  ++ pad 2 (s / 3600) ++ [58] ++ pad 2 (s / 60 mod 60) ++ [58] ++ pad 2 (s mod 60).

Definition format_fraction (local : Z) : list Z :=
  match drop_zeros (pad 9 (local mod GoTime.Second)) with [] => [] | ds => 46 :: ds end.

Definition format_zone (off : Z) : list Z :=
  if off =? 0 then [90]
  else (if off <? 0 then 45 else 43) :: pad 2 (Z.abs off / 60) ++ [58] ++ pad 2 (Z.abs off mod 60).

Definition local_time (off : Z) (t : time) : Z := t + off * minute_ns.

Definition RFC3339 (off : Z) (t : time) : list Z := format_seconds (local_time off t) ++ format_zone off.
Definition RFC3339Nano (off : Z) (t : time) : list Z :=
  format_seconds (local_time off t) ++ format_fraction (local_time off t) ++ format_zone off.

(** What [MarshalJSON] refuses: a year of more than four digits, or an offset
    of a day or more. *)
Definition json_range (off : Z) (t : time) : bool :=
  let y := (year_of_day (local_time off t / day_ns)).1 in
  (0 <=? y) && (y <=? 9999) && (Z.abs off <? 24 * 60).

(** ** Reading *)

Definition lit (c : Z) (l : list Z) : option (list Z) :=
  match l with c' :: l => if c' =? c then Some l else None | [] => None end.

(** A number of [k] digits between two bounds. *)
Definition ranged (k : nat) (lo hi : Z) (l : list Z) : option (Z * list Z) :=
  '(n, l) ← number k 0 l; if (lo <=? n) && (n <=? hi) then Some (n, l) else None.

(** The first nine digits of a fraction count. *)
Definition parse_fraction (l : list Z) : Z * list Z :=
  match l with
  | 46 :: rest =>
      match take_while is_digit rest with
      | ([], _) => (0, l)
      | (ds, rest) => let ds := take 9 ds in (digits_value 0 ds * 10 ^ (9 - Z.of_nat (length ds)), rest)
      end
  | _ => (0, l)
  end.

Definition parse_zone (l : list Z) : option Z :=
  match l with
  | s :: l =>
      if s =? 90 then match l with [] => Some 0 | _ => None end
      else if (s =? 43) || (s =? 45) then
        '(h, l) ← ranged 2 0 23 l; l ← lit 58 l; '(m, l) ← ranged 2 0 59 l;
        match l with [] => Some ((if s =? 45 then -1 else 1) * (h * 60 + m)) | _ => None end
      else None
  | [] => None
  end.

Definition date_time (y m d h mi s ns : Z) : Z :=
  (days_before_year y + days_before_month (isLeap y) m + (d - 1)) * day_ns
  + (h * 3600 + mi * 60 + s) * GoTime.Second + ns.

Definition parse_rfc3339 (l : list Z) : option time :=
  '(y, l) ← ranged 4 0 9999 l; l ← lit 45 l;
  '(m, l) ← ranged 2 1 12 l; l ← lit 45 l;
  '(d, l) ← ranged 2 1 (days_in_month (isLeap y) m) l; l ← lit 84 l;
  '(h, l) ← ranged 2 0 23 l; l ← lit 58 l;
  '(mi, l) ← ranged 2 0 59 l; l ← lit 58 l;
  '(s, l) ← ranged 2 0 59 l;
  let (ns, l) := parse_fraction l in
  off ← parse_zone l;
  Some (date_time y m d h mi s ns - off * minute_ns).

(** ** Reading what was written *)

Lemma ranged_pad k lo hi n r :
  0 <= lo → hi < 10 ^ Z.of_nat k → lo <= n <= hi → ranged k lo hi (pad k n ++ r) = Some (n, r).
Proof.
  intros H1 H2 H3. unfold ranged. rewrite number_pad by lia. cbn.
  by rewrite (proj2 (Z.leb_le _ _)), (proj2 (Z.leb_le _ _)) by lia.
Qed.

(** Dropping zeros from the end divides by ten as often as one is dropped. *)
Lemma drop_zeros_spec l : ∃ k, l = drop_zeros l ++ replicate k 48.
Proof.
  induction l as [|c l [k IH]]; [by exists O |]. cbn [drop_zeros]. destruct (drop_zeros l) as [|c' l'].
  - destruct (c =? 48) eqn:E; [| exists k; by rewrite IH at 1]. exists (S k). rewrite IH at 1. cbn. f_equal. lia.
  - exists k. by rewrite IH at 1.
Qed.

Lemma digits_value_zeros k a : digits_value a (replicate k 48) = a * 10 ^ Z.of_nat k.
Proof.
  revert a. induction k as [|k IH]; intros a; cbn [replicate digits_value foldl]; [cbn; lia |].
  fold (digits_value (10 * a + (48 - 48)) (replicate k 48)). rewrite IH, Nat2Z.inj_succ, Z.pow_succ_r by lia. lia.
Qed.

Lemma digits_value_app a l l' : digits_value a (l ++ l') = digits_value (digits_value a l) l'.
Proof. unfold digits_value. by rewrite foldl_app. Qed.

(** Not a character of a fraction. *)
Definition fraction_ends (l : list Z) : Prop := match l with c :: _ => is_digit c = false ∧ c ≠ 46 | [] => True end.

Lemma parse_format_fraction local r :
  fraction_ends r → parse_fraction (format_fraction local ++ r) = (local mod GoTime.Second, r).
Proof.
  intros Hr. set (ns := local mod GoTime.Second).
  assert (0 <= ns < 10 ^ Z.of_nat 9) as Hns by (apply Z.mod_pos_bound; done).
  pose proof (pad_value 9 0 ns Hns) as Hv. pose proof (pad_digits 9 ns) as Hd. pose proof (length_pad 9 ns) as Hlen.
  unfold format_fraction. fold ns. destruct (drop_zeros_spec (pad 9 ns)) as [k Ek].
  rewrite Ek, digits_value_app, digits_value_zeros in Hv. rewrite Ek, forallb_app in Hd. apply andb_true_iff in Hd as [Hd _].
  rewrite Ek, length_app, length_replicate in Hlen.
  destruct (drop_zeros (pad 9 ns)) as [|c l] eqn:E.
  - cbn [app] in *. cbn [digits_value foldl] in Hv. assert (ns = 0) as -> by lia. unfold parse_fraction.
    destruct r as [|c r]; [done |]. destruct Hr as [_ Hr]. repeat case_match; simplify_eq; done.
  - set (ds := c :: l) in *. cbn [app parse_fraction].
    assert (∀ P, take_while P (ds ++ r) = (ds, r) → (match take_while P (ds ++ r) with ([], _) => (0, 46 :: ds ++ r)
      | (ds, rest) => let ds := take 9 ds in (digits_value 0 ds * 10 ^ (9 - Z.of_nat (length ds)), rest) end)
      = (digits_value 0 (take 9 ds) * 10 ^ (9 - Z.of_nat (length (take 9 ds))), r)) as Hm by (intros P ->; done).
    rewrite Hm.
    + rewrite take_ge by lia. f_equal. replace (9 - Z.of_nat (length ds)) with (Z.of_nat k) by lia. lia.
    + apply take_while_app; [| by destruct r as [|? ?]; [| destruct Hr]].
      apply List.Forall_forall. by apply forallb_forall.
Qed.

Lemma parse_format_zone off : Z.abs off < 24 * 60 → parse_zone (format_zone off) = Some off.
Proof.
  intros Ho. unfold format_zone. destruct (off =? 0) eqn:E; [by apply Z.eqb_eq in E as -> |].
  pose proof (Z.div_mod (Z.abs off) 60 ltac:(lia)). pose proof (Z.mod_pos_bound (Z.abs off) 60 ltac:(lia)).
  assert (∀ s, (s =? 43) || (s =? 45) = true → parse_zone (s :: pad 2 (Z.abs off / 60) ++ [58] ++ pad 2 (Z.abs off mod 60))
               = Some ((if s =? 45 then -1 else 1) * (Z.abs off / 60 * 60 + Z.abs off mod 60))) as Hz.
  { intros s Hs. unfold parse_zone. rewrite (proj2 (Z.eqb_neq s 90)), Hs by lia.
    rewrite <- (app_nil_r (pad 2 (Z.abs off mod 60))).
    rewrite ranged_pad by (done || lia). cbn [mbind option_bind lit app Z.eqb Pos.eqb]. by rewrite ranged_pad by (done || lia). }
  destruct (off <? 0) eqn:En; rewrite Hz by done; f_equal; replace (_ + Z.abs off mod 60) with (Z.abs off) by lia; [change (45 =? 45) with true | change (43 =? 45) with false]; cbv iota; lia.
Qed.

Lemma format_zone_ends off : fraction_ends (format_zone off).
Proof. unfold format_zone. by repeat case_match. Qed.

(** Months and days of months have two digits, hours, minutes and seconds are
    in their ranges. *)
Lemma time_of_day_bounds local :
  let s := local mod day_ns / GoTime.Second in
  0 <= s / 3600 <= 23 ∧ 0 <= s / 60 mod 60 <= 59 ∧ 0 <= s mod 60 <= 59
  ∧ s / 3600 * 3600 + s / 60 mod 60 * 60 + s mod 60 = s
  ∧ local = local / day_ns * day_ns + s * GoTime.Second + local mod GoTime.Second.
Proof.
  cbv zeta. set (sod := local mod day_ns). set (s := sod / GoTime.Second).
  assert (day_ns = 86400 * GoTime.Second) as Ed by done. assert (0 < GoTime.Second) as Hp by done.
  assert (0 <= sod < day_ns) as Hsod by (apply Z.mod_pos_bound; done).
  assert (local = day_ns * (local / day_ns) + sod) as El by (apply Z.div_mod; done).
  assert (local mod GoTime.Second = sod mod GoTime.Second) as ->.
  { rewrite El at 1. rewrite Ed. replace (86400 * GoTime.Second * _ + sod) with (sod + 86400 * (local / (86400 * GoTime.Second)) * GoTime.Second) by ring.
    by rewrite Z.mod_add. }
  assert (sod = GoTime.Second * s + sod mod GoTime.Second ∧ 0 <= sod mod GoTime.Second < GoTime.Second) as [Es Hm]
    by (split; [apply Z.div_mod; done | apply Z.mod_pos_bound; done]).
  assert (0 <= s < 86400) as Hs by (split; [apply Z.div_pos; lia | apply Z.div_lt_upper_bound; lia]).
  clearbody s. pose proof (Z.div_mod s 60 ltac:(done)) as E1. pose proof (Z.mod_pos_bound s 60 ltac:(done)).
  assert (0 <= s / 60 < 1440) by lia. pose proof (Z.div_mod (s / 60) 60 ltac:(done)). pose proof (Z.mod_pos_bound (s / 60) 60 ltac:(done)).
  assert (s / 3600 = s / 60 / 60) as -> by (rewrite Z.div_div by lia; done).
  split_and!; lia.
Qed.

(** A time in the range of [MarshalJSON] reads back as the same instant,
    whatever the zone it was shown in. *)
Lemma parse_RFC3339Nano off t : json_range off t = true → parse_rfc3339 (RFC3339Nano off t) = Some t.
Proof.
  unfold json_range, RFC3339Nano. set (local := local_time off t). intros Hr.
  unfold format_seconds. pose proof (year_of_day_spec (local / day_ns)) as Hy.
  destruct (year_of_day (local / day_ns)) as [y yd]. cbn [fst] in Hr. destruct Hy as [Hy Hyd].
  pose proof (month_of_day_spec (isLeap y) yd Hyd) as Hm. destruct (month_of_day _ _ _) as [m d]. destruct Hm as (Hm & Hd & Hmd).
  pose proof (days_in_month_bound (isLeap y) m).
  destruct (time_of_day_bounds local) as (Hh & Hmi & Hs & Hsum & Hl). cbv zeta.
  set (s := local mod day_ns / GoTime.Second) in *.
  assert (0 <= y <= 9999 ∧ Z.abs off < 24 * 60) as [Hyr Ho] by lia.
  unfold parse_rfc3339. rewrite <- !app_assoc.
  repeat (rewrite ranged_pad; [cbn [mbind option_bind lit app Z.eqb Pos.eqb] | done || lia | done || (cbn; lia) | lia]).
  rewrite parse_format_fraction by apply format_zone_ends. rewrite parse_format_zone by done. cbn [mbind option_bind]. f_equal.
  unfold date_time. rewrite Hsum.
  replace (days_before_year y + days_before_month (isLeap y) m + (d - 1)) with (local / day_ns) by lia.
  assert (t = local - off * minute_ns) as Et by (unfold local, local_time; lia). clearbody local. subst t. lia.
Qed.

(** *** As JSON *)

Definition jtime (zone : time → Z) (t : time) : option json :=
  if json_range (zone t) t then Some (JStr (RFC3339Nano (zone t) t)) else None.

(** The text of a time is ASCII. *)
Lemma ascii_sanitize l : Forall (λ b, 0 <= b < 128) l → to_valid_bytes l = l.
Proof.
  induction 1 as [|b l Hb _ IH]; [done |]. change (b :: l) with ([b] ++ l).
  rewrite to_valid_bytes_rune by (by apply rune_ascii). by rewrite IH.
Qed.

Lemma digits_ascii l : forallb is_digit l = true → Forall (λ b, 0 <= b < 128) l.
Proof. intros Hl. apply List.Forall_forall. intros c Hc. rewrite forallb_forall in Hl. apply Hl in Hc. unfold is_digit in Hc. lia. Qed.

Lemma RFC3339Nano_ascii off t : Forall (λ b, 0 <= b < 128) (RFC3339Nano off t).
Proof.
  assert (∀ k n, Forall (λ b, 0 <= b < 128) (pad k n)) as Hp by (intros; apply digits_ascii, pad_digits).
  assert (∀ c l, 0 <= c < 128 → Forall (λ b, 0 <= b < 128) l → Forall (λ b, 0 <= b < 128) (c :: l)) as Hc by (intros; by constructor).
  unfold RFC3339Nano, format_seconds. destruct (year_of_day _) as [y yd]. destruct (month_of_day _ _ _) as [m d].
  rewrite !Forall_app. split_and!; auto using List.Forall_nil; try (apply Hc; [lia | constructor]).
  - unfold format_fraction. destruct (drop_zeros _) as [|c l] eqn:E; [constructor |]. apply Hc; [lia |].
    destruct (drop_zeros_spec (pad 9 (local_time off t mod GoTime.Second))) as [k Ek]. rewrite E in Ek.
    specialize (Hp 9%nat (local_time off t mod GoTime.Second)). rewrite Ek in Hp. by apply Forall_app in Hp as [? _].
  - unfold format_zone. destruct (off =? 0); [apply Hc; [lia | constructor] |]. apply Hc; [case_match; lia |].
    rewrite !Forall_app. split_and!; auto. apply Hc; [lia | constructor].
Qed.

Lemma jtime_well_formed zone t j : jtime zone t = Some j → well_formed j.
Proof.
  unfold jtime. destruct (json_range _ _); [| done]. intros [= <-]. cbn.
  eapply Forall_impl; [apply RFC3339Nano_ascii |]. unfold is_byte. cbn. lia.
Qed.

Example epoch : string_of (RFC3339Nano 0 (GoTime.Second * 62135596800)) = "1970-01-01T00:00:00Z"%string.
Proof. reflexivity. Qed.
Example leap_day : string_of (RFC3339Nano (-90) (GoTime.Second * 63844772399 + 120000000)) = "2024-02-29T01:29:59.12-01:30"%string.
Proof. vm_compute. reflexivity. Qed.
Example zero_time : string_of (RFC3339Nano 0 GoTime.zero) = "0001-01-01T00:00:00Z"%string.
Proof. reflexivity. Qed.
