(* ===== verification/Base64.v ===== *)
(** * Base 64 ([base64.StdEncoding])

    How [encoding/json] writes and reads a [[]byte]: the standard alphabet,
    with padding.  Reading skips line ends and ignores the bits that are left
    over. *)

From S2P Require Import Prelude Validation Json.
Local Open Scope Z_scope.

(** [lia] knows quotients and remainders here. *)
#[local] Ltac Zify.zify_post_hook ::= Z.to_euclidean_division_equations.

Definition b64_char (v : Z) : Z :=
  if v <? 26 then 65 + v else if v <? 52 then 71 + v else if v <? 62 then v - 4 else if v =? 62 then 43 else 47.
Definition b64_value (c : Z) : option Z :=
  if (65 <=? c) && (c <=? 90) then Some (c - 65)
  else if (97 <=? c) && (c <=? 122) then Some (c - 71)
  else if (48 <=? c) && (c <=? 57) then Some (c + 4)
  else if c =? 43 then Some 62 else if c =? 47 then Some 63 else None.

Fixpoint b64_encode (l : list Z) : list Z :=
  match l with
  | a :: b :: c :: l =>
      b64_char (a / 4) :: b64_char (a mod 4 * 16 + b / 16) :: b64_char (b mod 16 * 4 + c / 64) :: b64_char (c mod 64) :: b64_encode l
  | [a; b] => [b64_char (a / 4); b64_char (a mod 4 * 16 + b / 16); b64_char (b mod 16 * 4); 61]
  | [a] => [b64_char (a / 4); b64_char (a mod 4 * 16); 61; 61]
  | [] => []
  end.

(** Groups of four; padding ends the text. *)
Fixpoint b64_groups (l : list Z) : option (list Z) :=
  match l with
  | [] => Some []
  | a :: b :: c :: d :: l =>
      a ← b64_value a; b ← b64_value b;
      if c =? 61 then
        match l with [] => if d =? 61 then Some [a * 4 + b / 16] else None | _ => None end
      else
        c ← b64_value c;
        if d =? 61 then
          match l with [] => Some [a * 4 + b / 16; b mod 16 * 16 + c / 4] | _ => None end
        else
          d ← b64_value d; r ← b64_groups l;
          Some (a * 4 + b / 16 :: b mod 16 * 16 + c / 4 :: c mod 4 * 64 + d :: r)
  | _ => None
  end.

Definition line_end (c : Z) : bool := (c =? 10) || (c =? 13).
Definition b64_decode (l : list Z) : option (list Z) := b64_groups (List.filter (λ c, negb (line_end c)) l).

(** ** Reading what was written *)

Lemma b64_char_value v : 0 <= v < 64 → b64_value (b64_char v) = Some v ∧ (b64_char v =? 61) = false ∧ line_end (b64_char v) = false ∧ 0 <= b64_char v < 128.
Proof.
  intros Hv. assert (v ∈ seqZ 0 64) as Hin by (apply elem_of_seqZ; lia). clear Hv. vm_compute in Hin.
  repeat (apply elem_of_cons in Hin as [->|Hin]; [by vm_compute |]). by apply elem_of_nil in Hin.
Qed.

Lemma b64_value_char v : 0 <= v < 64 → b64_value (b64_char v) = Some v.
Proof. apply b64_char_value. Qed.
Lemma b64_not_padding v : 0 <= v < 64 → (b64_char v =? 61) = false.
Proof. apply b64_char_value. Qed.
Lemma b64_not_line_end v : 0 <= v < 64 → line_end (b64_char v) = false.
Proof. apply b64_char_value. Qed.

Lemma bytes_ind (P : list Z → Prop) :
  P [] → (∀ a, P [a]) → (∀ a b, P [a; b]) → (∀ a b c l, P l → P (a :: b :: c :: l)) → ∀ l, P l.
Proof.
  intros H0 H1 H2 H3. fix IH 1. intros [|a [|b [|c l]]]; [done | apply H1 | apply H2 | apply H3, IH].
Qed.

Lemma b64_no_line_end l : Forall is_byte l → List.filter (λ c, negb (line_end c)) (b64_encode l) = b64_encode l.
Proof.
  induction l as [|a|a b|a b c l IH] using bytes_ind; intros Hl; [done | ..]; cbn [b64_encode List.filter];
    repeat (apply Forall_cons in Hl as [?%id Hl]); unfold is_byte in *;
    repeat (rewrite b64_not_line_end by lia; cbn [negb]); [done | done |]. by rewrite IH.
Qed.

Lemma b64_roundtrip l : Forall is_byte l → b64_decode (b64_encode l) = Some l.
Proof.
  intros Hl. unfold b64_decode. rewrite b64_no_line_end by done.
  induction l as [|a|a b|a b c l IH] using bytes_ind; [done | ..]; cbn [b64_encode b64_groups];
    repeat (apply Forall_cons in Hl as [?%id Hl]); unfold is_byte in *;
    repeat first [ rewrite b64_value_char by lia; cbn [mbind option_bind]
                 | rewrite b64_not_padding by lia ].
  - cbn. f_equal. f_equal. lia.
  - cbn. f_equal. f_equal; [lia |]. f_equal. lia.
  - rewrite IH by done. cbn. f_equal. f_equal; [lia |]. f_equal; [lia |]. f_equal. lia.
Qed.

Lemma b64_ascii l : Forall is_byte l → Forall (λ b, 0 <= b < 128) (b64_encode l).
Proof.
  induction l as [|a|a b|a b c l IH] using bytes_ind; intros Hl; [done | ..]; cbn [b64_encode];
    repeat (apply Forall_cons in Hl as [?%id Hl]); unfold is_byte in *;
    repeat first [ apply List.Forall_cons | apply List.Forall_nil ]; try (apply b64_char_value; lia); try done; try lia.
  by apply IH.
Qed.

Example encode_man : string_of (b64_encode (bytes_of "Man")) = "TWFu"%string.
Proof. reflexivity. Qed.
Example encode_ma : string_of (b64_encode (bytes_of "Ma")) = "TWE="%string.
Proof. reflexivity. Qed.
