(* ===== verification/JsonRead.v ===== *)
(** * Reading JSON into Go values

    What [json.Unmarshal] makes of a value: names of any case, the Go value a
    [null] leaves as it was, integers in their ranges, byte slices, maps and
    structs.  Objects that name a member twice where it holds a slice, a map or
    a pointer are left out. *)

From S2P Require Import Prelude Validation Json Rfc3339 Base64.
Local Open Scope Z_scope.

(** ** Names *)

(** Names are compared after folding: the runes that fold to an ASCII letter
    are its two cases, the Kelvin sign and the long s. *)
Definition fold_name (k : list Z) : list Z :=
  chunks k ≫= λ c, match c with
                   | Some [b] => [if (97 <=? b) && (b <=? 122) then b - 32 else b]
                   | Some [226; 132; 170] => [75]
                   | Some [197; 191] => [83]
                   | Some b => b
                   | None => replacement
                   end.
Definition is_field (name : string) (k : list Z) : bool := bool_decide (fold_name k = fold_name (bytes_of name)).

(** ** Values *)

(** A value into a Go value: [null] leaves it as it was. *)
Definition read_string (cur : string) (j : json) : option string :=
  match j with JStr s => Some (string_of s) | JNull => Some cur | _ => None end.
Definition read_bool (cur : bool) (j : json) : option bool :=
  match j with JBool b => Some b | JNull => Some cur | _ => None end.
Definition read_int (cur : Z) (j : json) : option Z :=
  match j with JNum l => parse_int l | JNull => Some cur | _ => None end.
Definition read_time (cur : time) (j : json) : option time :=
  match j with JStr s => parse_rfc3339 s | JNull => Some cur | _ => None end.
Definition read_byte (j : json) : option Z :=
  match j with
  | JNum l => n ← parse_int l; if forallb is_digit l && (n <=? 255) then Some n else None
  | JNull => Some 0
  | _ => None
  end.
Definition read_bytes (j : json) : option (list Z) :=
  match j with JStr s => b64_decode s | JArr l => mapM read_byte l | JNull => Some [] | _ => None end.
Definition read_strings (j : json) : option (list string) :=
  match j with JArr l => mapM (read_string "") l | JNull => Some [] | _ => None end.

(** ** Maps and structs *)

(** The members of an object, one after the other. *)
Definition read_map {A} (f : json → option A) (m : gmap string A) (l : list (list Z * json)) : option (gmap string A) :=
  foldl (λ acc x, m ← acc; y ← f x.2; Some (<[string_of x.1 := y]> m)) (Some m) l.
(** A struct is the table of its fields: a member goes to the field of its
    name, and one that has no field is skipped. *)
Definition fields (A : Type) : Type := list (string * (A → json → option A)).
Fixpoint read_field {A} (fs : fields A) (a : A) (x : list Z * json) : option A :=
  match fs with
  | [] => Some a
  | (name, set) :: fs => if is_field name x.1 then set a x.2 else read_field fs a x
  end.
Definition read_struct {A} (fs : fields A) (zero : A) (j : json) : option A :=
  match j with
  | JObj l => foldl (λ acc x, a ← acc; read_field fs a x) (Some zero) l
  | JNull => Some zero
  | _ => None
  end.

(** An unsigned integer of [bits] bits. *)
Definition read_uint (bits : Z) (cur : Z) (j : json) : option Z :=
  match j with
  | JNum l => if forallb is_digit l && (digits_value 0 l <? 2 ^ bits) then Some (digits_value 0 l) else None
  | JNull => Some cur
  | _ => None
  end.

(** ** Reading what was written *)

Lemma string_of_to_valid s : string_of (to_valid_bytes (bytes_of s)) = to_valid s.
Proof. done. Qed.

(** A map is read member by member into the same members. *)
Lemma read_map_app {A} (f : json → option A) m l l' :
  read_map f m (l ++ l') = m' ← read_map f m l; read_map f m' l'.
Proof.
  unfold read_map. rewrite foldl_app. destruct (foldl _ (Some m) l) as [m'|]; [done |]. cbn. by induction l'.
Qed.

Lemma read_map_members {A B} (f : json → option B) (g : A → json) (h : A → B) (l : list (string * A)) :
  (∀ k x, (k, x) ∈ l → f (sanitize (g x)) = Some (h x)) →
  read_map f ∅ (map (λ x, (to_valid_bytes x.1, sanitize x.2)) ((λ x, (bytes_of x.1, g x.2)) <$> l))
  = Some (read_members ((λ x, (to_valid x.1, h x.2)) <$> l)).
Proof.
  induction l as [|[k x] l IH] using rev_ind; intros Hf; [done |].
  rewrite fmap_app, map_app, read_map_app, IH by (intros k' x' Hx; apply (Hf k'), elem_of_app; by left).
  cbn. rewrite Hf with (k := k) by (apply elem_of_app; right; by left). cbn. f_equal.
  unfold read_members. by rewrite fmap_app, reverse_app.
Qed.

Lemma read_jmap {A B} (f : json → option B) (g : A → json) (h : A → B) (m : gmap string A) :
  (∀ k x, m !! k = Some x → f (sanitize (g x)) = Some (h x)) →
  match sanitize (jmap g m) with JObj l => read_map f ∅ l | _ => None end = Some (written_map h m).
Proof.
  intros Hf. unfold jmap. cbn [sanitize]. apply read_map_members. intros k x. rewrite elem_of_sorted_members. apply Hf.
Qed.

(** A time reads back. *)
Lemma read_jtime zone cur t j : jtime zone t = Some j → read_time cur (sanitize j) = Some t ∧ well_formed j.
Proof.
  unfold jtime. destruct (json_range _ _) eqn:Hr; [| done]. intros [= <-]. cbn [sanitize read_time well_formed].
  pose proof (RFC3339Nano_ascii (zone t) t) as Ha. rewrite ascii_sanitize by done.
  split; [by apply parse_RFC3339Nano |]. eapply Forall_impl; [exact Ha |]. unfold is_byte. cbn. lia.
Qed.

(** Which field a name is, by evaluation. *)
Ltac known_fields :=
  repeat match goal with |- context[is_field ?n ?k] => let b := eval vm_compute in (is_field n k) in change (is_field n k) with b end;
  cbv iota.

(** Values of strings, integers and byte slices read back; a string with its
    bytes that are not UTF-8 replaced. *)
Lemma read_jstr cur s : read_string cur (sanitize (jstr s)) = Some (to_valid s).
Proof. done. Qed.
Lemma read_jint cur z : in_int64 z → read_int cur (sanitize (jint z)) = Some z.
Proof. apply parse_print_int. Qed.
Lemma read_juint bits cur z : 0 <= z < 2 ^ bits → 0 <= bits <= 64 → read_uint bits cur (sanitize (jint z)) = Some z.
Proof.
  intros Hz Hb. assert (2 ^ bits <= 2 ^ 64) by (apply Z.pow_le_mono_r; lia). destruct (print_digits z ltac:(lia)) as [E1 E2].
  unfold read_uint, jint. cbn [sanitize]. rewrite E1, E2. by rewrite (proj2 (Z.ltb_lt _ _)) by lia.
Qed.

(** A byte slice is base64, and [null] when it is nil. *)
Definition jbytes (l : list Z) : json := JStr (b64_encode l).
Lemma read_jbytes l : Forall is_byte l → read_bytes (sanitize (jbytes l)) = Some l.
Proof. intros Hl. cbn [jbytes sanitize read_bytes]. rewrite ascii_sanitize by (by apply b64_ascii). by apply b64_roundtrip. Qed.
Lemma jbytes_well_formed l : Forall is_byte l → well_formed (jbytes l).
Proof. intros Hl. eapply Forall_impl; [by apply b64_ascii |]. unfold is_byte. cbn. lia. Qed.

Lemma read_jstrings (l : list string) : read_strings (sanitize (JArr (jstr <$> l))) = Some (to_valid <$> l).
Proof.
  cbn [sanitize read_strings]. apply mapM_Some_2. induction l as [|m l IH]; [constructor |]. cbn. by constructor.
Qed.

#[export] Hint Resolve jbytes_well_formed : json.
#[export] Hint Rewrite @read_jstr : json_read.
#[export] Hint Rewrite @read_jint @read_juint @read_jbytes using (by auto || lia) : json_read.
#[export] Hint Rewrite @read_jstrings : json_read.
