(* ===== verification/Sha2.v ===== *)
(** * SHA-256 and SHA-512

    What [crypto/sha256] and [crypto/sha512] of Go's standard library compute
    (FIPS 180-4), on lists of bytes: the two differ in the width of a word, the
    number of rounds, the constants and the rotations. *)

From S2P Require Import Prelude.
Local Open Scope Z_scope.

Record sha2 := {
  width : Z;                   (** bits of a word *)
  round_constants : list Z;
  initial : list Z;            (** eight words *)
  Sigma0 : Z * Z * Z;          (** three rotations *)
  Sigma1 : Z * Z * Z;
  sigma0 : Z * Z * Z;          (** two rotations and a shift *)
  sigma1 : Z * Z * Z;
}.

(** The constants are the first bits of the fractional parts of roots of the
    first primes. *)
Definition is_prime (n : Z) : bool := forallb (λ d, negb (n mod Z.of_nat d =? 0)) (seq 2 (Z.to_nat n - 2)).
Definition primes (n : nat) : list Z := take n (List.filter is_prime (Z.of_nat <$> seq 2 408)).
(** The [k]-th root of [n], rounded down, bit by bit. *)
Definition root (k bits n : Z) : Z :=
  foldl (λ r b, let r' := r + 2 ^ Z.of_nat b in if r' ^ k <=? n then r' else r) 0 (reverse (seq 0 (Z.to_nat bits))).
Definition root_bits (k w p : Z) : Z := root k (w + 5) (p * 2 ^ (k * w)) mod 2 ^ w.
Definition cube_roots (w : Z) (n : nat) : list Z := root_bits 3 w <$> primes n.
Definition square_roots (w : Z) : list Z := root_bits 2 w <$> primes 8.

Definition sha256_params : sha2 := Eval vm_compute in {|
  width := 32;
  round_constants := cube_roots 32 64;
  initial := square_roots 32;
  Sigma0 := (2, 13, 22); Sigma1 := (6, 11, 25); sigma0 := (7, 18, 3); sigma1 := (17, 19, 10);
|}.

Definition sha512_params : sha2 := Eval vm_compute in {|
  width := 64;
  round_constants := cube_roots 64 80;
  initial := square_roots 64;
  Sigma0 := (28, 34, 39); Sigma1 := (14, 18, 41); sigma0 := (1, 8, 7); sigma1 := (19, 61, 6);
|}.

(** ** Bytes and words, most significant byte first *)

Fixpoint be_bytes (n : nat) (z : Z) : list Z :=
  match n with O => [] | S n => be_bytes n (z / 256) ++ [z mod 256] end.
Definition be_value (l : list Z) : Z := foldl (λ acc b, 256 * acc + b) 0 l.

Lemma be_bytes_length n z : length (be_bytes n z) = n.
Proof. revert z. induction n as [|n IH]; intros z; cbn; [done |]. rewrite length_app, IH. cbn. lia. Qed.

Lemma be_bytes_byte n z : Forall (λ b, 0 <= b < 256) (be_bytes n z).
Proof.
  revert z. induction n as [|n IH]; intros z; cbn; [constructor |]. apply Forall_app. split; [apply IH |].
  repeat constructor; apply Z.mod_pos_bound; lia.
Qed.

Lemma be_value_app l b : be_value (l ++ [b]) = 256 * be_value l + b.
Proof. unfold be_value. by rewrite foldl_app. Qed.

(** Numbers of [n] bytes, written and read. *)
Lemma be_value_bytes n z : 0 <= z < 256 ^ Z.of_nat n → be_value (be_bytes n z) = z.
Proof.
  revert z. induction n as [|n IH]; intros z Hz; [cbn in *; lia |].
  cbn [be_bytes]. rewrite be_value_app, IH; [pose proof (Z.div_mod z 256); lia |].
  replace (Z.of_nat (S n)) with (Z.of_nat n + 1) in Hz by lia. rewrite Z.pow_add_r, Z.pow_1_r in Hz by lia.
  split; [apply Z.div_pos; lia | apply Z.div_lt_upper_bound; lia].
Qed.

Lemma be_value_mod n z : be_value (be_bytes n z) = z mod 256 ^ Z.of_nat n.
Proof.
  revert z. induction n as [|n IH]; intros z; [by rewrite Z.mod_1_r |]. cbn [be_bytes]. rewrite be_value_app, IH.
  replace (Z.of_nat (S n)) with (Z.of_nat n + 1) by lia. rewrite Z.pow_add_r, Z.pow_1_r by lia.
  rewrite (Z.mul_comm _ 256), Z.rem_mul_r by lia. lia.
Qed.

Lemma be_bytes_value n z : be_bytes n (be_value (be_bytes n z)) = be_bytes n z.
Proof.
  revert z. induction n as [|n IH]; intros z; [done |]. cbn [be_bytes]. rewrite be_value_app.
  pose proof (Z.mod_pos_bound z 256 ltac:(lia)) as Hm. set (v := be_value _).
  replace ((256 * v + z mod 256) / 256) with v by (rewrite Z.mul_comm, Z.div_add_l, Z.div_small by lia; lia).
  replace ((256 * v + z mod 256) mod 256) with (z mod 256) by (rewrite Z.add_comm, Z.mul_comm, Z.mod_add, Z.mod_mod by lia; lia).
  subst v. by rewrite IH.
Qed.

Lemma be_value_bound l : Forall (λ b, 0 <= b < 256) l → 0 <= be_value l < 256 ^ Z.of_nat (length l).
Proof.
  induction l as [|b l IH] using rev_ind; intros Hl; [done |]. apply Forall_app in Hl as [Hl Hb%Forall_inv]. cbn beta in Hb.
  rewrite be_value_app, length_app. specialize (IH Hl). cbn [length].
  replace (Z.of_nat (length l + 1)) with (Z.of_nat (length l) + 1) by lia. rewrite Z.pow_add_r, Z.pow_1_r by lia. lia.
Qed.

(** A list in pieces of [n]. *)
Fixpoint pieces_fuel (fuel n : nat) (l : list Z) : list (list Z) :=
  match fuel, l with
  | S fuel, _ :: _ => take n l :: pieces_fuel fuel n (drop n l)
  | _, _ => []
  end.
Definition pieces (n : nat) (l : list Z) : list (list Z) := pieces_fuel (length l) n l.

(** ** The hash *)

Module SHA.
Section SHA.
Context (p : sha2).

Definition word_bytes : nat := Z.to_nat (width p / 8).
Definition block_bytes : nat := 16 * word_bytes.
Definition mask (z : Z) : Z := Z.land z (Z.ones (width p)).
Definition rotr (x n : Z) : Z := Z.lor (Z.shiftr x n) (mask (Z.shiftl x (width p - n))).

Definition big_sigma (r : Z * Z * Z) (x : Z) : Z :=
  let '(a, b, c) := r in Z.lxor (Z.lxor (rotr x a) (rotr x b)) (rotr x c).
Definition small_sigma (r : Z * Z * Z) (x : Z) : Z :=
  let '(a, b, c) := r in Z.lxor (Z.lxor (rotr x a) (rotr x b)) (Z.shiftr x c).
Definition Ch (x y z : Z) : Z := Z.lxor (Z.land x y) (Z.land (Z.lxor x (Z.ones (width p))) z).
Definition Maj (x y z : Z) : Z := Z.lxor (Z.lxor (Z.land x y) (Z.land x z)) (Z.land y z).

(** A 1 bit, zeros up to the last two words of a block, and the number of bits. *)
Definition padding (len : nat) : list Z :=
  128 :: replicate (Z.to_nat ((- Z.of_nat (len + 1 + 2 * word_bytes)) mod Z.of_nat block_bytes)) 0
      ++ be_bytes (2 * word_bytes) (8 * Z.of_nat len).

(** The working variables and the next sixteen words of the schedule. *)
Definition round (st : list Z * list Z) (k : Z) : list Z * list Z :=
  match st with
  | ([a; b; c; d; e; f; g; h], w0 :: ws) =>
      let t1 := mask (h + big_sigma (Sigma1 p) e + Ch e f g + k + w0) in
      let t2 := mask (big_sigma (Sigma0 p) a + Maj a b c) in
      let next := mask (small_sigma (sigma1 p) (nth 13 ws 0) + nth 8 ws 0 + small_sigma (sigma0 p) (nth 0 ws 0) + w0) in
      ([mask (t1 + t2); a; b; c; mask (d + t1); e; f; g], ws ++ [next])
  | _ => st
  end.

Definition compress (h : list Z) (block : list Z) : list Z :=
  let words := be_value <$> pieces word_bytes block in
  zip_with (λ x y, mask (x + y)) h (foldl round (h, words) (round_constants p)).1.

Definition sum (msg : list Z) : list Z :=
  foldl compress (initial p) (pieces block_bytes (msg ++ padding (length msg))) ≫= be_bytes word_bytes.

Lemma round_length st k : length st.1 = 8%nat → length (round st k).1 = 8%nat.
Proof. intros H. unfold round. repeat case_match; done. Qed.

Lemma compress_length h block : length h = 8%nat → length (compress h block) = 8%nat.
Proof.
  intros Hh. unfold compress. rewrite length_zip_with.
  assert (∀ ks st, length st.1 = 8%nat → length (foldl round st ks).1 = 8%nat) as Hr.
  { induction ks as [|k ks IH]; intros st Hst; [done |]. cbn [foldl]. by apply IH, round_length. }
  rewrite Hr by done. lia.
Qed.

Lemma sum_length msg : length (initial p) = 8%nat → length (sum msg) = (8 * word_bytes)%nat.
Proof.
  intros Hi. unfold sum. set (bs := pieces _ _). clearbody bs.
  assert (length (foldl compress (initial p) bs) = 8%nat) as Hl.
  { revert Hi. generalize (initial p). induction bs as [|b bs IH]; intros h Hh; [done |]. cbn [foldl]. by apply IH, compress_length. }
  revert Hl. generalize (foldl compress (initial p) bs) 8%nat. clear.
  intros l. induction l as [|x l IH]; intros n Hn; cbn in *; [by subst |].
  destruct n as [|n]; [done |]. injection Hn as Hn. rewrite length_app, be_bytes_length, (IH n Hn). lia.
Qed.

Lemma sum_bytes msg : Forall (λ b, 0 <= b < 256) (sum msg).
Proof.
  unfold sum. induction (foldl compress _ _) as [|x l IH]; cbn; [constructor |]. apply Forall_app. split; [apply be_bytes_byte | exact IH].
Qed.
End SHA.
End SHA.

Definition sha256_Sum256 : list Z → list Z := SHA.sum sha256_params.
Definition sha512_Sum512 : list Z → list Z := SHA.sum sha512_params.

#[global] Arguments sha256_Sum256 : simpl never.
#[global] Arguments sha512_Sum512 : simpl never.
#[global] Strategy 1000 [sha256_Sum256 sha512_Sum512].

Lemma sha256_length msg : length (sha256_Sum256 msg) = 32%nat.
Proof. by apply SHA.sum_length. Qed.
Lemma sha512_length msg : length (sha512_Sum512 msg) = 64%nat.
Proof. by apply SHA.sum_length. Qed.
Lemma sha512_bytes msg : Forall (λ b, 0 <= b < 256) (sha512_Sum512 msg).
Proof. apply SHA.sum_bytes. Qed.

(** The test vectors of the standard. *)
Example sha256_empty : be_value (sha256_Sum256 []) = 0xe3b0c44298fc1c149afbf4c8996fb92427ae41e4649b934ca495991b7852b855.
Proof. vm_compute. reflexivity. Qed.
Example sha256_abc : be_value (sha256_Sum256 [97; 98; 99]) = 0xba7816bf8f01cfea414140de5dae2223b00361a396177a9cb410ff61f20015ad.
Proof. vm_compute. reflexivity. Qed.
Example sha256_two_blocks : be_value (sha256_Sum256 [97; 98; 99; 100; 98; 99; 100; 101; 99; 100; 101; 102; 100; 101; 102; 103; 101; 102; 103; 104; 102; 103; 104; 105; 103; 104; 105; 106; 104; 105; 106; 107; 105; 106; 107; 108; 106; 107; 108; 109; 107; 108; 109; 110; 108; 109; 110; 111; 109; 110; 111; 112; 110; 111; 112; 113]) = 0x248d6a61d20638b8e5c026930c3e6039a33ce45964ff2167f6ecedd419db06c1.
Proof. vm_compute. reflexivity. Qed.
Example sha512_abc : be_value (sha512_Sum512 [97; 98; 99]) = 0xddaf35a193617abacc417349ae20413112e6fa4e89a97ea20a9eeee64b55d39a2192992a274fc1a836ba3c23a3feebbd454d4423643ce80e2a9ac94fa54ca49f.
Proof. vm_compute. reflexivity. Qed.
