(* ===== verification/Metrics.v ===== *)
(** * Metrics and logging ([metrics.go], [logging.go], [internal/observability/prometheus/metrics.go])

    The metrics interface, its implementation that discards everything, and the
    one over Prometheus.  The Prometheus library is a parameter: collectors,
    their values and a registry, with the laws of its documentation; its
    floating-point numbers are a parameter too. *)

From S2P Require Import Prelude Errors.

(** ** The interface

    A call of one of its methods; seconds are the library's numbers. *)

Section Interface.
Context {F : Type}.

Inductive metric_call :=
| ConnectionOpened (direction : string)
| ConnectionClosed (direction : string)
| ConnectionAttempt (result : string)
| HandshakeDuration (seconds : F)
| HandshakeResult (result : string)
| MessageSent (stream : string) (bytes : Z)
| MessageReceived (stream : string) (bytes : Z)
| StreamOpened (stream : string)
| StreamClosed (stream : string)
| EncryptionError
| DecryptionError
| KeyDerivation (cached : bool)
| EventEmitted (state : string)
| EventDropped
| MessageDropped
| BackpressureEngaged (stream : string)
| BackpressureWait (stream : string) (seconds : F)
| PendingMessages (stream : string) (count : Z).

(** An implementation. *)
Class MetricsSink (M : Type) := record_call : metric_call → M → M.
End Interface.
Arguments metric_call : clear implicits.
Arguments MetricsSink : clear implicits.

(** [NopMetrics] and [NopLogger] do nothing. *)
Inductive NopMetrics := nop_metrics.
#[export] Instance NopMetrics_sink F : MetricsSink F NopMetrics := λ _ m, m.

Inductive log_call := Debug (msg : string) | Info (msg : string) | Warn (msg : string) | ErrorLog (msg : string).
Class LoggerSink (L : Type) := log : log_call → L → L.
Inductive NopLogger := nop_logger.
#[export] Instance NopLogger_sink : LoggerSink NopLogger := λ _ l, l.

(** ** Prometheus *)

Inductive collector_kind := Counter | Gauge | Histogram (buckets : list (Z * Z))   (** bounds as fractions *).

Record collector := { Name : string; Help : string; Kind : collector_kind; Labels : list string }.
Global Instance collector_eq_dec : EqDecision collector.
Proof.
  assert (EqDecision collector_kind) by solve_decision. solve_decision.
Defined.

(** [FQName] is the name a collector is exported under. *)
Definition FQName (namespace name : string) : string := namespace +:+ "_" +:+ name.

Class Prometheus := {
  Float : Type;
  of_int : Z → Float;
  fadd : Float → Float → Float;
  (** the collectors of one [NewMetrics], by name and label values *)
  Collectors : Type;
  new_collectors : Collectors;
  Inc : string → list string → Collectors → Collectors;
  Add : string → list string → Float → Collectors → Collectors;
  SetGauge : string → list string → Float → Collectors → Collectors;
  Observe : string → list string → Float → Collectors → Collectors;
  value : Collectors → string → list string → Float;
  observations : Collectors → string → list string → list Float;
  (** the fully qualified names of a registry, and the names it accepts *)
  Registry : Type;
  registered : Registry → list string;
  register_all : list string → Registry → Registry;
  valid_name : string → bool;
}.

Class PrometheusLaws `{Prometheus} : Prop := {
  new_value : ∀ n l, value new_collectors n l = of_int 0;
  new_observations : ∀ n l, observations new_collectors n l = [];
  inc_value : ∀ n l n' l' c, value (Inc n l c) n' l' = if decide (n' = n ∧ l' = l) then fadd (value c n' l') (of_int 1) else value c n' l';
  add_value : ∀ n l x n' l' c, value (Add n l x c) n' l' = if decide (n' = n ∧ l' = l) then fadd (value c n' l') x else value c n' l';
  set_value : ∀ n l x n' l' c, value (SetGauge n l x c) n' l' = if decide (n' = n ∧ l' = l) then x else value c n' l';
  observe_value : ∀ n l x n' l' c, value (Observe n l x c) n' l' = value c n' l';
  inc_observations : ∀ n l n' l' c, observations (Inc n l c) n' l' = observations c n' l';
  add_observations : ∀ n l x n' l' c, observations (Add n l x c) n' l' = observations c n' l';
  set_observations : ∀ n l x n' l' c, observations (SetGauge n l x c) n' l' = observations c n' l';
  observe_observations : ∀ n l x n' l' c,
    observations (Observe n l x c) n' l' = if decide (n' = n ∧ l' = l) then observations c n' l' ++ [x] else observations c n' l';
  registered_all : ∀ l r, registered (register_all l r) = registered r ++ l;
  (** integers are exact up to 2^53 *)
  fadd_exact : ∀ a b, (0 <= a)%Z → (0 <= b)%Z → (a + b <= 2 ^ 53)%Z → fadd (of_int a) (of_int b) = of_int (a + b);
}.

(** ** The exporter *)

Definition DefaultNamespace : string := "glueberry".

Definition counter (name help : string) (labels : list string) : collector :=
  {| Name := name; Help := help; Kind := Counter; Labels := labels |}.

(** The collectors of [Metrics], in the order of the struct. *)
Definition collectors : list collector :=
  [ counter "connections_opened_total" "Total number of connections opened" ["direction"];
    counter "connections_closed_total" "Total number of connections closed" ["direction"];
    counter "connection_attempts_total" "Total number of connection attempts by result" ["result"];
    {| Name := "handshake_duration_seconds"; Help := "Histogram of successful handshake durations";
       Kind := Histogram [(1, 100); (5, 100); (1, 10); (25, 100); (5, 10); (1, 1); (25, 10); (5, 1); (10, 1)]%Z; Labels := [] |};
    counter "handshake_results_total" "Total number of handshake results by outcome" ["result"];
    counter "messages_sent_total" "Total number of messages sent per stream" ["stream"];
    counter "messages_received_total" "Total number of messages received per stream" ["stream"];
    counter "bytes_sent_total" "Total bytes sent per stream" ["stream"];
    counter "bytes_received_total" "Total bytes received per stream" ["stream"];
    counter "streams_opened_total" "Total number of streams opened per stream type" ["stream"];
    counter "streams_closed_total" "Total number of streams closed per stream type" ["stream"];
    counter "encryption_errors_total" "Total number of encryption errors" [];
    counter "decryption_errors_total" "Total number of decryption errors" [];
    counter "key_derivations_total" "Total number of key derivations by cache status" ["cached"];
    counter "events_emitted_total" "Total number of events emitted by state" ["state"];
    counter "events_dropped_total" "Total number of events dropped due to buffer full" [];
    counter "messages_dropped_total" "Total number of messages dropped due to buffer full" [];
    counter "backpressure_engaged_total" "Total times backpressure was engaged per stream" ["stream"];
    {| Name := "backpressure_wait_seconds"; Help := "Histogram of time spent waiting due to backpressure";
       Kind := Histogram [(1, 1000); (5, 1000); (1, 100); (5, 100); (1, 10); (5, 10); (1, 1); (5, 1); (10, 1)]%Z; Labels := ["stream"] |};
    {| Name := "pending_messages"; Help := "Current number of pending messages per stream"; Kind := Gauge; Labels := ["stream"] |} ].

Section Exporter.
Context `{Prometheus}.

Record Metrics := { m_namespace : string; m_values : Collectors }.

(** The names the collectors of a namespace are registered under. *)
Definition exported_names (namespace : string) : list string := FQName namespace ∘ Name <$> collectors.

(** [MustRegister] panics when a name is not valid or already taken. *)
Definition MustRegister (names : list string) (r : Registry) : option Registry :=
  if decide (Forall (λ n, valid_name n = true ∧ n ∉ registered r) names ∧ NoDup names) then Some (register_all names r) else None.

(** [None] is a panic; a nil registerer registers nothing. *)
Definition NewMetricsWithRegisterer (namespace : string) (registerer : option Registry) : option (Metrics * option Registry) :=
  let namespace := if decide (namespace = "") then DefaultNamespace else namespace in
  let m := {| m_namespace := namespace; m_values := new_collectors |} in
  match registerer with
  | None => Some (m, None)
  | Some r => (λ r', (m, Some r')) <$> MustRegister (exported_names namespace) r
  end.

Definition NewMetrics (namespace : string) (default : Registry) : option (Metrics * option Registry) :=
  NewMetricsWithRegisterer namespace (Some default).

Definition upd_values (f : Collectors → Collectors) (m : Metrics) : Metrics :=
  {| m_namespace := m_namespace m; m_values := f (m_values m) |}.

Definition FormatBool (b : bool) : string := if b then "true" else "false".

(** The methods. *)
#[export] Instance Metrics_sink : MetricsSink Float Metrics := λ call,
  upd_values
    match call with
    | ConnectionOpened direction => Inc "connections_opened_total" [direction]
    | ConnectionClosed direction => Inc "connections_closed_total" [direction]
    | ConnectionAttempt result => Inc "connection_attempts_total" [result]
    | HandshakeDuration seconds => Observe "handshake_duration_seconds" [] seconds
    | HandshakeResult result => Inc "handshake_results_total" [result]
    | MessageSent stream bytes => λ c, Add "bytes_sent_total" [stream] (of_int bytes) (Inc "messages_sent_total" [stream] c)
    | MessageReceived stream bytes =>
        λ c, Add "bytes_received_total" [stream] (of_int bytes) (Inc "messages_received_total" [stream] c)
    | StreamOpened stream => Inc "streams_opened_total" [stream]
    | StreamClosed stream => Inc "streams_closed_total" [stream]
    | EncryptionError => Inc "encryption_errors_total" []
    | DecryptionError => Inc "decryption_errors_total" []
    | KeyDerivation cached => Inc "key_derivations_total" [FormatBool cached]
    | EventEmitted state => Inc "events_emitted_total" [state]
    | EventDropped => Inc "events_dropped_total" []
    | MessageDropped => Inc "messages_dropped_total" []
    | BackpressureEngaged stream => Inc "backpressure_engaged_total" [stream]
    | BackpressureWait stream seconds => Observe "backpressure_wait_seconds" [stream] seconds
    | PendingMessages stream count => SetGauge "pending_messages" [stream] (of_int count)
    end.
End Exporter.

(** ** What the package's documentation promises

    The counters a call adds to, with their label values and the amount. *)

Definition tallied {F} (c : metric_call F) : list (string * list string * Z) :=
  match c with
  | ConnectionOpened direction => [("connections_opened_total", [direction], 1)]
  | ConnectionClosed direction => [("connections_closed_total", [direction], 1)]
  | ConnectionAttempt result => [("connection_attempts_total", [result], 1)]
  | HandshakeResult result => [("handshake_results_total", [result], 1)]
  | MessageSent stream bytes => [("messages_sent_total", [stream], 1); ("bytes_sent_total", [stream], bytes)]
  | MessageReceived stream bytes => [("messages_received_total", [stream], 1); ("bytes_received_total", [stream], bytes)]
  | StreamOpened stream => [("streams_opened_total", [stream], 1)]
  | StreamClosed stream => [("streams_closed_total", [stream], 1)]
  | EncryptionError => [("encryption_errors_total", [], 1)]
  | DecryptionError => [("decryption_errors_total", [], 1)]
  | KeyDerivation cached => [("key_derivations_total", [FormatBool cached], 1)]
  | EventEmitted state => [("events_emitted_total", [state], 1)]
  | EventDropped => [("events_dropped_total", [], 1)]
  | MessageDropped => [("messages_dropped_total", [], 1)]
  | BackpressureEngaged stream => [("backpressure_engaged_total", [stream], 1)]
  | HandshakeDuration _ | BackpressureWait _ _ | PendingMessages _ _ => []
  end%Z.

(** The histogram a call adds an observation to. *)
Definition observed {F} (c : metric_call F) : list (string * list string * F) :=
  match c with
  | HandshakeDuration s => [("handshake_duration_seconds", [], s)]
  | BackpressureWait stream s => [("backpressure_wait_seconds", [stream], s)]
  | _ => []
  end.

(** The gauge it sets. *)
Definition gauged {F} (c : metric_call F) : option (string * list string * Z) :=
  match c with PendingMessages stream count => Some ("pending_messages", [stream], count) | _ => None end.

(** The amounts of a table that go to one name and its label values. *)
Definition of_metric {A} (n : string) (l : list string) (t : list (string * list string * A)) : list A :=
  (filter (λ x, x.1 = (n, l)) t).*2.

Lemma of_metric_app {A} n l (t t' : list (string * list string * A)) : of_metric n l (t ++ t') = of_metric n l t ++ of_metric n l t'.
Proof. unfold of_metric. by rewrite filter_app, fmap_app. Qed.

Lemma of_metric_one {A} n l n' l' (x : A) : of_metric n l [(n', l', x)] = if decide (n = n' ∧ l = l') then [x] else [].
Proof.
  unfold of_metric. rewrite filter_cons, filter_nil. cbn.
  destruct (decide ((n', l') = (n, l))); case_decide; cbn; naive_solver.
Qed.

Section Theorems.
Context `{PrometheusLaws}.
Notation call := (metric_call Float).

Definition recorded (calls : list call) (m : Metrics) : Metrics := foldl (λ m c, record_call c m) m calls.

Definition gauge_name : string := "pending_messages".

(** One call, on the value of a counter. *)
Lemma record_value n l (c : call) m :
  n ≠ gauge_name →
  value (m_values (record_call c m)) n l = foldl (λ v x, fadd v (of_int x)) (value (m_values m) n l) (of_metric n l (tallied c)).
Proof.
  intros Hn. unfold record_call, Metrics_sink, upd_values. cbn [m_values].
  assert (∀ n' l' (v : Float) x, foldl (λ v x, fadd v (of_int x)) v (of_metric n l [(n', l', x)])
    = if decide (n = n' ∧ l = l') then fadd v (of_int x) else v) as H1.
  { intros n' l' v x. rewrite of_metric_one. by case_decide. }
  assert (∀ n' l' n'' l'' (v : Float) x y, foldl (λ v x, fadd v (of_int x)) v (of_metric n l [(n', l', x); (n'', l'', y)])
    = if decide (n = n'' ∧ l = l'') then fadd (if decide (n = n' ∧ l = l') then fadd v (of_int x) else v) (of_int y)
      else (if decide (n = n' ∧ l = l') then fadd v (of_int x) else v)) as H2.
  { intros n' l' n'' l'' v x y. by rewrite <- (H1 n' l'), <- H1, <- foldl_app, <- of_metric_app. }
  destruct c; cbn [tallied]; rewrite ?H1, ?H2, ?add_value, ?inc_value, ?observe_value; try done.
  rewrite set_value, decide_False; [done |]. by intros [-> _].
Qed.

Lemma recorded_value n l calls m :
  n ≠ gauge_name →
  value (m_values (recorded calls m)) n l
  = foldl (λ v x, fadd v (of_int x)) (value (m_values m) n l) (of_metric n l (calls ≫= tallied)).
Proof.
  intros Hn. revert m. induction calls as [|c calls IH]; intros m; [done |].
  cbn [recorded foldl mbind list_bind]. unfold recorded in IH. rewrite IH, record_value by done.
  by rewrite of_metric_app, foldl_app.
Qed.

(** Sums of small integers are exact. *)
Lemma fadd_sum l a :
  (0 <= a)%Z → Forall (λ x, 0 <= x)%Z l → (a + foldr Z.add 0%Z l <= 2 ^ 53)%Z →
  foldl (λ v x, fadd v (of_int x)) (of_int a) l = of_int (a + foldr Z.add 0%Z l).
Proof.
  intros Ha Hl. revert a Ha. induction Hl as [|x l Hx Hl IH]; intros a Ha Hs; cbn in *; [by rewrite Z.add_0_r |].
  assert (0 <= foldr Z.add 0%Z l)%Z as Hp by (clear -Hl; induction Hl; cbn; lia).
  rewrite fadd_exact by lia. rewrite IH by lia. f_equal. lia.
Qed.

(** One call, on a histogram. *)
Lemma record_observations n l (c : call) m :
  observations (m_values (record_call c m)) n l = observations (m_values m) n l ++ of_metric n l (observed c).
Proof.
  unfold record_call, Metrics_sink, upd_values. cbn [m_values].
  assert (∀ n' l' (x : Float) t, (if decide (n = n' ∧ l = l') then t ++ [x] else t) = t ++ of_metric n l [(n', l', x)]) as H1.
  { intros n' l' x t. rewrite of_metric_one. case_decide; [done | by rewrite app_nil_r]. }
  destruct c; cbn [observed]; rewrite ?add_observations, ?inc_observations, ?set_observations, ?observe_observations, ?H1;
    try done; unfold of_metric; cbn; by rewrite app_nil_r.
Qed.

(** One call, on a gauge. *)
Lemma record_gauge l (c : call) m :
  value (m_values (record_call c m)) gauge_name l
  = match gauged c with Some (_, l', x) => if decide (l = l') then of_int x else value (m_values m) gauge_name l | None => value (m_values m) gauge_name l end.
Proof.
  unfold record_call, Metrics_sink, upd_values. cbn [m_values].
  destruct c; cbn [gauged]; rewrite ?add_value, ?inc_value, ?observe_value, ?set_value; try done;
    repeat (rewrite decide_False by (intros [[=] _])); try done.
  repeat case_decide; naive_solver.
Qed.
End Theorems.

(** ** Registration *)

(** No collector's name is the end of another's after an underscore. *)
Fixpoint ends_with (t s : string) : bool :=
  String.eqb s t || match s with EmptyString => false | String _ s' => ends_with t s' end.

Lemma ends_with_app s t : ends_with t (s +:+ t) = true.
Proof.
  induction s as [|c s IH].
  - change (ends_with t t = true). destruct t as [|c t]; [done |]. unfold ends_with. by rewrite String.eqb_refl.
  - change (String.eqb (String c (s +:+ t)) t || ends_with t (s +:+ t) = true). by rewrite IH, orb_true_r.
Qed.

Lemma string_app_nil_r (s : string) : s +:+ "" = s.
Proof. induction s as [|c s IH]; [done |]. change (String c (s +:+ "") = String c s). by rewrite IH. Qed.

Lemma collectors_apart :
  forallb (λ a, forallb (λ b, negb (ends_with ("_" +:+ Name a) (Name b))) collectors) collectors = true.
Proof. vm_compute. reflexivity. Qed.

Lemma string_app_split s1 t1 s2 t2 :
  s1 +:+ t1 = s2 +:+ t2 → ∃ u, s1 = s2 +:+ u ∧ t2 = u +:+ t1 ∨ s2 = s1 +:+ u ∧ t1 = u +:+ t2.
Proof.
  revert s2. induction s1 as [|c s1 IH]; intros s2 E.
  - exists s2. right. by split.
  - destruct s2 as [|c' s2]; cbn in E.
    + exists (String c s1). left. by split.
    + injection E as -> E. destruct (IH _ E) as (u & [[-> ->]|[-> ->]]); exists u; auto.
Qed.

Lemma string_app_assoc (s t u : string) : s +:+ (t +:+ u) = (s +:+ t) +:+ u.
Proof. induction s as [|c s IH]; [done |]. change (String c (s +:+ (t +:+ u)) = String c ((s +:+ t) +:+ u)). by rewrite IH. Qed.

(** The last character of the separator is an underscore: a longer prefix
    carries it into the name. *)
Lemma FQName_inj ns ns' c c' :
  c ∈ collectors → c' ∈ collectors → FQName ns (Name c) = FQName ns' (Name c') → ns = ns' ∧ Name c = Name c'.
Proof.
  assert (∀ ns ns' u c c', c ∈ collectors → c' ∈ collectors → ns +:+ "_" = (ns' +:+ "_") +:+ u →
    Name c' = u +:+ Name c → ns = ns' ∧ Name c = Name c') as Hg.
  { clear. intros ns ns' u c c' Hc Hc' E1 E2. destruct u as [|a u].
    - rewrite string_app_nil_r in E1. split; [| done]. clear -E1. revert ns' E1. induction ns as [|a ns IH]; intros [|b ns']; cbn; try done.
      + intros [= -> E]. by destruct ns'.
      + intros [= -> E]. by destruct ns.
      + intros [= -> E]. f_equal. by apply IH.
    - exfalso. pose proof collectors_apart as Ha. rewrite forallb_forall in Ha.
      assert (∃ v, String a u = v +:+ "_") as (v & Ev).
      { clear -E1. revert E1. rewrite <- string_app_assoc. revert ns.
        induction ns' as [|b ns' IH]; intros ns; cbn.
        - destruct ns as [|b ns]; cbn; [by intros [=] |]. intros [= -> E]. by exists ns.
        - destruct ns as [|b' ns]; cbn; [by destruct ns' | intros [= _ E]; by eapply IH]. }
      rewrite list_elem_of_In in Hc, Hc'. specialize (Ha _ Hc). rewrite forallb_forall in Ha. specialize (Ha _ Hc').
      rewrite E2, Ev, <- string_app_assoc, ends_with_app in Ha. done. }
  intros Hc Hc' E. unfold FQName in E. rewrite !string_app_assoc in E.
  destruct (string_app_split _ _ _ _ E) as (u & [[E1 E2]|[E1 E2]]).
  - by eapply Hg.
  - destruct (Hg _ _ _ _ _ Hc' Hc E1 E2). by split.
Qed.

Lemma exported_names_inj ns ns' n : n ∈ exported_names ns → n ∈ exported_names ns' → ns = ns'.
Proof.
  intros (c & -> & Hc)%list_elem_of_fmap (c' & E & Hc')%list_elem_of_fmap. by destruct (FQName_inj _ _ _ _ Hc Hc' E).
Qed.

Lemma collectors_nodup : NoDup (Name <$> collectors).
Proof. apply (bool_decide_unpack _). vm_compute. exact I. Qed.

Lemma exported_nodup ns : NoDup (exported_names ns).
Proof.
  unfold exported_names. rewrite list_fmap_compose. apply NoDup_fmap_2_strong; [| apply collectors_nodup].
  intros a b (c & -> & Hc)%list_elem_of_fmap (c' & -> & Hc')%list_elem_of_fmap E. by destruct (FQName_inj _ _ _ _ Hc Hc' E).
Qed.

Section Registration.
Context `{PrometheusLaws}.

Definition valid_namespace (ns : string) : Prop := Forall (λ n, valid_name n = true) (exported_names ns).
Definition free (ns : string) (r : Registry) : Prop := ∀ n, n ∈ exported_names ns → n ∉ registered r.

Lemma MustRegister_spec ns r :
  valid_namespace ns → free ns r → MustRegister (exported_names ns) r = Some (register_all (exported_names ns) r).
Proof.
  intros Hv Hf. unfold MustRegister. rewrite decide_True; [done |]. split; [| apply exported_nodup].
  apply Forall_forall. intros n Hn. split; [by eapply Forall_forall in Hv | by apply Hf].
Qed.

Lemma MustRegister_taken ns r n : n ∈ exported_names ns → n ∈ registered r → MustRegister (exported_names ns) r = None.
Proof.
  intros Hn Hr. unfold MustRegister. rewrite decide_False; [done |]. intros [Ha _].
  rewrite Forall_forall in Ha. by apply (Ha n Hn).
Qed.

(** The first [NewMetrics] of a namespace registers; a second one for the same
    namespace and registry panics; one for another namespace registers too,
    whatever the two namespaces are. *)
Lemma NewMetrics_registers ns ns' r :
  ns ≠ "" → ns' ≠ "" → ns ≠ ns' → valid_namespace ns → valid_namespace ns' → free ns r → free ns' r →
  ∃ m r', NewMetrics ns r = Some (m, Some r')
    ∧ registered r' = registered r ++ exported_names ns
    ∧ NewMetrics ns r' = None
    ∧ ∃ m' r'', NewMetrics ns' r' = Some (m', Some r'') ∧ registered r'' = registered r' ++ exported_names ns'.
Proof.
  intros H1 H2 Hne Hv Hv' Hf Hf'. unfold NewMetrics, NewMetricsWithRegisterer. rewrite !decide_False by done.
  rewrite MustRegister_spec by done. do 2 eexists. split; [done |]. rewrite registered_all. split; [done |]. split.
  - rewrite (MustRegister_taken _ _ (FQName ns "connections_opened_total")); [done | | rewrite registered_all; apply elem_of_app; right]; by left.
  - rewrite MustRegister_spec; [do 2 eexists; split; [done |]; by rewrite !registered_all | done |].
    intros n Hn. rewrite registered_all. intros [Hr|Hr]%elem_of_app; [by apply (Hf' n) |].
    by apply Hne, (exported_names_inj _ _ n).
Qed.
End Registration.

(** The byte counts of messages are not negative. *)
Definition sizes_ok {F} (calls : list (metric_call F)) : Prop :=
  ∀ c n l x, c ∈ calls → (n, l, x) ∈ tallied c → (0 <= x)%Z.

Lemma of_metric_elem {A} n l (t : list (string * list string * A)) x : x ∈ of_metric n l t ↔ (n, l, x) ∈ t.
Proof.
  unfold of_metric. rewrite list_elem_of_fmap. setoid_rewrite list_elem_of_filter. split.
  - intros ([[n' l'] x'] & -> & [= -> ->] & Hx). done.
  - intros Hx. by exists (n, l, x).
Qed.

(** C37. What is scraped is what was called.  After any calls of a new exporter,
    each counter has, for each of its label values, the sum of the amounts the
    documentation says the calls add to it (exact as long as it is at most
    2^53), each histogram the observations in order, and the gauge of pending
    messages the last count recorded for the stream. *)
Theorem exported_metrics `{PrometheusLaws} ns reg m reg' calls :
  NewMetricsWithRegisterer ns reg = Some (m, reg') → sizes_ok calls →
  let v := m_values (foldl (λ m c, record_call c m) m calls) in
  (∀ n l, n ≠ gauge_name → (foldr Z.add 0%Z (of_metric n l (calls ≫= tallied)) <= 2 ^ 53)%Z →
     value v n l = of_int (foldr Z.add 0%Z (of_metric n l (calls ≫= tallied))))
  ∧ (∀ n l, observations v n l = of_metric n l (calls ≫= observed))
  ∧ ∀ l, value v gauge_name l
         = of_int (default 0%Z (last (of_metric gauge_name l (omap gauged calls)))).
Proof.
  intros Hn Hs. assert (m_values m = new_collectors) as Hm.
  { unfold NewMetricsWithRegisterer in Hn. destruct reg; [| by simplify_eq]. by apply fmap_Some in Hn as (r' & _ & [= -> _]). }
  cbv zeta. split_and!.
  - intros n l Hg Hb. pose proof (recorded_value n l calls m Hg) as E. unfold recorded in E. rewrite E, Hm, new_value.
    rewrite fadd_sum; [done | done | | done]. apply Forall_forall. intros x (c & Ht & Hc)%of_metric_elem%list_elem_of_bind.
    by eapply Hs.
  - intros n l. clear Hs Hn. rewrite <- (app_nil_l (of_metric _ _ _)), <- (new_observations n l), <- Hm. clear Hm. revert m.
    induction calls as [|c calls IH]; intros m; cbn [foldl mbind list_bind]; [by rewrite app_nil_r |].
    by rewrite IH, record_observations, of_metric_app, app_assoc.
  - intros l. clear Hs. induction calls as [|c calls IH] using rev_ind; [cbn; by rewrite Hm, new_value |].
    rewrite foldl_app. cbn [foldl]. rewrite record_gauge, IH, omap_app, of_metric_app. cbn [omap list_omap].
    destruct (gauged c) as [[[n' l'] x]|] eqn:Eg; [| by rewrite app_nil_r].
    assert (n' = gauge_name) as -> by (by destruct c; cbn in Eg; simplify_eq).
    rewrite of_metric_one. repeat case_decide; try naive_solver; [by rewrite last_snoc | by rewrite app_nil_r].
Qed.

(** ** A concrete Prometheus *)

Module Toy.
Record state := { vals : gmap (string * list string) Z; obs : gmap (string * list string) (list Z) }.
#[export] Instance toy : Prometheus :=
  {| Float := Z; of_int z := z; fadd := Z.add; Collectors := state; new_collectors := {| vals := ∅; obs := ∅ |};
     Inc n l c := {| vals := <[(n, l) := (default 0 (vals c !! (n, l)) + 1)%Z]> (vals c); obs := obs c |};
     Add n l x c := {| vals := <[(n, l) := (default 0 (vals c !! (n, l)) + x)%Z]> (vals c); obs := obs c |};
     SetGauge n l x c := {| vals := <[(n, l) := x]> (vals c); obs := obs c |};
     Observe n l x c := {| vals := vals c; obs := <[(n, l) := default [] (obs c !! (n, l)) ++ [x]]> (obs c) |};
     value c n l := default 0%Z (vals c !! (n, l)); observations c n l := default [] (obs c !! (n, l));
     Registry := list string; registered r := r; register_all l r := r ++ l; valid_name _ := true |}.

Lemma toy_laws : PrometheusLaws.
Proof.
  split; cbn; intros *; try done; rewrite ?lookup_insert; repeat case_decide; naive_solver.
Qed.
End Toy.

Lemma exported_metrics_witness :
  let calls := [MessageSent "chat" 10; PendingMessages "chat" 3; MessageSent "chat" 5; PendingMessages "chat" 2]%Z in
  let m := {| m_namespace := DefaultNamespace; m_values := new_collectors (Prometheus := Toy.toy) |} in
  value (m_values (foldl (λ m c, record_call c m) m calls)) "bytes_sent_total" ["chat"] = of_int 15
  ∧ value (m_values (foldl (λ m c, record_call c m) m calls)) gauge_name ["chat"] = of_int 2.
Proof.
  cbv zeta.
  assert (sizes_ok (F := Float (Prometheus := Toy.toy)) [MessageSent "chat" 10; PendingMessages "chat" 3; MessageSent "chat" 5; PendingMessages "chat" 2]%Z) as Hs.
  { intros c n l x Hc Hx. repeat (apply elem_of_cons in Hc as [->|Hc]); try by apply elem_of_nil in Hc.
    all: cbn in Hx; repeat (apply elem_of_cons in Hx as [[= -> -> ->]|Hx]); try lia; by apply elem_of_nil in Hx. }
  destruct (exported_metrics (H := Toy.toy) (H0 := Toy.toy_laws) "" None _ None _ eq_refl Hs) as (H1 & _ & H2).
  split; [apply (H1 "bytes_sent_total" ["chat"]); [done | vm_compute; discriminate] | apply (H2 ["chat"])].
Defined.
