(* ===== verification/Flow.v ===== *)
(** * Flow control ([internal/flow/controller.go])

    The controller's methods are critical sections of one mutex, so each is an
    atomic function on the controller's fields and on the set of channels that
    have been closed; closing a closed channel panics ([None]).  The system of
    senders at the end of the file interleaves them. *)

From S2P Require Import Prelude Errors.
Local Open Scope Z_scope.
Local Open Scope go_scope.

Definition DefaultHighWatermark : Z := 1000.
Definition DefaultLowWatermark : Z := 100.

(** ** The controller *)

Record Controller := {
  highWatermark : Z;
  lowWatermark : Z;
  pending : Z;
  blocked : bool;
  closed : bool;
  unblockCh : nat;          (** identity of the current channel *)
  onBlocked : bool;         (** is the metrics callback set? *)
  ch_closed : gset nat;     (** the channels closed so far *)
  ch_next : nat;            (** identity of the next [make(chan struct{})] *)
}.

Definition NewController (high low : Z) : Controller :=
  let high := if high <=? 0 then DefaultHighWatermark else high in
  let low := if low <=? 0 then DefaultLowWatermark else low in
  let low := if high <=? low then Z.max (Z.quot high 10) 1 else low in
  {| highWatermark := high; lowWatermark := low; pending := 0; blocked := false; closed := false;
     unblockCh := 0; onBlocked := false; ch_closed := ∅; ch_next := 1 |}.

Definition SetBlockedCallback (fn : bool) (fc : Controller) : Controller :=
  {| highWatermark := highWatermark fc; lowWatermark := lowWatermark fc; pending := pending fc;
     blocked := blocked fc; closed := closed fc; unblockCh := unblockCh fc; onBlocked := fn;
     ch_closed := ch_closed fc; ch_next := ch_next fc |}.

Definition set_counts (fc : Controller) (p : Z) (b : bool) : Controller :=
  {| highWatermark := highWatermark fc; lowWatermark := lowWatermark fc; pending := p;
     blocked := b; closed := closed fc; unblockCh := unblockCh fc; onBlocked := onBlocked fc;
     ch_closed := ch_closed fc; ch_next := ch_next fc |}.

(** One round of [Acquire]'s loop, up to the end of its critical section. *)
Inductive acquire_result :=
| AcquireClosed                       (** return [context.Canceled] *)
| AcquireOk (callback : bool)         (** return nil, after the callback if set *)
| AcquireWait (waitCh : nat).         (** block on the channel, then retry *)

Definition Acquire_locked (fc : Controller) : acquire_result * Controller :=
  if closed fc then (AcquireClosed, fc)
  else if negb (blocked fc) then
    let pending' := pending fc +₆₄ 1 in
    let hit := (highWatermark fc <=? pending') && negb (blocked fc) in
    (AcquireOk (hit && onBlocked fc), set_counts fc pending' (blocked fc || hit))
  else (AcquireWait (unblockCh fc), fc).

(** [close(ch)]: [None] is the panic of a double close. *)
Definition close_channel (ch : nat) (fc : Controller) : option Controller :=
  if decide (ch ∈ ch_closed fc) then None
  else Some {| highWatermark := highWatermark fc; lowWatermark := lowWatermark fc; pending := pending fc;
               blocked := blocked fc; closed := closed fc; unblockCh := unblockCh fc;
               onBlocked := onBlocked fc; ch_closed := {[ch]} ∪ ch_closed fc; ch_next := ch_next fc |}.

Definition fresh_channel (fc : Controller) : Controller :=
  {| highWatermark := highWatermark fc; lowWatermark := lowWatermark fc; pending := pending fc;
     blocked := blocked fc; closed := closed fc; unblockCh := ch_next fc;
     onBlocked := onBlocked fc; ch_closed := ch_closed fc; ch_next := S (ch_next fc) |}.

Definition Release (fc : Controller) : option Controller :=
  let fc := if 0 <? pending fc then set_counts fc (pending fc - 1) (blocked fc) else fc in
  if blocked fc && (pending fc <=? lowWatermark fc) then
    let fc := set_counts fc (pending fc) false in
    fresh_channel <$> close_channel (unblockCh fc) fc
  else Some fc.

Definition Pending (fc : Controller) : Z := pending fc.
Definition IsBlocked (fc : Controller) : bool := blocked fc.

Definition set_closed (fc : Controller) : Controller :=
  {| highWatermark := highWatermark fc; lowWatermark := lowWatermark fc; pending := pending fc;
     blocked := blocked fc; closed := true; unblockCh := unblockCh fc;
     onBlocked := onBlocked fc; ch_closed := ch_closed fc; ch_next := ch_next fc |}.

Definition Close (fc : Controller) : option Controller :=
  if closed fc then Some fc
  else close_channel (unblockCh fc) (set_closed fc).

(** ** Senders

    A sender calls [Acquire], sends, then calls [Release] ([Node.SendCtx]
    defers it).  [Waiting ch] is a sender blocked in the [select] on [ch] and
    on its context. *)

Inductive sender :=
| Acquiring              (** at the top of [Acquire]'s loop *)
| Waiting (ch : nat)
| Holding                (** [Acquire] returned nil *)
| Failed (e : error)     (** [Acquire] returned an error *)
| Released.

Record system := { ctl : Controller; senders : list sender }.

Definition set_sender (s : system) (i : nat) (p : sender) (fc : Controller) : system :=
  {| ctl := fc; senders := <[i := p]> (senders s) |}.

Definition after_acquire (r : acquire_result) : sender :=
  match r with
  | AcquireClosed => Failed context_Canceled
  | AcquireOk _ => Holding
  | AcquireWait ch => Waiting ch
  end.

(** The interleavings: any enabled sender runs its next critical section. *)
Inductive step : relation system :=
| step_call s : step s {| ctl := ctl s; senders := senders s ++ [Acquiring] |}
| step_acquire s i : senders s !! i = Some Acquiring →
    step s (let (r, fc) := Acquire_locked (ctl s) in set_sender s i (after_acquire r) fc)
| step_wake s i ch : senders s !! i = Some (Waiting ch) → ch ∈ ch_closed (ctl s) →
    step s (set_sender s i Acquiring (ctl s))
| step_ctx_done s i ch e : senders s !! i = Some (Waiting ch) →
    step s (set_sender s i (Failed e) (ctl s))
| step_release s i fc : senders s !! i = Some Holding → Release (ctl s) = Some fc →
    step s (set_sender s i Released fc).

(** The same system with [Close] allowed at any time. *)
Inductive step_close : relation system :=
| sc_step s s' : step s s' → step_close s s'
| sc_close s fc : Close (ctl s) = Some fc → step_close s {| ctl := fc; senders := senders s |}.

Definition initial (high low : Z) : system :=
  {| ctl := NewController high low; senders := [] |}.

(** ** The invariant *)

Definition is_holding (p : sender) : Z := match p with Holding => 1 | _ => 0 end.

Fixpoint holders (l : list sender) : Z :=
  match l with [] => 0 | p :: l => is_holding p + holders l end.

Definition can_wake (fc : Controller) (p : sender) : Prop :=
  match p with
  | Waiting ch => ch ∈ ch_closed fc ∨ (ch = unblockCh fc ∧ blocked fc = true)
  | _ => True
  end.

(** The watermarks never change; [fixed high low] pins them. *)
Record inv (high low : Z) (s : system) : Prop := {
  inv_high : highWatermark (ctl s) = high;
  inv_low : lowWatermark (ctl s) = low;
  inv_open : closed (ctl s) = false;
  inv_count : pending (ctl s) = holders (senders s);
  inv_bound : pending (ctl s) <= high;
  inv_free : blocked (ctl s) = false → pending (ctl s) < high;
  inv_blocked : blocked (ctl s) = true → 0 < pending (ctl s) ∧ (pending (ctl s) < high → low < pending (ctl s));
  inv_chan : unblockCh (ctl s) ∉ ch_closed (ctl s) ∧ (unblockCh (ctl s) < ch_next (ctl s))%nat
             ∧ (∀ c, c ∈ ch_closed (ctl s) → (c < ch_next (ctl s))%nat);
  inv_wake : Forall (can_wake (ctl s)) (senders s);
}.

(** ** Lemmas *)

Lemma holders_insert l i p q :
  l !! i = Some p → holders (<[i := q]> l) = holders l - is_holding p + is_holding q.
Proof.
  revert i. induction l as [|x l IH]; intros [|i] Hi; simplify_eq/=; [lia |].
  rewrite IH by done. lia.
Qed.

Lemma holders_app l l' : holders (l ++ l') = holders l + holders l'.
Proof. induction l; simpl; lia. Qed.

Lemma holders_nonneg l : 0 <= holders l.
Proof. induction l as [|[]]; simpl; lia. Qed.

Lemma holding_exists l : 0 < holders l → ∃ i, l !! i = Some Holding.
Proof.
  induction l as [|p l IH]; simpl; [lia |]. intros H.
  destruct (decide (0 < holders l)) as [Hl|Hl].
  - destruct (IH Hl) as [i Hi]. by exists (S i).
  - pose proof (holders_nonneg l). exists 0%nat. destruct p; simpl in *; lia || done.
Qed.

Lemma NewController_watermarks high low :
  let fc := NewController high low in
  0 < lowWatermark fc ∧ 0 < highWatermark fc
  ∧ (1 < highWatermark fc → lowWatermark fc < highWatermark fc).
Proof.
  unfold NewController; cbn. unfold DefaultHighWatermark, DefaultLowWatermark.
  destruct (high <=? 0) eqn:Eh; go_bool.
  - destruct (low <=? 0) eqn:El; go_bool; [vm_compute; done |].
    destruct (1000 <=? low) eqn:?; go_bool; [vm_compute; done | lia].
  - pose proof (Z.quot_pos high 10 ltac:(lia) ltac:(lia)).
    pose proof (λ H, Z.quot_lt high 10 H ltac:(lia)).
    destruct (low <=? 0) eqn:El; go_bool;
      (destruct (high <=? _) eqn:?; go_bool; [| lia]); repeat split; lia.
Qed.

Lemma flow_inv_initial high low :
  let s := initial high low in inv (highWatermark (ctl s)) (lowWatermark (ctl s)) s.
Proof.
  pose proof (NewController_watermarks high low) as (Hl & Hh & _).
  split; cbn in *; try done; try lia. set_solver by lia.
Qed.

(** The waiting senders stay wakeable when the channel set grows and a
    current channel of a blocked controller either stays or is closed. *)
Lemma can_wake_mono fc fc' l :
  ch_closed fc ⊆ ch_closed fc' →
  (blocked fc = true →
     unblockCh fc' = unblockCh fc ∧ blocked fc' = true ∨ unblockCh fc ∈ ch_closed fc') →
  Forall (can_wake fc) l → Forall (can_wake fc') l.
Proof.
  intros Hsub Hch Hl. eapply Forall_impl; [exact Hl |]. intros [|ch| | |]; simpl; try done.
  intros [?|[-> Hb]]; [set_solver |]. destruct (Hch Hb) as [[-> ->]|?]; auto.
Qed.

Lemma flow_inv_acquire high low s i :
  0 < high <= maxInt64 → inv high low s → senders s !! i = Some Acquiring →
  inv high low (let (r, fc) := Acquire_locked (ctl s) in set_sender s i (after_acquire r) fc).
Proof.
  intros Hh [? ? Ho Hc Hb Hf Hbl (Hch1 & Hch2 & Hch3) Hw] Hi. unfold Acquire_locked. rewrite Ho.
  pose proof (holders_nonneg (senders s)) as Hnn.
  pose proof (λ q, holders_insert _ _ _ q Hi) as Hins.
  destruct (blocked (ctl s)) eqn:Eb; cbn [negb].
  - split; cbn; rewrite ?Hins, ?Eb in *; cbn; try done; [lia |].
    apply Forall_insert; [done |]. cbn. auto.
  - specialize (Hf eq_refl). rewrite wrap64_id by (unfold in_int64, minInt64, maxInt64 in *; lia).
    rewrite andb_true_r. cbn [orb]. split; cbn; rewrite ?Hins; cbn; try done; try lia.
    apply Forall_insert; [| done].
    eapply can_wake_mono; [| | exact Hw]; [done |]. by rewrite Eb.
Qed.

Lemma flow_inv_release high low s i :
  0 < low → inv high low s → senders s !! i = Some Holding →
  ∃ fc, Release (ctl s) = Some fc ∧ inv high low (set_sender s i Released fc).
Proof.
  intros Hl [? Elow Ho Hc Hb Hf Hbl (Hch1 & Hch2 & Hch3) Hw] Hi.
  pose proof (λ q, holders_insert _ _ _ q Hi) as Hins.
  assert (0 < pending (ctl s)) as Hp.
  { pose proof (holders_nonneg (<[i:=Released]> (senders s))) as Hn. rewrite Hins in Hn. cbn in Hn. lia. }
  unfold Release. apply Z.ltb_lt in Hp as Hp'. rewrite Hp'. cbn.
  destruct (blocked (ctl s)) eqn:Eb; cbn [andb].
  2: { eexists; split; [done |]. specialize (Hf eq_refl).
       split; cbn; rewrite ?Hins; cbn; try done; try lia.
       apply Forall_insert; [| done]. eapply can_wake_mono; [| | exact Hw]; [done |]. by rewrite Eb. }
  destruct (pending (ctl s) - 1 <=? lowWatermark (ctl s)) eqn:Elo; go_bool.
  - unfold close_channel; cbn. rewrite decide_False by done. cbn. eexists; split; [done |].
    split; cbn; rewrite ?Hins; cbn; try done; try lia.
    + split_and!; [| lia |]; [intros [?%elem_of_singleton|?%Hch3]%elem_of_union; lia |].
      intros c [->%elem_of_singleton|?%Hch3]%elem_of_union; lia.
    + apply Forall_insert; [| done]. eapply can_wake_mono; [| | exact Hw]; set_solver.
  - eexists; split; [done |]. split; cbn; rewrite ?Hins; cbn; try done; try lia.
    apply Forall_insert; [| done]. eapply can_wake_mono; [| | exact Hw]; cbn; auto.
Qed.

Lemma flow_inv_step high low s s' :
  0 < low → 0 < high <= maxInt64 → step s s' → inv high low s → inv high low s'.
Proof.
  intros Hl Hh Hs Hi. destruct Hs.
  - destruct Hi. split; cbn; try done; [rewrite holders_app; simpl; lia |].
    apply Forall_app; split; [done |]. by repeat constructor.
  - by apply flow_inv_acquire.
  - destruct Hi. split; cbn; try done; [erewrite holders_insert by done; simpl; lia |].
    by apply Forall_insert.
  - destruct Hi. split; cbn; try done; [erewrite holders_insert by done; simpl; lia |].
    by apply Forall_insert.
  - destruct (flow_inv_release high low s i Hl Hi H) as (fc' & E & ?). congruence.
Qed.

(** ** Properties *)

Section Reachable.
Context (high0 low0 : Z) (s : system).
Let high := highWatermark (NewController high0 low0).
Let low := lowWatermark (NewController high0 low0).
Hypothesis Hint : high <= maxInt64.
Hypothesis Hreach : rtc step (initial high0 low0) s.

Lemma flow_reachable_inv : inv high low s.
Proof using Hint Hreach.
  pose proof (NewController_watermarks high0 low0) as (? & ? & ?).
  apply (rtc_invariant step (inv high low) (initial high0 low0) s); [| apply flow_inv_initial | done].
  intros a b ? ?. by apply (flow_inv_step high low a b).
Qed.

(** C22. The pending count is exactly the number of senders between [Acquire] and
    [Release], and it never exceeds the high watermark. *)
Theorem pending_bounded :
  Pending (ctl s) = holders (senders s) ∧ 0 <= Pending (ctl s) <= high.
Proof using Hint Hreach.
  destruct flow_reachable_inv. unfold Pending. pose proof (holders_nonneg (senders s)). lia.
Qed.

(** Hysteresis: an open controller has room below the high watermark; a
    blocked one is full, or is still above the low watermark. *)
Theorem hysteresis :
  (IsBlocked (ctl s) = false → Pending (ctl s) < high)
  ∧ (IsBlocked (ctl s) = true → Pending (ctl s) = high ∨ low < Pending (ctl s)).
Proof using Hint Hreach.
  destruct flow_reachable_inv. unfold Pending, IsBlocked. split; [done |]. intros Hb.
  specialize (inv_blocked0 Hb). lia.
Qed.

(** C28. No lost wake-up and no deadlock: every blocked sender either can run
    already (its channel is closed) or waits for a controller that some
    sender is still going to release. *)
Theorem no_lost_wakeup i ch :
  senders s !! i = Some (Waiting ch) →
  ch ∈ ch_closed (ctl s)
  ∨ (ch = unblockCh (ctl s) ∧ IsBlocked (ctl s) = true ∧ ∃ j, senders s !! j = Some Holding).
Proof using Hint Hreach.
  intros Hi. destruct flow_reachable_inv.
  destruct (Forall_lookup_1 _ _ _ _ inv_wake0 Hi) as [?|[-> Hb]]; [by left | right].
  split_and!; [done | done |]. apply holding_exists. specialize (inv_blocked0 Hb). lia.
Qed.

(** [Release] never panics while nobody closes the controller. *)
Theorem Release_no_panic i :
  senders s !! i = Some Holding → is_Some (Release (ctl s)).
Proof using Hint Hreach.
  intros Hi. pose proof (NewController_watermarks high0 low0) as (? & _).
  destruct (flow_inv_release high low s i ltac:(done) flow_reachable_inv Hi) as (fc & -> & _). done.
Qed.
End Reachable.


(** [n] releases in a row. *)
Fixpoint Release_n (n : nat) (fc : Controller) : option Controller :=
  match n with O => Some fc | S n => Release fc ≫= Release_n n end.

Lemma Release_n_open n fc :
  blocked fc = false → 0 <= pending fc → pending fc = Z.of_nat n →
  ∃ fc', Release_n n fc = Some fc' ∧ pending fc' = 0 ∧ blocked fc' = false ∧ ch_closed fc' = ch_closed fc.
Proof.
  revert fc. induction n as [|n IH]; intros fc Hb Hp Hn; cbn [Release_n]; [by exists fc |].
  unfold Release. assert (0 <? pending fc = true) as -> by lia. cbn [set_counts blocked]. rewrite Hb. cbn [andb].
  edestruct (IH (set_counts fc (pending fc - 1) false)) as (fc' & E & ? & ? & ?); cbn; try done; [lia.. |].
  exists fc'. cbn in *. by rewrite E.
Qed.

(** Liveness of the release side: once the senders counted by a blocked
    controller have released, it is open, empty, and the channel its waiters
    hold is closed, so all of them run again. *)
Theorem releases_unblock n fc :
  unblockCh fc ∉ ch_closed fc → 0 < lowWatermark fc → blocked fc = true →
  0 < pending fc → pending fc = Z.of_nat n →
  ∃ fc', Release_n n fc = Some fc' ∧ blocked fc' = false ∧ pending fc' = 0
         ∧ unblockCh fc ∈ ch_closed fc'.
Proof.
  intros Hch Hlow. revert fc Hch Hlow. induction n as [|n IH]; intros fc Hch Hlow Hb Hp Hn; [lia |].
  cbn [Release_n]. unfold Release. assert (0 <? pending fc = true) as -> by lia.
  cbn [set_counts blocked pending lowWatermark]. rewrite Hb. cbn [andb].
  destruct (pending fc - 1 <=? lowWatermark fc) eqn:E; go_bool.
  - unfold close_channel; cbn [set_counts ch_closed unblockCh]. rewrite decide_False by done. cbn.
    edestruct Release_n_open as (fc' & -> & ? & ? & E'); [| | | exists fc'; split_and!; try done]; cbn; try done; [lia.. |].
    rewrite E'. cbn. set_solver.
  - apply (IH (set_counts fc (pending fc - 1) true)); cbn; try done; lia.
Qed.

(** A blocked controller whose senders are released after [Close] panics:
    [Close] closes the current channel without opening the controller, and
    [Release] closes it again. *)
Theorem Close_then_Release_panics :
  ∃ s, rtc step_close (initial 2 1) s ∧ senders s !! 0%nat = Some Holding ∧ Release (ctl s) = None.
Proof.
  assert (∀ a b, step a b → step_close a b) as up by (intros; by apply sc_step).
  eexists. split; [| split].
  - eapply rtc_l; [apply up, step_call |]. eapply rtc_l; [apply up, step_call |].
    eapply rtc_l; [apply up, (step_acquire _ 0%nat); reflexivity |].
    eapply rtc_l; [apply up, (step_acquire _ 1%nat); reflexivity |].
    eapply rtc_l; [apply sc_close; reflexivity |]. apply rtc_refl.
  - reflexivity.
  - vm_compute. reflexivity.
Qed.

(** *** Witnesses *)

(** Three senders on watermarks (2, 1): two hold, the third waits. *)
Definition three_senders : system :=
  {| ctl := set_counts (NewController 2 1) 2 true; senders := [Holding; Holding; Waiting 0] |}.

Lemma three_senders_reachable : rtc step (initial 2 1) three_senders.
Proof.
  do 3 (eapply rtc_l; [apply step_call |]).
  eapply rtc_l; [apply (step_acquire _ 0%nat); reflexivity |].
  eapply rtc_l; [apply (step_acquire _ 1%nat); reflexivity |].
  eapply rtc_l; [apply (step_acquire _ 2%nat); reflexivity |].
  apply rtc_refl.
Qed.

Lemma pending_bounded_witness : Pending (ctl three_senders) = 2 ∧ 0 <= Pending (ctl three_senders) <= 2.
Proof. exact (pending_bounded 2 1 three_senders ltac:(vm_compute; discriminate) three_senders_reachable). Defined.

Lemma hysteresis_witness : Pending (ctl three_senders) = 2 ∨ 1 < Pending (ctl three_senders).
Proof.
  exact (proj2 (hysteresis 2 1 three_senders ltac:(vm_compute; discriminate) three_senders_reachable) eq_refl).
Defined.

Lemma no_lost_wakeup_witness :
  0%nat ∈ ch_closed (ctl three_senders)
  ∨ (0%nat = unblockCh (ctl three_senders) ∧ IsBlocked (ctl three_senders) = true
     ∧ ∃ j, senders three_senders !! j = Some Holding).
Proof.
  exact (no_lost_wakeup 2 1 three_senders ltac:(vm_compute; discriminate) three_senders_reachable 2%nat 0%nat eq_refl).
Defined.

Lemma Release_no_panic_witness : is_Some (Release (ctl three_senders)).
Proof.
  exact (Release_no_panic 2 1 three_senders ltac:(vm_compute; discriminate) three_senders_reachable 0%nat eq_refl).
Defined.

Lemma releases_unblock_witness :
  ∃ fc', Release_n 2 (ctl three_senders) = Some fc' ∧ blocked fc' = false ∧ pending fc' = 0
         ∧ 0%nat ∈ ch_closed fc'.
Proof.
  apply (releases_unblock 2 (ctl three_senders)); cbn; try reflexivity; set_solver.
Defined.
