(* ===== verification/Handshake.v ===== *)
(** * The handshake state machine ([internal/handshake/state.go]) *)

From S2P Require Import Prelude Errors.
Local Open Scope Z_scope.
Local Open Scope go_scope.

Inductive HandshakeState :=
| HandshakeStateInit
| HandshakeStateSentRequest
| HandshakeStateReceivedResponse
| HandshakeStateSentFinalize
| HandshakeStateComplete
| HandshakeStateFailed
| HandshakeStateOther (n : Z).

Global Instance HandshakeState_eq_dec : EqDecision HandshakeState.
Proof. solve_decision. Defined.

Definition HandshakeState_String (s : HandshakeState) : string :=
  match s with
  | HandshakeStateInit => "Init"
  | HandshakeStateSentRequest => "SentRequest"
  | HandshakeStateReceivedResponse => "ReceivedResponse"
  | HandshakeStateSentFinalize => "SentFinalize"
  | HandshakeStateComplete => "Complete"
  | HandshakeStateFailed => "Failed"
  | HandshakeStateOther n => "HandshakeState(" +:+ pretty n +:+ ")"
  end.

Definition ErrInvalidStateTransition := ErrSentinel "ErrInvalidStateTransition".
Definition ErrHandshakeMaxRetries := ErrSentinel "ErrHandshakeMaxRetries".

Definition isValidTransition (from to : HandshakeState) : bool :=
  match from with
  | HandshakeStateInit =>
      bool_decide (to = HandshakeStateSentRequest) || bool_decide (to = HandshakeStateFailed)
  | HandshakeStateSentRequest =>
      bool_decide (to = HandshakeStateReceivedResponse) || bool_decide (to = HandshakeStateSentRequest)
      || bool_decide (to = HandshakeStateFailed)
  | HandshakeStateReceivedResponse =>
      bool_decide (to = HandshakeStateSentFinalize) || bool_decide (to = HandshakeStateReceivedResponse)
      || bool_decide (to = HandshakeStateFailed)
  | HandshakeStateSentFinalize =>
      bool_decide (to = HandshakeStateComplete) || bool_decide (to = HandshakeStateSentFinalize)
      || bool_decide (to = HandshakeStateFailed)
  | HandshakeStateComplete => false
  | HandshakeStateFailed => false
  | HandshakeStateOther _ => false
  end.

Definition isRetryTransition (from to : HandshakeState) : bool :=
  bool_decide (from = to) && negb (bool_decide (from = HandshakeStateInit)).

Record HandshakeStateMachine := {
  state : HandshakeState;
  retries : Z;
  maxRetries : Z;
  lastError : option error;
  startTime : time;
}.

Definition with_state (hsm : HandshakeStateMachine) (s : HandshakeState) (r : Z) : HandshakeStateMachine :=
  {| state := s; retries := r; maxRetries := maxRetries hsm;
     lastError := lastError hsm; startTime := startTime hsm |}.

Definition NewHandshakeStateMachine (max : Z) (now : time) : HandshakeStateMachine :=
  {| state := HandshakeStateInit; retries := 0; maxRetries := if max <? 0 then 0 else max;
     lastError := None; startTime := now |}.

Definition State (hsm : HandshakeStateMachine) : HandshakeState := state hsm.
Definition Retries (hsm : HandshakeStateMachine) : Z := retries hsm.
Definition LastError (hsm : HandshakeStateMachine) : option error := lastError hsm.
Definition Duration (hsm : HandshakeStateMachine) (now : time) : duration := GoTime.Sub now (startTime hsm).

Definition transition_error : error := Errorf "%w: %v -> %v" (Some ErrInvalidStateTransition).

Definition Transition (to : HandshakeState) : ST HandshakeStateMachine (option error) := λ hsm,
  if negb (isValidTransition (state hsm) to)
  then (Some transition_error, hsm)
  else (None, with_state hsm to (retries hsm)).

Definition TransitionWithRetry (to : HandshakeState) : ST HandshakeStateMachine (option error) := λ hsm,
  if negb (isValidTransition (state hsm) to)
  then (Some transition_error, hsm)
  else if isRetryTransition (state hsm) to then
    if maxRetries hsm <=? retries hsm
    then (Some ErrHandshakeMaxRetries, with_state hsm HandshakeStateFailed (retries hsm))
    else (None, with_state hsm to (retries hsm +₆₄ 1))
  else (None, with_state hsm to (retries hsm)).

Definition Fail (err : option error) (hsm : HandshakeStateMachine) : HandshakeStateMachine :=
  {| state := HandshakeStateFailed; retries := retries hsm; maxRetries := maxRetries hsm;
     lastError := err; startTime := startTime hsm |}.

Definition CanRetry (hsm : HandshakeStateMachine) : bool :=
  if bool_decide (state hsm = HandshakeStateFailed) || bool_decide (state hsm = HandshakeStateComplete)
  then false else retries hsm <? maxRetries hsm.

Definition IsComplete (hsm : HandshakeStateMachine) : bool := bool_decide (state hsm = HandshakeStateComplete).
Definition IsFailed (hsm : HandshakeStateMachine) : bool := bool_decide (state hsm = HandshakeStateFailed).
Definition IsTerminal (hsm : HandshakeStateMachine) : bool :=
  bool_decide (state hsm = HandshakeStateComplete) || bool_decide (state hsm = HandshakeStateFailed).

Definition Reset (now : time) (hsm : HandshakeStateMachine) : HandshakeStateMachine :=
  {| state := HandshakeStateInit; retries := 0; maxRetries := maxRetries hsm;
     lastError := None; startTime := now |}.

(** ** Runs *)

(** One call of the API, with the machine before and after. *)
Inductive call :=
| CTransition (to : HandshakeState)
| CTransitionWithRetry (to : HandshakeState)
| CFail (err : option error)
| CReset (now : time).

Definition exec (c : call) (hsm : HandshakeStateMachine) : option error * HandshakeStateMachine :=
  match c with
  | CTransition to => Transition to hsm
  | CTransitionWithRetry to => TransitionWithRetry to hsm
  | CFail e => (None, Fail e hsm)
  | CReset now => (None, Reset now hsm)
  end.

Definition called : relation HandshakeStateMachine := λ h h', ∃ c, h' = (exec c h).2.

(** A [TransitionWithRetry] that returned nil. *)
Definition advanced : relation HandshakeStateMachine := λ h h',
  ∃ to, TransitionWithRetry to h = (None, h').

(** The stages of the protocol in order. *)
Definition rank (s : HandshakeState) : Z :=
  match s with
  | HandshakeStateInit => 0
  | HandshakeStateSentRequest => 1
  | HandshakeStateReceivedResponse => 2
  | HandshakeStateSentFinalize => 3
  | HandshakeStateComplete => 4
  | HandshakeStateFailed => 4
  | HandshakeStateOther _ => 0
  end.

Record inv (hsm : HandshakeStateMachine) : Prop := {
  inv_retries : 0 <= retries hsm <= maxRetries hsm;
  inv_named : match state hsm with HandshakeStateOther _ => False | _ => True end;
  inv_max : maxRetries hsm <= maxInt64;
}.

(** ** Lemmas *)

Ltac hs_cases :=
  unfold Transition, TransitionWithRetry, isValidTransition, isRetryTransition in *;
  repeat (case_match || case_bool_decide); simplify_eq/=; go_bool.

Lemma valid_rank from to :
  isValidTransition from to = true → isRetryTransition from to = false → rank from < rank to.
Proof. destruct from, to; vm_compute; congruence. Qed.

Lemma retry_same from to : isRetryTransition from to = true → from = to.
Proof. unfold isRetryTransition. intros [H%bool_decide_eq_true _]%andb_true_iff. done. Qed.

Lemma valid_named from to :
  isValidTransition from to = true → match to with HandshakeStateOther _ => False | _ => True end.
Proof. by destruct from, to. Qed.

Lemma hsm_inv_new max now : max <= maxInt64 → inv (NewHandshakeStateMachine max now).
Proof.
  intros. unfold NewHandshakeStateMachine. split; cbn; [| done |]; destruct (max <? 0) eqn:E; go_bool;
    unfold maxInt64 in *; lia.
Qed.

Lemma hsm_inv_called h h' : called h h' → inv h → inv h'.
Proof.
  intros [c ->] [Hr Hn Hm]. destruct c as [to|to|e|now]; cbn [exec].
  - unfold Transition. destruct (isValidTransition _ _) eqn:E; cbn; split; try done. by apply valid_named in E.
  - unfold TransitionWithRetry. destruct (isValidTransition _ _) eqn:E; cbn; [| by split].
    apply valid_named in E. destruct (isRetryTransition _ _); [| by split].
    destruct (maxRetries h <=? retries h) eqn:El; cbn; go_bool; split; cbn; try done.
    rewrite wrap64_id; [lia |]. unfold in_int64, minInt64, maxInt64 in *. lia.
  - by split; cbn.
  - split; cbn; try done. lia.
Qed.

(** Every successful step spends one unit of [rank + retries]. *)
Lemma advanced_measure h h' :
  inv h → advanced h h' →
  rank (state h) + retries h < rank (state h') + retries h' ∧ maxRetries h' = maxRetries h.
Proof.
  intros [Hr _ Hm] [to Ht]. unfold TransitionWithRetry in Ht.
  destruct (isValidTransition _ _) eqn:Ev; [| done]. destruct (isRetryTransition _ _) eqn:Er.
  - destruct (_ <=? _) eqn:E; simplify_eq/=. go_bool. apply retry_same in Er as <-.
    rewrite wrap64_id by (unfold in_int64, minInt64, maxInt64 in *; lia). lia.
  - simplify_eq/=. pose proof (valid_rank _ _ Ev Er). lia.
Qed.

Lemma advanced_called h h' : advanced h h' → called h h'.
Proof. intros [to Ht]. exists (CTransitionWithRetry to). cbn. by rewrite Ht. Qed.

Lemma advanced_edge h h' : advanced h h' → isValidTransition (state h) (state h') = true.
Proof.
  intros [to Ht]. unfold TransitionWithRetry in Ht.
  destruct (isValidTransition (state h) to) eqn:Ev; [| done].
  destruct (isRetryTransition _ _); [destruct (_ <=? _) |]; simplify_eq/=; done.
Qed.

(** A run that ends in [s] came through [from], when [from] is the only other
    state with an edge to [s]. *)
Lemma came_through h0 s from h :
  (∀ f, isValidTransition f s = true → f = from ∨ f = s) → state h0 ≠ s →
  rtc advanced h0 h → state h = s →
  ∃ x, rtc advanced h0 x ∧ state x = from ∧ rtc advanced x h.
Proof.
  intros Hpred H0 Hr. revert h Hr. refine (rtc_ind_r _ _ _ _); [done |].
  intros y z Hxy Hyz IH Es.
  pose proof (advanced_edge y z Hyz) as He. rewrite Es in He.
  destruct (Hpred _ He) as [Ef|Ef].
  - exists y. auto using rtc_once.
  - destruct (IH Ef) as (x & ? & ? & ?). exists x. split_and!; [done | done |]. by eapply rtc_r.
Qed.

(** ** Properties *)

(** The retry counter stays within its budget in every reachable machine, and
    the state is always one of the six named ones. *)
Theorem retries_bounded max now h :
  max <= maxInt64 → rtc called (NewHandshakeStateMachine max now) h →
  0 <= Retries h <= Z.max 0 max ∧ maxRetries h = Z.max 0 max.
Proof.
  intros Hm Hr.
  pose proof (rtc_invariant called (λ x, inv x ∧ maxRetries x = Z.max 0 max)
    (NewHandshakeStateMachine max now) h) as Hinv.
  destruct Hinv as [[? _ _] E]; [| | done |].
  - intros a b Hab [Ha Ea]. split; [by eapply hsm_inv_called |]. rewrite <- Ea.
    destruct Hab as [[] ->]; cbn; hs_cases; done.
  - split; [by apply hsm_inv_new |]. cbn. destruct (max <? 0) eqn:E; go_bool; lia.
  - unfold Retries. lia.
Qed.


(** Stages: a run of successful steps from [Init] that completes has sent the
    request, received the response and sent the final message, in that order. *)
Theorem complete_stages h0 h :
  state h0 = HandshakeStateInit → rtc advanced h0 h → IsComplete h = true →
  ∃ h1 h2 h3, rtc advanced h0 h1 ∧ state h1 = HandshakeStateSentRequest
            ∧ rtc advanced h1 h2 ∧ state h2 = HandshakeStateReceivedResponse
            ∧ rtc advanced h2 h3 ∧ state h3 = HandshakeStateSentFinalize ∧ rtc advanced h3 h.
Proof.
  intros H0 Hr Hc%bool_decide_eq_true.
  destruct (came_through h0 HandshakeStateComplete HandshakeStateSentFinalize h) as (h3 & Hr3 & E3 & ?);
    [intros [] ?; (auto; discriminate) || (vm_compute in *; auto; congruence) | congruence | done | done |].
  destruct (came_through h0 HandshakeStateSentFinalize HandshakeStateReceivedResponse h3) as (h2 & Hr2 & E2 & ?);
    [by intros []; auto | congruence | done | done |].
  destruct (came_through h0 HandshakeStateReceivedResponse HandshakeStateSentRequest h2) as (h1 & Hr1 & E1 & ?);
    [by intros []; auto | congruence | done | done |].
  by exists h1, h2, h3.
Qed.

(** Terminal states absorb: neither transition call moves a completed or
    failed machine, both report the sentinel; only [Fail] and [Reset] act. *)
Theorem terminal_absorbs h to :
  IsTerminal h = true →
  Transition to h = (Some transition_error, h)
  ∧ TransitionWithRetry to h = (Some transition_error, h)
  ∧ errors_Is transition_error ErrInvalidStateTransition = true
  ∧ CanRetry h = false
  ∧ ∀ now, State (Reset now h) = HandshakeStateInit.
Proof.
  unfold IsTerminal, Transition, TransitionWithRetry, CanRetry. intros H.
  destruct (state h); try discriminate; by vm_compute.
Qed.

(** An exhausted budget fails the machine without recording an error. *)
Theorem retry_exhausted h :
  isRetryTransition (state h) (state h) = true → isValidTransition (state h) (state h) = true →
  retries h = maxRetries h →
  let (e, h') := TransitionWithRetry (state h) h in
  e = Some ErrHandshakeMaxRetries ∧ IsFailed h' = true ∧ LastError h' = LastError h
  ∧ CanRetry h = false.
Proof.
  intros Hr Hv Hm. unfold TransitionWithRetry. rewrite Hv, Hr, Hm, Z.leb_refl. cbn.
  split_and!; try done. unfold CanRetry. by destruct (_ || _); [| rewrite Hm, Z.ltb_irrefl].
Qed.

(** *** Witnesses *)

Definition fresh_hsm : HandshakeStateMachine := NewHandshakeStateMachine 1 7.

Definition run (cs : list call) (h : HandshakeStateMachine) : HandshakeStateMachine :=
  foldl (λ h c, (exec c h).2) h cs.

Lemma run_called cs h : rtc called h (run cs h).
Proof.
  revert h. induction cs as [|c cs IH]; intros h; [apply rtc_refl |].
  eapply rtc_l; [by exists c |]. apply IH.
Qed.

Definition one_retry : HandshakeStateMachine :=
  run [CTransitionWithRetry HandshakeStateSentRequest; CTransitionWithRetry HandshakeStateSentRequest] fresh_hsm.

Lemma retries_bounded_witness : 0 <= Retries one_retry <= 1.
Proof.
  exact (proj1 (retries_bounded 1 7 one_retry ltac:(unfold maxInt64; lia) (run_called _ fresh_hsm))).
Defined.

Lemma step_adv h to h' : TransitionWithRetry to h = (None, h') → advanced h h'.
Proof. by exists to. Qed.

Lemma fresh_inv : inv fresh_hsm.
Proof. apply (hsm_inv_new 1 7). unfold maxInt64; lia. Qed.


Definition completed : HandshakeStateMachine :=
  run [CTransitionWithRetry HandshakeStateSentRequest; CTransitionWithRetry HandshakeStateReceivedResponse;
       CTransitionWithRetry HandshakeStateSentFinalize; CTransitionWithRetry HandshakeStateComplete] fresh_hsm.

Lemma complete_stages_witness : ∃ h1, rtc advanced fresh_hsm h1 ∧ state h1 = HandshakeStateSentRequest.
Proof.
  destruct (complete_stages fresh_hsm completed eq_refl) as (h1 & _ & _ & Hr & E & _).
  - eapply rtc_l; [by apply (step_adv _ HandshakeStateSentRequest) |].
    eapply rtc_l; [by apply (step_adv _ HandshakeStateReceivedResponse) |].
    eapply rtc_l; [by apply (step_adv _ HandshakeStateSentFinalize) |].
    eapply rtc_l; [by apply (step_adv _ HandshakeStateComplete) |]. apply rtc_refl.
  - reflexivity.
  - by exists h1.
Defined.

Lemma terminal_absorbs_witness : Transition HandshakeStateInit completed = (Some transition_error, completed).
Proof. exact (proj1 (terminal_absorbs completed HandshakeStateInit eq_refl)). Defined.

Lemma retry_exhausted_witness :
  (TransitionWithRetry HandshakeStateSentRequest one_retry).1 = Some ErrHandshakeMaxRetries.
Proof. exact (proj1 (retry_exhausted one_retry eq_refl eq_refl eq_refl)). Defined.
