(* ===== verification/Dispatcher.v ===== *)
(** * Buffered channels and the event dispatcher ([internal/eventdispatch/dispatcher.go])

    [Chan] is the language's buffered channel, used by every component that
    hands values to the application without blocking. *)

From S2P Require Import Prelude Errors ConnState.

(** ** Buffered channels *)

Module Chan.
Record chan (A : Type) := mk { buf : list A; cap : nat; is_closed : bool }.
Arguments mk {A} _ _ _.
Arguments buf {A} _.
Arguments cap {A} _.
Arguments is_closed {A} _.

Section Ops.
Context {A : Type}.

Definition make (n : nat) : chan A := mk [] n false.

(** [select { case c <- v: ... default: ... }]: sends when there is room;
    sending on a closed channel panics ([None]). *)
Definition try_send (v : A) (c : chan A) : option (bool * chan A) :=
  if is_closed c then None
  else if decide (length (buf c) < cap c)
  then Some (true, mk (buf c ++ [v]) (cap c) false)
  else Some (false, c).

(** A receive that does not block: a buffered value, or the zero value
    with [ok = false] once the channel is closed and drained. *)
Inductive recv_result := Value (v : A) | ClosedDrained | WouldBlock.

Definition try_recv (c : chan A) : recv_result * chan A :=
  match buf c with
  | v :: rest => (Value v, mk rest (cap c) (is_closed c))
  | [] => (if is_closed c then ClosedDrained else WouldBlock, c)
  end.

Definition close (c : chan A) : option (chan A) :=
  if is_closed c then None else Some (mk (buf c) (cap c) true).

Definition ok (c : chan A) : Prop := length (buf c) ≤ cap c.

Lemma try_send_ok v c b c' : ok c → try_send v c = Some (b, c') → ok c' ∧ cap c' = cap c.
Proof.
  unfold ok, try_send. intros Hc. destruct (is_closed c); [done |].
  case_decide; intros [= <- <-]; cbn; [rewrite length_app; cbn; split; [lia | done] | done].
Qed.
End Ops.
End Chan.

#[export] Hint Resolve Chan.try_send_ok : go.

(** ** The dispatcher *)

(** [connection.Event] ([manager.go]) and the dispatcher's copy of it. *)
Record Event := {
  PeerID : string;
  State : ConnectionState;
  Error : option error;
  Timestamp : time;
}.

Record ConnectionEvent := {
  ce_PeerID : string;
  ce_State : ConnectionState;
  ce_Error : option error;
  ce_Timestamp : time;
}.

Definition IsError (e : ConnectionEvent) : bool :=
  match ce_Error e with Some _ => true | None => false end.

Record Dispatcher := { events : Chan.chan ConnectionEvent; closed : bool }.

Definition NewDispatcher (bufferSize : nat) : Dispatcher :=
  {| events := Chan.make bufferSize; closed := false |}.

Definition convert (event : Event) : ConnectionEvent :=
  {| ce_PeerID := PeerID event; ce_State := State event;
     ce_Error := Error event; ce_Timestamp := Timestamp event |}.

(** [None] is a panic. *)
Definition EmitEvent (event : Event) (d : Dispatcher) : option Dispatcher :=
  if closed d then Some d
  else
    let evt := convert event in
    match Chan.try_send evt (events d) with
    | None => None
    | Some (_, c) => Some {| events := c; closed := closed d |}
    end.

Definition Events (d : Dispatcher) : Chan.chan ConnectionEvent := events d.

Definition Close (d : Dispatcher) : option Dispatcher :=
  if negb (closed d) then
    match Chan.close (events d) with
    | None => None
    | Some c => Some {| events := c; closed := true |}
    end
  else Some d.

Definition IsClosed (d : Dispatcher) : bool := closed d.

(** ** Histories

    A run of the dispatcher with what the emitters passed in and what the
    application took out; [lost] counts the events dropped on the floor. *)

Record history := {
  disp : Dispatcher;
  emitted : list ConnectionEvent;
  received : list ConnectionEvent;
  lost : nat;
}.

Inductive step : relation history :=
| step_emit h e d : EmitEvent e (disp h) = Some d →
    step h {| disp := d; emitted := emitted h ++ [convert e]; received := received h;
              lost := if decide (length (Chan.buf (events d)) = length (Chan.buf (events (disp h))))
                      then S (lost h) else lost h |}
| step_recv h v c : Chan.try_recv (Events (disp h)) = (Chan.Value v, c) →
    step h {| disp := {| events := c; closed := closed (disp h) |};
              emitted := emitted h; received := received h ++ [v]; lost := lost h |}
| step_close h d : Close (disp h) = Some d →
    step h {| disp := d; emitted := emitted h; received := received h; lost := lost h |}.

Definition initial (n : nat) : history :=
  {| disp := NewDispatcher n; emitted := []; received := []; lost := 0 |}.

Record inv (n : nat) (h : history) : Prop := {
  inv_cap : Chan.cap (events (disp h)) = n;
  inv_ok : Chan.ok (events (disp h));
  inv_flag : Chan.is_closed (events (disp h)) = closed (disp h);
  inv_order : (received h ++ Chan.buf (events (disp h))) `sublist_of` emitted h;
  inv_count : length (received h) + length (Chan.buf (events (disp h))) + lost h = length (emitted h);
}.

(** ** Lemmas *)

Lemma EmitEvent_cases e d :
  Chan.is_closed (events d) = closed d →
  EmitEvent e d =
    if closed d then Some d
    else if decide (length (Chan.buf (events d)) < Chan.cap (events d))
    then Some {| events := Chan.mk (Chan.buf (events d) ++ [convert e]) (Chan.cap (events d)) false;
                 closed := false |}
    else Some d.
Proof.
  intros Hf. destruct d as [[b n c] cl]. unfold EmitEvent, Chan.try_send. cbn in *. subst c.
  destruct cl; [done |]. by case_decide.
Qed.

Lemma dispatcher_inv_step n h h' : step h h' → inv n h → inv n h'.
Proof.
  intros Hs [Hcap Hok Hf Ho Hc]. destruct Hs as [h e d He|h v c Hv|h d Hd].
  - rewrite EmitEvent_cases in He by done.
    assert (d = disp h ∨ d = {| events := Chan.mk (Chan.buf (events (disp h)) ++ [convert e]) n false;
              closed := false |} ∧ closed (disp h) = false ∧ length (Chan.buf (events (disp h))) < n)
      as [->|(-> & Ecl & Hlt)].
    { rewrite Hcap in He. destruct (closed (disp h)); [by left; simplify_eq |].
      case_decide; simplify_eq; auto. }
    + split; cbn; try done; [by apply sublist_inserts_r |].
      rewrite decide_True by done. rewrite length_app; cbn. lia.
    + split; cbn; try done; [unfold Chan.ok; cbn; rewrite length_app; cbn; lia | |].
      * rewrite app_assoc. by apply sublist_app.
      * rewrite decide_False by (rewrite length_app; cbn; lia). rewrite !length_app; cbn. lia.
  - unfold Chan.try_recv, Events in Hv. destruct (Chan.buf (events (disp h))) as [|x rest] eqn:E.
    { by destruct (Chan.is_closed _). }
    simplify_eq/=. unfold Chan.ok in *. rewrite E in *. cbn in *.
    split; cbn; try done; [unfold Chan.ok; cbn; lia | by rewrite <- app_assoc |].
    rewrite length_app; cbn. lia.
  - unfold Close, Chan.close in Hd. rewrite Hf in Hd.
    destruct (closed (disp h)) eqn:Ecl; simplify_eq/=; split; cbn; try done. by rewrite Hf, Ecl.
Qed.

Lemma dispatcher_inv n h : rtc step (initial n) h → inv n h.
Proof.
  intros Hr. refine (rtc_invariant step (inv n) _ _ _ _ Hr).
  - intros a b ? ?. by eapply dispatcher_inv_step.
  - split; cbn; try done. unfold Chan.ok; cbn. lia.
Qed.

(** ** Properties *)


(** No call ever panics: an emit after [Close] is ignored and closing twice
    is harmless. *)
Theorem dispatcher_no_panic n h e :
  rtc step (initial n) h → is_Some (EmitEvent e (disp h)) ∧ is_Some (Close (disp h)).
Proof.
  intros Hr. destruct (dispatcher_inv n h Hr). split.
  - rewrite EmitEvent_cases by done. destruct (closed _); [done |]. by case_decide.
  - unfold Close, Chan.close. rewrite inv_flag0. by destruct (closed (disp h)).
Qed.

(** An event is dropped only when the buffer is full or the dispatcher closed:
    otherwise it is the next one to be received after the buffered ones. *)
Theorem EmitEvent_delivers n h e :
  rtc step (initial n) h → IsClosed (disp h) = false → length (Chan.buf (Events (disp h))) < n →
  ∃ d, EmitEvent e (disp h) = Some d
       ∧ Chan.buf (Events d) = Chan.buf (Events (disp h)) ++ [convert e].
Proof.
  intros Hr Hc Hl. destruct (dispatcher_inv n h Hr). unfold IsClosed, Events in *.
  rewrite EmitEvent_cases, Hc by done. rewrite decide_True by lia. eauto.
Qed.

(** *** Witnesses *)

Definition sample_event : Event :=
  {| PeerID := "peer"; State := StateConnected; Error := None; Timestamp := 0%Z |}.

(** Two emits into a buffer of one: the second is lost. *)
Definition one_lost : history :=
  {| disp := {| events := Chan.mk [convert sample_event] 1 false; closed := false |};
     emitted := [convert sample_event; convert sample_event]; received := []; lost := 1 |}.

Lemma one_lost_reachable : rtc step (initial 1) one_lost.
Proof.
  eapply rtc_l; [by eapply (step_emit _ sample_event) |].
  eapply rtc_l; [by eapply (step_emit _ sample_event) |].
  vm_compute. apply rtc_refl.
Qed.


Lemma dispatcher_no_panic_witness : is_Some (EmitEvent sample_event (disp one_lost)).
Proof. exact (proj1 (dispatcher_no_panic 1 one_lost sample_event one_lost_reachable)). Defined.

Lemma EmitEvent_delivers_witness :
  ∃ d, EmitEvent sample_event (disp (initial 1)) = Some d
       ∧ Chan.buf (Events d) = [convert sample_event].
Proof. apply (EmitEvent_delivers 1 (initial 1)); [apply rtc_refl | reflexivity | cbn; lia]. Defined.
