(* ===== verification/Pool.v ===== *)
(** * Pooled buffers ([internal/pool/buffer.go])

    A [sync.Pool] hands back any buffer that was put in it, or calls [New];
    which one is the runtime's choice, an argument of [Get].  A pointer to a
    slice is modelled by the slice it points to, since a buffer has one owner
    between [Get] and [Put]. *)

From S2P Require Import Prelude.
Local Open Scope Z_scope.

Definition DefaultBufferSize : Z := 4096.
Definition SmallBufferSize : Z := 1024.
Definition LargeBufferSize : Z := 65536.

(** A slice: its bytes and its capacity; what lies between the length and the
    capacity is [spare]. *)
Record buffer := { data : list Z; spare : list Z }.

Definition buf_len (b : buffer) : Z := Z.of_nat (length (data b)).
Definition buf_cap (b : buffer) : Z := Z.of_nat (length (data b) + length (spare b)).

(** [make([]byte, len, cap)] *)
Definition make_buffer (len cap : Z) : buffer :=
  {| data := replicate (Z.to_nat len) 0; spare := replicate (Z.to_nat (cap - len)) 0 |}.

(** [b[:n]] with [n <= cap]. *)
Definition reslice (n : Z) (b : buffer) : buffer :=
  let all := data b ++ spare b in
  {| data := take (Z.to_nat n) all; spare := drop (Z.to_nat n) all |}.

(** [clear(b)] *)
Definition clear (b : buffer) : buffer :=
  {| data := replicate (length (data b)) 0; spare := spare b |}.

Record BufferPool := {
  smallPool : list buffer;
  mediumPool : list buffer;
  largePool : list buffer;
}.

Definition NewBufferPool : BufferPool := {| smallPool := []; mediumPool := []; largePool := [] |}.

(** [sync.Pool.Get] with the runtime's choice: an item of the pool, or [New]. *)
Definition pool_get (choice : option nat) (new_cap : Z) (p : list buffer) : buffer * list buffer :=
  match choice ≫= λ i, (λ b, (b, delete i p)) <$> (p !! i) with
  | Some r => r
  | None => (make_buffer 0 new_cap, p)
  end.

Definition Get (choice : option nat) (size : Z) : ST BufferPool buffer := λ p,
  if size <=? SmallBufferSize then
    let (b, rest) := pool_get choice SmallBufferSize (smallPool p) in
    (reslice 0 b, {| smallPool := rest; mediumPool := mediumPool p; largePool := largePool p |})
  else if size <=? DefaultBufferSize then
    let (b, rest) := pool_get choice DefaultBufferSize (mediumPool p) in
    (reslice 0 b, {| smallPool := smallPool p; mediumPool := rest; largePool := largePool p |})
  else if size <=? LargeBufferSize then
    let (b, rest) := pool_get choice LargeBufferSize (largePool p) in
    (reslice 0 b, {| smallPool := smallPool p; mediumPool := mediumPool p; largePool := rest |})
  else (make_buffer 0 size, p).

Definition Put (buf : option buffer) (p : BufferPool) : BufferPool :=
  match buf with
  | None => p
  | Some buf =>
    let cap := buf_cap buf in
    let buf := reslice 0 buf in
    if cap <=? SmallBufferSize then
      {| smallPool := buf :: smallPool p; mediumPool := mediumPool p; largePool := largePool p |}
    else if cap <=? DefaultBufferSize then
      {| smallPool := smallPool p; mediumPool := buf :: mediumPool p; largePool := largePool p |}
    else if cap <=? LargeBufferSize then
      {| smallPool := smallPool p; mediumPool := mediumPool p; largePool := buf :: largePool p |}
    else p
  end.

Definition GetExact (choice : option nat) (size : Z) : ST BufferPool buffer := λ p,
  let (buf, p) := Get choice size p in
  if buf_cap buf <? size then (make_buffer size size, p)
  else (clear (reslice size buf), p).

(** ** Lemmas *)

Lemma reslice_cap n b : 0 <= n <= buf_cap b → buf_cap (reslice n b) = buf_cap b ∧ buf_len (reslice n b) = n.
Proof.
  unfold buf_cap, buf_len, reslice; cbn. intros. rewrite length_take, length_drop, length_app. lia.
Qed.

Lemma reslice0_cap b : buf_cap (reslice 0 b) = buf_cap b.
Proof. apply reslice_cap. unfold buf_cap. lia. Qed.

Lemma make_buffer_cap l c : 0 <= l <= c → buf_cap (make_buffer l c) = c ∧ buf_len (make_buffer l c) = l.
Proof. unfold buf_cap, buf_len, make_buffer; cbn. rewrite !length_replicate. lia. Qed.

(** What was in a pool is what comes out of it, or a new buffer. *)
Lemma pool_get_P (P : buffer → Prop) choice c p :
  P (make_buffer 0 c) → Forall P p → P (pool_get choice c p).1 ∧ Forall P (pool_get choice c p).2.
Proof.
  intros Hn Hp. unfold pool_get. destruct choice as [i|]; cbn; [| done].
  destruct (p !! i) as [b|] eqn:E; cbn; [| done]. split; [by eapply Forall_lookup_1 |].
  by apply Forall_delete.
Qed.

(** The pools of a program that returns only buffers whose capacity is one of
    the class sizes. *)
Definition sized (p : BufferPool) : Prop :=
  Forall (λ b, buf_cap b = SmallBufferSize) (smallPool p)
  ∧ Forall (λ b, buf_cap b = DefaultBufferSize) (mediumPool p)
  ∧ Forall (λ b, buf_cap b = LargeBufferSize) (largePool p).

Lemma Put_sized b p :
  buf_cap b = SmallBufferSize ∨ buf_cap b = DefaultBufferSize ∨ buf_cap b = LargeBufferSize →
  sized p → sized (Put (Some b) p).
Proof.
  intros Hb (? & ? & ?). unfold Put, sized.
  destruct Hb as [E|[E|E]]; rewrite E; cbn -[buf_cap reslice]; split_and!; try done;
    constructor; rewrite ?reslice0_cap; done.
Qed.

(** ** Properties *)

(** [GetExact] returns exactly the bytes asked for, all zero, whatever the
    pools contain and whichever item the runtime picks. *)
Theorem GetExact_zeroed choice size p :
  0 <= size →
  data (GetExact choice size p).1 = replicate (Z.to_nat size) 0.
Proof.
  intros Hs. unfold GetExact. destruct (Get choice size p) as [b p'].
  destruct (buf_cap b <? size) eqn:E; go_bool; [done |]. cbn.
  destruct (reslice_cap size b ltac:(lia)) as [_ El]. unfold buf_len in El. cbn in El.
  f_equal. lia.
Qed.

(** As long as only class-sized buffers are returned, [Get] meets its
    contract: an empty buffer with at least the requested capacity, and the
    pools stay class-sized. *)
Theorem Get_capacity choice size p :
  sized p →
  let (b, p') := Get choice size p in
  buf_len b = 0 ∧ size <= buf_cap b ∧ sized p' ∧ (buf_cap b <= LargeBufferSize → sized (Put (Some b) p')).
Proof.
  intros (Hs & Hm & Hl). unfold Get.
  assert (∀ c pl, 0 <= c → Forall (λ b, buf_cap b = c) pl →
     buf_cap (pool_get choice c pl).1 = c ∧ Forall (λ b, buf_cap b = c) (pool_get choice c pl).2) as Hg.
  { intros c pl Hc Hpl. apply (pool_get_P (λ b, buf_cap b = c)); [by apply make_buffer_cap | done]. }
  destruct (Hg SmallBufferSize _ ltac:(done) Hs) as [Es ?], (Hg DefaultBufferSize _ ltac:(done) Hm) as [Em ?],
    (Hg LargeBufferSize _ ltac:(done) Hl) as [El ?].
  repeat match goal with
  | |- context [if size <=? ?c then _ else _] => destruct (size <=? c) eqn:?; go_bool
  end.
  4: { destruct (make_buffer_cap 0 size) as [-> ->]; [unfold LargeBufferSize in *; lia |].
       split_and!; [done | lia | done | unfold LargeBufferSize in *; lia]. }
  all: match goal with |- context [pool_get ?ch ?c ?pl] =>
         destruct (pool_get ch c pl) as [b rest]; cbn [fst snd] in * end.
  all: rewrite reslice0_cap; split; [apply reslice_cap; unfold buf_cap; lia |].
  all: split; [lia |]; split; [done |]; intros _; apply Put_sized; [rewrite reslice0_cap; tauto | done].
Qed.

(** Returning a buffer whose capacity lies strictly inside a class breaks the
    contract: a 2048-byte buffer put back is handed out for a request of 4096. *)
Theorem Get_after_odd_Put :
  let p := Put (Some (make_buffer 0 2048)) NewBufferPool in
  buf_cap (Get (Some 0%nat) 4096 p).1 = 2048.
Proof. vm_compute. reflexivity. Qed.

(** *** Witnesses *)

Lemma GetExact_zeroed_witness :
  data (GetExact (Some 0%nat) 3 (Put (Some {| data := [7; 8; 9; 10]; spare := [] |}) NewBufferPool)).1 = [0; 0; 0].
Proof.
  exact (GetExact_zeroed (Some 0%nat) 3 (Put (Some {| data := [7; 8; 9; 10]; spare := [] |}) NewBufferPool) ltac:(lia)).
Defined.

Lemma sized_new : sized NewBufferPool.
Proof. repeat split; constructor. Qed.

Lemma Get_capacity_witness : buf_len (Get None 100 NewBufferPool).1 = 0.
Proof. exact (proj1 (Get_capacity None 100 NewBufferPool sized_new)). Defined.
