(* ===== verification/Interfaces.v ===== *)
(** * Interfaces between components

    What the library takes from go-libp2p and go-multiaddr (code outside the
    repository), and what its own components promise to each other. *)

From Stdlib Require Import Ascii String.
From S2P Require Import Prelude Errors Validation Json.

(** ** Third-party values

    [peer.ID] is a Go string holding raw bytes; its printed form, its decoder
    and the multiaddress type come from libp2p. *)

Class Libp2p := {
  Multiaddr : Type;
  ma_String : Multiaddr → string;
  NewMultiaddr : string → option Multiaddr;
  peer_String : string → string;
  peer_Decode : string → option string;
}.

(** An address reads back as it was printed.  Any string of bytes can stand
    where an identifier is expected; it is printed in base 58, which tells
    different ones apart and is, like an address, plain text. *)
Class Libp2pLaws `{Libp2p} : Prop := {
  ma_parse_print : ∀ m, NewMultiaddr (ma_String m) = Some m;
  ma_utf8 : ∀ m, to_valid (ma_String m) = ma_String m;
  peer_String_inj : ∀ p q, peer_String p = peer_String q → p = q;
  peer_utf8 : ∀ p, to_valid (peer_String p) = peer_String p;
}.

(** The identifiers that can be read back are those [peer.Decode] makes of what
    is printed: not every string is one (the empty one is not). *)
Definition valid_id `{Libp2p} (p : string) : Prop := peer_Decode (peer_String p) = Some p.
Global Instance valid_id_dec `{Libp2p} p : Decision (valid_id p) := decide (peer_Decode (peer_String p) = Some p).

(** A concrete instance, for witnesses: an address or an identifier is printed
    as it is, with [%] and what is not ASCII escaped, and any identifier but
    the empty one is valid. *)
Module Plain.
Definition plain_char (c : ascii) : bool := (nat_of_ascii c <? 128) && negb (nat_of_ascii c =? 37).
Definition nibble (n : nat) : ascii := ascii_of_nat (65 + n).

Fixpoint escape (s : string) : string :=
  match s with
  | "" => ""
  | String c s =>
      if plain_char c then String c (escape s)
      else String (ascii_of_nat 37) (String (nibble (nat_of_ascii c / 16)) (String (nibble (nat_of_ascii c mod 16)) (escape s)))
  end.

Fixpoint unescape (s : string) : string :=
  match s with
  | "" => ""
  | String c s' =>
      if plain_char c then String c (unescape s')
      else match s' with
           | String h (String l s'') => String (ascii_of_nat (16 * (nat_of_ascii h - 65) + (nat_of_ascii l - 65))) (unescape s'')
           | _ => ""
           end
  end.

Lemma unescape_escape s : unescape (escape s) = s.
Proof.
  induction s as [|c s IH]; [done |]. cbn [escape]. destruct (plain_char c) eqn:E; cbn [unescape].
  - by rewrite E, IH.
  - rewrite IH. change (plain_char (ascii_of_nat 37)) with false. cbv iota. f_equal.
    pose proof (nat_ascii_bounded c) as Hc. pose proof (Nat.div_mod_eq (nat_of_ascii c) 16). pose proof (Nat.mod_upper_bound (nat_of_ascii c) 16 ltac:(done)).
    assert (nat_of_ascii c / 16 < 16) by (apply Nat.Div0.div_lt_upper_bound; lia).
    unfold nibble. rewrite !nat_ascii_embedding by lia. rewrite <- (ascii_nat_embedding c) at 3. f_equal. lia.
Qed.

Lemma escape_ascii s : Forall (λ b, (b < 128)%Z) (bytes_of (escape s)).
Proof.
  assert (∀ c s, (nat_of_ascii c < 128)%nat → Forall (λ b, (b < 128)%Z) (bytes_of s) → Forall (λ b, (b < 128)%Z) (bytes_of (String c s))) as Hs.
  { intros c s' Hc Hs. unfold bytes_of. cbn. constructor; [| done]. unfold nat_of_ascii in Hc. lia. }
  induction s as [|c s IH]; [by constructor |]. cbn [escape]. destruct (plain_char c) eqn:E.
  - apply Hs; [| done]. unfold plain_char in E. apply andb_true_iff in E as [E _]. by apply Nat.ltb_lt.
  - pose proof (nat_ascii_bounded c) as Hc. pose proof (Nat.mod_upper_bound (nat_of_ascii c) 16 ltac:(done)).
    assert (nat_of_ascii c / 16 < 16) by (apply Nat.Div0.div_lt_upper_bound; lia).
    unfold nibble. repeat apply Hs; rewrite ?nat_ascii_embedding by lia; try lia; done.
Qed.

Definition instance : Libp2p :=
  {| Multiaddr := string; ma_String := escape; NewMultiaddr s := Some (unescape s);
     peer_String := escape; peer_Decode s := if String.eqb s "" then None else Some (unescape s) |}.
End Plain.
Notation plain_libp2p := Plain.instance.

Lemma plain_libp2p_laws : @Libp2pLaws plain_libp2p.
Proof.
  split; cbn; intros *.
  - by rewrite Plain.unescape_escape.
  - apply to_valid_ascii, Plain.escape_ascii.
  - intros E. by rewrite <- (Plain.unescape_escape p), E, Plain.unescape_escape.
  - apply to_valid_ascii, Plain.escape_ascii.
Qed.

(** ** What the address book promises to the connection manager and the gater

    [A] is the type of addresses.  [UpdateLastSeen] returns the new book only:
    every caller ignores the error. *)

Class PeerBook (B A : Type) := {
  pb_IsBlacklisted : B → string → bool;
  pb_GetPeer : B → string → result error (list A);
  pb_UpdateLastSeen : time → string → B → B;
}.

Class PeerBookLaws (B A : Type) `{PeerBook B A} : Prop := {
  (** only a known peer can be blacklisted *)
  pb_blacklisted_known : ∀ b p, pb_IsBlacklisted b p = true → is_ok (pb_GetPeer b p) = true;
  (** the last-seen time is the only thing [UpdateLastSeen] changes *)
  pb_seen_blacklist : ∀ b now p q, pb_IsBlacklisted (pb_UpdateLastSeen now p b) q = pb_IsBlacklisted b q;
  pb_seen_addrs : ∀ b now p q, pb_GetPeer (pb_UpdateLastSeen now p b) q = pb_GetPeer b q;
}.
