(* ===== verification/Storage.v ===== *)
(** * Address book entries and their file ([pkg/addressbook/types.go], [storage.go])

    A file's content is kept at the level of the JSON document that
    [encoding/json] produces and reads, with the strings that stand in it for
    addresses and peer identifiers; what is not UTF-8 in a key or a value of
    the metadata is lost in it ([written_map]).  [BookText] has the bytes.  The
    entries of the [peers] object are objects (not [null]).  Empty and nil
    slices are identified. *)

From S2P Require Import Prelude Errors Validation Json Interfaces.

Section Storage.
Context `{Libp2p}.

(** ** Entries *)

Record PeerEntry := {
  PeerID : string;
  Multiaddrs : list Multiaddr;
  RawMultiaddrs : list string;
  PublicKey : list Z;
  Metadata : option (gmap string string);
  LastSeen : time;
  Blacklisted : bool;
  CreatedAt : time;
  UpdatedAt : time;
}.

(** A map literal is [nil] or a map; [omitempty] and [Clone] drop empty ones. *)
Definition nonempty_map (m : option (gmap string string)) : option (gmap string string) :=
  match m with
  | Some m => if decide (m = ∅) then None else Some m
  | None => None
  end.

Definition Clone (p : PeerEntry) : PeerEntry :=
  {| PeerID := PeerID p; Multiaddrs := Multiaddrs p; RawMultiaddrs := RawMultiaddrs p;
     PublicKey := PublicKey p; Metadata := nonempty_map (Metadata p); LastSeen := LastSeen p;
     Blacklisted := Blacklisted p; CreatedAt := CreatedAt p; UpdatedAt := UpdatedAt p |}.

(** ** JSON *)

(** [j_peer_id] is [None] when the member is missing. *)
Record json_peer := {
  j_peer_id : option string;
  j_multiaddrs : list string;
  j_public_key : list Z;
  j_metadata : option (gmap string string);
  j_last_seen : time;
  j_blacklisted : bool;
  j_created_at : time;
  j_updated_at : time;
}.

Definition written_metadata (m : option (gmap string string)) : option (gmap string string) :=
  written_map to_valid <$> nonempty_map m.

Definition MarshalJSON (p : PeerEntry) : json_peer :=
  {| j_peer_id := Some (peer_String (PeerID p)); j_multiaddrs := ma_String <$> Multiaddrs p;
     j_public_key := PublicKey p; j_metadata := written_metadata (Metadata p);
     j_last_seen := LastSeen p; j_blacklisted := Blacklisted p;
     j_created_at := CreatedAt p; j_updated_at := UpdatedAt p |}.

(** An undecodable peer identifier fails the decoding, a missing one is the
    empty string; an address that does not parse is skipped. *)
Definition UnmarshalJSON (j : json_peer) : option PeerEntry :=
  match match j_peer_id j with Some s => peer_Decode s | None => Some "" end with
  | None => None
  | Some id =>
      Some {| PeerID := id; Multiaddrs := omap NewMultiaddr (j_multiaddrs j);
              RawMultiaddrs := j_multiaddrs j; PublicKey := j_public_key j;
              Metadata := j_metadata j; LastSeen := j_last_seen j; Blacklisted := j_blacklisted j;
              CreatedAt := j_created_at j; UpdatedAt := j_updated_at j |}
  end.

Record addressBookData := { Version : Z; Peers : gmap string PeerEntry }.

(** The document: [None] for a missing or null [peers] member. *)
Record json_book := { jb_version : Z; jb_peers : option (gmap string json_peer) }.

Definition marshal_book (d : addressBookData) : json_book :=
  {| jb_version := Version d; jb_peers := Some (written_map MarshalJSON (Peers d)) |}.

(** All entries decode, or the document does not. *)
Definition unmarshal_peers (m : gmap string json_peer) : option (gmap string PeerEntry) :=
  let m' := omap UnmarshalJSON m in
  if decide (dom m' = dom m) then Some m' else None.

Definition unmarshal_book (j : json_book) : option (Z * option (gmap string PeerEntry)) :=
  match jb_peers j with
  | None => Some (jb_version j, None)
  | Some m => match unmarshal_peers m with
              | Some ps => Some (jb_version j, Some ps)
              | None => None
              end
  end.

(** ** The file system *)

Inductive content :=
| CEmpty                      (** zero bytes *)
| CCorrupt                    (** not a document, e.g. a partial write *)
| CDoc (j : json_book).

(** [synced] is false between a write and the next [Sync]: a crash may lose
    such a file's content. *)
Record file := { f_content : content; f_synced : bool }.
Notation fs := (gmap string file) (only parsing).

(** The current file system and the ones the operation went through: a crash
    stops at one of them. *)
Record disk := { current : fs; visited : list fs }.

Definition set_fs (f : fs → fs) : ST disk unit := λ d,
  (tt, {| current := f (current d); visited := f (current d) :: visited d |}).

(** [os.Rename]: the target is replaced in one step. *)
Definition rename (src dst : string) (d : fs) : fs :=
  match d !! src with
  | Some f => <[dst := f]> (delete src d)
  | None => d
  end.

(** The outcome of each system call of one [load] or [save]: [None] where the
    call succeeds, or is not made (the directories, when the path has none).
    Directories are not part of the file system. *)
Inductive io_op :=
| OpLockDir | OpLockOpen | OpLock | OpMkdir | OpMarshal | OpRead | OpOpenTemp | OpWrite | OpSync | OpClose
| OpRename | OpRemove | OpBackup.

Notation io := (io_op → option error) (only parsing).
Definition io_ok : io := λ _, None.

Definition currentVersion : Z := 1.
Definition tempFileSuffix : string := ".tmp".
Definition backupFileSuffix : string := ".bak".
Definition lockFileSuffix : string := ".lock".

Definition empty_book : addressBookData := {| Version := currentVersion; Peers := ∅ |}.

(** The lock file is created empty when it is missing, and stays. *)
Definition create_lock (path : string) (d : fs) : fs :=
  match d !! (path +:+ lockFileSuffix) with
  | Some _ => d
  | None => <[path +:+ lockFileSuffix := {| f_content := CEmpty; f_synced := true |}]> d
  end.

Definition acquireFileLock (o : io) (path : string) : ST disk (option error) :=
  match o OpLockDir with
  | Some e => mret (Some (Errorf "failed to create lock directory: %w" (Some e)))
  | None =>
    match o OpLockOpen with
    | Some e => mret (Some (Errorf "failed to open lock file: %w" (Some e)))
    | None =>
      _ ← set_fs (create_lock path);
      match o OpLock with
      | Some e => mret (Some (Errorf "failed to acquire file lock: %w" (Some e)))
      | None => mret None
      end
    end
  end.

Definition load (o : io) (path : string) : ST disk (result error addressBookData) :=
  locked ← acquireFileLock o path;
  match locked with
  | Some e => mret (Err (Errorf "failed to acquire lock for load: %w" (Some e)))
  | None =>
    match o OpRead with
    | Some e => mret (Err (Errorf "failed to read address book: %w" (Some e)))
    | None =>
      d ← st_gets current;
      match d !! path with
      | None => mret (Ok empty_book)
      | Some f =>
        let corrupt :=
          match o OpBackup with
          | Some e => mret (Err (Errorf "failed to parse address book and backup failed: parse error: %w, backup error: %v" None))
          | None =>
              _ ← set_fs (rename path (path +:+ backupFileSuffix));
              mret (Ok empty_book)
          end in
        match f_content f with
        | CEmpty => mret (Ok empty_book)
        | CCorrupt => corrupt
        | CDoc j =>
          match unmarshal_book j with
          | None => corrupt
          | Some (v, ps) => mret (Ok {| Version := v; Peers := default ∅ ps |})
          end
        end
      end
    end
  end.

Definition remove_temp (o : io) (path : string) : ST disk unit :=
  match o OpRemove with
  | Some _ => mret tt
  | None => set_fs (delete (path +:+ tempFileSuffix))
  end.

Definition save (o : io) (path : string) (book : addressBookData) : ST disk (option error) :=
  let tempPath := path +:+ tempFileSuffix in
  locked ← acquireFileLock o path;
  match locked with
  | Some e => mret (Some (Errorf "failed to acquire lock for save: %w" (Some e)))
  | None =>
    match o OpMkdir with
    | Some e => mret (Some (Errorf "failed to create directory: %w" (Some e)))
    | None =>
      match o OpMarshal with
      | Some e => mret (Some (Errorf "failed to marshal address book: %w" (Some e)))
      | None =>
        match o OpOpenTemp with
        | Some e => mret (Some (Errorf "failed to create temporary file: %w" (Some e)))
        | None =>
          _ ← set_fs (<[tempPath := {| f_content := CEmpty; f_synced := false |}]>);
          match o OpWrite with
          | Some e =>
              _ ← set_fs (<[tempPath := {| f_content := CCorrupt; f_synced := false |}]>);
              _ ← remove_temp o path;
              mret (Some (Errorf "failed to write temporary file: %w" (Some e)))
          | None =>
            _ ← set_fs (<[tempPath := {| f_content := CDoc (marshal_book book); f_synced := false |}]>);
            match o OpSync with
            | Some e =>
                _ ← remove_temp o path;
                mret (Some (Errorf "failed to sync temporary file: %w" (Some e)))
            | None =>
              _ ← set_fs (alter (λ f, {| f_content := f_content f; f_synced := true |}) tempPath);
              match o OpClose with
              | Some e =>
                  _ ← remove_temp o path;
                  mret (Some (Errorf "failed to close temporary file: %w" (Some e)))
              | None =>
                match o OpRename with
                | Some e =>
                    _ ← remove_temp o path;
                    mret (Some (Errorf "failed to rename temporary file: %w" (Some e)))
                | None =>
                    _ ← set_fs (rename tempPath path);
                    mret None
                end
              end
            end
          end
        end
      end
    end
  end.
End Storage.

(** What a reload makes of an entry: the raw addresses are the printed ones,
    an empty metadata map is gone, and metadata is what can be written of it. *)
Definition reloaded `{Libp2p} (p : PeerEntry) : PeerEntry :=
  {| PeerID := PeerID p; Multiaddrs := Multiaddrs p; RawMultiaddrs := ma_String <$> Multiaddrs p;
     PublicKey := PublicKey p; Metadata := written_metadata (Metadata p); LastSeen := LastSeen p;
     Blacklisted := Blacklisted p; CreatedAt := CreatedAt p; UpdatedAt := UpdatedAt p |}.

(** ** Lemmas *)

Section Lemmas.
Context `{Libp2pLaws}.

Lemma written_metadata_idem m : written_metadata (written_metadata m) = written_metadata m.
Proof.
  unfold written_metadata, nonempty_map. destruct m as [m|]; [| done]. case_decide as Hm; [done |]. cbn.
  rewrite decide_False by (intros E; by apply Hm, (written_map_empty to_valid)). cbn. f_equal.
  rewrite written_map_utf8 by apply written_map_keys. rewrite <- (map_fmap_id (written_map to_valid m)) at 2.
  apply map_fmap_ext. intros k x (_ & y & _ & _ & ->)%written_map_elem. apply to_valid_idem.
Qed.

(** Metadata in UTF-8 stays as it is. *)
Lemma written_metadata_utf8 m :
  map_Forall (λ k v, to_valid k = k ∧ to_valid v = v) m → written_metadata (Some m) = nonempty_map (Some m).
Proof.
  intros Hm. unfold written_metadata, nonempty_map. case_decide; [done |]. cbn. f_equal.
  rewrite written_map_utf8 by (intros k v Hk; by apply (Hm k v)). rewrite <- (map_fmap_id m) at 2.
  apply map_fmap_ext. intros k v Hk. by apply (Hm k v).
Qed.

Lemma omap_parse_print (l : list Multiaddr) : omap NewMultiaddr (ma_String <$> l) = l.
Proof. induction l as [|m l IH]; [done |]. csimpl. rewrite ma_parse_print. by f_equal. Qed.

(** What can be written and read back: the keys are plain text and the
    identifiers valid. *)
Definition storable (ps : gmap string PeerEntry) : Prop := map_Forall (λ k e, to_valid k = k ∧ valid_id (PeerID e)) ps.

Lemma json_entry_roundtrip p : valid_id (PeerID p) → UnmarshalJSON (MarshalJSON p) = Some (reloaded p).
Proof.
  intros Hp. unfold UnmarshalJSON, MarshalJSON, reloaded; cbn. by rewrite Hp, omap_parse_print.
Qed.

Lemma json_book_roundtrip d :
  storable (Peers d) → unmarshal_book (marshal_book d) = Some (Version d, Some (reloaded <$> Peers d)).
Proof.
  intros Hd. unfold unmarshal_book, marshal_book, unmarshal_peers; cbn.
  rewrite written_map_utf8 by (intros k e Hk; by apply (Hd k e)).
  assert (omap UnmarshalJSON (MarshalJSON <$> Peers d) = reloaded <$> Peers d) as ->.
  { apply map_eq. intros k. rewrite lookup_omap, !lookup_fmap.
    destruct (Peers d !! k) as [p|] eqn:Hk; [| done]. cbn. apply json_entry_roundtrip. by apply (Hd k p). }
  by rewrite decide_True by (by rewrite !dom_fmap_L).
Qed.

(** One identifier that cannot be decoded, and none of the file can. *)
Lemma json_book_invalid d k e :
  utf8_keys (Peers d) → Peers d !! k = Some e → peer_Decode (peer_String (PeerID e)) = None → unmarshal_book (marshal_book d) = None.
Proof.
  intros Hd Hk He. unfold unmarshal_book, marshal_book, unmarshal_peers; cbn. rewrite written_map_utf8 by done.
  rewrite decide_False; [done |]. intros E.
  assert (k ∈ dom (MarshalJSON <$> Peers d)) as Hin by (rewrite dom_fmap_L; by eapply elem_of_dom_2).
  rewrite <- E in Hin. apply elem_of_dom in Hin as [x Hx]. rewrite lookup_omap, lookup_fmap, Hk in Hx. cbn in Hx.
  unfold UnmarshalJSON in Hx. cbn in Hx. by rewrite He in Hx.
Qed.

Lemma suffix_ne (s t : string) : t ≠ ""%string → s +:+ t ≠ s.
Proof.
  intros Ht Hs. apply (f_equal String.length) in Hs.
  assert (∀ a b, String.length (a +:+ b) = String.length a + String.length b) as Hl.
  { intros a b. induction a as [|c a IH]; [done |].
    change (S (String.length (a +:+ b)) = S (String.length a + String.length b)). by rewrite IH. }
  rewrite Hl in Hs. destruct t; [done |]. cbn in Hs. lia.
Qed.

Lemma temp_ne path : path +:+ tempFileSuffix ≠ path.
Proof. by apply suffix_ne. Qed.

Lemma append_inj_r (s t u : string) : s +:+ t = s +:+ u → t = u.
Proof. induction s as [|c s IH]; [done |]. intros [=E]. by apply IH. Qed.

(** The lock file is none of the others. *)
Lemma lock_ne path : path +:+ lockFileSuffix ≠ path.
Proof. by apply suffix_ne. Qed.

Lemma create_lock_ne path (d : gmap string file) q :
  q ≠ path +:+ lockFileSuffix → create_lock path d !! q = d !! q.
Proof. intros Hq. unfold create_lock. case_match; [done |]. by apply lookup_insert_ne. Qed.

(** The file systems an operation visits after [d], newest first. *)
Definition trace_of {A} (m : ST disk A) (d : gmap string file) : list (gmap string file) :=
  visited (m {| current := d; visited := [] |}).2.

(** What [save] does to the target file, on success and on failure, and what
    a crash would leave of it at every point in between. *)
Definition same_or_new (path : string) (d : gmap string file) (book : addressBookData)
    (d' : gmap string file) : Prop :=
  d' !! path = d !! path
  ∨ d' !! path = Some {| f_content := CDoc (marshal_book book); f_synced := true |}.
End Lemmas.

Ltac save_cases :=
  unfold save, acquireFileLock, remove_temp, set_fs, mret, ST_ret, mbind, ST_bind;
  repeat (case_match; simplify_eq/=).

Section Properties.
Context `{Libp2pLaws}.

(** The temporary file is not the target: writing it leaves the target alone. *)
Lemma lookup_temp path (d : gmap string file) f :
  (<[path +:+ tempFileSuffix := f]> d) !! path = d !! path.
Proof. apply lookup_insert_ne, temp_ne. Qed.

Lemma alter_temp path (d : gmap string file) g :
  (alter g (path +:+ tempFileSuffix) d) !! path = d !! path.
Proof. apply lookup_alter_ne, temp_ne. Qed.

Lemma delete_temp path (d : gmap string file) :
  (delete (path +:+ tempFileSuffix) d) !! path = d !! path.
Proof. apply lookup_delete_ne, temp_ne. Qed.

Lemma create_lock_path path (d : gmap string file) : create_lock path d !! path = d !! path.
Proof. apply create_lock_ne, not_eq_sym, lock_ne. Qed.

Lemma create_lock_temp path (d : gmap string file) :
  create_lock path d !! (path +:+ tempFileSuffix) = d !! (path +:+ tempFileSuffix).
Proof. apply create_lock_ne. by intros ?%append_inj_r. Qed.
End Properties.

Create Rewrite HintDb storage.
#[export] Hint Rewrite @lookup_temp @alter_temp @delete_temp @create_lock_path @create_lock_temp : storage.

(** ** What [save] and [load] promise *)

Section Theorems.
Context `{Libp2pLaws}.

(** The write-to-temporary-then-rename protocol, on all its branches: every
    file system [save] goes through agrees with the old one outside the target,
    the temporary file and the lock file, and has the old target or the complete, synced new
    one. *)
Definition save_step_ok (path : string) (book : addressBookData) (d d' : gmap string file) : Prop :=
  same_or_new path d book d'
  ∧ ∀ q, q ≠ path → q ≠ path +:+ tempFileSuffix → q ≠ path +:+ lockFileSuffix → d' !! q = d !! q.

(** Each step of [save] on the temporary file changes nothing else. *)
Lemma step_temp path book d d' d'' :
  save_step_ok path book d d' →
  (∀ q, q ≠ path +:+ tempFileSuffix → d'' !! q = d' !! q) → save_step_ok path book d d''.
Proof.
  intros [Hp Hq] Hd. split.
  - unfold same_or_new in *. by rewrite Hd by apply not_eq_sym, temp_ne.
  - intros q ???. rewrite Hd by done. by apply Hq.
Qed.
Lemma step_rename path book d d' f :
  save_step_ok path book d d' →
  d' !! (path +:+ tempFileSuffix) = Some f → f = {| f_content := CDoc (marshal_book book); f_synced := true |} →
  save_step_ok path book d (rename (path +:+ tempFileSuffix) path d').
Proof.
  intros [Hp Hq] Hf ->. unfold rename. rewrite Hf. split.
  - right. by rewrite lookup_insert_eq.
  - intros q ???. rewrite lookup_insert_ne, lookup_delete_ne by congruence. by apply Hq.
Qed.

Lemma step_refl path book d : save_step_ok path book d d.
Proof. split; [by left | done]. Qed.

Lemma step_lock path book d : save_step_ok path book d (create_lock path d).
Proof. split; [left; apply create_lock_path |]. intros. by apply create_lock_ne. Qed.

Lemma step_insert path book d d' f :
  save_step_ok path book d d' → save_step_ok path book d (<[path +:+ tempFileSuffix := f]> d').
Proof. intros. eapply step_temp; [done |]. intros. by apply lookup_insert_ne. Qed.

Lemma step_alter path book d d' g :
  save_step_ok path book d d' → save_step_ok path book d (alter g (path +:+ tempFileSuffix) d').
Proof. intros. eapply step_temp; [done |]. intros. by apply lookup_alter_ne. Qed.

Lemma step_delete path book d d' :
  save_step_ok path book d d' → save_step_ok path book d (delete (path +:+ tempFileSuffix) d').
Proof. intros. eapply step_temp; [done |]. intros. by apply lookup_delete_ne. Qed.

Ltac save_steps :=
  repeat first [simple apply step_insert | simple apply step_alter | simple apply step_delete];
  lazymatch goal with |- save_step_ok _ _ ?d ?d => apply step_refl | |- save_step_ok _ _ _ (create_lock _ _) => apply step_lock | _ => idtac end.

Lemma save_visited o path book d d' :
  d' ∈ trace_of (save o path book) d → save_step_ok path book d d'.
Proof.
  unfold trace_of. save_cases; intros Hin; try by apply elem_of_nil in Hin.
  all: repeat (apply elem_of_cons in Hin as [->|Hin]); try by apply elem_of_nil in Hin.
  all: save_steps.
  eapply step_rename.
  - save_steps.
  - rewrite lookup_alter_eq, lookup_insert_eq. done.
  - done.
Qed.

(** What [save] leaves when it returns. *)
Lemma save_final o path book d :
  let r := save o path book {| current := d; visited := [] |} in
  match r.1 with
  | None => (current r.2) !! path = Some {| f_content := CDoc (marshal_book book); f_synced := true |}
            ∧ (current r.2) !! (path +:+ tempFileSuffix) = None
  | Some _ => (current r.2) !! path = d !! path
              ∧ (o OpRemove = None → (current r.2) !! (path +:+ tempFileSuffix) = None ∨ (current r.2) !! (path +:+ tempFileSuffix) = d !! (path +:+ tempFileSuffix))
  end.
Proof.
  pose proof (temp_ne path) as Hne.
  save_cases; try (split; [autorewrite with storage; done | intros ?; simplify_eq; auto using create_lock_temp]).
  all: try (left; by rewrite lookup_delete_eq).
  unfold rename. rewrite lookup_alter_eq, lookup_insert_eq. cbn.
  rewrite lookup_insert_eq, lookup_insert_ne, lookup_delete_eq by done. done.
Qed.

(** The lock can be taken. *)
Definition lock_ok (o : io_op → option error) : Prop :=
  o OpLockDir = None ∧ o OpLockOpen = None ∧ o OpLock = None.

(** [load] after a successful [save] reads the saved entries back. *)
Lemma load_document o path d j v ps :
  lock_ok o → o OpRead = None → (current d) !! path = Some {| f_content := CDoc j; f_synced := true |} →
  unmarshal_book j = Some (v, Some ps) →
  (load o path d).1 = Ok {| Version := v; Peers := ps |}.
Proof.
  intros (Hd & Ho & Hl) Hr Hf Hj. unfold load, acquireFileLock, set_fs. rewrite Hd, Ho, Hl, Hr.
  unfold mbind, ST_bind, mret, ST_ret, st_gets. cbn. rewrite create_lock_path, Hf. cbn. by rewrite Hj.
Qed.

(** Lists of visited states grow at the front only. *)
Lemma save_current_visited o path book d l :
  (save o path book {| current := d; visited := l |}).1 = (save o path book {| current := d; visited := [] |}).1
  ∧ current (save o path book {| current := d; visited := l |}).2
    = current (save o path book {| current := d; visited := [] |}).2.
Proof. save_cases; done. Qed.
End Theorems.

(** The address book file survives a crash at any point of [save]: in every
    file system the call goes through, whatever system call fails, the file is
    the old one or the complete and synced new document, and no file other
    than the target, its temporary sibling and its lock file is touched. *)
Theorem save_crash_safe `{Libp2pLaws} o path book d d' :
  d' ∈ trace_of (save o path book) d →
  (d' !! path = d !! path ∨ d' !! path = Some {| f_content := CDoc (marshal_book book); f_synced := true |})
  ∧ ∀ q, q ≠ path → q ≠ path +:+ tempFileSuffix → q ≠ path +:+ lockFileSuffix → d' !! q = d !! q.
Proof. apply save_visited. Qed.

(** A [save] that reports success followed by a [load] that can lock and read
    the file returns every entry saved, up to the raw form of its addresses and
    to what is not UTF-8 in its metadata, provided that every identifier is one
    that can be decoded; a [save] that reports an error leaves the file as it
    was. *)
Theorem save_load `{Libp2pLaws} o o' path book d :
  let r := save o path book {| current := d; visited := [] |} in
  match r.1 with
  | None => storable (Peers book) → lock_ok o' → o' OpRead = None →
            (load o' path r.2).1 = Ok {| Version := Version book; Peers := reloaded <$> Peers book |}
  | Some _ => (current r.2) !! path = d !! path
  end.
Proof.
  pose proof (save_final o path book d) as Hf. cbv zeta in *.
  destruct (save o path book _) as [[e|] d']; cbn in *; [by destruct Hf |].
  intros Hb Hl Hr. destruct Hf as [Hf _].
  by rewrite (load_document o' path d' _ _ _ Hl Hr Hf (json_book_roundtrip book Hb)).
Qed.

(** ** Witnesses *)

(** The rename fails: every state up to the removal of the temporary file. *)
Definition rename_fails : io_op → option error :=
  λ op, match op with OpRename => Some ErrNodeNotStarted | _ => None end.

Definition one_peer : PeerEntry (H := plain_libp2p) :=
  {| PeerID := "Qm1"; Multiaddrs := ["/ip4/10.0.0.1/tcp/4001" : @Multiaddr plain_libp2p];
     RawMultiaddrs := []; PublicKey := [1%Z]; Metadata := Some ∅; LastSeen := 7%Z; Blacklisted := true;
     CreatedAt := 5%Z; UpdatedAt := 7%Z |}.
Definition one_book : addressBookData (H := plain_libp2p) :=
  {| Version := 1%Z; Peers := {["Qm1" := one_peer]} |}.

Lemma save_crash_safe_witness :
  let d : gmap string file := {["book.json" := {| f_content := CEmpty; f_synced := true |}]} in
  let d' := <["book.json.tmp" := {| f_content := CEmpty; f_synced := false |}]> (create_lock "book.json" d) in
  d' ∈ trace_of (save rename_fails "book.json" one_book) d
  ∧ (d' !! "book.json" = d !! "book.json"
     ∨ d' !! "book.json" = Some {| f_content := CDoc (marshal_book one_book); f_synced := true |}).
Proof.
  cbv zeta.
  match goal with |- ?P ∧ _ => assert (Hin : P) by (do 3 right; left) end.
  split; [exact Hin |]. exact (proj1 (save_crash_safe (H0 := plain_libp2p_laws) _ _ _ _ _ Hin)).
Defined.

Lemma save_load_witness :
  let r := save io_ok "book.json" one_book {| current := ∅; visited := [] |} in
  r.1 = None ∧ (load io_ok "book.json" r.2).1 = Ok {| Version := 1%Z; Peers := reloaded <$> Peers one_book |}.
Proof.
  split; [reflexivity |].
  assert (storable (H := plain_libp2p) (Peers one_book)) as Hb by (by apply map_Forall_singleton).
  exact (save_load (H0 := plain_libp2p_laws) io_ok io_ok "book.json" one_book ∅ Hb (conj eq_refl (conj eq_refl eq_refl)) eq_refl).
Defined.
