(* ===== verification/BookText.v ===== *)
(** * The text of the address book's file ([pkg/addressbook/types.go], [storage.go])

    The bytes that [json.MarshalIndent] makes of an address book, and what
    [json.Unmarshal] makes of bytes: the members of an entry in the order of
    the struct that [MarshalJSON] builds, what [omitempty] leaves out, the
    reading of names in any case.  [zone] is the offset, in minutes, that an
    instant is shown with.  Documents in which an object names a member twice,
    entries that are [null], times written with escapes, and nesting beyond
    the decoder's limit of 10000 are left out. *)

From S2P Require Import Prelude Errors Validation Json Rfc3339 Base64 JsonRead Interfaces Storage.
Local Open Scope Z_scope.

(** ** Writing *)

Section BookText.
Context `{Libp2p} (zone : time → Z).

Definition entry_json (p : PeerEntry) : option json :=
  last_seen ← jtime zone (LastSeen p); created_at ← jtime zone (CreatedAt p); updated_at ← jtime zone (UpdatedAt p);
  Some (JObj (field "peer_id" (jstr (peer_String (PeerID p)))
    ++ omit (length (PublicKey p) =? 0)%nat "public_key" (JStr (b64_encode (PublicKey p)))
    ++ match nonempty_map (Metadata p) with Some m => field "metadata" (jmap jstr m) | None => [] end
    ++ field "last_seen" last_seen ++ field "blacklisted" (JBool (Blacklisted p))
    ++ field "created_at" created_at ++ field "updated_at" updated_at
    ++ field "multiaddrs" (JArr ((λ m, jstr (ma_String m)) <$> Multiaddrs p)))).

Definition book_json (d : addressBookData) : option json :=
  peers ← mapM (λ x : string * PeerEntry, j ← entry_json x.2; Some (bytes_of x.1, j)) (sorted_members (Peers d));
  Some (JObj (field "version" (jint (Version d)) ++ field "peers" (JObj peers))).

(** [json.MarshalIndent(book, "", "  ")]; [None] where it fails. *)
Definition book_text (d : addressBookData) : option (list Z) := print indented 0 <$> book_json d.
End BookText.

(** ** Reading *)

Definition read_metadata (cur : option (gmap string string)) (j : json) : option (option (gmap string string)) :=
  match j with JObj l => Some <$> read_map (read_string "") (default ∅ cur) l | JNull => Some None | _ => None end.

(** The identifier's own decoder is given [null] too, and reads an empty
    string in it. *)
Definition read_id (j : json) : option (option string) :=
  match j with JStr s => Some (Some (string_of s)) | JNull => Some (Some "") | _ => None end.

Definition zero_peer : json_peer :=
  {| j_peer_id := None; j_multiaddrs := []; j_public_key := []; j_metadata := None; j_last_seen := GoTime.zero;
     j_blacklisted := false; j_created_at := GoTime.zero; j_updated_at := GoTime.zero |}.

(** A member whose name is no field's is skipped. *)
Definition read_member (p : json_peer) (x : list Z * json) : option json_peer :=
  let with_ id addrs key md seen bl created updated :=
    {| j_peer_id := id; j_multiaddrs := addrs; j_public_key := key; j_metadata := md; j_last_seen := seen;
       j_blacklisted := bl; j_created_at := created; j_updated_at := updated |} in
  let id := j_peer_id p in let addrs := j_multiaddrs p in let key := j_public_key p in let md := j_metadata p in
  let seen := j_last_seen p in let bl := j_blacklisted p in let created := j_created_at p in let updated := j_updated_at p in
  let (k, j) := x in
  if is_field "peer_id" k then id ← read_id j; Some (with_ id addrs key md seen bl created updated)
  else if is_field "public_key" k then key ← read_bytes j; Some (with_ id addrs key md seen bl created updated)
  else if is_field "metadata" k then md ← read_metadata md j; Some (with_ id addrs key md seen bl created updated)
  else if is_field "last_seen" k then seen ← read_time seen j; Some (with_ id addrs key md seen bl created updated)
  else if is_field "blacklisted" k then bl ← read_bool bl j; Some (with_ id addrs key md seen bl created updated)
  else if is_field "created_at" k then created ← read_time created j; Some (with_ id addrs key md seen bl created updated)
  else if is_field "updated_at" k then updated ← read_time updated j; Some (with_ id addrs key md seen bl created updated)
  else if is_field "multiaddrs" k then addrs ← read_strings j; Some (with_ id addrs key md seen bl created updated)
  else Some p.

Definition read_entry (j : json) : option json_peer :=
  match j with JObj l => foldl (λ acc x, p ← acc; read_member p x) (Some zero_peer) l | _ => None end.

Definition read_peers (cur : option (gmap string json_peer)) (j : json) : option (option (gmap string json_peer)) :=
  match j with JObj l => Some <$> read_map read_entry (default ∅ cur) l | JNull => Some None | _ => None end.

Definition read_book_member (b : json_book) (x : list Z * json) : option json_book :=
  let (k, j) := x in
  if is_field "version" k then v ← read_int (jb_version b) j; Some {| jb_version := v; jb_peers := jb_peers b |}
  else if is_field "peers" k then ps ← read_peers (jb_peers b) j; Some {| jb_version := jb_version b; jb_peers := ps |}
  else Some b.

Definition zero_book : json_book := {| jb_version := 0; jb_peers := None |}.
Definition read_book (j : json) : option json_book :=
  match j with
  | JObj l => foldl (λ acc x, b ← acc; read_book_member b x) (Some zero_book) l
  | JNull => Some zero_book
  | _ => None
  end.

(** What [load] takes the bytes of a file for, up to the entries' own
    decoding. *)
Definition content_of (text : list Z) : content :=
  match text with
  | [] => CEmpty
  | _ => match parse text ≫= read_book with Some j => CDoc j | None => CCorrupt end
  end.

(** ** Reading what was written *)

Lemma read_jmetadata m : read_metadata None (sanitize (jmap jstr m)) = Some (Some (written_map to_valid m)).
Proof.
  unfold read_metadata. pose proof (read_jmap (read_string "") jstr to_valid m (λ _ _ _, eq_refl)) as E.
  unfold jmap in *. cbn [sanitize default] in *. by rewrite E.
Qed.

Section RoundTrip.
Context `{Libp2pLaws} (zone : time → Z).

Lemma read_addrs (l : list Multiaddr) : read_strings (sanitize (JArr ((λ m, jstr (ma_String m)) <$> l))) = Some (ma_String <$> l).
Proof.
  cbn [sanitize read_strings]. apply mapM_Some_2. induction l as [|m l IH]; [constructor |].
  cbn. constructor; [| done]. unfold jstr. cbn. f_equal. apply ma_utf8.
Qed.

Lemma addrs_well_formed (l : list Multiaddr) : well_formed (JArr ((λ m, jstr (ma_String m)) <$> l)).
Proof. cbn [well_formed]. induction l as [|m l IH]; cbn; [done | split; [apply bytes_of_bytes | done]]. Qed.

Lemma read_entry_json p j :
  entry_json zone p = Some j → Forall is_byte (PublicKey p) → read_entry (sanitize j) = Some (MarshalJSON p) ∧ well_formed j.
Proof.
  unfold entry_json. intros Hj Hk.
  destruct (jtime zone (LastSeen p)) as [js|] eqn:Es; [| done]. destruct (jtime zone (CreatedAt p)) as [jc|] eqn:Ec; [| done].
  destruct (jtime zone (UpdatedAt p)) as [ju|] eqn:Eu; [| done]. cbn [mbind option_bind] in Hj. injection Hj as <-.
  destruct (read_jtime _ GoTime.zero _ _ Es) as [Rs Ws]. destruct (read_jtime _ GoTime.zero _ _ Ec) as [Rc Wc].
  destruct (read_jtime _ GoTime.zero _ _ Eu) as [Ru Wu]. pose proof (read_addrs (Multiaddrs p)) as Ra.
  assert (read_id (sanitize (jstr (peer_String (PeerID p)))) = Some (Some (peer_String (PeerID p)))) as Ri by (cbn; do 2 f_equal; apply peer_utf8).
  assert (read_bytes (sanitize (JStr (b64_encode (PublicKey p)))) = Some (PublicKey p)) as Rk.
  { cbn [sanitize read_bytes]. rewrite ascii_sanitize by (by apply b64_ascii). by apply b64_roundtrip. }
  assert (Forall is_byte (b64_encode (PublicKey p))) as Wk.
  { eapply Forall_impl; [by apply b64_ascii |]. unfold is_byte. cbn. lia. }
  pose proof (addrs_well_formed (Multiaddrs p)) as Wa. pose proof (jmap_well_formed jstr) as Wm.
  unfold MarshalJSON, written_metadata, omit, field. cbn [sanitize app].
  set (jid := jstr _) in *. set (jk := JStr _) in *. set (ja := JArr _) in *.
  split.
  - destruct (PublicKey p) as [|k ks] eqn:Ek; destruct (nonempty_map (Metadata p)) as [m|]; cbn [length Nat.eqb map app fst snd];
      unfold read_entry; cbn [foldl mbind option_bind]; unfold read_member; known_fields;
      unfold zero_peer; cbn [mbind option_bind sanitize read_bool];
      repeat (first [ rewrite Ri | rewrite Rk | rewrite Rs | rewrite Rc | rewrite Ru | rewrite Ra | rewrite read_jmetadata ];
              cbn [mbind option_bind sanitize read_bool j_peer_id j_multiaddrs j_public_key j_metadata j_last_seen j_blacklisted j_created_at j_updated_at]);
      done.
  - destruct (PublicKey p) as [|k ks] eqn:Ek; destruct (nonempty_map (Metadata p)) as [m|]; cbn [length Nat.eqb app];
      cbn [well_formed fold_right fst snd]; split_and!; try done; try apply bytes_of_bytes; apply Wm, jstr_well_formed.
Qed.

(** The text of a book reads back as the book's document. *)
Lemma read_book_json d j :
  book_json zone d = Some j → in_int64 (Version d) → map_Forall (λ _ e, Forall is_byte (PublicKey e)) (Peers d) →
  read_book (sanitize j) = Some (marshal_book d) ∧ well_formed j.
Proof.
  unfold book_json. destruct (mapM _ _) as [ps|] eqn:Eps; [| done]. intros [= <-] Hv Hk.
  assert (Forall2 (λ (x : string * PeerEntry) y, y.1 = bytes_of x.1 ∧ entry_json zone x.2 = Some y.2) (sorted_members (Peers d)) ps) as Hps.
  { apply mapM_Some_1 in Eps. eapply Forall2_impl; [exact Eps |]. cbn. intros x y E.
    destruct (entry_json zone x.2); [| done]. by simplify_eq/=. }
  set (g := λ e : PeerEntry, default JNull (entry_json zone e)).
  assert (ps = (λ x, (bytes_of x.1, g x.2)) <$> sorted_members (Peers d)) as ->.
  { clear Eps. induction Hps as [|[k e] [k' j] l l' [E1 E2] _ IH]; [done |]. cbn in *. unfold g at 1. rewrite E2. cbn. by rewrite E1, IH. }
  assert (∀ k e, (k, e) ∈ sorted_members (Peers d) → read_entry (sanitize (g e)) = Some (MarshalJSON e) ∧ well_formed (g e)) as Hg.
  { intros k e Hin. destruct (list_elem_of_lookup_1 _ _ Hin) as [i Hi].
    destruct (Forall2_lookup_l _ _ _ _ _ Hps Hi) as ([k' j] & _ & _ & E). cbn in E. unfold g. rewrite E. cbn [default].
    apply read_entry_json; [done |]. by apply (Hk k), elem_of_sorted_members. }
  split.
  - unfold read_book, field. cbn [sanitize map app fst snd foldl mbind option_bind]. unfold read_book_member. known_fields.
    unfold jint. cbn [sanitize read_int]. rewrite parse_print_int by done. cbn [mbind option_bind].
    unfold read_peers. cbn [jb_peers zero_book default]. rewrite (read_map_members read_entry g MarshalJSON); [done |].
    intros k e Hin. by apply (Hg k).
  - unfold field. cbn [well_formed app fold_right fst snd]. destruct (print_int_number (Version d) Hv) as [Hn1 Hn2].
    split_and!; try done; try apply bytes_of_bytes. clear -Hg.
    induction (sorted_members (Peers d)) as [|[k e] l IH]; cbn; [done |]. split.
    + split; [apply bytes_of_bytes | apply (Hg k); by left].
    + apply IH. intros k' e' Hin. apply (Hg k'). by right.
Qed.
End RoundTrip.

(** C7. What is saved is what is read.  Whenever [MarshalIndent] makes bytes of an
    address book, in whatever zone its times are shown, [Unmarshal] takes these
    bytes for the document that [save] and [load] exchange: every member in
    its place, what is not UTF-8 in a key or a value of the metadata replaced,
    nothing else changed. *)
Theorem book_text_roundtrip `{Libp2pLaws} zone d text :
  book_text zone d = Some text → in_int64 (Version d) → map_Forall (λ _ e, Forall is_byte (PublicKey e)) (Peers d) →
  content_of text = CDoc (marshal_book d).
Proof.
  unfold book_text. intros (j & Hj & ->)%fmap_Some Hv Hk. destruct (read_book_json zone d j Hj Hv Hk) as [Hr Hw].
  unfold content_of. rewrite (parse_print indented indented_ok 0 j Hw). cbn [mbind option_bind]. rewrite Hr.
  destruct (print_head indented 0 j Hw) as (c & l & -> & _). done.
Qed.

(** When there are no bytes: some time of the book is out of the range of its
    text, in the zone it is shown in. *)
Lemma book_text_total `{Libp2p} zone d :
  (∀ k e, Peers d !! k = Some e → ∀ t, t ∈ [LastSeen e; CreatedAt e; UpdatedAt e] → json_range (zone t) t = true) →
  is_Some (book_text zone d).
Proof.
  intros Hd. unfold book_text. apply fmap_is_Some. unfold book_json.
  assert (is_Some (mapM (λ x : string * PeerEntry, j ← entry_json zone x.2; Some (bytes_of x.1, j)) (sorted_members (Peers d)))) as [ps ->]; [| eauto].
  apply mapM_is_Some. apply Forall_forall. intros [k e] Hin%elem_of_sorted_members. specialize (Hd k e Hin). cbn.
  unfold entry_json, jtime. rewrite !Hd by set_solver. cbn. eauto.
Qed.

(** ** Witness *)

Definition text_book : addressBookData (H := plain_libp2p) :=
  {| Version := 1; Peers := {["Qm1" := {| PeerID := "Qm1"; Multiaddrs := ["/ip4/10.0.0.1/tcp/4001" : @Multiaddr plain_libp2p];
       RawMultiaddrs := []; PublicKey := [1; 255]; Metadata := Some {["name" := "a<b"%string]}; LastSeen := GoTime.zero;
       Blacklisted := true; CreatedAt := GoTime.Second * 63844772399 + 120000000; UpdatedAt := GoTime.Second * 63844772400 |}]} |}.
Definition utc_or_paris : time → Z := λ t, if GoTime.IsZero t then 0 else 60.

Definition text_lines : list string :=
  [ "{";
    "  `version`: 1,";
    "  `peers`: {";
    "    `Qm1`: {";
    "      `peer_id`: `Qm1`,";
    "      `public_key`: `Af8=`,";
    "      `metadata`: {";
    "        `name`: `a\u003cb`";
    "      },";
    "      `last_seen`: `0001-01-01T00:00:00Z`,";
    "      `blacklisted`: true,";
    "      `created_at`: `2024-02-29T03:59:59.12+01:00`,";
    "      `updated_at`: `2024-02-29T04:00:00+01:00`,";
    "      `multiaddrs`: [";
    "        `/ip4/10.0.0.1/tcp/4001`";
    "      ]";
    "    }";
    "  }";
    "}" ].
(** The lines, with their quotes. *)
Definition text_bytes : list Z :=
  drop 1 (text_lines ≫= λ l, 10 :: ((λ c, if c =? 96 then 34 else c) <$> bytes_of l)).

Lemma text_book_text : book_text (H := plain_libp2p) utc_or_paris text_book = Some text_bytes.
Proof. vm_compute. reflexivity. Qed.

Lemma book_text_roundtrip_witness : content_of text_bytes = CDoc (marshal_book (H := plain_libp2p) text_book).
Proof.
  apply (book_text_roundtrip (H0 := plain_libp2p_laws) utc_or_paris text_book text_bytes text_book_text).
  - split; discriminate.
  - apply map_Forall_singleton. repeat constructor; discriminate.
Defined.
