(* ===== verification/AddressBook.v ===== *)
(** * The address book ([pkg/addressbook/book.go])

    A [world] is the in-memory book and the disk under it.  Every method holds
    the book's mutex for its whole body, so a method is one function on the
    world; the outcome of its system calls is the [io] it is given, and the
    clock reading is [now].  Entries never escape ([GetPeer] and the lists
    return clones), so the map is a map of values. *)

From S2P Require Import Prelude Errors Validation Json Interfaces Storage.

Section AddressBook.
Context `{Libp2p}.

Notation io := (io_op → option error) (only parsing).

Record Book := {
  path : string;                      (** [storage.path] *)
  peers : gmap string PeerEntry;
  dirty : bool;
  cancelled : bool;                   (** [ctx] is done: the flush loop has stopped *)
}.

Record world := { book : Book; files : disk }.

(** ** Field updates *)

Definition set_peers (ps : gmap string PeerEntry) : ST world unit := λ w,
  (tt, {| book := {| path := path (book w); peers := ps; dirty := dirty (book w); cancelled := cancelled (book w) |};
          files := files w |}).
Definition set_dirty (d : bool) : ST world unit := λ w,
  (tt, {| book := {| path := path (book w); peers := peers (book w); dirty := d; cancelled := cancelled (book w) |};
          files := files w |}).
Definition cancel : ST world unit := λ w,
  (tt, {| book := {| path := path (book w); peers := peers (book w); dirty := dirty (book w); cancelled := true |};
          files := files w |}).

Definition storage_load (o : io) : ST world (result error addressBookData) := λ w,
  let (r, d) := load o (path (book w)) (files w) in (r, {| book := book w; files := d |}).
Definition storage_save (o : io) (data : addressBookData) : ST world (option error) := λ w,
  let (r, d) := save o (path (book w)) data (files w) in (r, {| book := book w; files := d |}).

(** The pointer in [b.peers]: an update of the entry's fields in place. *)
Definition set_entry (key : string) (e : PeerEntry) : ST world unit :=
  ps ← st_gets (λ w : world, peers (book w)); set_peers (<[key := e]> ps).

Definition not_found (peerID : string) : error :=
  Errorf ("peer " +:+ peer_String peerID +:+ " not found") None.

(** ** Operations *)

Definition New (o : io) (p : string) (d : disk) : result error world :=
  match load o p d with
  | (Err e, _) => Err (Errorf "failed to load address book: %w" (Some e))
  | (Ok data, d') =>
      Ok {| book := {| path := p; peers := Peers data; dirty := false; cancelled := false |}; files := d' |}
  end.

Definition saveLocked (o : io) : ST world (option error) :=
  ps ← st_gets (λ w : world, peers (book w));
  r ← storage_save o {| Version := currentVersion; Peers := ps |};
  match r with
  | Some e => mret (Some e)
  | None => _ ← set_dirty false; mret None
  end.

Definition AddPeer (o : io) (now : time) (peerID : string) (addrs : list Multiaddr)
    (metadata : option (gmap string string)) : ST world (option error) :=
  let key := peer_String peerID in
  ps ← st_gets (λ w : world, peers (book w));
  match ps !! key with
  | Some existing =>
      if Blacklisted existing
      then mret (Some (Errorf ("cannot update blacklisted peer " +:+ peer_String peerID) None))
      else
        _ ← set_entry key
              {| PeerID := PeerID existing; Multiaddrs := addrs; RawMultiaddrs := RawMultiaddrs existing;
                 PublicKey := PublicKey existing;
                 Metadata := match metadata with Some m => Some m | None => Metadata existing end;
                 LastSeen := LastSeen existing; Blacklisted := Blacklisted existing;
                 CreatedAt := CreatedAt existing; UpdatedAt := now |};
        saveLocked o
  | None =>
      _ ← set_entry key
            {| PeerID := peerID; Multiaddrs := addrs; RawMultiaddrs := []; PublicKey := [];
               Metadata := metadata; LastSeen := GoTime.zero; Blacklisted := false;
               CreatedAt := now; UpdatedAt := now |};
      saveLocked o
  end.

Definition RemovePeer (o : io) (peerID : string) : ST world (option error) :=
  let key := peer_String peerID in
  ps ← st_gets (λ w : world, peers (book w));
  match ps !! key with
  | None => mret (Some (not_found peerID))
  | Some _ => _ ← set_peers (delete key ps); saveLocked o
  end.

Definition GetPeer (peerID : string) : ST world (result error PeerEntry) :=
  ps ← st_gets (λ w : world, peers (book w));
  match ps !! peer_String peerID with
  | None => mret (Err (not_found peerID))
  | Some entry => mret (Ok (Clone entry))
  end.

(** The iteration order of a Go map is unspecified; [map_to_list]'s is one of
    them, and the theorems below hold up to permutation. *)
Definition ListPeers : ST world (list PeerEntry) :=
  ps ← st_gets (λ w : world, peers (book w));
  mret (Clone <$> filter (λ e : PeerEntry, Blacklisted e = false) ((map_to_list ps).*2)).

Definition ListAllPeers : ST world (list PeerEntry) :=
  ps ← st_gets (λ w : world, peers (book w));
  mret (Clone <$> (map_to_list ps).*2).

Definition set_blacklisted (v : bool) (now : time) (e : PeerEntry) : PeerEntry :=
  {| PeerID := PeerID e; Multiaddrs := Multiaddrs e; RawMultiaddrs := RawMultiaddrs e;
     PublicKey := PublicKey e; Metadata := Metadata e; LastSeen := LastSeen e;
     Blacklisted := v; CreatedAt := CreatedAt e; UpdatedAt := now |}.

Definition BlacklistPeer (o : io) (now : time) (peerID : string) : ST world (option error) :=
  let key := peer_String peerID in
  ps ← st_gets (λ w : world, peers (book w));
  match ps !! key with
  | None => mret (Some (not_found peerID))
  | Some e => _ ← set_entry key (set_blacklisted true now e); saveLocked o
  end.

Definition UnblacklistPeer (o : io) (now : time) (peerID : string) : ST world (option error) :=
  let key := peer_String peerID in
  ps ← st_gets (λ w : world, peers (book w));
  match ps !! key with
  | None => mret (Some (not_found peerID))
  | Some e => _ ← set_entry key (set_blacklisted false now e); saveLocked o
  end.

Definition IsBlacklisted (peerID : string) : ST world bool :=
  ps ← st_gets (λ w : world, peers (book w));
  match ps !! peer_String peerID with
  | None => mret false
  | Some e => mret (Blacklisted e)
  end.

Definition UpdatePublicKey (o : io) (now : time) (peerID : string) (pubKey : list Z) : ST world (option error) :=
  let key := peer_String peerID in
  ps ← st_gets (λ w : world, peers (book w));
  match ps !! key with
  | None => mret (Some (not_found peerID))
  | Some e =>
      _ ← set_entry key
            {| PeerID := PeerID e; Multiaddrs := Multiaddrs e; RawMultiaddrs := RawMultiaddrs e;
               PublicKey := pubKey; Metadata := Metadata e; LastSeen := LastSeen e;
               Blacklisted := Blacklisted e; CreatedAt := CreatedAt e; UpdatedAt := now |};
      saveLocked o
  end.

Definition UpdateLastSeen (now : time) (peerID : string) : ST world (option error) :=
  let key := peer_String peerID in
  ps ← st_gets (λ w : world, peers (book w));
  match ps !! key with
  | None => mret (Some (not_found peerID))
  | Some e =>
      _ ← set_entry key
            {| PeerID := PeerID e; Multiaddrs := Multiaddrs e; RawMultiaddrs := RawMultiaddrs e;
               PublicKey := PublicKey e; Metadata := Metadata e; LastSeen := now;
               Blacklisted := Blacklisted e; CreatedAt := CreatedAt e; UpdatedAt := now |};
      _ ← set_dirty true;
      mret None
  end.

(** The loop body of [UpdateMetadata]: an empty value deletes its key. *)
Definition merge_one (k v : string) (m : gmap string string) : gmap string string :=
  if (v =? "")%string then delete k m else <[k := v]> m.

Definition UpdateMetadata (o : io) (now : time) (peerID : string) (metadata : gmap string string)
    : ST world (option error) :=
  let key := peer_String peerID in
  ps ← st_gets (λ w : world, peers (book w));
  match ps !! key with
  | None => mret (Some (not_found peerID))
  | Some e =>
      _ ← set_entry key
            {| PeerID := PeerID e; Multiaddrs := Multiaddrs e; RawMultiaddrs := RawMultiaddrs e;
               PublicKey := PublicKey e;
               Metadata := Some (map_fold merge_one (default ∅ (Metadata e)) metadata);
               LastSeen := LastSeen e; Blacklisted := Blacklisted e; CreatedAt := CreatedAt e;
               UpdatedAt := now |};
      saveLocked o
  end.

Definition HasPeer (peerID : string) : ST world bool :=
  ps ← st_gets (λ w : world, peers (book w));
  mret (bool_decide (is_Some (ps !! peer_String peerID))).

Definition Count : ST world nat := st_gets (λ w : world, size (peers (book w))).

Definition CountActive : ST world nat :=
  st_gets (λ w : world, map_fold (λ _ (e : PeerEntry) (count : nat), if negb (Blacklisted e) then S count else count) 0 (peers (book w))).

Definition Clear (o : io) : ST world (option error) :=
  _ ← set_peers ∅; saveLocked o.

Definition Reload (o : io) : ST world (option error) :=
  r ← storage_load o;
  match r with
  | Err e => mret (Some (Errorf "failed to reload address book: %w" (Some e)))
  | Ok data => _ ← set_peers (Peers data); _ ← set_dirty false; mret None
  end.

(** One iteration of [flushLoop] on a tick; the loop ends when [ctx] is done. *)
Definition flush_tick (o : io) : ST world unit :=
  b ← st_gets book;
  if cancelled b then mret tt
  else if dirty b then _ ← saveLocked o; mret tt
  else mret tt.

Definition Flush (o : io) : ST world (option error) :=
  d ← st_gets (λ w : world, dirty (book w));
  if negb d then mret None else saveLocked o.

Definition Close (o : io) : ST world (option error) :=
  _ ← cancel;
  d ← st_gets (λ w : world, dirty (book w));
  if (d : bool) then saveLocked o else mret None.

(** ** Sequences of operations *)

Inductive op :=
| OAdd (now : time) (peerID : string) (addrs : list Multiaddr) (md : option (gmap string string))
| ORemove (peerID : string)
| OBlacklist (now : time) (peerID : string)
| OUnblacklist (now : time) (peerID : string)
| OPublicKey (now : time) (peerID : string) (k : list Z)
| OLastSeen (now : time) (peerID : string)
| OMetadata (now : time) (peerID : string) (m : gmap string string)
| OClear
| OReload
| OTick
| OFlush
| OClose.

Definition run (x : op) (o : io) (w : world) : world :=
  match x with
  | OAdd now p a m => (AddPeer o now p a m w).2
  | ORemove p => (RemovePeer o p w).2
  | OBlacklist now p => (BlacklistPeer o now p w).2
  | OUnblacklist now p => (UnblacklistPeer o now p w).2
  | OPublicKey now p k => (UpdatePublicKey o now p k w).2
  | OLastSeen now p => (UpdateLastSeen now p w).2
  | OMetadata now p m => (UpdateMetadata o now p m w).2
  | OClear => (Clear o w).2
  | OReload => (Reload o w).2
  | OTick => (flush_tick o w).2
  | OFlush => (Flush o w).2
  | OClose => (Close o w).2
  end.

Definition run_all (xs : list (op * io)) (w : world) : world :=
  foldl (λ w x, run x.1 x.2 w) w xs.
End AddressBook.

(** ** What reaches the disk *)

Section Lemmas.
Context `{Libp2pLaws}.
Notation io := (io_op → option error) (only parsing).

Definition file_of (w : world) : option file := current (files w) !! path (book w).

Definition doc_of (ps : gmap string PeerEntry) : file :=
  {| f_content := CDoc (marshal_book {| Version := currentVersion; Peers := ps |}); f_synced := true |}.

(** The only place that writes: the in-memory peers are unchanged, and the
    file is theirs exactly when no error is returned. *)
Lemma saveLocked_spec o w :
  let '(r, w') := saveLocked o w in
  path (book w') = path (book w) ∧ peers (book w') = peers (book w)
  ∧ cancelled (book w') = cancelled (book w)
  ∧ match r with
    | None => dirty (book w') = false ∧ file_of w' = Some (doc_of (peers (book w)))
    | Some _ => dirty (book w') = dirty (book w) ∧ file_of w' = file_of w
    end.
Proof.
  unfold saveLocked, storage_save, set_dirty, st_gets, mbind, ST_bind, mret, ST_ret, file_of.
  destruct w as [[p ps dt c] [cur vis]]; cbn.
  destruct (save_current_visited o p {| Version := currentVersion; Peers := ps |} cur vis) as [E1 E2].
  pose proof (save_final o p {| Version := currentVersion; Peers := ps |} cur) as Hf; cbv zeta in Hf.
  destruct (save o p _ {| current := cur; visited := vis |}) as [r d]; cbn in *; subst r.
  destruct (save o p _ {| current := cur; visited := [] |}) as [[e|] d']; cbn in *; rewrite E2; naive_solver.
Qed.

Lemma save_ok o path' b d :
  (∀ x, o x = None) → (save o path' b d).1 = None.
Proof. intros Ho. save_cases; try done; rewrite Ho in *; done. Qed.

Lemma saveLocked_ok o w : (∀ x, o x = None) → (saveLocked o w).1 = None.
Proof.
  intros Ho. unfold saveLocked, storage_save, set_dirty, st_gets, mbind, ST_bind, mret, ST_ret. cbn.
  pose proof (save_ok o (path (book w)) {| Version := currentVersion; Peers := peers (book w) |} (files w) Ho) as E.
  destruct (save o _ _ _) as [[e|] d]; [done |]. reflexivity.
Qed.

(** Taking the lock leaves the book's file alone. *)
Lemma acquire_same o p d : current (acquireFileLock o p d).2 !! p = current d !! p.
Proof.
  unfold acquireFileLock, set_fs, mbind, ST_bind, mret, ST_ret.
  repeat case_match; simplify_eq/=; rewrite ?create_lock_path; done.
Qed.

Lemma acquire_ok o p d :
  lock_ok o → ∃ d', acquireFileLock o p d = (None, d') ∧ current d' !! p = current d !! p.
Proof.
  intros (Hd & Ho & Hl). pose proof (acquire_same o p d) as Ha. revert Ha.
  unfold acquireFileLock. rewrite Hd, Ho, Hl. eexists. split; [reflexivity | done].
Qed.

(** What a file means to [load], when it does not have to be moved away. *)
Definition contents (f : option file) : option addressBookData :=
  match f with
  | None => Some empty_book
  | Some f =>
      match f_content f with
      | CEmpty => Some empty_book
      | CCorrupt => None
      | CDoc j => match unmarshal_book j with
                  | Some (v, ps) => Some {| Version := v; Peers := default ∅ ps |}
                  | None => None
                  end
      end
  end.

(** A successful load leaves a file that means what was returned: a corrupt
    one has been moved out of the way. *)
Lemma load_leaves o p d data d' :
  load o p d = (Ok data, d') → contents (current d' !! p) = Some data.
Proof.
  pose proof (acquire_same o p d) as Ha. unfold load, mbind, ST_bind, mret, ST_ret.
  destruct (acquireFileLock o p d) as [[e|] d0]; [done |]. clear Ha d. rename d0 into d.
  assert (Hb : p +:+ backupFileSuffix ≠ p) by by apply suffix_ne.
  assert (Hm : ∀ f, current d !! p = Some f → rename p (p +:+ backupFileSuffix) (current d) !! p = None).
  { intros f Hf. unfold rename. by rewrite Hf, lookup_insert_ne, lookup_delete_eq. }
  unfold set_fs, st_gets, contents.
  destruct (o OpRead); try done.
  destruct (current d !! p) as [f|] eqn:Hf; cbn; [| intros; simplify_eq; by rewrite Hf].
  destruct (f_content f) as [| |j] eqn:Hc; cbn; try case_match; cbn; intros; simplify_eq/=;
    rewrite ?(Hm f eq_refl), ?Hf, ?Hc; try done.
  all: case_match; simplify_eq/=; rewrite ?(Hm f eq_refl), ?Hf, ?Hc; try done.
  by match goal with E : unmarshal_book _ = _ |- _ => rewrite E end.
Qed.

Lemma load_reads o p d data :
  lock_ok o → o OpRead = None → contents (current d !! p) = Some data →
  ∃ d', load o p d = (Ok data, d') ∧ current d' !! p = current d !! p.
Proof.
  intros Hl Hr Hc. destruct (acquire_ok o p d Hl) as (d' & Ha & Hs). exists d'. split; [| done].
  unfold load, mbind, ST_bind, mret, ST_ret. rewrite Ha, Hr. revert Hc.
  unfold st_gets. rewrite Hs. unfold contents.
  repeat (case_match; simplify_eq/=; try done); by intros; simplify_eq/=.
Qed.

Lemma fine_lock o : (∀ x, o x = None) → lock_ok o.
Proof. by repeat split. Qed.

Lemma contents_doc ps :
  storable ps → contents (Some (doc_of ps)) = Some {| Version := currentVersion; Peers := reloaded <$> ps |}.
Proof. intros Hps. unfold contents, doc_of; cbn [f_content]. by rewrite json_book_roundtrip. Qed.

Lemma reloaded_idem p : reloaded (reloaded p) = reloaded p.
Proof. unfold reloaded; cbn. by rewrite written_metadata_idem. Qed.
End Lemmas.

(** ** The book and its file

    [forget_seen] is what a crash may lose of an entry: the last-seen time,
    which is batched.  [durable]: a restart would find every entry up to
    that, and exactly the current ones when the book is not dirty; and all of
    them can be written and read back. *)

Definition forget_seen `{Libp2p} (p : PeerEntry) : PeerEntry :=
  {| PeerID := PeerID p; Multiaddrs := Multiaddrs p; RawMultiaddrs := ma_String <$> Multiaddrs p;
     PublicKey := PublicKey p; Metadata := written_metadata (Metadata p); LastSeen := GoTime.zero;
     Blacklisted := Blacklisted p; CreatedAt := CreatedAt p; UpdatedAt := GoTime.zero |}.

Definition durable `{Libp2p} (w : world) : Prop :=
  storable (peers (book w))
  ∧ ∃ d, contents (file_of w) = Some d
       ∧ forget_seen <$> Peers d = forget_seen <$> peers (book w)
       ∧ (dirty (book w) = false → reloaded <$> Peers d = reloaded <$> peers (book w)).

(** The key of an entry is the printed form of its identifier. *)
Definition well_keyed `{Libp2p} (ps : gmap string PeerEntry) : Prop :=
  map_Forall (λ k e, k = peer_String (PeerID e)) ps.

Ltac book_unfold :=
  unfold set_entry, set_peers, set_dirty, cancel, st_gets, mbind, ST_bind, mret, ST_ret.

Section Durable.
Context `{Libp2pLaws}.

Lemma forget_reloaded p : forget_seen (reloaded p) = forget_seen p.
Proof. unfold forget_seen, reloaded; cbn. by rewrite written_metadata_idem. Qed.

Lemma forget_fmap_reloaded (ps : gmap string PeerEntry) :
  forget_seen <$> (reloaded <$> ps) = forget_seen <$> ps.
Proof. rewrite <- map_fmap_compose. apply map_fmap_ext. intros. apply forget_reloaded. Qed.

(** What [storable] needs of an entry is among what is not forgotten. *)
Lemma forget_storable ps ps' : forget_seen <$> ps = forget_seen <$> ps' → storable ps → storable ps'.
Proof.
  intros E Hs k e Hk. apply (f_equal (lookup k)) in E. rewrite !lookup_fmap, Hk in E. cbn in E.
  apply fmap_Some in E as (e' & Hk' & Ee). apply (f_equal PeerID) in Ee. cbn in Ee. rewrite Ee. by apply Hs.
Qed.

Lemma storable_insert ps k e : storable ps → to_valid k = k → valid_id (PeerID e) → storable (<[k := e]> ps).
Proof. intros Hs Hk He. by apply map_Forall_insert_2. Qed.

Lemma storable_delete ps k : storable ps → storable (delete k ps).
Proof. apply map_Forall_delete. Qed.

(** A known peer's entry keeps its identifier. *)
Lemma storable_update ps k e e' : storable ps → ps !! k = Some e → PeerID e' = PeerID e → storable (<[k := e']> ps).
Proof. intros Hs Hk He. destruct (Hs k e Hk). apply storable_insert; [done | done | by rewrite He]. Qed.

Lemma saveLocked_durable o w : (∀ x, o x = None) → storable (peers (book w)) → durable (saveLocked o w).2.
Proof.
  intros Ho Hst. pose proof (saveLocked_spec o w) as Hs. pose proof (saveLocked_ok o w Ho) as Hr.
  destruct (saveLocked o w) as [r w']; cbn in *; subst r.
  destruct Hs as (_ & Hp & _ & _ & Hf). split; [by rewrite Hp |].
  eexists. rewrite Hf, contents_doc by done. split; [done |]. cbn.
  rewrite Hp, forget_fmap_reloaded. split; [done |]. intros _.
  rewrite <- map_fmap_compose. apply map_fmap_ext. intros. apply reloaded_idem.
Qed.

Lemma Reload_durable o w : (∀ x, o x = None) → durable w → durable (Reload o w).2.
Proof.
  intros Ho (Hst & d & Hd & Hf & _). unfold Reload, storage_load. book_unfold.
  destruct (load_reads o _ _ d (fine_lock o Ho) (Ho _) Hd) as (d' & -> & Hs). cbn.
  split; [by apply (forget_storable _ _ (eq_sym Hf)) |]. exists d. unfold file_of in *; cbn. rewrite Hs. by split.
Qed.

Lemma UpdateLastSeen_durable now p w : durable w → durable (UpdateLastSeen now p w).2.
Proof.
  intros Hw. pose proof Hw as (Hst & d & Hd & Hf & _). unfold UpdateLastSeen. book_unfold.
  destruct (peers (book w) !! peer_String p) as [e|] eqn:He; cbn.
  - split; [by eapply storable_update |]. exists d. split; [done |]. split; [| done]. cbn. rewrite Hf. apply map_eq; intros k.
    rewrite !lookup_fmap, lookup_insert. case_decide; subst; [| done]. by rewrite He.
  - exact Hw.
Qed.

(** Only identifiers that can be decoded are added. *)
Definition valid_op (x : op) : Prop := match x with OAdd _ p _ _ => valid_id p | _ => True end.

Lemma run_durable x o w : (∀ y, o y = None) → valid_op x → durable w → durable (run x o w).
Proof.
  intros Ho Hv Hw. pose proof (λ w, saveLocked_durable o w Ho) as Hsave. pose proof Hw as [Hst _].
  destruct x; cbn [run]; try (by apply Reload_durable || by apply UpdateLastSeen_durable);
    unfold AddPeer, RemovePeer, BlacklistPeer, UnblacklistPeer, UpdatePublicKey, UpdateMetadata,
      Clear, flush_tick, Flush, Close; book_unfold; repeat case_match; simplify_eq/=; auto; try exact Hw.
  all: try (apply Hsave; cbn; first [ exact Hst | eapply storable_update; [exact Hst | eassumption | done]
              | apply storable_insert; [exact Hst | apply peer_utf8 | done] | by apply storable_delete | apply map_Forall_empty ]).
  by match goal with E : saveLocked o ?w = _ |- _ => specialize (Hsave w Hst); rewrite E in Hsave end.
Qed.
End Durable.

(** ** Sequences *)

Definition io_fine (x : io_op → option error) : Prop := ∀ y, x y = None.

(** The operations that may lift a peer's blacklisting. *)
Definition lifts `{Libp2p} (p : string) (x : op) : bool :=
  match x with
  | OUnblacklist _ q | ORemove q => bool_decide (peer_String p = peer_String q)
  | OClear => true
  | _ => false
  end.

Section Sequences.
Context `{Libp2pLaws}.

Lemma run_all_ind (P : world → Prop) (xs : list (op * (io_op → option error))) w :
  (∀ x w, x ∈ xs → P w → P (run x.1 x.2 w)) → P w → P (run_all xs w).
Proof.
  revert w. induction xs as [|x xs IH]; intros w Hstep Hw; [done |].
  apply IH; [intros y w' Hy; apply Hstep; by right |]. apply Hstep; [by left | exact Hw].
Qed.

Lemma run_all_durable xs w :
  Forall (λ x, io_fine x.2 ∧ valid_op x.1) xs → durable w → durable (run_all xs w).
Proof.
  intros Hio. apply run_all_ind. intros x w' Hx. rewrite Forall_forall in Hio. apply run_durable; by apply Hio.
Qed.

Lemma New_durable o p d w : New o p d = Ok w → storable (peers (book w)) → durable w ∧ path (book w) = p.
Proof.
  unfold New. destruct (load o p d) as [[e|data] d'] eqn:E; intros; simplify_eq/=.
  split; [| done]. split; [done |]. exists data. split; [| done]. exact (load_leaves _ _ _ _ _ E).
Qed.

Lemma New_reads w d :
  contents (file_of w) = Some d →
  ∃ d', New io_ok (path (book w)) (files w)
  = Ok {| book := {| path := path (book w); peers := Peers d; dirty := false; cancelled := false |}; files := d' |}.
Proof.
  intros Hd. unfold New. destruct (load_reads io_ok _ _ d (fine_lock io_ok (λ _, eq_refl)) eq_refl Hd) as (d' & -> & _).
  by exists d'.
Qed.

Lemma saveLocked_book o w :
  path (book (saveLocked o w).2) = path (book w) ∧ peers (book (saveLocked o w).2) = peers (book w).
Proof. pose proof (saveLocked_spec o w). destruct (saveLocked o w); naive_solver. Qed.

(** What one operation may do to the entry of a key, [Reload] apart. *)
Inductive entry_change (x : op) (k : string) : option PeerEntry → option PeerEntry → Prop :=
| ec_same e : entry_change x k e e
| ec_update e e' :
    PeerID e' = PeerID e →
    (Blacklisted e = true → Blacklisted e' = true ∨ ∃ now p, x = OUnblacklist now p ∧ k = peer_String p) →
    entry_change x k (Some e) (Some e')
| ec_insert e : k = peer_String (PeerID e) → entry_change x k None (Some e)
| ec_gone e : (∀ p, peer_String p = k → lifts p x = true) → entry_change x k e None.

Lemma run_entry x o w k :
  x ≠ OReload →
  entry_change x k (peers (book w) !! k) (peers (book (run x o w)) !! k).
Proof.
  intros Hx. pose proof (saveLocked_book o) as Hs.
  assert (∀ w0 w1 r, saveLocked o w0 = (r, w1) → peers (book w1) = peers (book w0)) as Hs'.
  { intros w0 w1 r E. specialize (Hs w0). rewrite E in Hs. apply Hs. }
  destruct x; cbn [run]; try done;
    unfold AddPeer, RemovePeer, BlacklistPeer, UnblacklistPeer, UpdatePublicKey, UpdateMetadata, UpdateLastSeen,
      Clear, flush_tick, Flush, Close; book_unfold; repeat case_match; simplify_eq/=; rewrite ?(proj2 (Hs _)); cbn.
  all: try match goal with E : saveLocked _ _ = _ |- _ => rewrite (Hs' _ _ _ E) end.
  all: try apply ec_same.
  all: rewrite ?lookup_insert, ?lookup_delete; try case_decide; subst; try apply ec_same.
  all: try match goal with E : peers (book _) !! _ = _ |- _ => rewrite E end.
  all: first [ by apply ec_insert | by apply ec_update; cbn; auto | apply ec_update; cbn; [done | intros; by eauto || congruence] | apply ec_gone; cbn; intros; subst; by rewrite ?bool_decide_true ].
Qed.

(** A restart of a durable world. *)
Lemma durable_lookup w d k e :
  contents (file_of w) = Some d → forget_seen <$> Peers d = forget_seen <$> peers (book w) →
  peers (book w) !! k = Some e → ∃ e', Peers d !! k = Some e' ∧ forget_seen e' = forget_seen e.
Proof.
  intros _ Hf Hk. apply (f_equal (lookup k)) in Hf. rewrite !lookup_fmap, Hk in Hf.
  apply fmap_Some in Hf as (e' & ? & ?). eauto.
Qed.

Lemma Reload_entries o w k :
  io_fine o → durable w →
  forget_seen <$> (peers (book (run OReload o w)) !! k) = forget_seen <$> (peers (book w) !! k).
Proof.
  intros Ho (_ & d & Hd & Hf & _). cbn. unfold Reload, storage_load. book_unfold.
  destruct (load_reads o _ _ d (fine_lock o Ho) (Ho _) Hd) as (d' & -> & _). cbn. by rewrite <- !lookup_fmap, Hf.
Qed.

(** A property of entries that [forget_seen] keeps and no operation breaks
    holds of an entry for ever. *)
Lemma run_well_keyed x o w :
  io_fine o → durable w → well_keyed (peers (book w)) → well_keyed (peers (book (run x o w))).
Proof.
  intros Ho Hd Hk k e He. assert (x = OReload ∨ x ≠ OReload) as [-> | Hx] by (destruct x; auto).
  - pose proof (Reload_entries o w k Ho Hd) as Hr. rewrite He in Hr. cbn in Hr.
    symmetry in Hr. apply fmap_Some in Hr as (e' & He' & Hee').
    rewrite (Hk k e' He'). by apply (f_equal PeerID) in Hee'; cbn in Hee'; rewrite Hee'.
  - pose proof (run_entry x o w k Hx) as Hc. rewrite He in Hc.
    destruct (peers (book w) !! k) as [e0|] eqn:E0; [| by inversion Hc].
    specialize (Hk k e0 E0). inversion Hc; subst; congruence.
Qed.
End Sequences.

Section Queries.
Context `{Libp2pLaws}.

Lemma blacklisted_iff p w :
  (IsBlacklisted p w).1 = true ↔ ∃ e, peers (book w) !! peer_String p = Some e ∧ Blacklisted e = true.
Proof.
  unfold IsBlacklisted. book_unfold. destruct (peers (book w) !! peer_String p); cbn; naive_solver.
Qed.

Lemma run_path x o w : path (book (run x o w)) = path (book w).
Proof.
  pose proof (saveLocked_book o) as Hs.
  assert (∀ w0 w1 r, saveLocked o w0 = (r, w1) → path (book w1) = path (book w0)) as Hs'.
  { intros w0 w1 r E. specialize (Hs w0). rewrite E in Hs. apply Hs. }
  destruct x; cbn [run];
    unfold AddPeer, RemovePeer, BlacklistPeer, UnblacklistPeer, UpdatePublicKey, UpdateMetadata, UpdateLastSeen,
      Clear, Reload, storage_load, flush_tick, Flush, Close; book_unfold; repeat case_match; simplify_eq/=;
      rewrite ?(proj1 (Hs _)); try done.
  by match goal with E : saveLocked _ _ = _ |- _ => rewrite (Hs' _ _ _ E) end.
Qed.

Lemma run_blacklisted x o w p :
  io_fine o → durable w → lifts p x = false →
  (IsBlacklisted p w).1 = true → (IsBlacklisted p (run x o w)).1 = true.
Proof.
  intros Ho Hd Hl (e & He & Hb)%blacklisted_iff. apply blacklisted_iff.
  assert (x = OReload ∨ x ≠ OReload) as [-> | Hx] by (destruct x; auto).
  - pose proof (Reload_entries o w (peer_String p) Ho Hd) as Hr. rewrite He in Hr. cbn in Hr.
    apply fmap_Some in Hr as (e' & He' & Hee'). exists e'. split; [done |].
    apply (f_equal Blacklisted) in Hee'. by rewrite <- Hb.
  - pose proof (run_entry x o w (peer_String p) Hx) as Hc. rewrite He in Hc.
    inversion Hc as [|? e' _ Hbl| |? Hg]; subst; eauto.
    + exists e'. split; [done |]. destruct (Hbl Hb) as [|(now & q & -> & Hq)]; [done |].
      cbn in Hl. by rewrite bool_decide_true in Hl.
    + by rewrite (Hg p eq_refl) in Hl.
Qed.

Lemma Close_spec o w :
  io_fine o →
  path (book (Close o w).2) = path (book w) ∧ peers (book (Close o w).2) = peers (book w)
  ∧ dirty (book (Close o w).2) = false.
Proof.
  intros Ho. unfold Close. book_unfold; cbn.
  destruct (dirty (book w)) eqn:E; [| done].
  match goal with |- context[saveLocked o ?w'] =>
    pose proof (saveLocked_spec o w') as Hs; pose proof (saveLocked_ok o w' Ho) as Hk;
    destruct (saveLocked o w') as [r w1] end.
  cbn in *. subst r. naive_solver.
Qed.
End Queries.

(** ** Properties *)



Section AddPeerLemmas.
Context `{Libp2pLaws}.

(** The entry [AddPeer] stores for a peer that is not blacklisted. *)
Definition added (now : time) (p : string) (addrs : list Multiaddr) (md : option (gmap string string))
    (old : option PeerEntry) : PeerEntry :=
  {| PeerID := match old with Some e => PeerID e | None => p end;
     Multiaddrs := addrs;
     RawMultiaddrs := match old with Some e => RawMultiaddrs e | None => [] end;
     PublicKey := match old with Some e => PublicKey e | None => [] end;
     Metadata := match md, old with Some m, _ => Some m | None, Some e => Metadata e | None, None => None end;
     LastSeen := match old with Some e => LastSeen e | None => GoTime.zero end;
     Blacklisted := false;
     CreatedAt := match old with Some e => CreatedAt e | None => now end;
     UpdatedAt := now |}.

Lemma added_storable ps now p addrs md :
  storable ps → valid_id p → storable (<[peer_String p := added now p addrs md (ps !! peer_String p)]> ps).
Proof.
  intros Hs Hp. apply storable_insert; [done | apply peer_utf8 |].
  unfold added. destruct (ps !! peer_String p) as [e|] eqn:He; cbn; [by apply (Hs _ e He) | done].
Qed.

Lemma AddPeer_runs o now p addrs md w :
  (IsBlacklisted p w).1 = false →
  AddPeer o now p addrs md w
  = (_ ← set_entry (peer_String p) (added now p addrs md (peers (book w) !! peer_String p)); saveLocked o) w.
Proof.
  unfold IsBlacklisted, AddPeer, added. book_unfold.
  destruct (peers (book w) !! peer_String p) as [e|]; cbn; [| by destruct md].
  intros ->. by destruct md.
Qed.

Lemma IsBlacklisted_eq p w :
  (IsBlacklisted p w).1 = match peers (book w) !! peer_String p with Some e => Blacklisted e | None => false end.
Proof. unfold IsBlacklisted. book_unfold. by destruct (_ !! _). Qed.

Lemma GetPeer_eq p w :
  (GetPeer p w).1 = match peers (book w) !! peer_String p with
                    | Some e => Ok (Clone e) | None => Err (not_found p) end.
Proof. unfold GetPeer. book_unfold. by destruct (_ !! _). Qed.

Lemma AddPeer_book o now p addrs md w :
  (IsBlacklisted p w).1 = false →
  let '(r, w') := AddPeer o now p addrs md w in
  let ps' := <[peer_String p := added now p addrs md (peers (book w) !! peer_String p)]> (peers (book w)) in
  peers (book w') = ps' ∧ path (book w') = path (book w)
  ∧ match r with None => file_of w' = Some (doc_of ps') | Some _ => file_of w' = file_of w end.
Proof.
  intros Hb. rewrite (AddPeer_runs _ _ _ _ _ _ Hb). book_unfold.
  match goal with |- context[saveLocked o ?w'] => pose proof (saveLocked_spec o w') as Hs;
    destruct (saveLocked o w') as [r w1] end.
  cbn in *. destruct Hs as (Hp & Hps & _ & Hr). rewrite Hp, Hps. split_and!; [done | done |].
  destruct r; by destruct Hr.
Qed.
End AddPeerLemmas.

(** [AddPeer] on every branch: a blacklisted peer is refused and nothing
    changes; otherwise the peer's entry has the new addresses and metadata,
    keeps its creation time, key and last-seen time, no other peer is
    affected, and when no error is returned a restart reads the entry back,
    unless an identifier cannot be decoded. *)
Theorem AddPeer_spec `{Libp2pLaws} o now p addrs md w :
  let old := peers (book w) !! peer_String p in
  let '(r, w') := AddPeer o now p addrs md w in
  if (IsBlacklisted p w).1 then is_Some r ∧ w' = w
  else (GetPeer p w').1 = Ok (Clone (added now p addrs md old))
       ∧ (∀ q, q ≠ p → (GetPeer q w').1 = (GetPeer q w).1)
       ∧ match r with
         | None => storable (peers (book w)) → valid_id p →
                   ∃ w'', New io_ok (path (book w)) (files w') = Ok w''
                          ∧ (GetPeer p w'').1 = Ok (Clone (reloaded (added now p addrs md old)))
         | Some _ => file_of w' = file_of w
         end.
Proof.
  cbv zeta. destruct (IsBlacklisted p w).1 eqn:Hb.
  - apply blacklisted_iff in Hb as (e & He & Hbe).
    unfold AddPeer. book_unfold. rewrite He, Hbe. by split.
  - pose proof (AddPeer_book o now p addrs md w Hb) as Ha.
    destruct (AddPeer o now p addrs md w) as [r w']; cbn in Ha. destruct Ha as (Hps & Hpath & Hr).
    split; [by rewrite GetPeer_eq, Hps, lookup_insert_eq |]. split.
    + intros q Hq. rewrite !GetPeer_eq, Hps, lookup_insert_ne; [done |].
      intros E. by apply peer_String_inj in E.
    + destruct r; [done |]. intros Hst Hv. rewrite <- Hpath.
      assert (contents (file_of w') = Some {| Version := currentVersion; Peers := reloaded <$> <[peer_String p := added now p addrs md (peers (book w) !! peer_String p)]> (peers (book w)) |}) as Hc
        by (rewrite Hr; apply contents_doc, added_storable, Hv; exact Hst).
      destruct (New_reads _ _ Hc) as (? & ->). eexists. split; [done |].
      by rewrite GetPeer_eq; cbn; rewrite lookup_fmap, lookup_insert_eq.
Qed.

(** A book that started from no file never hands out another peer's entry. *)
Theorem GetPeer_identity `{Libp2pLaws} o p d w xs q e :
  current d !! p = None → New o p d = Ok w → Forall (λ x, io_fine x.2 ∧ valid_op x.1) xs →
  (GetPeer q (run_all xs w)).1 = Ok e → PeerID e = q.
Proof.
  intros Hd Hn Hio Hg.
  assert (durable (run_all xs w) ∧ well_keyed (peers (book (run_all xs w)))) as [_ Hk].
  { apply (run_all_ind (λ w, durable w ∧ well_keyed (peers (book w)))).
    - intros x v Hx [Hv Hvk]. rewrite Forall_forall in Hio. destruct (Hio x Hx) as [Hf Hvo].
      split; [by apply run_durable | by apply run_well_keyed].
    - assert (peers (book w) = ∅) as Hw; [| split; [eapply New_durable; [done | rewrite Hw; apply map_Forall_empty] | rewrite Hw; apply map_Forall_empty]].
      unfold New, load, mbind, ST_bind, st_gets, mret, ST_ret in Hn.
      pose proof (acquire_same o p d) as Ha.
      destruct (acquireFileLock o p d) as [[x|] d0]; [done |].
      destruct (o OpRead); [done |]. cbn in Ha, Hn. rewrite Ha, Hd in Hn. by simplify_eq/=. }
  rewrite GetPeer_eq in Hg. destruct (peers (book (run_all xs w)) !! peer_String q) as [e'|] eqn:He; [| done].
  simplify_eq/=. symmetry. apply peer_String_inj. exact (Hk _ _ He).
Qed.

Lemma merge_fold_lookup (old md : gmap string string) k :
  map_fold merge_one old md !! k
  = match md !! k with
    | Some v => if (v =? "")%string then None else Some v
    | None => old !! k
    end.
Proof.
  revert k. apply (map_fold_weak_ind (λ r (m : gmap string string), ∀ k, r !! k = match m !! k with
    | Some v => if (v =? "")%string then None else Some v | None => old !! k end)).
  - intros k. by rewrite lookup_empty.
  - intros i v m r Hi IH k. unfold merge_one.
    destruct (decide (k = i)) as [-> |].
    + rewrite lookup_insert_eq. case_match; [by rewrite lookup_delete_eq | by rewrite lookup_insert_eq].
    + rewrite lookup_insert_ne by done. rewrite <- IH.
      case_match; [by rewrite lookup_delete_ne | by rewrite lookup_insert_ne].
Qed.

(** [UpdateMetadata] merges key by key, in whatever order the map is iterated:
    an empty value removes its key, another sets it, the other keys stay. *)
Theorem UpdateMetadata_merges `{Libp2pLaws} o now p md w e :
  peers (book w) !! peer_String p = Some e →
  ∃ e', peers (book (UpdateMetadata o now p md w).2) !! peer_String p = Some e'
        ∧ ∀ k, default ∅ (Metadata e') !! k
               = match md !! k with
                 | Some v => if (v =? "")%string then None else Some v
                 | None => default ∅ (Metadata e) !! k
                 end.
Proof.
  intros He. unfold UpdateMetadata. book_unfold. rewrite He.
  match goal with |- context[saveLocked o ?w'] => rewrite (proj2 (saveLocked_book o w')) end. cbn.
  eexists. split; [by rewrite lookup_insert_eq |]. intros k. cbn. apply merge_fold_lookup.
Qed.

Lemma count_fold `{Libp2p} (ps : gmap string PeerEntry) :
  map_fold (λ _ (e : PeerEntry) (c : nat), if negb (Blacklisted e) then S c else c) 0 ps
  = length (filter (λ e : PeerEntry, Blacklisted e = false) ((map_to_list ps).*2)).
Proof.
  rewrite map_fold_foldr. induction (map_to_list ps) as [|[k e] l IH]; [done |].
  rewrite fmap_cons, filter_cons. cbn [foldr curry uncurry snd].
  rewrite IH. by destruct (Blacklisted e).
Qed.

(** The counters agree with the lists, and every listed peer is one that
    [GetPeer] returns. *)
Theorem Count_lists `{Libp2pLaws} w :
  (Count w).1 = length (ListAllPeers w).1
  ∧ (CountActive w).1 = length (ListPeers w).1
  ∧ (CountActive w).1 ≤ (Count w).1
  ∧ ∀ e, e ∈ (ListPeers w).1 ↔ ∃ k e', peers (book w) !! k = Some e' ∧ Blacklisted e' = false ∧ e = Clone e'.
Proof.
  unfold Count, CountActive, ListAllPeers, ListPeers. book_unfold; cbn. rewrite count_fold, !length_fmap.
  rewrite <- length_map_to_list.
  split_and!; [by rewrite ?length_fmap | done | |].
  - etrans; [apply length_filter |]. by rewrite length_fmap.
  - intros e. rewrite list_elem_of_fmap. split.
    + intros (e' & -> & [Hb Hin]%list_elem_of_filter). apply list_elem_of_fmap in Hin as ([k e''] & -> & Hk).
      apply elem_of_map_to_list in Hk. eauto.
    + intros (k & e' & Hk & Hb & ->). exists e'. split; [done |]. apply list_elem_of_filter. split; [done |].
      apply list_elem_of_fmap. exists (k, e'). split; [done |]. by apply elem_of_map_to_list.
Qed.

(** A critical save that fails is not retried: when [AddPeer] of a new peer
    reports an error the change stays in memory but the book is not marked
    dirty, so [Flush] (and the background flush) find nothing to do and a
    restart loses the change. *)
Theorem failed_save_not_retried `{Libp2pLaws} o o' now p w :
  (AddPeer o now p [] None w).1 ≠ None → peers (book w) !! peer_String p = None → dirty (book w) = false →
  let w' := (AddPeer o now p [] None w).2 in
  is_Some (peers (book w') !! peer_String p) ∧ file_of w' = file_of w
  ∧ Flush o' w' = (None, w') ∧ flush_tick o' w' = (tt, w').
Proof.
  unfold AddPeer, Flush, flush_tick. book_unfold. intros Hr Hp Hd. rewrite Hp in *.
  unfold set_entry, set_peers in *. cbn in *.
  match goal with |- context[saveLocked o ?w'] => pose proof (saveLocked_spec o w') as Hs;
    destruct (saveLocked o w') as [[e|] w1] end; [| done].
  cbn in *. destruct Hs as (_ & Hps & Hca & Hdi & Hf). rewrite Hps, lookup_insert_eq, Hdi, Hd, Hf.
  split_and!; [done | done | done |]. by destruct (cancelled (book w1)).
Qed.

(** A file that does not decode is moved out of the way. *)
Lemma load_moves_away `{Libp2pLaws} o p d f j :
  lock_ok o → o OpRead = None → o OpBackup = None → current d !! p = Some f → f_content f = CDoc j → unmarshal_book j = None →
  ∃ d', load o p d = (Ok empty_book, d') ∧ current d' !! (p +:+ backupFileSuffix) = Some f.
Proof.
  intros Hl Hr Hb Hf Hc Hj. destruct (acquire_ok o p d Hl) as (d1 & Ha & Hs). rewrite Hf in Hs. eexists.
  unfold load, mbind, ST_bind, mret, ST_ret, st_gets, set_fs. rewrite Ha, Hr, Hs. cbn. rewrite Hc, Hj, Hb. cbn.
  split; [reflexivity |]. cbn. unfold rename. rewrite Hs. apply lookup_insert_eq.
Qed.

(** C31. [AddPeer] takes any string for an identifier.  One that [peer.Decode] does
    not give back is saved like any other and reported as added; but the whole
    file is then unreadable: the next start moves it away and begins with an
    empty book, with every peer and every blacklisting gone. *)
Theorem invalid_id_loses_book `{Libp2pLaws} o now p addrs md w :
  utf8_keys (peers (book w)) → peers (book w) !! peer_String p = None → peer_Decode (peer_String p) = None →
  (AddPeer o now p addrs md w).1 = None →
  let w' := (AddPeer o now p addrs md w).2 in
  ∃ w'', New io_ok (path (book w)) (files w') = Ok w'' ∧ peers (book w'') = ∅ ∧ (∀ q, (IsBlacklisted q w'').1 = false)
         ∧ current (files w'') !! (path (book w) +:+ backupFileSuffix) = file_of w'.
Proof.
  intros Hk Hp Hd Hr. assert ((IsBlacklisted p w).1 = false) as Hb by (by rewrite IsBlacklisted_eq, Hp).
  pose proof (AddPeer_book o now p addrs md w Hb) as Ha. destruct (AddPeer o now p addrs md w) as [r w']; cbn in Hr |- *. subst r.
  destruct Ha as (Hps & Hpath & Hf). rewrite Hp in Hps, Hf. set (ps := <[_ := _]> _) in Hps, Hf.
  assert (unmarshal_book (marshal_book {| Version := currentVersion; Peers := ps |}) = None) as Hj.
  { apply (json_book_invalid _ (peer_String p) (added now p addrs md None)); cbn.
    - apply map_Forall_insert_2; [apply peer_utf8 | done].
    - apply lookup_insert_eq.
    - exact Hd. }
  assert (Hf' := Hf). unfold file_of in Hf. rewrite Hpath in Hf.
  destruct (load_moves_away io_ok _ (files w') _ _ (fine_lock io_ok (λ _, eq_refl)) eq_refl eq_refl Hf eq_refl Hj) as (d' & Hl & Hbak).
  unfold New. rewrite Hl. eexists. split; [done |]. cbn. split; [done |]. split; [| by rewrite Hbak, Hf'].
  intros q. by rewrite IsBlacklisted_eq.
Qed.

(** ** The interface to the connection manager and the gater *)

#[export] Instance book_PeerBook `{Libp2p} : PeerBook world Multiaddr := {|
  pb_IsBlacklisted w p := (IsBlacklisted p w).1;
  pb_GetPeer w p := match (GetPeer p w).1 with Ok e => Ok (Multiaddrs e) | Err x => Err x end;
  pb_UpdateLastSeen now p w := (UpdateLastSeen now p w).2;
|}.

#[export] Instance book_PeerBookLaws `{Libp2pLaws} : PeerBookLaws world Multiaddr.
Proof.
  split; unfold pb_IsBlacklisted, pb_GetPeer, pb_UpdateLastSeen; cbn.
  - intros w p (e & He & _)%blacklisted_iff. by rewrite GetPeer_eq, He.
  - intros w now p q. rewrite !IsBlacklisted_eq. unfold UpdateLastSeen. book_unfold.
    destruct (peers (book w) !! peer_String p) as [e|] eqn:He; [| done]. cbn.
    rewrite lookup_insert. case_decide as Hq; [| done]. by rewrite <- Hq, He.
  - intros w now p q. rewrite !GetPeer_eq. unfold UpdateLastSeen. book_unfold.
    destruct (peers (book w) !! peer_String p) as [e|] eqn:He; [| done]. cbn.
    rewrite lookup_insert. case_decide as Hq; [| done]. by rewrite <- Hq, He.
Qed.

(** ** Witnesses *)

Module Witness.
#[local] Existing Instance plain_libp2p.
#[local] Existing Instance plain_libp2p_laws.

Definition no_files : disk := {| current := ∅; visited := [] |}.
Definition fresh : world :=
  {| book := {| path := "book.json"; peers := ∅; dirty := false; cancelled := false |};
     files := (acquireFileLock io_ok "book.json" no_files).2 |}.
Definition known : list (op * (io_op → option error)) :=
  [(OAdd 5%Z "Qm1" ["/ip4/10.0.0.1/tcp/4001" : Multiaddr] None, io_ok); (OLastSeen 6%Z "Qm1", io_ok);
   (OBlacklist 7%Z "Qm1", io_ok)].

Lemma fresh_New : New io_ok "book.json" no_files = Ok fresh.
Proof. reflexivity. Qed.

Lemma fine_known : Forall (λ x : op * (io_op → option error), io_fine x.2 ∧ valid_op x.1) known.
Proof. by repeat constructor. Qed.



Lemma GetPeer_identity_witness :
  ∃ e, (GetPeer "Qm1" (run_all known fresh)).1 = Ok e ∧ PeerID e = "Qm1".
Proof.
  eexists. split; [reflexivity |].
  exact (GetPeer_identity io_ok "book.json" no_files fresh known "Qm1" _ eq_refl fresh_New fine_known eq_refl).
Defined.

(** A new peer is added to a book that does not know it. *)
Lemma AddPeer_spec_witness :
  let w' := (AddPeer io_ok 9%Z "Qm2" [] None (run_all known fresh)).2 in
  (GetPeer "Qm2" w').1 = Ok (Clone (added 9%Z "Qm2" [] None None))
  ∧ (GetPeer "Qm1" w').1 = (GetPeer "Qm1" (run_all known fresh)).1.
Proof.
  pose proof (AddPeer_spec io_ok 9%Z "Qm2" [] None (run_all known fresh)) as Hs. cbv zeta in *.
  destruct (AddPeer io_ok 9%Z "Qm2" [] None (run_all known fresh)) as [r w'] eqn:E.
  assert (Hb : (IsBlacklisted "Qm2" (run_all known fresh)).1 = false) by reflexivity.
  assert (Hn : peers (book (run_all known fresh)) !! peer_String "Qm2" = None) by reflexivity.
  rewrite Hb, Hn in Hs. destruct Hs as (H1 & H2 & _).
  cbn [snd]. split; [exact H1 | by apply H2].
Defined.

Lemma UpdateMetadata_merges_witness :
  let w := run_all known fresh in
  let md : gmap string string := <["a" := "1"]> {["b" := ""]} in
  ∃ e e', peers (book w) !! "Qm1" = Some e
          ∧ peers (book (UpdateMetadata io_ok 8%Z "Qm1" md w).2) !! "Qm1" = Some e'
          ∧ default ∅ (Metadata e') !! "a" = Some "1".
Proof.
  cbv zeta.
  match goal with |- ∃ e e', peers (book ?w) !! _ = _ ∧ peers (book (UpdateMetadata _ _ _ ?md _).2) !! _ = _ ∧ _ =>
    destruct (UpdateMetadata_merges io_ok 8%Z "Qm1" md w _ eq_refl) as (e' & He' & Hk) end.
  eexists _, e'. split; [reflexivity |]. split; [exact He' |]. rewrite Hk. reflexivity.
Defined.

(** The empty identifier. *)
Lemma invalid_id_loses_book_witness :
  let w := run_all known fresh in
  let w' := (AddPeer io_ok 9%Z "" [] None w).2 in
  (IsBlacklisted "Qm1" w').1 = true
  ∧ ∃ w'', New io_ok "book.json" (files w') = Ok w'' ∧ peers (book w'') = ∅ ∧ (IsBlacklisted "Qm1" w'').1 = false.
Proof.
  cbv zeta. split; [reflexivity |].
  destruct (invalid_id_loses_book io_ok 9%Z "" [] None (run_all known fresh)) as (w'' & H1 & H2 & H3 & _);
    [by apply (bool_decide_unpack _); vm_compute | reflexivity | reflexivity | reflexivity |].
  exists w''. split; [exact H1 |]. split; [exact H2 | apply H3].
Defined.

Lemma failed_save_not_retried_witness :
  let o : io_op → option error := λ x, match x with OpLock => Some ErrNodeNotStarted | _ => None end in
  let w' := (AddPeer o 5%Z "Qm1" [] None fresh).2 in
  is_Some (peers (book w') !! "Qm1") ∧ file_of w' = None ∧ Flush io_ok w' = (None, w').
Proof.
  cbv zeta.
  destruct (failed_save_not_retried (λ x, match x with OpLock => Some ErrNodeNotStarted | _ => None end)
              io_ok 5%Z "Qm1" fresh) as (H1 & H2 & H3 & _); [by vm_compute | reflexivity | reflexivity |].
  split; [exact H1 |]. split; [exact H2 | exact H3].
Defined.
End Witness.
