(* ===== verification/Mock.v ===== *)
(** * The mock node ([internal/testutil/mock.go])

    What applications test against in place of a node.  Every method holds the
    mock's mutex and is a function on its state; a panic is [None].  Slices
    and maps that are stored by reference are values here. *)

From S2P Require Import Prelude Errors Dispatcher Validation Json Interfaces Storage AddressBook.

Definition ErrPeerNotFound : error := ErrSentinel "testutil.ErrPeerNotFound".
Definition ErrPeerBlacklisted : error := ErrSentinel "testutil.ErrPeerBlacklisted".
Definition ErrNotConnected : error := ErrSentinel "testutil.ErrNotConnected".

(** ** State *)

Section Mock.
Context `{Libp2p}.

Record SentMessage := { sm_PeerID : string; sm_StreamName : string; sm_Data : list Z; sm_Timestamp : time }.
(** An incoming message and an event; the state of an event is a string. *)
Record mock_message := { mm_PeerID : string; mm_StreamName : string; mm_Data : list Z; mm_Timestamp : time }.
Record mock_event := { me_PeerID : string; me_State : string; me_Error : option error }.

Record mockPeerState := {
  mp_Addrs : list Multiaddr;
  mp_Metadata : option (gmap string string);
  mp_PublicKey : list Z;
  mp_IsOutbound : bool;
  mp_State : string;
}.

Record MockNode := {
  peerID : string;
  publicKey : list Z;
  started : bool;
  addrs : list Multiaddr;
  mpeers : gmap string mockPeerState;
  connections : gmap string bool;
  blacklisted : gmap string bool;
  sentMessages : list SentMessage;
  messages : Chan.chan mock_message;
  events : Chan.chan mock_event;
  connectErr : option error;
  sendErr : option error;
  disconnectErr : option error;
}.

Definition NewMockNodeWithID (p : string) (key : list Z) : MockNode :=
  {| peerID := p; publicKey := key; started := false; addrs := []; mpeers := ∅; connections := ∅; blacklisted := ∅;
     sentMessages := []; messages := Chan.make 100; events := Chan.make 100;
     connectErr := None; sendErr := None; disconnectErr := None |}.
(** The key is a fresh one, [string_of] the conversion of its bytes. *)
Definition NewMockNode (pub : list Z) : MockNode := NewMockNodeWithID (string_of (take 20 pub)) pub.

(** ** Updates *)

Definition set_started (b : bool) (m : MockNode) : MockNode :=
  {| peerID := peerID m; publicKey := publicKey m; started := b; addrs := addrs m; mpeers := mpeers m;
     connections := connections m; blacklisted := blacklisted m; sentMessages := sentMessages m; messages := messages m;
     events := events m; connectErr := connectErr m; sendErr := sendErr m; disconnectErr := disconnectErr m |}.
Definition set_peers (ps : gmap string mockPeerState) (cs bs : gmap string bool) (m : MockNode) : MockNode :=
  {| peerID := peerID m; publicKey := publicKey m; started := started m; addrs := addrs m; mpeers := ps;
     connections := cs; blacklisted := bs; sentMessages := sentMessages m; messages := messages m;
     events := events m; connectErr := connectErr m; sendErr := sendErr m; disconnectErr := disconnectErr m |}.
Definition set_sent (l : list SentMessage) (m : MockNode) : MockNode :=
  {| peerID := peerID m; publicKey := publicKey m; started := started m; addrs := addrs m; mpeers := mpeers m;
     connections := connections m; blacklisted := blacklisted m; sentMessages := l; messages := messages m;
     events := events m; connectErr := connectErr m; sendErr := sendErr m; disconnectErr := disconnectErr m |}.
Definition set_channels (ms : Chan.chan mock_message) (es : Chan.chan mock_event) (m : MockNode) : MockNode :=
  {| peerID := peerID m; publicKey := publicKey m; started := started m; addrs := addrs m; mpeers := mpeers m;
     connections := connections m; blacklisted := blacklisted m; sentMessages := sentMessages m; messages := ms;
     events := es; connectErr := connectErr m; sendErr := sendErr m; disconnectErr := disconnectErr m |}.
Definition set_errors (c s d : option error) (m : MockNode) : MockNode :=
  {| peerID := peerID m; publicKey := publicKey m; started := started m; addrs := addrs m; mpeers := mpeers m;
     connections := connections m; blacklisted := blacklisted m; sentMessages := sentMessages m; messages := messages m;
     events := events m; connectErr := c; sendErr := s; disconnectErr := d |}.

(** [m[k]] of a [map[peer.ID]bool]. *)
Definition truth (m : gmap string bool) (k : string) : bool := default false (m !! k).

(** ** The node's methods *)

Definition Start : ST MockNode (option error) := λ m, (None, set_started true m).
(** Both channels are closed: stopping twice panics. *)
Definition Stop (m : MockNode) : option (option error * MockNode) :=
  ms ← Chan.close (messages m); es ← Chan.close (events m);
  Some (None, set_channels ms es (set_started false m)).

Definition SetAddrs (l : list Multiaddr) (m : MockNode) : MockNode :=
  {| peerID := peerID m; publicKey := publicKey m; started := started m; addrs := l; mpeers := mpeers m;
     connections := connections m; blacklisted := blacklisted m; sentMessages := sentMessages m; messages := messages m;
     events := events m; connectErr := connectErr m; sendErr := sendErr m; disconnectErr := disconnectErr m |}.

Definition AddPeer (p : string) (l : list Multiaddr) (metadata : option (gmap string string)) : ST MockNode (option error) := λ m,
  if truth (blacklisted m) p then (Some ErrPeerBlacklisted, m)
  else (None, set_peers (<[p := {| mp_Addrs := l; mp_Metadata := metadata; mp_PublicKey := []; mp_IsOutbound := false; mp_State := "" |}]> (mpeers m))
                        (connections m) (blacklisted m) m).

Definition RemovePeer (p : string) : ST MockNode (option error) := λ m,
  match mpeers m !! p with
  | None => (Some ErrPeerNotFound, m)
  | Some _ => (None, set_peers (delete p (mpeers m)) (delete p (connections m)) (blacklisted m) m)
  end.

Definition BlacklistPeer (p : string) : ST MockNode (option error) := λ m,
  (None, set_peers (mpeers m) (connections m) (<[p := true]> (blacklisted m)) m).
Definition UnblacklistPeer (p : string) : ST MockNode (option error) := λ m,
  (None, set_peers (mpeers m) (connections m) (delete p (blacklisted m)) m).

Definition entry_of (p : string) (st : mockPeerState) (bl : bool) : PeerEntry :=
  {| PeerID := p; Multiaddrs := mp_Addrs st; RawMultiaddrs := []; PublicKey := mp_PublicKey st; Metadata := mp_Metadata st;
     LastSeen := GoTime.zero; Blacklisted := bl; CreatedAt := GoTime.zero; UpdatedAt := GoTime.zero |}.

Definition GetPeer (p : string) (m : MockNode) : result error PeerEntry :=
  match mpeers m !! p with
  | None => Err ErrPeerNotFound
  | Some st => Ok (entry_of p st (truth (blacklisted m) p))
  end.

Definition ListPeers (m : MockNode) : list PeerEntry :=
  (λ x : string * mockPeerState, entry_of x.1 x.2 false)
    <$> filter (λ x : string * mockPeerState, truth (blacklisted m) x.1 = false) (map_to_list (mpeers m)).

Definition outbound (st : mockPeerState) : mockPeerState :=
  {| mp_Addrs := mp_Addrs st; mp_Metadata := mp_Metadata st; mp_PublicKey := mp_PublicKey st; mp_IsOutbound := true; mp_State := mp_State st |}.

Definition ConnectCtx (p : string) : ST MockNode (option error) := λ m,
  match connectErr m with
  | Some e => (Some e, m)
  | None =>
      if truth (blacklisted m) p then (Some ErrPeerBlacklisted, m)
      else (None, set_peers (alter outbound p (mpeers m)) (<[p := true]> (connections m)) (blacklisted m) m)
  end.

Definition DisconnectCtx (p : string) : ST MockNode (option error) := λ m,
  match disconnectErr m with
  | Some e => (Some e, m)
  | None => (None, set_peers (mpeers m) (delete p (connections m)) (blacklisted m) m)
  end.

(** With the background context. *)
Definition Connect : string → ST MockNode (option error) := ConnectCtx.
Definition Disconnect : string → ST MockNode (option error) := DisconnectCtx.

Definition IsConnected (p : string) (m : MockNode) : bool := truth (connections m) p.
Definition IsOutbound (p : string) (m : MockNode) : result error bool :=
  match mpeers m !! p with None => Err ErrPeerNotFound | Some st => Ok (mp_IsOutbound st) end.

Definition SendCtx (now : time) (p name : string) (data : list Z) : ST MockNode (option error) := λ m,
  match sendErr m with
  | Some e => (Some e, m)
  | None =>
      if truth (connections m) p
      then (None, set_sent (sentMessages m ++ [{| sm_PeerID := p; sm_StreamName := name; sm_Data := data; sm_Timestamp := now |}]) m)
      else (Some ErrNotConnected, m)
  end.

Definition Send : time → string → string → list Z → ST MockNode (option error) := SendCtx.

(** ** What a test does *)

(** The sends that do not block; on a closed channel they panic. *)
Definition send_message (x : mock_message) (m : MockNode) : option MockNode :=
  r ← Chan.try_send x (messages m); Some (set_channels r.2 (events m) m).
Definition send_event (x : mock_event) (m : MockNode) : option MockNode :=
  r ← Chan.try_send x (events m); Some (set_channels (messages m) r.2 m).

Definition SimulateConnect (p : string) (l : list Multiaddr) (m : MockNode) : option MockNode :=
  let st := {| mp_Addrs := l; mp_Metadata := None; mp_PublicKey := []; mp_IsOutbound := false; mp_State := "" |} in
  send_event {| me_PeerID := p; me_State := "connected"; me_Error := None |}
    (set_peers (<[p := st]> (mpeers m)) (<[p := true]> (connections m)) (blacklisted m) m).
Definition SimulateDisconnect (p : string) (m : MockNode) : option MockNode :=
  send_event {| me_PeerID := p; me_State := "disconnected"; me_Error := None |}
    (set_peers (mpeers m) (delete p (connections m)) (blacklisted m) m).
Definition SimulateMessage (now : time) (p name : string) (data : list Z) (m : MockNode) : option MockNode :=
  send_message {| mm_PeerID := p; mm_StreamName := name; mm_Data := data; mm_Timestamp := now |} m.
Definition SimulateEvent (p state : string) (err : option error) (m : MockNode) : option MockNode :=
  send_event {| me_PeerID := p; me_State := state; me_Error := err |} m.

Definition SetConnectError (e : option error) (m : MockNode) : MockNode := set_errors e (sendErr m) (disconnectErr m) m.
Definition SetSendError (e : option error) (m : MockNode) : MockNode := set_errors (connectErr m) e (disconnectErr m) m.
Definition SetDisconnectError (e : option error) (m : MockNode) : MockNode := set_errors (connectErr m) (sendErr m) e m.

Definition SentMessages (m : MockNode) : list SentMessage := sentMessages m.
Definition ClearSentMessages (m : MockNode) : MockNode := set_sent [] m.
Definition AssertSent (p name : string) (m : MockNode) : list SentMessage :=
  filter (λ x, sm_PeerID x = p ∧ sm_StreamName x = name) (sentMessages m).
Definition AssertNotSent (p name : string) (m : MockNode) : bool := (length (AssertSent p name m) =? 0)%nat.
Definition ConnectedPeers (m : MockNode) : list string := (map_to_list (connections m)).*1.
Definition Reset (m : MockNode) : MockNode := set_errors None None None (set_sent [] (set_peers ∅ ∅ ∅ m)).
End Mock.

(** ** The mock and the address book

    The methods of a node that go to its address book, on the mock and on the
    book. *)

Inductive book_call `{Libp2p} :=
| CAdd (p : string) (l : list Multiaddr) (md : option (gmap string string))
| CRemove (p : string)
| CBlacklist (p : string)
| CUnblacklist (p : string).

Section Agreement.
Context `{Libp2pLaws}.

Definition on_mock (c : book_call) : ST MockNode (option error) :=
  match c with
  | CAdd p l md => AddPeer p l md
  | CRemove p => RemovePeer p
  | CBlacklist p => BlacklistPeer p
  | CUnblacklist p => UnblacklistPeer p
  end.
Definition on_book (o : io_op → option error) (now : time) (c : book_call) : ST world (option error) :=
  match c with
  | CAdd p l md => AddressBook.AddPeer o now p l md
  | CRemove p => AddressBook.RemovePeer o p
  | CBlacklist p => AddressBook.BlacklistPeer o now p
  | CUnblacklist p => AddressBook.UnblacklistPeer o now p
  end.

(** What an application sees of a peer: its addresses and whether it is
    blacklisted. *)
Definition seen (r : result error PeerEntry) : option (string * list Multiaddr * bool) :=
  match r with Ok e => Some (PeerID e, Multiaddrs e, Blacklisted e) | Err _ => None end.

(** The mock keeps the blacklist apart from the peers: the two agree on calls
    that blacklist and unblacklist known peers and remove peers that are not
    blacklisted. *)
Definition in_step (c : book_call) (m : MockNode) : Prop :=
  match c with
  | CAdd _ _ _ => True
  | CRemove p => truth (blacklisted m) p = false
  | CBlacklist p | CUnblacklist p => is_Some (mpeers m !! p)
  end.

Record agree (m : MockNode) (w : world) : Prop := {
  ag_peers : ∀ p, seen (GetPeer p m) = seen (AddressBook.GetPeer p w).1;
  ag_blacklist : ∀ p, truth (blacklisted m) p = (IsBlacklisted p w).1;
}.

(** The book's entry of a peer, as the application sees it. *)
Lemma seen_book p w :
  seen (AddressBook.GetPeer p w).1 = (λ e, (PeerID e, Multiaddrs e, Blacklisted e)) <$> peers (book w) !! peer_String p.
Proof. rewrite GetPeer_eq. by destruct (peers (book w) !! peer_String p). Qed.

Lemma seen_mock p m : seen (GetPeer p m) = (λ st, (p, mp_Addrs st, truth (blacklisted m) p)) <$> mpeers m !! p.
Proof. unfold GetPeer. by destruct (mpeers m !! p). Qed.

Lemma truth_insert b bs p q : truth (<[p := b]> bs) q = if decide (q = p) then b else truth bs q.
Proof. unfold truth. rewrite lookup_insert. repeat case_decide; naive_solver. Qed.
Lemma truth_delete bs p q : truth (delete p bs) q = if decide (q = p) then false else truth bs q.
Proof. unfold truth. rewrite lookup_delete. repeat case_decide; naive_solver. Qed.

(** The book after a call, by its map. *)
Lemma book_peers o now c w :
  let key := peer_String match c with CAdd p _ _ | CRemove p | CBlacklist p | CUnblacklist p => p end in
  let ps := peers (book w) in
  peers (book (on_book o now c w).2)
  = match c, ps !! key with
    | CAdd p l md, old => if decide ((IsBlacklisted p w).1 = true) then ps else <[key := added now p l md old]> ps
    | CRemove _, Some _ => delete key ps
    | CBlacklist _, Some e => <[key := set_blacklisted true now e]> ps
    | CUnblacklist _, Some e => <[key := set_blacklisted false now e]> ps
    | _, None => ps
    end.
Proof.
  pose proof (saveLocked_book o) as Hs. destruct c as [p l md|p|p|p]; cbn [on_book]; cbv zeta.
  1: { case_decide as Hb.
       - apply blacklisted_iff in Hb as (e & He & Hb). unfold AddressBook.AddPeer. book_unfold. by rewrite He, Hb.
       - apply not_true_is_false in Hb. rewrite AddPeer_runs by done. book_unfold. by rewrite (proj2 (Hs _)). }
  all: unfold AddressBook.RemovePeer, AddressBook.BlacklistPeer, AddressBook.UnblacklistPeer; book_unfold;
    destruct (peers (book w) !! peer_String p) as [e|] eqn:He; [by rewrite (proj2 (Hs _)) | done].
Qed.

(** Agreement, peer by peer. *)
Definition agree_at (p : string) (st : option mockPeerState) (bl : bool) (e : option PeerEntry) : Prop :=
  (λ st, (p, mp_Addrs st, bl)) <$> st = (λ e, (PeerID e, Multiaddrs e, Blacklisted e)) <$> e
  ∧ bl = match e with Some e => Blacklisted e | None => false end.

Lemma agree_iff m w :
  agree m w ↔ ∀ p, agree_at p (mpeers m !! p) (truth (blacklisted m) p) (peers (book w) !! peer_String p).
Proof.
  unfold agree_at. split.
  - intros [Hp Hb] p. specialize (Hp p). specialize (Hb p). by rewrite seen_mock, seen_book, IsBlacklisted_eq in *.
  - intros Ha. split; intros p; destruct (Ha p); by rewrite ?seen_mock, ?seen_book, ?IsBlacklisted_eq.
Qed.

Lemma agree_step o now c m w :
  agree m w → in_step c m → agree (on_mock c m).2 (on_book o now c w).2.
Proof.
  rewrite !agree_iff. intros Ha Hc q. pose proof (Ha q) as Haq. rewrite book_peers.
  assert (∀ p, q ≠ p → peer_String p ≠ peer_String q) as Hne by (intros p N E; by apply N, peer_String_inj).
  destruct c as [p l md|p|p|p]; cbn [on_mock]; unfold AddPeer, RemovePeer, BlacklistPeer, UnblacklistPeer; cbn in Hc;
    pose proof (Ha p) as [Hp1 Hp2].
  - rewrite IsBlacklisted_eq. rewrite Hp2. destruct (match peers (book w) !! peer_String p with Some e => Blacklisted e | None => false end) eqn:Eb;
      [by rewrite decide_True |]. rewrite decide_False by done. cbn.
    destruct (decide (q = p)) as [->|N]; [| by rewrite !lookup_insert_ne by auto].
    rewrite !lookup_insert_eq, Hp2. unfold agree_at, added. cbn.
    destruct (peers (book w) !! peer_String p) as [e|]; cbn in *; [| done].
    destruct (mpeers m !! p); cbn in *; naive_solver.
  - destruct (mpeers m !! p) as [st|] eqn:Em, (peers (book w) !! peer_String p) as [e|] eqn:Ee; cbn in Hp1, Hp2; try discriminate Hp1; [| exact Haq].
    cbn [snd set_peers mpeers blacklisted].
    destruct (decide (q = p)) as [->|N]; [rewrite !lookup_delete_eq; by split | by rewrite !lookup_delete_ne by auto].
  - destruct Hc as [st Em]. rewrite Em in *. destruct (peers (book w) !! peer_String p) as [e|] eqn:Ee; cbn in Hp1, Hp2; [| discriminate Hp1].
    cbn [snd set_peers mpeers blacklisted]. rewrite truth_insert.
    destruct (decide (q = p)) as [->|N]; [| by rewrite !lookup_insert_ne by auto].
    rewrite Em, lookup_insert_eq. split; cbn; [congruence | done].
  - destruct Hc as [st Em]. rewrite Em in *. destruct (peers (book w) !! peer_String p) as [e|] eqn:Ee; cbn in Hp1, Hp2; [| discriminate Hp1].
    cbn [snd set_peers mpeers blacklisted]. rewrite truth_delete.
    destruct (decide (q = p)) as [->|N]; [| by rewrite !lookup_insert_ne by auto].
    rewrite Em, lookup_insert_eq. split; cbn; [congruence | done].
Qed.

(** The answers agree too, when the book can save. *)
Lemma agree_answer o now c m w :
  io_fine o → agree m w → in_step c m → (on_mock c m).1 = None ↔ (on_book o now c w).1 = None.
Proof.
  intros Ho Ha Hc. pose proof Ha as [_ Hb]. rewrite agree_iff in Ha.
  destruct c as [p l md|p|p|p]; cbn [on_mock on_book]; cbn in Hc; unfold AddPeer, RemovePeer, BlacklistPeer, UnblacklistPeer.
  - specialize (Hb p). destruct (truth (blacklisted m) p) eqn:Et; symmetry in Hb.
    + apply blacklisted_iff in Hb as (e & He & Hbe). unfold AddressBook.AddPeer. book_unfold. by rewrite He, Hbe.
    + rewrite AddPeer_runs by done. book_unfold. cbn. split; [intros _; by apply saveLocked_ok | done].
  - specialize (Ha p) as [Hp _]. unfold AddressBook.RemovePeer. book_unfold.
    destruct (mpeers m !! p), (peers (book w) !! peer_String p); cbn in *; try discriminate Hp; [| done].
    split; [intros _; by apply saveLocked_ok | done].
  - specialize (Ha p) as [Hp _]. destruct Hc as [st Em]. rewrite Em in Hp. unfold AddressBook.BlacklistPeer. book_unfold.
    destruct (peers (book w) !! peer_String p); cbn in *; [| discriminate Hp]. split; [intros _; by apply saveLocked_ok | done].
  - specialize (Ha p) as [Hp _]. destruct Hc as [st Em]. rewrite Em in Hp. unfold AddressBook.UnblacklistPeer. book_unfold.
    destruct (peers (book w) !! peer_String p); cbn in *; [| discriminate Hp]. split; [intros _; by apply saveLocked_ok | done].
Qed.

(** Calls one after the other, with their answers: did it succeed? *)
Fixpoint mock_run (cs : list book_call) (m : MockNode) : list bool * MockNode :=
  match cs with
  | [] => ([], m)
  | c :: cs => let (r, m) := on_mock c m in let (rs, m) := mock_run cs m in (bool_decide (r = None) :: rs, m)
  end.
Fixpoint book_run (o : io_op → option error) (now : time) (cs : list book_call) (w : world) : list bool * world :=
  match cs with
  | [] => ([], w)
  | c :: cs => let (r, w) := on_book o now c w in let (rs, w) := book_run o now cs w in (bool_decide (r = None) :: rs, w)
  end.
Fixpoint all_in_step (cs : list book_call) (m : MockNode) : Prop :=
  match cs with [] => True | c :: cs => in_step c m ∧ all_in_step cs (on_mock c m).2 end.

(** A test that passes on the mock passes on the node.  As long as a test
    blacklists and unblacklists known peers only, and removes no blacklisted
    one, the mock gives every answer that the address book of a node gives: the
    same calls succeed, the same peers are known, with the same addresses and
    the same blacklistings. *)
Theorem mock_stands_in o now cs m w :
  io_fine o → agree m w → all_in_step cs m →
  (mock_run cs m).1 = (book_run o now cs w).1
  ∧ ∀ p, seen (GetPeer p (mock_run cs m).2) = seen (AddressBook.GetPeer p (book_run o now cs w).2).1
         ∧ truth (blacklisted (mock_run cs m).2) p = (IsBlacklisted p (book_run o now cs w).2).1.
Proof.
  intros Ho. revert m w. induction cs as [|c cs IH]; intros m w Ha Hc; cbn [mock_run book_run].
  - split; [done |]. intros p. split; apply Ha.
  - destruct Hc as [Hc Hcs]. pose proof (agree_step o now c m w Ha Hc) as Hs. pose proof (agree_answer o now c m w Ho Ha Hc) as Hr.
    destruct (on_mock c m) as [r m']. destruct (on_book o now c w) as [r' w']. cbn in Hs, Hr, Hcs.
    destruct (IH m' w' Hs Hcs) as [E1 E2]. destruct (mock_run cs m'). destruct (book_run o now cs w'). cbn in *.
    split; [| done]. rewrite E1. f_equal. by apply bool_decide_ext.
Qed.
End Agreement.

(** Where they part: the mock blacklists and connects to peers it does not
    know, and keeps a peer blacklisted when it is removed. *)
Lemma mock_differs `{Libp2pLaws} o p m w :
  mpeers m !! p = None → agree m w →
  (BlacklistPeer p m).1 = None ∧ (∀ now, is_Some (AddressBook.BlacklistPeer o now p w).1)
  ∧ (connectErr m = None → truth (blacklisted m) p = false → IsConnected p (ConnectCtx p m).2 = true).
Proof.
  intros Hm Ha. rewrite agree_iff in Ha. destruct (Ha p) as [Hp _]. rewrite Hm in Hp. split_and!; [done | |].
  - intros now. unfold AddressBook.BlacklistPeer. book_unfold. destruct (peers (book w) !! peer_String p); [discriminate Hp | done].
  - intros Hc Hb. unfold ConnectCtx, IsConnected. rewrite Hc, Hb. cbn. by rewrite truth_insert, decide_True.
Qed.

(** Stopping a mock twice, or simulating anything on a stopped one, panics. *)
Lemma mock_stop_panics `{Libp2p} m r m' :
  Stop m = Some (r, m') → Stop m' = None ∧ (∀ now p name data, SimulateMessage now p name data m' = None)
  ∧ ∀ p s e, SimulateEvent p s e m' = None.
Proof.
  unfold Stop, Chan.close. intros Hs. repeat case_match; simplify_eq/=. split_and!; done.
Qed.

(** ** The log of sent messages *)

(** A send is logged exactly when it succeeds, and it succeeds exactly when no
    error was set and the peer is connected; nothing else appends to the log,
    and what [AssertSent] returns is what was sent to the peer on the stream. *)
Lemma SendCtx_logged `{Libp2p} now p name data m :
  let '(r, m') := SendCtx now p name data m in
  let x := {| sm_PeerID := p; sm_StreamName := name; sm_Data := data; sm_Timestamp := now |} in
  (r = None ↔ sendErr m = None ∧ IsConnected p m = true)
  ∧ SentMessages m' = SentMessages m ++ (if decide (r = None) then [x] else [])
  ∧ ∀ q k, AssertSent q k m' = AssertSent q k m ++ (if decide (r = None ∧ p = q ∧ name = k) then [x] else []).
Proof.
  unfold SendCtx, IsConnected, SentMessages, AssertSent. destruct (sendErr m) as [e|].
  { split_and!; [naive_solver | by rewrite decide_False, app_nil_r | intros; rewrite decide_False by naive_solver; by rewrite app_nil_r]. }
  destruct (truth (connections m) p); cbn.
  - split_and!; [naive_solver | by rewrite decide_True |]. intros q k. rewrite filter_app, filter_cons, filter_nil. cbn.
    repeat case_decide; naive_solver.
  - split_and!; [naive_solver | by rewrite decide_False, app_nil_r | intros; rewrite decide_False by naive_solver; by rewrite app_nil_r].
Qed.

(** ** Witness *)

Module MockWitness.
#[local] Existing Instance plain_libp2p.
#[local] Existing Instance plain_libp2p_laws.
Import AddressBook.Witness.

Definition mock : MockNode := NewMockNodeWithID "QmSelf" [1%Z].
Definition calls : list book_call :=
  [CAdd "QmA" ["/ip4/10.0.0.1/tcp/4001" : Multiaddr] None; CBlacklist "QmA"; CAdd "QmA" [] None; CUnblacklist "QmA"; CRemove "QmA"; CRemove "QmA"].

Lemma mock_agrees : agree mock fresh.
Proof. by split. Qed.

Lemma mock_stands_in_witness :
  (mock_run calls mock).1 = [true; true; false; true; true; false]
  ∧ (mock_run calls mock).1 = (book_run io_ok 7%Z calls fresh).1.
Proof.
  split; [reflexivity |].
  apply (mock_stands_in io_ok 7%Z calls mock fresh); [done | exact mock_agrees |].
  repeat split; by eexists.
Defined.
End MockWitness.
