(* ===== verification/Heap.v ===== *)
(** * Byte buffers with identity

    Go slices of key material are shared and overwritten in place
    ([SecureZero]), so which slice aliases which matters.  A buffer is an
    allocated block; a [ref] is its address.  The slices modelled here always
    cover their whole block. *)

From S2P Require Import Prelude.

Notation ref := nat (only parsing).
Notation bytes := (list Z) (only parsing).

Record heap := { blocks : gmap ref bytes; next : ref }.

Definition empty_heap : heap := {| blocks := ∅; next := 0 |}.

(** A fresh block. *)
Definition alloc (bs : bytes) : ST heap ref := λ h,
  (next h, {| blocks := <[next h := bs]> (blocks h); next := S (next h) |}).

(** The bytes of a slice; a nil slice has none. *)
Definition deref (h : heap) (r : ref) : bytes := default [] (blocks h !! r).
Definition read (r : ref) : ST heap bytes := st_gets (λ h, deref h r).

Definition write (f : bytes → bytes) (r : ref) : ST heap unit :=
  st_modify (λ h, {| blocks := alter f r (blocks h); next := next h |}).

(** [make([]byte, len(src)); copy(dst, src)] *)
Definition copy (src : ref) : ST heap ref := bs ← read src; alloc bs.

(** Addresses below [next] are the allocated ones. *)
Definition heap_wf (h : heap) : Prop := ∀ r, r ∈ dom (blocks h) ↔ r < next h.

(** ** Facts *)

Lemma empty_heap_wf : heap_wf empty_heap.
Proof. intros r. cbn. set_solver by lia. Qed.

Lemma alloc_wf bs h : heap_wf h → heap_wf (alloc bs h).2.
Proof. intros Hh r. cbn. rewrite dom_insert_L, elem_of_union, elem_of_singleton, (Hh r). lia. Qed.

Lemma write_wf f r h : heap_wf h → heap_wf (write f r h).2.
Proof. intros Hh q. cbn. by rewrite dom_alter_L. Qed.

Lemma next_fresh h : heap_wf h → blocks h !! next h = None.
Proof. intros Hh. apply not_elem_of_dom. rewrite (Hh _). lia. Qed.

Lemma deref_alloc_eq bs h : deref (alloc bs h).2 (alloc bs h).1 = bs.
Proof. unfold deref; cbn. by rewrite lookup_insert_eq. Qed.

Lemma deref_alloc_ne bs h r : r < next h → deref (alloc bs h).2 r = deref h r.
Proof. intros Hr. unfold deref; cbn. rewrite lookup_insert_ne by lia. done. Qed.

Lemma deref_write_eq f r h : f [] = [] → deref (write f r h).2 r = f (deref h r).
Proof.
  intros Hf. unfold deref; cbn. rewrite lookup_alter_eq. destruct (blocks h !! r); cbn; congruence.
Qed.

Lemma deref_write_ne f r q h : q ≠ r → deref (write f r h).2 q = deref h q.
Proof. intros Hq. unfold deref; cbn. by rewrite lookup_alter_ne. Qed.

(** A heap that only grew and kept the blocks below [n]. *)
Definition extends (n : ref) (h h' : heap) : Prop :=
  next h ≤ next h' ∧ ∀ r, r < n → deref h' r = deref h r.

Lemma extends_refl n h : extends n h h.
Proof. by split. Qed.

Lemma extends_trans n h1 h2 h3 : extends n h1 h2 → extends n h2 h3 → extends n h1 h3.
Proof. intros [? H12] [? H23]. split; [lia |]. intros r Hr. by rewrite H23, H12. Qed.

Lemma extends_alloc n bs h : n ≤ next h → extends n h (alloc bs h).2.
Proof. intros Hn. split; [cbn; lia |]. intros r Hr. apply deref_alloc_ne. lia. Qed.

Lemma extends_write n f r h : n ≤ r → extends n h (write f r h).2.
Proof. intros Hn. split; [done |]. intros q Hq. apply deref_write_ne. lia. Qed.
