(* ===== verification/Crypto.v ===== *)
(** * Keys, key agreement and authenticated encryption
    ([pkg/crypto/secure.go], [keys.go], [ecdh.go], [cipher.go])

    SHA-512 is that of [Sha2].  The Edwards-to-Montgomery map, X25519, HKDF and
    ChaCha20-Poly1305 are third-party code, and the key pairs of Ed25519 come
    with them: the operations of [CryptoLib], with the documented facts in
    [CryptoLaws].  Secret buffers live in the
    heap of [Heap]; arguments that are only read are values. *)

From S2P Require Import Prelude Errors Sha2 Heap.
Local Open Scope Z_scope.

(** ** Third-party operations *)

Class CryptoLib := {
  (** [new(edwards25519.Point).SetBytes(b)]: the decoded point or an error *)
  Point : Type;
  Point_SetBytes : bytes → option Point;
  BytesMontgomery : Point → bytes;
  (** [curve25519.X25519], which fails on a bad scalar or a low-order point *)
  curve25519_X25519 : bytes → bytes → option bytes;
  Basepoint : bytes;
  (** the first 32 bytes of [hkdf.New(sha256.New, secret, salt, info)] *)
  hkdf_key : bytes → bytes → string → option bytes;
  (** [chacha20poly1305]: key, nonce, text, additional data *)
  aead_Seal : bytes → bytes → bytes → bytes → bytes;
  aead_Open : bytes → bytes → bytes → bytes → option bytes;
  (** the public half of the Ed25519 key with a given seed *)
  ed25519_public : bytes → bytes;
}.

Definition X25519KeySize : nat := 32.
Definition SharedKeySize : nat := 32.
Definition KeySize : nat := 32.
Definition NonceSize : nat := 12.
Definition TagSize : nat := 16.
Definition PrivateKeySize : nat := 64.
Definition PublicKeySize : nat := 32.
Definition SeedSize : nat := 32.
Definition hkdfInfo : string := "glueberry-v1-stream-key".

(** ** secure.go *)

(** The loop body writes each index in turn. *)
Definition memclrFunc (b : bytes) : bytes := foldl (λ b i, <[i := 0]> b) b (seq 0 (length b)).

Definition SecureZero (r : ref) : ST heap unit := write memclrFunc r.

Fixpoint SecureZeroMultiple (slices : list ref) : ST heap unit :=
  match slices with
  | [] => mret tt
  | b :: rest => _ ← SecureZero b; SecureZeroMultiple rest
  end.

(** ** keys.go *)

(** The writes [k[0] &= 248], [k[31] &= 127], [k[31] |= 64], in order; the
    only caller passes 32 bytes. *)
Definition clampX25519 (k : bytes) : bytes :=
  alter (λ b, Z.lor b 64) 31%nat (alter (λ b, Z.land b 127) 31%nat (alter (λ b, Z.land b 248) 0%nat k)).

Section Keys.
Context `{CryptoLib}.

(** The array [h] is a local of the function: its block is allocated, copied
    from and zeroed on return. *)
Definition Ed25519PrivateToX25519 (edPriv : ref) : ST heap (result error ref) :=
  priv ← read edPriv;
  if negb (length priv =? PrivateKeySize)%nat
  then mret (Err (Errorf "invalid Ed25519 private key size: expected %d, got %d" None))
  else
    let seed := take SeedSize priv in
    h ← alloc (sha512_Sum512 seed);
    hb ← read h;
    x25519Priv ← alloc (take X25519KeySize hb);
    _ ← write clampX25519 x25519Priv;
    _ ← SecureZero h;
    mret (Ok x25519Priv).

Definition Ed25519PublicToX25519 (edPub : bytes) : result error bytes :=
  if negb (length edPub =? PublicKeySize)%nat
  then Err (Errorf "invalid Ed25519 public key size: expected %d, got %d" None)
  else match Point_SetBytes edPub with
       | None => Err (Errorf "invalid Ed25519 public key: %w" None)
       | Some edPoint => Ok (BytesMontgomery edPoint)
       end.

(** A key argument that may be [nil]. *)
Definition ValidateEd25519PrivateKey (key : option bytes) : option error :=
  match key with
  | None => Some (Errorf "private key is nil" None)
  | Some k => if negb (length k =? PrivateKeySize)%nat
              then Some (Errorf "invalid Ed25519 private key size: expected %d, got %d" None)
              else None
  end.

Definition ValidateEd25519PublicKey (key : option bytes) : option error :=
  match key with
  | None => Some (Errorf "public key is nil" None)
  | Some k => if negb (length k =? PublicKeySize)%nat
              then Some (Errorf "invalid Ed25519 public key size: expected %d, got %d" None)
              else match Point_SetBytes k with
                   | None => Some (Errorf "invalid Ed25519 public key: not a valid curve point" None)
                   | Some _ => None
                   end
  end.

(** ** ecdh.go *)

(** The loop that looks for a nonzero byte. *)
Definition all_zeros (s : bytes) : bool := forallb (λ b, b =? 0) s.

Definition ComputeX25519SharedSecret (localPrivate remotePublic : bytes) : ST heap (result error ref) :=
  if negb (length localPrivate =? X25519KeySize)%nat
  then mret (Err (Errorf "invalid X25519 private key size: expected %d, got %d" None))
  else if negb (length remotePublic =? X25519KeySize)%nat
  then mret (Err (Errorf "invalid X25519 public key size: expected %d, got %d" None))
  else match curve25519_X25519 localPrivate remotePublic with
       | None => mret (Err (Errorf "X25519 computation failed: %w" None))
       | Some secret =>
           sharedSecret ← alloc secret;
           if all_zeros secret
           then mret (Err (Errorf "X25519 produced all-zero output (low-order point attack)" None))
           else mret (Ok sharedSecret)
       end.

Definition deriveKeyFromSecret (sharedSecret : bytes) (salt : bytes) : ST heap (result error ref) :=
  match hkdf_key sharedSecret salt hkdfInfo with
  | None => mret (Err (Errorf "HKDF key derivation failed: %w" None))
  | Some k => key ← alloc k; mret (Ok key)
  end.

Definition DeriveSharedKey (localPrivate : ref) (remotePublic salt : bytes) : ST heap (result error ref) :=
  priv ← read localPrivate;
  s ← ComputeX25519SharedSecret priv remotePublic;
  match s with
  | Err e => mret (Err e)
  | Ok sharedSecret =>
      secret ← read sharedSecret;
      k ← deriveKeyFromSecret secret salt;
      _ ← SecureZero sharedSecret;
      mret k
  end.

Definition X25519PublicFromPrivate (privateKey : bytes) : result error bytes :=
  if negb (length privateKey =? X25519KeySize)%nat
  then Err (Errorf "invalid X25519 private key size: expected %d, got %d" None)
  else match curve25519_X25519 privateKey Basepoint with
       | None => Err (Errorf "X25519 public key computation failed: %w" None)
       | Some pub => Ok pub
       end.

(** ** cipher.go *)

(** [aead] holds the library's own copy of the key; [key] is the copy that
    [Close] zeroes. *)
Record Cipher := { aead : option bytes; key : option ref; closed : bool }.

Definition NewCipher (k : bytes) : ST heap (result error Cipher) :=
  if negb (length k =? KeySize)%nat
  then mret (Err (Errorf "invalid key size: expected %d bytes, got %d" None))
  else
    keyCopy ← alloc k;
    mret (Ok {| aead := Some k; key := Some keyCopy; closed := false |}).

(** [Seal(result[12:12], ...)] writes right behind the nonce, in place.  Calling a
    method of a nil [aead] would panic; [cipher_wf] excludes it. *)
Definition encryptWithNonceLocked (c : Cipher) (nonce plaintext additionalData : bytes) : result error bytes :=
  if negb (length nonce =? NonceSize)%nat
  then Err (Errorf "invalid nonce size: expected %d bytes, got %d" None)
  else match aead c with
       | None => Err (Errorf "panic: nil pointer dereference" None)
       | Some k => Ok (nonce ++ aead_Seal k nonce plaintext additionalData)
       end.

Definition encryptWithNonce (c : Cipher) (nonce plaintext additionalData : bytes) : result error bytes :=
  if closed c then Err (Errorf "cipher is closed" None)
  else encryptWithNonceLocked c nonce plaintext additionalData.

(** [rnd] is what [rand.Read] does with the 12-byte nonce buffer. *)
Definition Cipher_Encrypt (c : Cipher) (rnd : result error bytes) (plaintext additionalData : bytes) : result error bytes :=
  match rnd with
  | Err e => Err (Errorf "failed to generate nonce: %w" (Some e))
  | Ok nonce =>
      if closed c then Err (Errorf "cipher is closed" None)
      else encryptWithNonceLocked c nonce plaintext additionalData
  end.

Definition Cipher_Decrypt (c : Cipher) (data additionalData : bytes) : result error bytes :=
  if (length data <? NonceSize + TagSize)%nat
  then Err (Errorf "ciphertext too short: minimum %d bytes, got %d" None)
  else if closed c then Err (Errorf "cipher is closed" None)
  else
    let nonce := take NonceSize data in
    let ciphertext := drop NonceSize data in
    match aead c with
    | None => Err (Errorf "panic: nil pointer dereference" None)
    | Some k =>
        match aead_Open k nonce ciphertext additionalData with
        | None => Err (Errorf "decryption failed: authentication tag mismatch or corrupted data" None)
        | Some plaintext => Ok plaintext
        end
    end.

Definition Cipher_Close (c : Cipher) : ST heap Cipher :=
  if closed c then mret c
  else
    _ ← match key c with Some k => SecureZero k | None => mret tt end;
    mret {| aead := None; key := None; closed := true |}.

Definition IsClosed (c : Cipher) : bool := closed c.

Definition Encrypt (k : ref) (rnd : result error bytes) (plaintext additionalData : bytes) : ST heap (result error bytes) :=
  kb ← read k;
  r ← NewCipher kb;
  match r with
  | Err e => mret (Err e)
  | Ok c => let out := Cipher_Encrypt c rnd plaintext additionalData in
            _ ← Cipher_Close c; mret out
  end.

Definition Decrypt (k : ref) (data additionalData : bytes) : ST heap (result error bytes) :=
  kb ← read k;
  r ← NewCipher kb;
  match r with
  | Err e => mret (Err e)
  | Ok c => let out := Cipher_Decrypt c data additionalData in
            _ ← Cipher_Close c; mret out
  end.
End Keys.

(** ** Documented facts of the third-party operations *)

Class CryptoLaws `{CryptoLib} : Prop := {
  montgomery_length : ∀ p, length (BytesMontgomery p) = 32%nat;
  hkdf_length : ∀ s salt info k, hkdf_key s salt info = Some k → length k = 32%nat;
  seal_length : ∀ k n p ad, length (aead_Seal k n p ad) = (length p + TagSize)%nat;
  open_seal : ∀ k n p ad, aead_Open k n (aead_Seal k n p ad) ad = Some p;
  ed25519_public_length : ∀ seed, length (ed25519_public seed) = 32%nat;
  (** the Edwards and the Montgomery form of a public key correspond *)
  montgomery_public : ∀ seed, length seed = 32%nat →
    ∃ p, Point_SetBytes (ed25519_public seed) = Some p
         ∧ curve25519_X25519 (clampX25519 (take 32 (sha512_Sum512 seed))) Basepoint = Some (BytesMontgomery p);
  (** scalar multiplication commutes *)
  X25519_commutes : ∀ a b pa pb,
    curve25519_X25519 a Basepoint = Some pa → curve25519_X25519 b Basepoint = Some pb →
    curve25519_X25519 a pb = curve25519_X25519 b pa;
}.

(** ** Zeroing *)

Lemma memclr_prefix b n :
  (n ≤ length b)%nat → foldl (λ b i, <[i := 0]> b) b (seq 0 n) = replicate n 0 ++ drop n b.
Proof.
  induction n as [|n IH]; intros Hn; [done |].
  rewrite seq_S, foldl_app, IH by lia. cbn [foldl Nat.add].
  rewrite insert_app_r_alt by (rewrite length_replicate; lia). rewrite length_replicate, Nat.sub_diag.
  rewrite replicate_S_end, <- app_assoc. f_equal.
  destruct (drop n b) as [|x l] eqn:E; [apply (f_equal length) in E; rewrite length_drop in E; cbn in E; lia |].
  cbn. f_equal. replace (S n) with (n + 1)%nat by lia. by rewrite <- drop_drop, E.
Qed.

(** The zeroing loop writes every byte. *)
Lemma memclr_zero b : memclrFunc b = replicate (length b) 0.
Proof. unfold memclrFunc. rewrite memclr_prefix by done. by rewrite drop_all, app_nil_r. Qed.

Definition zeroed (b : bytes) : Prop := Forall (λ x, x = 0) b.

Lemma memclr_zeroed b : zeroed (memclrFunc b).
Proof. rewrite memclr_zero. unfold zeroed. by apply Forall_replicate. Qed.

(** A call leaves the caller's blocks alone and every block it allocated,
    except those it returns, zeroed. *)
Definition no_residue (h h' : heap) (keep : list ref) : Prop :=
  extends (next h) h h' ∧ ∀ r, (next h ≤ r)%nat → (r < next h')%nat → r ∉ keep → zeroed (deref h' r).

Lemma no_residue_refl h keep : no_residue h h keep.
Proof. split; [apply extends_refl |]. intros; lia. Qed.

Lemma no_residue_alloc h h' keep bs :
  no_residue h h' keep → no_residue h (alloc bs h').2 (next h' :: keep).
Proof.
  intros [[Hn He] Hz]. split.
  - split; [cbn; lia |]. intros r Hr. rewrite deref_alloc_ne by lia. by apply He.
  - intros r Hr Hr' [Hne Hk]%not_elem_of_cons. cbn in Hr'. rewrite deref_alloc_ne by lia. apply Hz; [done | lia | done].
Qed.

Lemma no_residue_write h h' keep f r :
  f [] = [] → (next h ≤ r)%nat → r ∈ keep → no_residue h h' keep → no_residue h (write f r h').2 keep.
Proof.
  intros Hf Hr Hk [[Hn He] Hz]. split.
  - split; [done |]. intros q Hq. rewrite deref_write_ne by lia. by apply He.
  - intros q Hq Hq' Hqk. rewrite deref_write_ne by congruence. by apply Hz.
Qed.

Lemma no_residue_zero h h' keep keep' r :
  (next h ≤ r)%nat → (∀ q, q ∈ keep → q = r ∨ q ∈ keep') →
  no_residue h h' keep → no_residue h (SecureZero r h').2 keep'.
Proof.
  intros Hr Hk [[Hn He] Hz]. split.
  - split; [done |]. intros q Hq. unfold SecureZero. rewrite deref_write_ne by lia. by apply He.
  - intros q Hq Hq' Hqk. unfold SecureZero. destruct (decide (q = r)) as [-> |].
    + rewrite deref_write_eq by done. apply memclr_zeroed.
    + rewrite deref_write_ne by done. apply Hz; [done.. |]. intros Hin. by destruct (Hk q Hin).
Qed.

Lemma no_residue_weaken h h' keep r :
  zeroed (deref h' r) → no_residue h h' (r :: keep) → no_residue h h' keep.
Proof.
  intros Hz [He Hr]. split; [done |]. intros q Hq Hq' Hk.
  destruct (decide (q = r)) as [-> |]; [done |]. apply Hr; [done.. |]. by apply not_elem_of_cons.
Qed.

Lemma all_zeros_zeroed s : all_zeros s = true → zeroed s.
Proof.
  unfold all_zeros, zeroed. rewrite forallb_forall, Forall_forall.
  intros Hs x Hx. apply Z.eqb_eq, Hs. by apply list_elem_of_In.
Qed.

(** ** Clamping *)

(** The little-endian value of a byte string. *)
Fixpoint le_value (k : bytes) : Z := match k with [] => 0 | b :: k => b + 256 * le_value k end.

Lemma le_value_app k l : le_value (k ++ l) = le_value k + 256 ^ Z.of_nat (length k) * le_value l.
Proof.
  induction k as [|b k IH]; [cbn; lia |]. cbn [le_value app length]. rewrite IH, Nat2Z.inj_succ, Z.pow_succ_r by lia. ring.
Qed.

Lemma le_value_bound k : Forall (λ b, 0 <= b < 256) k → 0 <= le_value k < 256 ^ Z.of_nat (length k).
Proof.
  induction 1 as [|b k Hb Hk IH]; [cbn; lia |]. cbn [le_value length].
  rewrite Nat2Z.inj_succ, Z.pow_succ_r by lia. lia.
Qed.

Lemma land_248 b : 0 <= b < 256 → Z.land b 248 = b - b mod 8 /\ 0 <= Z.land b 248 < 256.
Proof.
  intros Hb. assert (Hall : forallb (λ n, Z.land (Z.of_nat n) 248 =? Z.of_nat n - Z.of_nat n mod 8) (seq 0 256) = true) by reflexivity.
  rewrite forallb_forall in Hall. specialize (Hall (Z.to_nat b)). rewrite Z2Nat.id in Hall by lia.
  assert (Z.land b 248 = b - b mod 8) as -> by (apply Z.eqb_eq, Hall, in_seq; lia).
  pose proof (Z.mod_pos_bound b 8). pose proof (Z.mod_le b 8). lia.
Qed.

Lemma clamp_top b : 0 <= b < 256 → Z.lor (Z.land b 127) 64 = 64 + b mod 64.
Proof.
  intros Hb. assert (Hall : forallb (λ n, Z.lor (Z.land (Z.of_nat n) 127) 64 =? 64 + Z.of_nat n mod 64) (seq 0 256) = true) by reflexivity.
  rewrite forallb_forall in Hall. specialize (Hall (Z.to_nat b)). rewrite Z2Nat.id in Hall by lia.
  apply Z.eqb_eq, Hall, in_seq. lia.
Qed.

(** A 32-byte key as its first byte, the 30 in the middle and the last. *)
Lemma split32 (k : bytes) : length k = 32%nat → ∃ a m z, k = a :: m ++ [z] ∧ length m = 30%nat.
Proof.
  intros Hk. destruct k as [|a k]; [done |]. cbn in Hk.
  destruct (exists_last (l := k)) as (m & z & ->); [by destruct k |].
  rewrite length_app in Hk. cbn in Hk. exists a, m, z. split; [done | lia].
Qed.

Lemma clamp_split a m z :
  length m = 30%nat →
  clampX25519 (a :: m ++ [z]) = Z.land a 248 :: m ++ [Z.lor (Z.land z 127) 64].
Proof.
  intros Hm. unfold clampX25519. cbn [alter list_alter]. 
  rewrite !(alter_app_r_alt _ m) by lia. rewrite Hm. reflexivity.
Qed.

(** A clamped key is a valid Curve25519 scalar: a multiple of the cofactor 8
    between 2^254 and 2^255, and clamping is idempotent. *)
Theorem clampX25519_scalar k :
  length k = 32%nat → Forall (λ b, 0 <= b < 256) k →
  let n := le_value (clampX25519 k) in
  n mod 8 = 0 ∧ 2 ^ 254 <= n < 2 ^ 255 ∧ clampX25519 (clampX25519 k) = clampX25519 k
  ∧ take 30 (drop 1 (clampX25519 k)) = take 30 (drop 1 k).
Proof.
  intros Hk Hb. destruct (split32 k Hk) as (a & m & z & -> & Hm).
  apply Forall_cons in Hb as [Ha [Hbm Hz]%Forall_app]. apply Forall_cons in Hz as [Hz _].
  pose proof (land_248 a Ha) as [Ea Hra]. pose proof (clamp_top z Hz) as Ez.
  pose proof (le_value_bound m Hbm) as Hmb. rewrite Hm in Hmb. cbv zeta.
  pose proof (Z.mod_pos_bound a 8 ltac:(lia)). pose proof (Z.mod_pos_bound z 64 ltac:(lia)).
  rewrite !clamp_split by done. split_and!.
  - cbn [le_value]. rewrite Ea. pose proof (Z.div_mod a 8 ltac:(lia)).
    set (v := le_value _). replace (a - a mod 8 + 256 * v) with ((a / 8 + 32 * v) * 8) by lia.
    by rewrite Z.mod_mul.
  - cbn [le_value]. rewrite le_value_app, Hm. cbn [le_value]. rewrite Ez. lia.
  - cbn [le_value]. rewrite le_value_app, Hm. cbn [le_value]. rewrite Ez, Ea. lia.
  - assert (Z.land (Z.land a 248) 248 = Z.land a 248) as -> by by rewrite <- Z.land_assoc.
    rewrite (clamp_top (Z.lor _ _)) by lia. rewrite Ez.
    by rewrite <- Zplus_mod_idemp_l, Z.mod_same, Z.add_0_l, Zmod_mod by lia.
  - rewrite !skipn_cons, !drop_0, !take_app_le by lia. done.
Qed.

(** ** Functional behaviour *)

Ltac heap_unfold := unfold read, mbind, ST_bind, mret, ST_ret, st_gets.

Section Behaviour.
Context `{CryptoLaws}.

(** The private key conversion succeeds exactly on 64-byte keys, returns the
    clamped hash in a fresh block and leaves no copy of the hash. *)
Lemma Ed25519PrivateToX25519_runs h r :
  length (deref h r) = PrivateKeySize →
  ∃ h', Ed25519PrivateToX25519 r h = (Ok (S (next h)), h')
        ∧ deref h' (S (next h)) = clampX25519 (take 32 (sha512_Sum512 (take SeedSize (deref h r))))
        ∧ next h' = S (S (next h)) ∧ no_residue h h' [S (next h)].
Proof.
  intros Hl. unfold Ed25519PrivateToX25519. heap_unfold. rewrite Hl. cbn [negb Nat.eqb PrivateKeySize].
  set (hs := sha512_Sum512 (take SeedSize (deref h r))). set (h1 := (alloc hs h).2).
  assert (deref h1 (next h) = hs) as Hh by exact (deref_alloc_eq hs h).
  exists (SecureZero (next h) (write clampX25519 (S (next h)) (alloc (take 32 (deref h1 (next h))) h1).2).2).2.
  split; [reflexivity |]. rewrite Hh.
  split; [|split; [done |]].
  - unfold SecureZero. rewrite deref_write_ne, deref_write_eq by (lia || done).
    by rewrite (deref_alloc_eq (take 32 hs) h1 : deref _ (S (next h)) = _).
  - eapply (no_residue_zero _ _ [S (next h); next h]); [done | intros q Hq; set_solver |].
    apply no_residue_write; [done | lia | by left |].
    apply (no_residue_alloc h h1 [next h]), (no_residue_alloc h h []), no_residue_refl.
Qed.

Lemma clamp_length k : length (clampX25519 k) = length k.
Proof. unfold clampX25519. by rewrite !length_alter. Qed.

(** What [DeriveSharedKey] computes. *)
Definition shared_key (priv pub salt : bytes) : option bytes :=
  match curve25519_X25519 priv pub with
  | Some s => if all_zeros s then None else hkdf_key s salt hkdfInfo
  | None => None
  end.

(** Success and failure of [DeriveSharedKey]; on both, no block but the
    returned one is left with secret bytes. *)
Lemma DeriveSharedKey_runs h r pub salt :
  length (deref h r) = X25519KeySize → length pub = X25519KeySize →
  let '(k, h') := DeriveSharedKey r pub salt h in
  match shared_key (deref h r) pub salt with
  | Some kb => ∃ kr, k = Ok kr ∧ deref h' kr = kb ∧ (next h ≤ kr < next h')%nat ∧ no_residue h h' [kr]
  | None => is_ok k = false ∧ no_residue h h' []
  end.
Proof.
    intros Hl Hp. unfold DeriveSharedKey, ComputeX25519SharedSecret, shared_key, deriveKeyFromSecret. heap_unfold.
  rewrite Hl, Hp. cbn [negb Nat.eqb X25519KeySize].
  destruct (curve25519_X25519 (deref h r) pub) as [s|]; [| by split; [| apply no_residue_refl]].
  pose proof (no_residue_alloc h h [] s (no_residue_refl _ _)) as Ha.
  destruct (all_zeros s) eqn:Ez; cbn [alloc].
  { split; [done |]. eapply no_residue_weaken; [| exact Ha].
    unfold deref; cbn. rewrite lookup_insert_eq. by apply all_zeros_zeroed. }
  change (deref _ (next h)) with (deref (alloc s h).2 (alloc s h).1). rewrite deref_alloc_eq.
  destruct (hkdf_key s salt hkdfInfo) as [kb|].
  - exists (S (next h)). split; [done |]. split_and!; [| cbn; lia | cbn; lia |].
    + change (deref (SecureZero (next h) (alloc kb (alloc s h).2).2).2 (S (next h)) = kb).
      unfold SecureZero. rewrite deref_write_ne by lia. exact (deref_alloc_eq kb (alloc s h).2).
    + eapply (no_residue_zero _ _ [S (next h); next h]); [done | intros q Hq; set_solver |].
      exact (no_residue_alloc h _ [next h] kb Ha).
  - split; [done |]. eapply (no_residue_zero _ _ [next h]); [done | intros q Hq; set_solver | exact Ha].
Qed.

Lemma NewCipher_runs h k :
  length k = KeySize → NewCipher k h = (Ok {| aead := Some k; key := Some (next h); closed := false |}, (alloc k h).2).
Proof. intros Hk. unfold NewCipher. heap_unfold. by rewrite Hk. Qed.

(** The one-shot functions run the cipher and zero its copy of the key,
    whatever they return. *)
Lemma Encrypt_runs h k rnd pt ad :
  length (deref h k) = KeySize →
  let '(r, h') := Encrypt k rnd pt ad h in
  r = Cipher_Encrypt {| aead := Some (deref h k); key := Some (next h); closed := false |} rnd pt ad
  ∧ next h' = S (next h) ∧ no_residue h h' [].
Proof.
  intros Hl. unfold Encrypt. heap_unfold. rewrite NewCipher_runs by done. cbn [Cipher_Close closed key].
  split; [done |]. split; [done |]. unfold Cipher_Close; cbn [closed key]. heap_unfold.
  eapply (no_residue_zero _ _ [next h]); [done | intros q Hq; set_solver |].
  exact (no_residue_alloc h h [] _ (no_residue_refl _ _)).
Qed.

Lemma Decrypt_runs h k data ad :
  length (deref h k) = KeySize →
  let '(r, h') := Decrypt k data ad h in
  r = Cipher_Decrypt {| aead := Some (deref h k); key := Some (next h); closed := false |} data ad
  ∧ next h' = S (next h) ∧ no_residue h h' [].
Proof.
  intros Hl. unfold Decrypt. heap_unfold. rewrite NewCipher_runs by done.
  split; [done |]. split; [done |]. unfold Cipher_Close; cbn [closed key]. heap_unfold.
  eapply (no_residue_zero _ _ [next h]); [done | intros q Hq; set_solver |].
  exact (no_residue_alloc h h [] _ (no_residue_refl _ _)).
Qed.

Lemma Cipher_roundtrip c nonce pt ad k :
  aead c = Some k → closed c = false → length nonce = NonceSize →
  ∃ ct, Cipher_Encrypt c (Ok nonce) pt ad = Ok ct ∧ ct = nonce ++ aead_Seal k nonce pt ad
        ∧ length ct = (NonceSize + length pt + TagSize)%nat ∧ Cipher_Decrypt c ct ad = Ok pt.
Proof.
  intros Ha Hc Hn. eexists. unfold Cipher_Encrypt, encryptWithNonceLocked. rewrite Hc, Hn, Ha. cbn [negb Nat.eqb NonceSize].
  split; [done |]. split; [done |].
  assert (length (nonce ++ aead_Seal k nonce pt ad) = (NonceSize + length pt + TagSize)%nat) as Hlen.
  { rewrite length_app, seal_length, Hn. lia. }
  split; [done |]. unfold Cipher_Decrypt. rewrite Hlen, Hc, Ha.
  replace (_ <? _)%nat with false by (symmetry; apply Nat.ltb_ge; lia).
  rewrite take_app_length' by done. rewrite drop_app_length' by done. by rewrite open_seal.
Qed.
End Behaviour.


(** A closed cipher refuses every operation, its key bytes are zero, and
    closing again changes nothing. *)
Theorem Cipher_Close_final `{CryptoLib} h k c h1 :
  NewCipher k h = (Ok c, h1) →
  let '(c', h2) := Cipher_Close c h1 in
  IsClosed c' = true ∧ Cipher_Close c' h2 = (c', h2)
  ∧ (∀ rnd pt ad, is_ok (Cipher_Encrypt c' rnd pt ad) = false)
  ∧ (∀ nonce pt ad, is_ok (encryptWithNonce c' nonce pt ad) = false)
  ∧ (∀ data ad, is_ok (Cipher_Decrypt c' data ad) = false)
  ∧ no_residue h h2 [].
Proof.
  unfold NewCipher. heap_unfold. destruct (negb _); cbn; intros; simplify_eq.
  unfold Cipher_Close; cbn [closed key]. heap_unfold. split_and!; try done.
  - intros rnd pt ad. unfold Cipher_Encrypt. by destruct rnd.
  - intros data ad. unfold Cipher_Decrypt. by destruct (_ <? _)%nat.
  - eapply (no_residue_zero _ _ [next h]); [done | intros q Hq; set_solver |].
    exact (no_residue_alloc h h [] _ (no_residue_refl _ _)).
Qed.

(** Wrong sizes are errors, checked before anything is computed. *)
Theorem key_size_errors `{CryptoLib} h k rnd pt data ad pub salt :
  (length (deref h k) ≠ KeySize → is_ok (Encrypt k rnd pt ad h).1 = false ∧ is_ok (Decrypt k data ad h).1 = false
                                 ∧ is_ok (DeriveSharedKey k pub salt h).1 = false)
  ∧ (length pub ≠ X25519KeySize → is_ok (DeriveSharedKey k pub salt h).1 = false)
  ∧ (length (deref h k) ≠ PrivateKeySize → is_ok (Ed25519PrivateToX25519 k h).1 = false)
  ∧ ((length data < NonceSize + TagSize)%nat → is_ok (Decrypt k data ad h).1 = false).
Proof.
  unfold Encrypt, Decrypt, NewCipher, DeriveSharedKey, ComputeX25519SharedSecret, Ed25519PrivateToX25519. heap_unfold.
  split_and!.
  - intros Hk%Nat.eqb_neq. unfold KeySize, X25519KeySize in *. by rewrite Hk.
  - intros Hk%Nat.eqb_neq. rewrite Hk. by destruct (length (deref h k) =? X25519KeySize)%nat.
  - intros Hk%Nat.eqb_neq. by rewrite Hk.
  - intros Hd%Nat.ltb_lt. destruct (length (deref h k) =? KeySize)%nat; cbn; [| done].
    unfold Cipher_Decrypt. by rewrite Hd.
Qed.

(** ** A concrete instance, for witnesses

    A commuting one-byte group in place of Curve25519, and a cipher that only
    appends a tag: they satisfy the laws, which is all a witness needs. *)

Module Toy.
Local Open Scope Z_scope.

Definition value (b : bytes) : Z := default 0 (head b).
Definition pad (n : nat) (b : bytes) : bytes := resize n 0 b.
Definition mul (a p : bytes) : bytes := pad 32 [value a * value p mod 251].

#[local] Instance toy : CryptoLib := {|
  Point := bytes;
  Point_SetBytes := Some;
  BytesMontgomery := pad 32;
  curve25519_X25519 a p := Some (mul a p);
  Basepoint := pad 32 [1];
  hkdf_key s salt info := Some (pad 32 s);
  aead_Seal k n p ad := p ++ replicate TagSize 0;
  aead_Open k n c ad := Some (take (length c - TagSize) c);
  ed25519_public seed := mul (clampX25519 (take 32 (sha512_Sum512 seed))) (pad 32 [1]);
|}.

Lemma value_pad x n : value (pad (S n) [x]) = x.
Proof. reflexivity. Qed.

#[local] Instance toy_laws : CryptoLaws.
Proof.
  split; cbn [Point BytesMontgomery curve25519_X25519 hkdf_key aead_Seal aead_Open ed25519_public toy Basepoint Point_SetBytes].
  - intros p. apply length_resize.
  - intros s salt info k [= <-]. apply length_resize.
  - intros k n p ad. by rewrite length_app, length_replicate.
  - intros k n p ad. rewrite length_app, length_replicate. f_equal.
    replace (length p + TagSize - TagSize)%nat with (length p) by lia. by rewrite take_app_length.
  - intros seed. apply length_resize.
  - intros seed Hs. eexists. split; [done |]. reflexivity.
  - intros a b pa pb [= <-] [= <-]. f_equal. unfold mul. rewrite !value_pad. do 2 f_equal.
    rewrite !Z.mul_1_r, !Zmult_mod_idemp_r. f_equal. lia.
Qed.

Lemma clampX25519_scalar_witness :
  let k := replicate 32 255 in
  length k = 32%nat ∧ le_value (clampX25519 k) mod 8 = 0 ∧ 2 ^ 254 <= le_value (clampX25519 k) < 2 ^ 255.
Proof.
  cbv zeta. split; [reflexivity |].
  destruct (clampX25519_scalar (replicate 32 255) eq_refl) as (H1 & H2 & _); [by apply Forall_replicate; lia | by split].
Defined.

Definition one_key : heap := (alloc (replicate 32 7) empty_heap).2.


Lemma Cipher_Close_final_witness :
  ∃ c h1, NewCipher (replicate 32 7) one_key = (Ok c, h1)
          ∧ IsClosed (Cipher_Close c h1).1 = true ∧ no_residue one_key (Cipher_Close c h1).2 [].
Proof.
  eexists _, _. split; [reflexivity |].
  pose proof (Cipher_Close_final one_key (replicate 32 7) _ _ eq_refl) as Hw.
  destruct (Cipher_Close _ _) as [c' h2]. split; [apply Hw | apply Hw].
Defined.

Lemma key_size_errors_witness :
  length (deref empty_heap 0%nat) ≠ KeySize ∧ is_ok (Encrypt 0%nat (Ok (replicate 12 1)) [] [] empty_heap).1 = false.
Proof.
  assert (Hk : length (deref empty_heap 0%nat) ≠ KeySize) by (vm_compute; discriminate). split; [exact Hk |].
  exact (proj1 (proj1 (key_size_errors empty_heap 0%nat (Ok (replicate 12 1)) [] [] [] [] []) Hk)).
Defined.
End Toy.
