(* ===== verification/CryptoModule.v ===== *)
(** * The node's crypto module ([pkg/crypto/module.go])

    The module's keys are buffers of [Heap]: the cache maps a peer's X25519
    key to the address of its shared key, and what callers get is another
    buffer.  [DeriveSharedKeyFromX25519] runs in four atomic sections, cut
    where the code releases [peerKeysMu]; every other method is atomic. *)

From S2P Require Import Prelude Errors Sha2 Heap Crypto.

Record Module_ := {
  ed25519Private : ref;                (** the caller's slice, not a copy *)
  ed25519Public : bytes;
  x25519Private : ref;
  x25519Public : bytes;
  peerKeys : gmap bytes ref;
  mod_closed : bool;
}.

Record state := { modl : Module_; hp : heap }.

(** A heap operation inside a method. *)
Definition on_heap {A} (f : ST heap A) : ST state A := λ s,
  let (a, h) := f (hp s) in (a, {| modl := modl s; hp := h |}).
Definition get_mod : ST state Module_ := st_gets modl.
Definition set_peerKeys (f : gmap bytes ref → gmap bytes ref) : ST state unit := st_modify (λ s,
  {| modl := {| ed25519Private := ed25519Private (modl s); ed25519Public := ed25519Public (modl s);
                x25519Private := x25519Private (modl s); x25519Public := x25519Public (modl s);
                peerKeys := f (peerKeys (modl s)); mod_closed := mod_closed (modl s) |}; hp := hp s |}).
Definition set_closed : ST state unit := st_modify (λ s,
  {| modl := {| ed25519Private := ed25519Private (modl s); ed25519Public := ed25519Public (modl s);
                x25519Private := x25519Private (modl s); x25519Public := x25519Public (modl s);
                peerKeys := peerKeys (modl s); mod_closed := true |}; hp := hp s |}).

Section CryptoModule.
Context `{CryptoLib}.

(** [privateKey] may be nil. *)
Definition NewModule (privateKey : option ref) : ST heap (result error Module_) :=
  h ← st_get;
  match ValidateEd25519PrivateKey (deref h <$> privateKey), privateKey with
  | Some e, _ => mret (Err (Errorf "invalid private key: %w" (Some e)))
  | None, None => mret (Err (Errorf "invalid private key: %w" None))
  | None, Some priv =>
      let publicKey := drop 32 (deref h priv) in
      x ← Ed25519PrivateToX25519 priv;
      match x with
      | Err e => mret (Err (Errorf "failed to convert private key to X25519: %w" (Some e)))
      | Ok x25519Priv =>
          match Ed25519PublicToX25519 publicKey with
          | Err e =>
              _ ← SecureZero x25519Priv;
              mret (Err (Errorf "failed to convert public key to X25519: %w" (Some e)))
          | Ok x25519Pub =>
              mret (Ok {| ed25519Private := priv; ed25519Public := publicKey; x25519Private := x25519Priv;
                          x25519Public := x25519Pub; peerKeys := ∅; mod_closed := false |})
          end
      end
  end.

Definition Ed25519PublicKey : ST state ref := m ← get_mod; on_heap (alloc (ed25519Public m)).
Definition X25519PublicKey : ST state ref := m ← get_mod; on_heap (alloc (x25519Public m)).

(** ** Deriving a shared key: a goroutine's position between the sections *)

Inductive pc :=
| PStart (remote : bytes)
| PCompute (remote : bytes) (privCopy : ref)                  (** the read lock is released *)
| PStore (remote : bytes) (privCopy : ref) (shared : ref)     (** about to take the write lock *)
| PCopy (remote : bytes) (privCopy : ref) (shared : ref)      (** the write lock is released *)
| PDone (remote : bytes) (r : result error ref).

(** The deferred [SecureZero(x25519PrivCopy)] runs on every return below. *)
Definition derive_step (p : pc) : ST state pc :=
  match p with
  | PStart remote =>
      if negb (length remote =? X25519KeySize)
      then mret (PDone remote (Err (Errorf "invalid X25519 public key size: expected %d, got %d" None)))
      else
        m ← get_mod;
        if mod_closed m then mret (PDone remote (Err (Errorf "module is closed" None)))
        else match peerKeys m !! remote with
             | Some key => result ← on_heap (copy key); mret (PDone remote (Ok result))
             | None => c ← on_heap (copy (x25519Private m)); mret (PCompute remote c)
             end
  | PCompute remote c =>
      k ← on_heap (DeriveSharedKey c remote []);
      match k with
      | Err e => _ ← on_heap (SecureZero c); mret (PDone remote (Err (Errorf "key derivation failed: %w" (Some e))))
      | Ok shared => mret (PStore remote c shared)
      end
  | PStore remote c shared =>
      m ← get_mod;
      if mod_closed m
      then _ ← on_heap (SecureZero shared); _ ← on_heap (SecureZero c);
           mret (PDone remote (Err (Errorf "module is closed" None)))
      else _ ← set_peerKeys (<[remote := shared]>); mret (PCopy remote c shared)
  | PCopy remote c shared =>
      result ← on_heap (copy shared); _ ← on_heap (SecureZero c); mret (PDone remote (Ok result))
  | PDone remote r => mret (PDone remote r)
  end.

(** The call with nothing in between. *)
Definition DeriveSharedKeyFromX25519 (remote : bytes) : ST state (result error ref) :=
  p1 ← derive_step (PStart remote); p2 ← derive_step p1; p3 ← derive_step p2; p4 ← derive_step p3;
  mret match p4 with PDone _ r => r | _ => Err (Errorf "unreachable" None) end.

Definition Module_DeriveSharedKey (remotePubKey : option bytes) : ST state (result error ref) :=
  match ValidateEd25519PublicKey remotePubKey with
  | Some e => mret (Err (Errorf "invalid remote public key: %w" (Some e)))
  | None =>
      match Ed25519PublicToX25519 (default [] remotePubKey) with
      | Err e => mret (Err (Errorf "failed to convert remote public key: %w" (Some e)))
      | Ok remoteX25519 => DeriveSharedKeyFromX25519 remoteX25519
      end
  end.

Definition RemovePeerKey (remoteX25519 : bytes) : ST state unit :=
  m ← get_mod;
  _ ← match peerKeys m !! remoteX25519 with
      | Some key => on_heap (SecureZero key)
      | None => mret tt
      end;
  set_peerKeys (delete remoteX25519).

Definition RemovePeerKeyByEd25519 (remotePubKey : bytes) : ST state unit :=
  if (length remotePubKey =? 0) then mret tt
  else match Ed25519PublicToX25519 remotePubKey with
       | Err _ => mret tt
       | Ok remoteX25519 => RemovePeerKey remoteX25519
       end.

(** The buffers the cache holds, in the order a loop over it visits them. *)
Definition cached (m : Module_) : list ref := (map_to_list (peerKeys m)).*2.

Definition ClearPeerKeys : ST state unit :=
  m ← get_mod;
  _ ← on_heap (SecureZeroMultiple (cached m));
  set_peerKeys (λ _, ∅).

Definition Module_Encrypt (rnd : result error bytes) (remoteX25519 plaintext : bytes) : ST state (result error bytes) :=
  m ← get_mod;
  if mod_closed m then mret (Err (Errorf "module is closed" None))
  else match peerKeys m !! remoteX25519 with
       | None => mret (Err (Errorf "no shared key for peer: call DeriveSharedKey first" None))
       | Some key =>
           keyCopy ← on_heap (copy key);
           r ← on_heap (Encrypt keyCopy rnd plaintext []);
           _ ← on_heap (SecureZero keyCopy);
           mret r
       end.

Definition Module_Decrypt (remoteX25519 ciphertext : bytes) : ST state (result error bytes) :=
  m ← get_mod;
  if mod_closed m then mret (Err (Errorf "module is closed" None))
  else match peerKeys m !! remoteX25519 with
       | None => mret (Err (Errorf "no shared key for peer: call DeriveSharedKey first" None))
       | Some key =>
           keyCopy ← on_heap (copy key);
           r ← on_heap (Decrypt keyCopy ciphertext []);
           _ ← on_heap (SecureZero keyCopy);
           mret r
       end.

Definition EncryptWithKey (key : ref) (rnd : result error bytes) (plaintext : bytes) : ST state (result error bytes) :=
  on_heap (Encrypt key rnd plaintext []).
Definition DecryptWithKey (key : ref) (ciphertext : bytes) : ST state (result error bytes) :=
  on_heap (Decrypt key ciphertext []).

Definition Module_Close : ST state unit :=
  _ ← set_closed;
  m ← get_mod;
  _ ← on_heap (SecureZeroMultiple (cached m));
  _ ← set_peerKeys (λ _, ∅);
  _ ← on_heap (SecureZero (ed25519Private m));
  on_heap (SecureZero (x25519Private m)).

(** ** Interleaving: goroutines in [derive] calls and the atomic methods *)

Record sys := { st : state; threads : list pc }.

Inductive step : sys → sys → Prop :=
| step_call s remote :
    step s {| st := st s; threads := threads s ++ [PStart remote] |}
| step_thread s i p :
    threads s !! i = Some p →
    step s {| st := (derive_step p (st s)).2; threads := <[i := (derive_step p (st s)).1]> (threads s) |}
| step_remove s remote :
    step s {| st := (RemovePeerKey remote (st s)).2; threads := threads s |}
| step_clear s :
    step s {| st := (ClearPeerKeys (st s)).2; threads := threads s |}
| step_close s :
    step s {| st := (Module_Close (st s)).2; threads := threads s |}.
End CryptoModule.

(** ** Invariant of the module under interleaving *)

(** What a goroutine alone may write to. *)
Definition owns (p : pc) : list ref :=
  match p with
  | PCompute _ c => [c]
  | PStore _ c shared => [c; shared]
  | PCopy _ c _ => [c]
  | _ => []
  end.

(** [h'] grew from [h] and differs on the old blocks only by zeroing [zs]. *)
Definition zeroing (zs : list ref) (h h' : heap) : Prop :=
  heap_wf h' ∧ next h ≤ next h' ∧ ∀ r, r < next h →
    if decide (r ∈ zs) then zeroed (deref h' r) else deref h' r = deref h r.

Lemma deref_SecureZero r q h :
  deref (SecureZero r h).2 q = if decide (q = r) then memclrFunc (deref h r) else deref h q.
Proof.
  unfold SecureZero. case_decide; [subst; by rewrite deref_write_eq | by rewrite deref_write_ne].
Qed.

Lemma SecureZeroMultiple_deref rs h :
  next (SecureZeroMultiple rs h).2 = next h ∧ (heap_wf h → heap_wf (SecureZeroMultiple rs h).2)
  ∧ ∀ q, (q ∈ rs → zeroed (deref (SecureZeroMultiple rs h).2 q))
         ∧ (q ∉ rs → deref (SecureZeroMultiple rs h).2 q = deref h q)
         ∧ (zeroed (deref h q) → zeroed (deref (SecureZeroMultiple rs h).2 q)).
Proof.
  revert h. induction rs as [|r rs IH]; intros h; [split_and!; [done | done | set_solver] |].
  change (SecureZeroMultiple (r :: rs) h) with (SecureZeroMultiple rs (SecureZero r h).2).
  destruct (IH (SecureZero r h).2) as (Hn & Hw & Hq).
  split_and!; [done | intros Hh; by apply Hw, write_wf |].
  assert (zeroed (deref (SecureZero r h).2 r)) as Hr by (rewrite deref_SecureZero, decide_True by done; apply memclr_zeroed).
  intros q. destruct (Hq q) as (H1 & H2 & H3). split_and!.
  - intros [->|]%elem_of_cons; [by apply H3 | by apply H1].
  - intros [Hne Hin]%not_elem_of_cons. rewrite H2 by done. by rewrite deref_SecureZero, decide_False.
  - intros Hz. apply H3. rewrite deref_SecureZero. case_decide; [apply memclr_zeroed | done].
Qed.

Lemma zeroing_Multiple rs h : heap_wf h → zeroing rs h (SecureZeroMultiple rs h).2.
Proof.
  intros Hh. destruct (SecureZeroMultiple_deref rs h) as (Hn & Hw & Hq).
  split; [by apply Hw |]. split; [lia |]. intros r _. destruct (Hq r) as (? & ? & _). case_decide; auto.
Qed.

Section Invariant.
Context `{CryptoLib} (X : bytes).

Definition good (k bs : bytes) : Prop := shared_key X k [] = Some bs.

(** What a goroutine's buffers hold. *)
Definition pc_ok (h : heap) (p : pc) : Prop :=
  match p with
  | PCompute k c => deref h c = X ∧ length k = X25519KeySize
  | PStore k c shared => good k (deref h shared) ∧ c ≠ shared
  | PCopy k c shared => shared < next h ∧ (good k (deref h shared) ∨ zeroed (deref h shared))
  | PDone k (Ok r) => r < next h ∧ (good k (deref h r) ∨ zeroed (deref h r))
  | _ => True
  end.

Record inv (s : sys) : Prop := {
  i_wf : heap_wf (hp (st s));
  i_priv : x25519Private (modl (st s)) < next (hp (st s)) ∧ ed25519Private (modl (st s)) < next (hp (st s))
           ∧ x25519Private (modl (st s)) ≠ ed25519Private (modl (st s));
  i_open : mod_closed (modl (st s)) = false → deref (hp (st s)) (x25519Private (modl (st s))) = X;
  i_closed : mod_closed (modl (st s)) = true → peerKeys (modl (st s)) = ∅;
  i_cache : ∀ k r, peerKeys (modl (st s)) !! k = Some r →
            r < next (hp (st s)) ∧ r ≠ x25519Private (modl (st s)) ∧ r ≠ ed25519Private (modl (st s))
            ∧ good k (deref (hp (st s)) r);
  i_inj : ∀ k1 k2 r, peerKeys (modl (st s)) !! k1 = Some r → peerKeys (modl (st s)) !! k2 = Some r → k1 = k2;
  i_own : ∀ i p r, threads s !! i = Some p → r ∈ owns p →
          r < next (hp (st s)) ∧ r ≠ x25519Private (modl (st s)) ∧ r ≠ ed25519Private (modl (st s))
          ∧ ∀ k, peerKeys (modl (st s)) !! k ≠ Some r;
  i_disj : ∀ i j p q r, threads s !! i = Some p → threads s !! j = Some q → r ∈ owns p → r ∈ owns q → i = j;
  i_pc : ∀ i p, threads s !! i = Some p → pc_ok (hp (st s)) p;
}.

(** A goroutine's own buffers apart, [pc_ok] survives zeroing. *)
Lemma pc_ok_zeroing zs h h' p :
  zeroing zs h h' → (∀ r, r ∈ owns p → r < next h ∧ r ∉ zs) → pc_ok h p → pc_ok h' p.
Proof.
  intros (_ & Hn & Hz) Hown Hp.
  assert (∀ r, r < next h → zeroed (deref h' r) ∨ deref h' r = deref h r) as Hd.
  { intros r Hr. specialize (Hz r Hr). case_decide; auto. }
  assert (∀ r, r ∈ owns p → deref h' r = deref h r) as Ho.
  { intros r Hr. destruct (Hown r Hr) as [Hlt Hni]. specialize (Hz r Hlt). by rewrite decide_False in Hz. }
  destruct p as [k|k c|k c sh|k c sh|k [e|r]]; cbn in *; try done.
  - rewrite Ho by set_solver. done.
  - rewrite Ho by set_solver. done.
  - destruct Hp as [Hlt Hp]. split; [lia |]. destruct (Hd sh Hlt) as [? | E]; [auto | by rewrite E].
  - destruct Hp as [Hlt Hp]. split; [lia |]. destruct (Hd r Hlt) as [? | E]; [auto | by rewrite E].
Qed.

(** Goroutine [i] moves from [p] to [p'], zeroing only buffers of its own and
    owning only those and fresh ones. *)
Lemma inv_thread s i p p' h' zs :
  inv s → threads s !! i = Some p →
  zeroing zs (hp (st s)) h' → (∀ r, r ∈ zs → r ∈ owns p) →
  (∀ r, r ∈ owns p' → r < next h' ∧ (r ∈ owns p ∨ next (hp (st s)) ≤ r)) → pc_ok h' p' →
  inv {| st := {| modl := modl (st s); hp := h' |}; threads := <[i := p']> (threads s) |}.
Proof.
  intros Hi Hp Hz Hzs Hown Hpc. pose proof Hz as (Hwf & Hn & Hd).
  pose proof (i_priv s Hi) as (Hx & He & Hxe).
  assert (∀ r, r < next (hp (st s)) → r ∉ owns p → deref h' r = deref (hp (st s)) r) as Hsame.
  { intros r Hr Hni. specialize (Hd r Hr). rewrite decide_False in Hd; naive_solver. }
  assert (∀ r, r ∈ owns p → r < next (hp (st s)) ∧ r ≠ x25519Private (modl (st s)) ∧ r ≠ ed25519Private (modl (st s))
          ∧ ∀ k, peerKeys (modl (st s)) !! k ≠ Some r) as Hop by (intros; by eapply i_own).
  split; cbn.
  - done.
  - split_and!; [lia.. | done].
  - intros Hc. rewrite Hsame; [by apply i_open | done | intros Hin; by apply Hop in Hin as (_ & ? & _)].
  - by apply i_closed.
  - intros k r Hk. destruct (i_cache s Hi k r Hk) as (Hr & Hr1 & Hr2 & Hg). split_and!; [lia | done | done |].
    rewrite Hsame; [done | done | intros Hin; apply Hop in Hin; naive_solver].
  - apply (i_inj s Hi).
  - intros j q r Hq Hr. apply list_lookup_insert_Some in Hq as [(<- & <- & _)|[Hij Hq]].
    + destruct (Hown r Hr) as [Hlt [Hin|Hge]]; [by split; [| apply Hop] |].
      split_and!; [done | lia | lia |]. intros k Hk. apply i_cache in Hk as [? _]; [lia | done].
    + destruct (i_own s Hi j q r Hq Hr) as (? & ? & ? & ?). split_and!; [lia | done..].
  - intros j1 j2 q1 q2 r H1 H2 Hr1 Hr2.
    apply list_lookup_insert_Some in H1 as [(<- & <- & _)|[Hij1 H1]];
      apply list_lookup_insert_Some in H2 as [(<- & <- & _)|[Hij2 H2]]; [done | | |].
    + destruct (Hown r Hr1) as [_ [Hin|Hge]]; [by eapply (i_disj s Hi) |].
      destruct (i_own s Hi _ _ _ H2 Hr2). lia.
    + destruct (Hown r Hr2) as [_ [Hin|Hge]]; [by eapply (i_disj s Hi) |].
      destruct (i_own s Hi _ _ _ H1 Hr1). lia.
    + by eapply (i_disj s Hi).
  - intros j q Hq. apply list_lookup_insert_Some in Hq as [(<- & <- & _)|[Hij Hq]]; [done |].
    eapply pc_ok_zeroing; [done | | by eapply i_pc].
    intros r Hr. split; [by eapply (i_own s Hi) |]. intros Hin%Hzs. by pose proof (i_disj s Hi _ _ _ _ _ Hp Hq Hin Hr).
Qed.

(** A method that drops cache entries and zeroes their buffers (and, on close,
    the private keys). *)
Lemma inv_drop s ps' cl' h' zs :
  inv s → zeroing zs (hp (st s)) h' →
  (∀ k r, ps' !! k = Some r → peerKeys (modl (st s)) !! k = Some r ∧ r ∉ zs) →
  (∀ r, r ∈ zs → (∃ k, peerKeys (modl (st s)) !! k = Some r)
                 ∨ cl' = true ∧ (r = x25519Private (modl (st s)) ∨ r = ed25519Private (modl (st s)))) →
  (cl' = false → mod_closed (modl (st s)) = false) → (cl' = true → ps' = ∅) →
  inv {| st := {| modl := {| ed25519Private := ed25519Private (modl (st s)); ed25519Public := ed25519Public (modl (st s));
                             x25519Private := x25519Private (modl (st s)); x25519Public := x25519Public (modl (st s));
                             peerKeys := ps'; mod_closed := cl' |}; hp := h' |}; threads := threads s |}.
Proof.
  intros Hi Hz Hps Hzs Hop Hcl. pose proof Hz as (Hwf & Hn & Hd).
  pose proof (i_priv s Hi) as (Hx & He & Hxe).
  split; cbn.
  - done.
  - split_and!; [lia.. | done].
  - intros Hc. specialize (Hd _ Hx). case_decide as Hin; [| rewrite Hd; by apply i_open; auto].
    destruct (Hzs _ Hin) as [[k Hk] | [? _]]; [| congruence]. by apply i_cache in Hk as (_ & ? & _).
  - done.
  - intros k r [Hk Hr]%Hps. destruct (i_cache s Hi k r Hk) as (Hlt & ? & ? & Hg). specialize (Hd r Hlt).
    rewrite decide_False in Hd by done. split_and!; [lia | done | done | by rewrite Hd].
  - intros k1 k2 r [H1 _]%Hps [H2 _]%Hps. by eapply (i_inj s Hi).
  - intros i p r Hp Hr. destruct (i_own s Hi i p r Hp Hr) as (Hlt & ? & ? & Hk). split_and!; [lia | done | done |].
    intros k [Hk' _]%Hps. by apply Hk in Hk'.
  - apply (i_disj s Hi).
  - intros i p Hp. eapply pc_ok_zeroing; [done | | by eapply i_pc].
    intros r Hr. destruct (i_own s Hi i p r Hp Hr) as (Hlt & ? & ? & Hk). split; [done |].
    intros Hin. destruct (Hzs r Hin) as [[k Hk'] | [_ [->| ->]]]; [by apply Hk in Hk' | done | done].
Qed.

(** The write-locked section: the buffer passes from the goroutine to the cache. *)
Lemma inv_store s i k c sh :
  inv s → threads s !! i = Some (PStore k c sh) → mod_closed (modl (st s)) = false →
  inv {| st := (set_peerKeys (<[k := sh]>) (st s)).2; threads := <[i := PCopy k c sh]> (threads s) |}.
Proof.
  intros Hi Hp Hc. pose proof (i_pc s Hi i _ Hp) as [Hg Hne].
  assert (∀ r, r ∈ [c; sh] → r < next (hp (st s)) ∧ r ≠ x25519Private (modl (st s)) ∧ r ≠ ed25519Private (modl (st s))
          ∧ ∀ k, peerKeys (modl (st s)) !! k ≠ Some r) as Hop by (intros r Hr; by eapply i_own).
  destruct (Hop sh ltac:(set_solver)) as (Hsh & Hsx & Hse & Hsk).
  split; cbn.
  - apply Hi.
  - apply Hi.
  - apply Hi.
  - intros Hc'. congruence.
  - intros k' r Hk'. apply lookup_insert_Some in Hk' as [[<- <-]|[_ Hk']]; [done | by apply i_cache].
  - intros k1 k2 r H1 H2. apply lookup_insert_Some in H1 as [[<- <-]|[? H1]];
      apply lookup_insert_Some in H2 as [[<- ?]|[? H2]]; subst; try done.
    + by apply Hsk in H2.
    + by apply Hsk in H1.
    + by eapply (i_inj s Hi).
  - intros j q r Hq Hr.
    assert (∃ q0, threads s !! j = Some q0 ∧ r ∈ owns q0 ∧ r ≠ sh) as (q0 & Hq0 & Hr0 & Hrs).
    { apply list_lookup_insert_Some in Hq as [(<- & <- & _)|[Hij Hq]]; [exists (PStore k c sh); set_solver |].
      exists q. split_and!; [done | done |]. intros ->.
      apply Hij. apply (i_disj s Hi i j _ _ sh Hp Hq); [right; left | done]. }
    destruct (i_own s Hi j q0 r Hq0 Hr0) as (? & ? & ? & Hk). split_and!; [done.. |].
    intros k' Hk'. apply lookup_insert_Some in Hk' as [[_ ?]|[_ Hk']]; [by subst | by apply Hk in Hk'].
  - intros j1 j2 q1 q2 r H1 H2 Hr1 Hr2.
    assert (∀ j q, <[i := PCopy k c sh]> (threads s) !! j = Some q → r ∈ owns q →
            ∃ q0, threads s !! j = Some q0 ∧ r ∈ owns q0) as Hback.
    { intros j q Hq Hr. apply list_lookup_insert_Some in Hq as [(<- & <- & _)|[Hij Hq]]; [| by eauto].
      exists (PStore k c sh). set_solver. }
    destruct (Hback _ _ H1 Hr1) as (? & ? & ?), (Hback _ _ H2 Hr2) as (? & ? & ?). by eapply (i_disj s Hi).
  - intros j q Hq. apply list_lookup_insert_Some in Hq as [(<- & <- & _)|[Hij Hq]]; [by split; [| left] | by apply (i_pc s Hi j)].
Qed.
End Invariant.

(** Reads back the block just allocated. *)
Ltac rewrite_alloc bs h :=
  let E := fresh in pose proof (deref_alloc_eq bs h) as E; cbn in E; rewrite E; clear E.

Section Steps.
Context `{CryptoLaws}.

Lemma DeriveSharedKey_wf h r pub salt : heap_wf h → heap_wf (DeriveSharedKey r pub salt h).2.
Proof.
  intros Hh. unfold DeriveSharedKey, ComputeX25519SharedSecret, deriveKeyFromSecret, SecureZero. heap_unfold.
  destruct (negb (length (deref h r) =? _)); [done |]. destruct (negb (length pub =? _)); [done |].
  destruct (curve25519_X25519 _ _) as [s|]; [| done]. destruct (all_zeros s); cbn; [exact (alloc_wf s h Hh) |].
  destruct (hkdf_key _ _ _) as [k|].
  - exact (write_wf memclrFunc _ _ (alloc_wf k _ (alloc_wf s h Hh))).
  - exact (write_wf memclrFunc _ _ (alloc_wf s h Hh)).
Qed.

Lemma DeriveSharedKey_zeroing h r pub salt :
  heap_wf h → length (deref h r) = X25519KeySize → length pub = X25519KeySize →
  zeroing [] h (DeriveSharedKey r pub salt h).2.
Proof.
  intros Hh Hl Hp. pose proof (DeriveSharedKey_runs h r pub salt Hl Hp) as Hr.
  pose proof (DeriveSharedKey_wf h r pub salt Hh) as Hw.
  destruct (DeriveSharedKey r pub salt h) as [k h'].
  assert (extends (next h) h h') as [Hn He].
  { destruct (shared_key _ _ _); [destruct Hr as (? & _ & _ & _ & [? _]) | destruct Hr as (_ & [? _])]; done. }
  split; [done |]. split; [done |]. intros q Hq. by apply He.
Qed.

Lemma zeroing_refl h : heap_wf h → zeroing [] h h.
Proof. by split. Qed.

Lemma zeroing_alloc h bs : heap_wf h → zeroing [] h (alloc bs h).2.
Proof.
  intros Hh. split; [by apply alloc_wf |]. split; [cbn; lia |]. intros r Hr. cbn. by apply deref_alloc_ne.
Qed.

Lemma zeroing_zero zs h h' r :
  zeroing zs h h' → zeroing (r :: zs) h (SecureZero r h').2.
Proof.
  intros (Hw & Hn & Hd). split; [by apply write_wf |]. split; [done |]. intros q Hq. specialize (Hd q Hq).
  rewrite deref_SecureZero. destruct (decide (q = r)) as [-> | Hqr].
  - rewrite decide_True by (by left). apply memclr_zeroed.
  - destruct (decide (q ∈ zs)).
    + rewrite decide_True by (by right). done.
    + rewrite decide_False by (by apply not_elem_of_cons). done.
Qed.

(** Each section of a derivation keeps the invariant. *)
Lemma inv_derive X s i p :
  length X = X25519KeySize → inv X s → threads s !! i = Some p →
  inv X {| st := (derive_step p (st s)).2; threads := <[i := (derive_step p (st s)).1]> (threads s) |}.
Proof.
  destruct s as [[m h] ths]. intros HX Hi Hp. pose proof (i_wf X _ Hi) as Hw. pose proof (i_pc X _ Hi i p Hp) as Hpc.
  destruct p as [k|k c|k c sh|k c sh|k r]; cbn [derive_step]; unfold get_mod, on_heap, copy; heap_unfold; cbn [st threads modl hp] in *.
  - destruct (negb (length k =? _)) eqn:Hk; cbn; [|destruct (mod_closed m) eqn:Hc; cbn; [|destruct (peerKeys m !! k) as [key|] eqn:Hkey; cbn]].
    + eapply (inv_thread X {| st := {| modl := m; hp := h |}; threads := ths |} i _ _ _ [] Hi Hp); [ by apply zeroing_refl | set_solver | set_solver | done].
    + eapply (inv_thread X {| st := {| modl := m; hp := h |}; threads := ths |} i _ _ _ [] Hi Hp); [ by apply zeroing_refl | set_solver | set_solver | done].
    + pose proof (i_cache X _ Hi k key Hkey) as (Hlt & _ & _ & Hg).
      eapply (inv_thread X {| st := {| modl := m; hp := h |}; threads := ths |} i _ _ _ [] Hi Hp); [ by apply zeroing_alloc | set_solver | set_solver |].
      cbn. split; [lia |]. left. unfold good. by rewrite_alloc (deref h key) h.
    + apply negb_false_iff, Nat.eqb_eq in Hk.
      eapply (inv_thread X {| st := {| modl := m; hp := h |}; threads := ths |} i _ _ _ [] Hi Hp); [ by apply zeroing_alloc | set_solver | cbn; set_solver by lia |].
      cbn. rewrite_alloc (deref h (x25519Private m)) h.
      split; [by apply (i_open X _ Hi) | done].
  - destruct Hpc as [Hx Hk]. pose proof (i_own X _ Hi i _ c Hp ltac:(by left)) as (Hc & _).
    assert (length (deref h c) = X25519KeySize) as Hl by by rewrite Hx.
    pose proof (DeriveSharedKey_runs h c k [] Hl Hk) as Hr.
    pose proof (DeriveSharedKey_zeroing h c k [] Hw Hl Hk) as Hz.
    destruct (DeriveSharedKey c k [] h) as [[e|sh] h']; cbn in *.
    + eapply (inv_thread X {| st := {| modl := m; hp := h |}; threads := ths |} i _ _ _ [c] Hi Hp); [exact (zeroing_zero [] h h' c Hz) | set_solver | set_solver | done].
    + eapply (inv_thread X {| st := {| modl := m; hp := h |}; threads := ths |} i _ _ _ [] Hi Hp); [exact Hz | set_solver | |];
        (destruct (shared_key _ k []) as [kb|] eqn:Hsk; [| by destruct Hr]).
      * destruct Hr as (kr & [= <-] & Hd & Hr & _). cbn. intros r Hin. destruct Hz as (_ & ? & _). set_solver by lia.
      * destruct Hr as (kr & [= <-] & Hd & Hr & _). split; [| lia]. unfold good. by rewrite Hd, <- Hsk, Hx.
  - cbn. destruct (mod_closed m) eqn:Hc; cbn [fst snd].
    + eapply (inv_thread X {| st := {| modl := m; hp := h |}; threads := ths |} i _ _ _ [c; sh] Hi Hp); [ | set_solver | set_solver | done].
      exact (zeroing_zero [sh] h _ c (zeroing_zero [] h h sh (zeroing_refl h Hw))).
    + exact (inv_store X {| st := {| modl := m; hp := h |}; threads := ths |} i k c sh Hi Hp Hc).
  - destruct Hpc as [Hlt Hv].
    eapply (inv_thread X {| st := {| modl := m; hp := h |}; threads := ths |} i _ _ _ [c] Hi Hp); [exact (zeroing_zero [] h _ c (zeroing_alloc h (deref h sh) Hw)) | set_solver | set_solver |].
    pose proof (i_own X _ Hi i _ c Hp ltac:(by left)) as (Hc & _).
    cbn [pc_ok fst snd]. split; [cbn; lia |].
    assert (deref (SecureZero c (alloc (deref h sh) h).2).2 (next h) = deref h sh) as E.
    { cbn in Hc. rewrite deref_SecureZero, decide_False by lia. exact (deref_alloc_eq _ h). }
    cbn in E |- *. rewrite E. exact Hv.
  - cbn. by rewrite list_insert_id.
Qed.

Lemma elem_of_cached m r : r ∈ cached m ↔ ∃ k, peerKeys m !! k = Some r.
Proof.
  unfold cached. rewrite list_elem_of_fmap. split.
  - intros ([k r'] & -> & Hin%elem_of_map_to_list). eauto.
  - intros [k Hk]. exists (k, r). split; [done |]. by apply elem_of_map_to_list.
Qed.

Lemma inv_RemovePeerKey X s remote :
  inv X s → inv X {| st := (RemovePeerKey remote (st s)).2; threads := threads s |}.
Proof.
  intros Hi. pose proof (i_wf X s Hi) as Hw.
  unfold RemovePeerKey, get_mod, on_heap. heap_unfold.
  destruct (peerKeys (modl (st s)) !! remote) as [key|] eqn:Hk; cbn.
  - apply (inv_drop X s _ _ _ [key]).
    + done.
    + exact (zeroing_zero [] _ _ key (zeroing_refl _ Hw)).
    + intros k r Hr. apply lookup_delete_Some in Hr as [Hne Hr]. split; [done |].
      intros ->%list_elem_of_singleton. by pose proof (i_inj X s Hi _ _ _ Hk Hr).
    + intros r ->%list_elem_of_singleton. left. by exists remote.
    + done.
    + intros Hc. by rewrite (i_closed X s Hi Hc), delete_empty.
  - apply (inv_drop X s _ _ _ []).
    + done.
    + by apply zeroing_refl.
    + intros k r Hr. apply lookup_delete_Some in Hr as [_ Hr]. split; [done | set_solver].
    + set_solver.
    + done.
    + intros Hc. by rewrite (i_closed X s Hi Hc), delete_empty.
Qed.

Lemma inv_ClearPeerKeys X s :
  inv X s → inv X {| st := (ClearPeerKeys (st s)).2; threads := threads s |}.
Proof.
  intros Hi. pose proof (i_wf X s Hi) as Hw.
  unfold ClearPeerKeys, get_mod, on_heap. heap_unfold. cbn.
  pose proof (zeroing_Multiple (cached (modl (st s))) _ Hw) as Hz.
  destruct (SecureZeroMultiple _ _) as [u h']. cbn in *.
  apply (inv_drop X s _ _ _ (cached (modl (st s)))); [done | done | | | done | done].
  - intros k r. by rewrite lookup_empty.
  - intros r Hr. left. by apply elem_of_cached.
Qed.

Lemma inv_Close X s :
  inv X s → inv X {| st := (Module_Close (st s)).2; threads := threads s |}.
Proof.
  intros Hi. pose proof (i_wf X s Hi) as Hw.
  unfold Module_Close, get_mod, on_heap, set_closed. heap_unfold. cbn.
  change (cached _) with (cached (modl (st s))).
  pose proof (zeroing_Multiple (cached (modl (st s))) _ Hw) as Hz.
  destruct (SecureZeroMultiple _ _) as [u h']. cbn in *.
  apply (inv_drop X s ∅ true _ (x25519Private (modl (st s)) :: ed25519Private (modl (st s)) :: cached (modl (st s)))).
  - done.
  - exact (zeroing_zero _ _ _ _ (zeroing_zero _ _ _ _ Hz)).
  - intros k r. by rewrite lookup_empty.
  - intros r [->|[->|Hr]%elem_of_cons]%elem_of_cons; [by right; auto | by right; auto |].
    left. by apply elem_of_cached.
  - done.
  - done.
Qed.

Lemma inv_call X s remote :
  inv X s → inv X {| st := st s; threads := threads s ++ [PStart remote] |}.
Proof.
  intros Hi.
  assert (∀ i p, (threads s ++ [PStart remote]) !! i = Some p → threads s !! i = Some p ∨ p = PStart remote) as Happ.
  { intros i p Hp. apply lookup_app_Some in Hp as [Hp|[_ Hp]]; [by left | right].
    apply list_lookup_singleton_Some in Hp. naive_solver. }
  split; cbn; try apply Hi.
  - intros i p r [Hp| ->]%Happ Hr; [by eapply (i_own X s Hi) | by apply elem_of_nil in Hr].
  - intros i j p q r [Hp| ->]%Happ [Hq| ->]%Happ Hr1 Hr2; try by apply elem_of_nil in Hr1.
    + by eapply (i_disj X s Hi).
    + by apply elem_of_nil in Hr2.
  - intros i p [Hp| ->]%Happ; [by eapply (i_pc X s Hi) | done].
Qed.

Lemma inv_step X s s' : length X = X25519KeySize → step s s' → inv X s → inv X s'.
Proof.
  intros HX Hs Hi. destruct Hs.
  - by apply inv_call.
  - by apply inv_derive.
  - by apply inv_RemovePeerKey.
  - by apply inv_ClearPeerKeys.
  - by apply inv_Close.
Qed.

(** The X25519 private key of the Ed25519 key with a given seed. *)
Definition x25519_of_seed (seed : bytes) : bytes := clampX25519 (take 32 (sha512_Sum512 seed)).

Lemma x25519_of_seed_length seed : length (x25519_of_seed seed) = X25519KeySize.
Proof. unfold x25519_of_seed. rewrite clamp_length, length_take, sha512_length. done. Qed.

(** An Ed25519 private key is the seed followed by the public key. *)
Lemma NewModule_runs h priv seed :
  heap_wf h → priv < next h → deref h priv = seed ++ ed25519_public seed → length seed = SeedSize →
  ∃ m h' p, NewModule (Some priv) h = (Ok m, h')
    ∧ ed25519Private m = priv ∧ ed25519Public m = ed25519_public seed
    ∧ Point_SetBytes (ed25519_public seed) = Some p ∧ x25519Public m = BytesMontgomery p
    ∧ curve25519_X25519 (x25519_of_seed seed) Basepoint = Some (x25519Public m)
    ∧ peerKeys m = ∅ ∧ mod_closed m = false
    ∧ deref h' (x25519Private m) = x25519_of_seed seed ∧ next h ≤ x25519Private m < next h'
    ∧ heap_wf h' ∧ no_residue h h' [x25519Private m].
Proof.
  intros Hw Hlt Hd Hs.
  assert (length (deref h priv) = PrivateKeySize) as Hl.
  { rewrite Hd, length_app, ed25519_public_length, Hs. done. }
  destruct (montgomery_public seed Hs) as (p & Hp & Hpub).
  destruct (Ed25519PrivateToX25519_runs h priv Hl) as (h' & Hrun & Hx & Hn & Hres).
  assert (heap_wf h') as Hw'.
  { assert (h' = (Ed25519PrivateToX25519 priv h).2) as -> by by rewrite Hrun.
    unfold Ed25519PrivateToX25519. heap_unfold. rewrite Hl. cbn [negb Nat.eqb PrivateKeySize].
    exact (write_wf _ _ _ (write_wf _ _ _ (alloc_wf _ _ (alloc_wf _ _ Hw)))). }
  eexists _, h', p. split.
  - unfold NewModule, ValidateEd25519PrivateKey, st_get. heap_unfold. cbn [fmap option_fmap option_map].
    rewrite Hl. cbn [negb Nat.eqb PrivateKeySize]. rewrite Hrun, Hd, drop_app_length' by done.
    unfold Ed25519PublicToX25519. rewrite ed25519_public_length. cbn [negb Nat.eqb PublicKeySize].
    rewrite Hp. reflexivity.
  - cbn. split_and!; try done; [| lia | lia]. rewrite Hx, Hd, take_app_length' by done. done.
Qed.

Lemma inv_initial h priv m seed h' :
  heap_wf h → priv < next h → deref h priv = seed ++ ed25519_public seed → length seed = SeedSize →
  NewModule (Some priv) h = (Ok m, h') →
  inv (x25519_of_seed seed) {| st := {| modl := m; hp := h' |}; threads := [] |}.
Proof.
  intros Hw Hlt Hd Hs Hn. destruct (NewModule_runs h priv seed Hw Hlt Hd Hs)
    as (m0 & h0 & p & E & He & _ & _ & _ & _ & Hk & Hc & Hx & Hxr & Hw' & _).
  rewrite E in Hn. simplify_eq. split; cbn.
  - done.
  - lia.
  - done.
  - by rewrite Hc.
  - intros k r. by rewrite Hk, lookup_empty.
  - intros k1 k2 r. by rewrite Hk, lookup_empty.
  - intros i p0 r. by rewrite lookup_nil.
  - intros i j p0 q r. by rewrite lookup_nil.
  - intros i p0. by rewrite lookup_nil.
Qed.
End Steps.

(** ** Sequential behaviour *)

Section Sequential.
Context `{CryptoLaws}.

Lemma inv_forget X s : inv X s → inv X {| st := st s; threads := [] |}.
Proof.
  intros Hi. split; cbn; try apply Hi.
  - intros i p r. by rewrite lookup_nil.
  - intros i j p q r. by rewrite lookup_nil.
  - intros i p. by rewrite lookup_nil.
Qed.

(** The module of a node between calls. *)
Definition module_ok (X : bytes) (s : state) : Prop := inv X {| st := s; threads := [] |}.

Lemma derive_step_ok X s p :
  length X = X25519KeySize → inv X {| st := s; threads := [p] |} →
  inv X {| st := (derive_step p s).2; threads := [(derive_step p s).1] |}.
Proof. intros HX Hi. exact (inv_derive X _ 0 p HX Hi eq_refl). Qed.

Lemma derive_module_ok X s k :
  length X = X25519KeySize → module_ok X s → module_ok X (DeriveSharedKeyFromX25519 k s).2.
Proof.
  intros HX Hs. pose proof (inv_call X _ k Hs) as H0'. cbn [threads app st] in H0'.
  apply (derive_step_ok X) in H0'; [| done]. unfold DeriveSharedKeyFromX25519. heap_unfold.
  destruct (derive_step (PStart k) s) as [p1 s1]. apply (derive_step_ok X) in H0'; [| done]. cbn [fst snd] in *.
  destruct (derive_step p1 s1) as [p2 s2]. apply (derive_step_ok X) in H0'; [| done]. cbn [fst snd] in *.
  destruct (derive_step p2 s2) as [p3 s3]. apply (derive_step_ok X) in H0'; [| done]. cbn [fst snd] in *.
  destruct (derive_step p3 s3) as [p4 s4]. exact (inv_forget X _ H0').
Qed.

(** A call without interference: the key, in a buffer the cache does not
    share, and the same key cached. *)
Lemma derive_runs X s k :
  length X = X25519KeySize → module_ok X s → mod_closed (modl s) = false → length k = X25519KeySize →
  let '(r, s') := DeriveSharedKeyFromX25519 k s in
  mod_closed (modl s') = false ∧ x25519Public (modl s') = x25519Public (modl s)
  ∧ match shared_key X k [] with
    | Some kb => ∃ kr cr, r = Ok kr ∧ deref (hp s') kr = kb ∧ next (hp s) ≤ kr
                          ∧ peerKeys (modl s') !! k = Some cr ∧ cr ≠ kr ∧ deref (hp s') cr = kb
    | None => is_ok r = false ∧ peerKeys (modl s') = peerKeys (modl s)
    end.
Proof.
  intros HX Hi Hc Hk. pose proof (i_wf X _ Hi) as Hw. pose proof (i_open X _ Hi Hc) as Hx.
  destruct s as [m h]. cbn in Hw, Hx, Hc |- *.
  unfold DeriveSharedKeyFromX25519, derive_step, get_mod, on_heap, copy. heap_unfold. cbn. rewrite Hk. cbn. rewrite Hc. cbn.
  destruct (peerKeys m !! k) as [key|] eqn:Hkey; cbn.
  - pose proof (i_cache X _ Hi k key Hkey) as (Hlt & _ & _ & Hg). cbn in Hlt, Hg. unfold good in Hg. rewrite Hg.
    split; [done |]. split; [done |]. exists (next h), key.
    split_and!; [done | by rewrite_alloc (deref h key) h | done | done | lia |].
    exact (deref_alloc_ne (deref h key) h key Hlt).
  - pose proof (alloc_wf (deref h (x25519Private m)) h Hw) as Hw1.
    set (h1 := {| blocks := _; next := _ |}).
    assert (deref h1 (next h) = X) as Hd1 by by unfold h1; rewrite_alloc (deref h (x25519Private m)) h.
    pose proof (DeriveSharedKey_runs h1 (next h) k []) as Hr. rewrite Hd1 in Hr. specialize (Hr HX Hk).
    destruct (DeriveSharedKey (next h) k [] h1) as [kr h2]. destruct (shared_key X k []) as [kb|]; cbn.
    + destruct Hr as (sh & -> & Hsh & Hrange & _). cbn. rewrite Hc. cbn.
      split; [done |]. split; [done |]. exists (next h2), sh. cbn in Hrange. rewrite lookup_insert_eq.
      split_and!; [done | | lia | done | lia |].
      * rewrite Hsh. change (deref (SecureZero (next h) (alloc kb h2).2).2 (next h2) = kb).
        rewrite deref_SecureZero, decide_False by lia. exact (deref_alloc_eq kb h2).
      * rewrite Hsh. change (deref (SecureZero (next h) (alloc kb h2).2).2 sh = kb).
        rewrite deref_SecureZero, decide_False by lia. rewrite deref_alloc_ne by lia. done.
    + destruct Hr as [Hr _]. destruct kr as [e|kr]; [| done]. done.
Qed.

Lemma shared_key_length X k kb : shared_key X k [] = Some kb → length kb = KeySize.
Proof. unfold shared_key. repeat case_match; try done. apply hkdf_length. Qed.

(** Encrypting and decrypting with the cached key of a peer. *)
Lemma Module_Encrypt_runs s k cr kb rnd pt :
  mod_closed (modl s) = false → peerKeys (modl s) !! k = Some cr → deref (hp s) cr = kb → length kb = KeySize →
  (Module_Encrypt rnd k pt s).1
  = Cipher_Encrypt {| aead := Some kb; key := Some (S (next (hp s))); closed := false |} rnd pt [].
Proof.
  intros Hc Hk Hd Hl. unfold Module_Encrypt, get_mod, on_heap, copy. heap_unfold. rewrite Hc, Hk. cbn. rewrite Hd.
  set (h1 := {| blocks := _; next := _ |}).
  assert (deref h1 (next (hp s)) = kb) as Hd1 by by unfold h1; rewrite_alloc kb (hp s).
  pose proof (Encrypt_runs h1 (next (hp s)) rnd pt []) as He. rewrite Hd1 in He. specialize (He Hl).
  destruct (Encrypt _ _ _ _ h1) as [r h2]. by destruct He as [-> _].
Qed.

Lemma Module_Decrypt_runs s k cr kb data :
  mod_closed (modl s) = false → peerKeys (modl s) !! k = Some cr → deref (hp s) cr = kb → length kb = KeySize →
  (Module_Decrypt k data s).1
  = Cipher_Decrypt {| aead := Some kb; key := Some (S (next (hp s))); closed := false |} data [].
Proof.
  intros Hc Hk Hd Hl. unfold Module_Decrypt, get_mod, on_heap, copy. heap_unfold. rewrite Hc, Hk. cbn. rewrite Hd.
  set (h1 := {| blocks := _; next := _ |}).
  assert (deref h1 (next (hp s)) = kb) as Hd1 by by unfold h1; rewrite_alloc kb (hp s).
  pose proof (Decrypt_runs h1 (next (hp s)) data []) as He. rewrite Hd1 in He. specialize (He Hl).
  destruct (Decrypt _ _ _ h1) as [r h2]. by destruct He as [-> _].
Qed.
End Sequential.

(** A node's module is made from an Ed25519 key: seed and public key. *)
Definition new_node `{CryptoLib} (seed : bytes) (h : heap) (priv : ref) (m : Module_) (h' : heap) : Prop :=
  heap_wf h ∧ priv < next h ∧ deref h priv = seed ++ ed25519_public seed ∧ length seed = SeedSize
  ∧ NewModule (Some priv) h = (Ok m, h').

Section Nodes.
Context `{CryptoLaws}.

(** What the rest of the node relies on: the module is in order, its public
    keys belong together and to its private key. *)
Lemma new_node_runs seed h priv m h' :
  new_node seed h priv m h' →
  module_ok (x25519_of_seed seed) {| modl := m; hp := h' |} ∧ mod_closed m = false
  ∧ length (x25519Public m) = X25519KeySize
  ∧ ValidateEd25519PublicKey (Some (ed25519Public m)) = None
  ∧ Ed25519PublicToX25519 (ed25519Public m) = Ok (x25519Public m)
  ∧ curve25519_X25519 (x25519_of_seed seed) Basepoint = Some (x25519Public m).
Proof.
  intros (Hw & Hl & Hd & Hs & Hn). pose proof (inv_initial _ _ _ _ _ Hw Hl Hd Hs Hn) as Hi.
  destruct (NewModule_runs h priv seed Hw Hl Hd Hs) as (m0 & h0 & q & E & _ & He & Hq & Hx & Hp & _ & Hc & _).
  rewrite E in Hn. injection Hn as -> ->.
  split; [exact Hi |]. split; [exact Hc |]. split; [rewrite Hx; apply montgomery_length |].
  unfold ValidateEd25519PublicKey, Ed25519PublicToX25519. rewrite He, ed25519_public_length. cbn [negb Nat.eqb PublicKeySize].
  rewrite Hq, Hx. split_and!; [done | done | by rewrite <- Hx].
Qed.

(** Both ends compute the same key. *)
Lemma shared_key_sym seedA pubA seedB pubB :
  curve25519_X25519 (x25519_of_seed seedA) Basepoint = Some pubA →
  curve25519_X25519 (x25519_of_seed seedB) Basepoint = Some pubB →
  shared_key (x25519_of_seed seedA) pubB [] = shared_key (x25519_of_seed seedB) pubA [].
Proof. intros HA HB. unfold shared_key. by rewrite (X25519_commutes _ _ _ _ HA HB). Qed.
End Nodes.

(** ** Properties *)

(** Two nodes that derive a key from each other's public key either both fail
    (low-order point) or get the same key, and then what one encrypts for the
    other the other decrypts. *)
Theorem modules_agree `{CryptoLaws} seedA hA pA mA hA' seedB hB pB mB hB' nonce pt :
  new_node seedA hA pA mA hA' → new_node seedB hB pB mB hB' → length nonce = NonceSize →
  let '(rA, sA) := DeriveSharedKeyFromX25519 (x25519Public mB) {| modl := mA; hp := hA' |} in
  let '(rB, sB) := DeriveSharedKeyFromX25519 (x25519Public mA) {| modl := mB; hp := hB' |} in
  (is_ok rA = false ∧ is_ok rB = false)
  ∨ ∃ kA kB, rA = Ok kA ∧ rB = Ok kB ∧ deref (hp sA) kA = deref (hp sB) kB
             ∧ ∃ ct, (Module_Encrypt (Ok nonce) (x25519Public mB) pt sA).1 = Ok ct
                     ∧ (Module_Decrypt (x25519Public mA) ct sB).1 = Ok pt.
Proof.
  intros HA HB Hno.
  destruct (new_node_runs _ _ _ _ _ HA) as (IA & HcA & LA & _ & _ & HpA).
  destruct (new_node_runs _ _ _ _ _ HB) as (IB & HcB & LB & _ & _ & HpB).
  pose proof (shared_key_sym _ _ _ _ HpA HpB) as Hsym.
  pose proof (derive_runs _ {| modl := mA; hp := hA' |} _ (x25519_of_seed_length _) IA HcA LB) as RA.
  pose proof (derive_runs _ {| modl := mB; hp := hB' |} _ (x25519_of_seed_length _) IB HcB LA) as RB.
  destruct (DeriveSharedKeyFromX25519 (x25519Public mB) _) as [rA sA].
  destruct (DeriveSharedKeyFromX25519 (x25519Public mA) _) as [rB sB].
  destruct RA as (CA & _ & RA), RB as (CB & _ & RB). rewrite Hsym in RA.
  destruct (shared_key _ (x25519Public mA) []) as [kb|] eqn:Ek; [right | left; by destruct RA, RB].
  destruct RA as (kA & cA & -> & DA & _ & KA & _ & VA), RB as (kB & cB & -> & DB & _ & KB & _ & VB).
  exists kA, kB. split_and!; [done | done | congruence |].
  pose proof (shared_key_length _ _ _ Ek) as Lk.
  rewrite (Module_Encrypt_runs sA _ cA kb _ _ CA KA VA Lk).
  destruct (Cipher_roundtrip {| aead := Some kb; key := Some (S (next (hp sA))); closed := false |} nonce pt [] kb eq_refl eq_refl Hno)
    as (ct & Hct & _ & _ & Hdec).
  exists ct. split; [exact Hct |]. rewrite (Module_Decrypt_runs sB _ cB kb _ CB KB VB Lk). exact Hdec.
Qed.


(** Without interference the call returns the right key in a buffer of its
    own: zeroing it leaves the cached one alone. *)
Theorem derive_returns_copy `{CryptoLaws} X s k kr s' :
  length X = X25519KeySize → module_ok X s → mod_closed (modl s) = false → length k = X25519KeySize →
  DeriveSharedKeyFromX25519 k s = (Ok kr, s') →
  ∃ kb cr, shared_key X k [] = Some kb ∧ deref (hp s') kr = kb
           ∧ peerKeys (modl s') !! k = Some cr
           ∧ deref (SecureZero kr (hp s')).2 cr = kb ∧ module_ok X s'.
Proof.
  intros HX Hi Hc Hk E. pose proof (derive_runs X s k HX Hi Hc Hk) as Hr. rewrite E in Hr.
  pose proof (derive_module_ok X s k HX Hi) as Hok. rewrite E in Hok.
  destruct Hr as (_ & _ & Hr). destruct (shared_key X k []) as [kb|]; [| by destruct Hr].
  destruct Hr as (kr' & cr & [= <-] & Hd & _ & Hcr & Hne & Hv). exists kb, cr. split_and!; [done.. | | done].
  by rewrite deref_SecureZero, decide_False.
Qed.

(** [Close] leaves no secret: both private keys (the caller's slice included)
    and every cached key are zero, and every later operation is refused. *)
Theorem Module_Close_final `{CryptoLaws} X s :
  module_ok X s →
  let s' := (Module_Close s).2 in
  zeroed (deref (hp s') (x25519Private (modl s))) ∧ zeroed (deref (hp s') (ed25519Private (modl s)))
  ∧ (∀ k r, peerKeys (modl s) !! k = Some r → zeroed (deref (hp s') r))
  ∧ (∀ k, is_ok (DeriveSharedKeyFromX25519 k s').1 = false)
  ∧ (∀ rnd k pt, is_ok (Module_Encrypt rnd k pt s').1 = false)
  ∧ (∀ k ct, is_ok (Module_Decrypt k ct s').1 = false).
Proof.
  intros Hi. pose proof (i_wf X _ Hi) as Hw. pose proof (i_priv X _ Hi) as (_ & _ & Hne). cbn in Hw, Hne.
  unfold Module_Close, get_mod, on_heap, set_closed. heap_unfold. cbn.
  change (cached _) with (cached (modl s)).
  destruct (SecureZeroMultiple_deref (cached (modl s)) (hp s)) as (_ & _ & Hq).
  destruct (SecureZeroMultiple (cached (modl s)) (hp s)) as [u h']. cbn in *.
  match goal with |- context[deref ?h2] => set (hF := h2) end.
  assert (∀ r, deref hF r = deref (SecureZero (x25519Private (modl s)) (SecureZero (ed25519Private (modl s)) h').2).2 r) as HF by done.
  split_and!.
  - rewrite HF, deref_SecureZero, decide_True by done. apply memclr_zeroed.
  - rewrite HF, deref_SecureZero, decide_False by congruence. rewrite deref_SecureZero, decide_True by done. apply memclr_zeroed.
  - intros k r Hk. rewrite HF, !deref_SecureZero. repeat (case_decide; [apply memclr_zeroed |]).
    apply (proj1 (Hq r)), elem_of_cached. by exists k.
  - intros k. unfold DeriveSharedKeyFromX25519, derive_step, get_mod, on_heap. heap_unfold. by destruct (negb _).
  - done.
  - done.
Qed.

(** The copy for the caller is made after the lock is released: when the
    peer's key is removed in that window, the call still succeeds, and the key
    it returns is all zeros although the right one is not. *)
Theorem derive_race_zero_key `{CryptoLaws} X s k kb :
  length X = X25519KeySize → module_ok X s → mod_closed (modl s) = false → length k = X25519KeySize →
  peerKeys (modl s) !! k = None → shared_key X k [] = Some kb → ¬ zeroed kb →
  ∃ s' r, rtc step {| st := s; threads := [] |} s'
          ∧ threads s' = [PDone k (Ok r)] ∧ zeroed (deref (hp (st s')) r)
          ∧ shared_key X k [] ≠ Some (deref (hp (st s')) r).
Proof.
  intros HX Hi Hc Hk Hn Hkb Hnz. pose proof (i_wf X _ Hi) as Hw. pose proof (i_open X _ Hi Hc) as Hx.
  destruct s as [m h]. cbn in Hw, Hx, Hc, Hn.
  set (h1 := (copy (x25519Private m) h).2).
  assert (deref h1 (next h) = X) as Hd1 by (rewrite <- Hx; exact (deref_alloc_eq _ h)).
  pose proof (DeriveSharedKey_runs h1 (next h) k []) as Hr. rewrite Hd1 in Hr. specialize (Hr HX Hk). rewrite Hkb in Hr.
  destruct (DeriveSharedKey (next h) k [] h1) as [kr h2] eqn:Eh2. destruct Hr as (sh & -> & Hsh & Hrange & _).
  set (m2 := {| ed25519Private := ed25519Private m; ed25519Public := ed25519Public m; x25519Private := x25519Private m;
                x25519Public := x25519Public m; peerKeys := <[k := sh]> (peerKeys m); mod_closed := mod_closed m |}).
  set (m3 := {| ed25519Private := ed25519Private m; ed25519Public := ed25519Public m; x25519Private := x25519Private m;
                x25519Public := x25519Public m; peerKeys := delete k (<[k := sh]> (peerKeys m)); mod_closed := mod_closed m |}).
  set (h3 := (SecureZero sh h2).2).
  assert (zeroed (deref h3 sh)) as Hz by (unfold h3; rewrite deref_SecureZero, decide_True by done; apply memclr_zeroed).
  set (h4 := (SecureZero (next h) (alloc (deref h3 sh) h3).2).2).
  assert (zeroed (deref h4 (next h3))) as Hz4.
  { unfold h4. rewrite deref_SecureZero. case_decide; [apply memclr_zeroed |].
    by rewrite (deref_alloc_eq (deref h3 sh) h3 : deref _ (next h3) = _). }
  eexists _, (next h3). split.
  - eapply rtc_l; [exact (step_call {| st := {| modl := m; hp := h |}; threads := [] |} k) |]. cbn [st threads app].
    eapply rtc_l; [exact (step_thread {| st := {| modl := m; hp := h |}; threads := [PStart k] |} 0 _ eq_refl) |]. cbn [st threads].
    assert (derive_step (PStart k) {| modl := m; hp := h |} = (PCompute k (next h), {| modl := m; hp := h1 |})) as ->.
    { unfold derive_step, get_mod, on_heap. heap_unfold. cbn. rewrite Hk. cbn. by rewrite Hc, Hn. }
    eapply rtc_l; [exact (step_thread {| st := {| modl := m; hp := h1 |}; threads := [PCompute k (next h)] |} 0 _ eq_refl) |]. cbn [st threads].
    assert (derive_step (PCompute k (next h)) {| modl := m; hp := h1 |} = (PStore k (next h) sh, {| modl := m; hp := h2 |})) as ->.
    { unfold derive_step, on_heap. heap_unfold. cbn [hp modl]. by rewrite Eh2. }
    eapply rtc_l; [exact (step_thread {| st := {| modl := m; hp := h2 |}; threads := [PStore k (next h) sh] |} 0 _ eq_refl) |]. cbn [st threads].
    assert (derive_step (PStore k (next h) sh) {| modl := m; hp := h2 |} = (PCopy k (next h) sh, {| modl := m2; hp := h2 |})) as ->.
    { unfold derive_step, get_mod, on_heap. heap_unfold. cbn. by rewrite Hc. }
    eapply rtc_l; [exact (step_remove {| st := {| modl := m2; hp := h2 |}; threads := [PCopy k (next h) sh] |} k) |]. cbn [st threads].
    assert ((RemovePeerKey k {| modl := m2; hp := h2 |}).2 = {| modl := m3; hp := h3 |}) as ->.
    { unfold RemovePeerKey, get_mod, on_heap. heap_unfold. cbn. by rewrite lookup_insert_eq. }
    eapply rtc_l; [exact (step_thread {| st := {| modl := m3; hp := h3 |}; threads := [PCopy k (next h) sh] |} 0 _ eq_refl) |]. apply rtc_refl.
  - cbn [st threads hp]. split; [reflexivity |].
    match goal with |- zeroed ?a ∧ _ => assert (zeroed a) as Hza by exact Hz4 end.
    split; [exact Hza |]. intros E. rewrite Hkb in E. injection E as E. rewrite E in Hnz. done.
Qed.

(** ** Witnesses, in the concrete instance of [Crypto] *)

Module Witness.
#[local] Existing Instance Toy.toy.
#[local] Existing Instance Toy.toy_laws.

Definition pad32 (n : Z) : bytes := n :: replicate 31 0%Z.
Definition seed : Z → bytes := pad32.
Definition priv_heap (n : Z) : heap := (alloc (seed n ++ ed25519_public (seed n)) empty_heap).2.
Definition made (n : Z) : result error Module_ * heap := NewModule (Some 0) (priv_heap n).
Definition mod_of (n : Z) : Module_ :=
  match (made n).1 with
  | Ok m => m
  | Err _ => {| ed25519Private := 0; ed25519Public := []; x25519Private := 0; x25519Public := []; peerKeys := ∅; mod_closed := false |}
  end.

Lemma priv_heap_wf n : heap_wf (priv_heap n).
Proof. apply alloc_wf, empty_heap_wf. Qed.

Lemma node_9 : new_node (seed 9) (priv_heap 9) 0 (mod_of 9) (made 9).2.
Proof. split; [apply priv_heap_wf |]. split; [cbn; lia |]. split; [reflexivity |]. by split. Qed.

Lemma node_16 : new_node (seed 16) (priv_heap 16) 0 (mod_of 16) (made 16).2.
Proof. split; [apply priv_heap_wf |]. split; [cbn; lia |]. split; [reflexivity |]. by split. Qed.

Lemma ok_9 : module_ok (x25519_of_seed (seed 9)) {| modl := mod_of 9; hp := (made 9).2 |}.
Proof. destruct node_9 as (H1 & H2 & H3 & H4 & H5). exact (inv_initial _ _ _ _ _ H1 H2 H3 H4 H5). Qed.

Lemma modules_agree_witness :
  let sA := (DeriveSharedKeyFromX25519 (x25519Public (mod_of 16)) {| modl := mod_of 9; hp := (made 9).2 |}).2 in
  let sB := (DeriveSharedKeyFromX25519 (x25519Public (mod_of 9)) {| modl := mod_of 16; hp := (made 16).2 |}).2 in
  ∃ ct, (Module_Encrypt (Ok (replicate 12 1%Z)) (x25519Public (mod_of 16)) [104%Z; 105%Z] sA).1 = Ok ct
        ∧ (Module_Decrypt (x25519Public (mod_of 9)) ct sB).1 = Ok [104%Z; 105%Z].
Proof.
  cbv zeta.
  pose proof (modules_agree _ _ _ _ _ _ _ _ _ _ (replicate 12 1%Z) [104%Z; 105%Z] node_9 node_16 eq_refl) as Hw.
  assert (is_ok (DeriveSharedKeyFromX25519 (x25519Public (mod_of 16)) {| modl := mod_of 9; hp := (made 9).2 |}).1 = true) as Hok
    by (vm_compute; reflexivity).
  destruct (DeriveSharedKeyFromX25519 (x25519Public (mod_of 16)) _) as [rA sA].
  destruct (DeriveSharedKeyFromX25519 (x25519Public (mod_of 9)) _) as [rB sB].
  destruct Hw as [[Hno _]|(_ & _ & _ & _ & _ & Hct)]; [cbn in Hok; congruence | exact Hct].
Defined.

(** One call that runs to its end alone. *)
Definition advance (s : sys) : sys :=
  match threads s with
  | [] => s
  | p :: ps => {| st := (derive_step p (st s)).2; threads := (derive_step p (st s)).1 :: ps |}
  end.

Lemma advance_step s p ps : threads s = p :: ps → step s (advance s).
Proof.
  intros E. unfold advance. rewrite E. pose proof (step_thread s 0 p) as Hs. rewrite E in Hs. by apply Hs.
Qed.

Definition called : sys := {| st := {| modl := mod_of 9; hp := (made 9).2 |}; threads := [PStart (pad32 5)] |}.
Definition derived : sys := advance (advance (advance (advance called))).

Lemma derived_reachable : rtc step {| st := {| modl := mod_of 9; hp := (made 9).2 |}; threads := [] |} derived.
Proof.
  eapply rtc_l; [exact (step_call {| st := {| modl := mod_of 9; hp := (made 9).2 |}; threads := [] |} (pad32 5)) |].
  do 4 (eapply rtc_l; [eapply advance_step; reflexivity |]). apply rtc_refl.
Qed.


Lemma derive_returns_copy_witness :
  ∃ kr s', DeriveSharedKeyFromX25519 (pad32 5) {| modl := mod_of 9; hp := (made 9).2 |} = (Ok kr, s')
           ∧ ∃ kb cr, shared_key (x25519_of_seed (seed 9)) (pad32 5) [] = Some kb ∧ deref (hp s') kr = kb
                      ∧ deref (SecureZero kr (hp s')).2 cr = kb.
Proof.
  eexists _, _. split; [vm_compute; reflexivity |].
  destruct (derive_returns_copy (x25519_of_seed (seed 9)) {| modl := mod_of 9; hp := (made 9).2 |} (pad32 5) _ _
              (x25519_of_seed_length _) ok_9 eq_refl eq_refl ltac:(vm_compute; reflexivity)) as (kb & cr & H1 & H2 & _ & H3 & _).
  exists kb, cr. split; [exact H1 | split; [exact H2 | exact H3]].
Defined.

Lemma Module_Close_final_witness :
  let s' := (Module_Close {| modl := mod_of 9; hp := (made 9).2 |}).2 in
  zeroed (deref (hp s') 0) ∧ is_ok (DeriveSharedKeyFromX25519 (pad32 5) s').1 = false.
Proof.
  cbv zeta. pose proof (Module_Close_final _ _ ok_9) as (_ & H2 & _ & H4 & _). split; [exact H2 | apply H4].
Defined.

Lemma derive_race_zero_key_witness :
  ∃ s' r, rtc step {| st := {| modl := mod_of 9; hp := (made 9).2 |}; threads := [] |} s'
          ∧ threads s' = [PDone (pad32 5) (Ok r)] ∧ zeroed (deref (hp (st s')) r).
Proof.
  destruct (derive_race_zero_key (x25519_of_seed (seed 9)) {| modl := mod_of 9; hp := (made 9).2 |} (pad32 5) (pad32 18)
    (x25519_of_seed_length _) ok_9 eq_refl eq_refl eq_refl ltac:(vm_compute; reflexivity)) as (s' & r & H1 & H2 & H3 & _).
  - intros Hz. by inversion Hz.
  - exists s', r. split; [exact H1 | split; [exact H2 | exact H3]].
Defined.
End Witness.
