(* ===== verification/Peer.v ===== *)
(** * One peer's connection ([pkg/connection/peer.go])

    A method is a state transformer on a [cell]: the connection's fields and
    the part of the runtime they point to, that is the key buffers, the
    timers made by [time.AfterFunc] and the clock. *)

From S2P Require Import Prelude Errors ConnState Heap Crypto.

(** A handshake timer and the context its callback looks at. *)
Record Timer := {
  t_peer : string;          (** the callback's [conn.PeerID] *)
  t_deadline : time;
  t_stopped : bool;         (** [Stop] was called *)
  t_cancelled : bool;       (** [timeoutCtx] is done *)
  t_fired : bool;           (** the callback has been started *)
}.

Record runtime := { keys : heap; timers : gmap nat Timer; next_timer : nat; clock : time }.

Record PeerConnection := {
  PeerID : string;
  State : ConnectionState;
  IsOutbound : bool;
  HandshakeTimer : option nat;
  HandshakeCancel : option nat;
  SharedKey : option ref;
  EncryptedStreams : gset string;
  pcReconnectState : option nat;
  CooldownUntil : time;
  LastError : option error;
  LastStateChange : time;
  Stats : option nat;
}.

Record cell := { pc : PeerConnection; rt : runtime }.

(** ** Field updates *)

Definition set_state (s : ConnectionState) (now : time) (p : PeerConnection) : PeerConnection :=
  {| PeerID := PeerID p; State := s; IsOutbound := IsOutbound p; HandshakeTimer := HandshakeTimer p;
     HandshakeCancel := HandshakeCancel p; SharedKey := SharedKey p; EncryptedStreams := EncryptedStreams p;
     pcReconnectState := pcReconnectState p; CooldownUntil := CooldownUntil p; LastError := LastError p;
     LastStateChange := now; Stats := Stats p |}.
Definition set_timer (t c : option nat) (p : PeerConnection) : PeerConnection :=
  {| PeerID := PeerID p; State := State p; IsOutbound := IsOutbound p; HandshakeTimer := t;
     HandshakeCancel := c; SharedKey := SharedKey p; EncryptedStreams := EncryptedStreams p;
     pcReconnectState := pcReconnectState p; CooldownUntil := CooldownUntil p; LastError := LastError p;
     LastStateChange := LastStateChange p; Stats := Stats p |}.
Definition set_key (k : option ref) (p : PeerConnection) : PeerConnection :=
  {| PeerID := PeerID p; State := State p; IsOutbound := IsOutbound p; HandshakeTimer := HandshakeTimer p;
     HandshakeCancel := HandshakeCancel p; SharedKey := k; EncryptedStreams := EncryptedStreams p;
     pcReconnectState := pcReconnectState p; CooldownUntil := CooldownUntil p; LastError := LastError p;
     LastStateChange := LastStateChange p; Stats := Stats p |}.
Definition set_outbound (b : bool) (p : PeerConnection) : PeerConnection :=
  {| PeerID := PeerID p; State := State p; IsOutbound := b; HandshakeTimer := HandshakeTimer p;
     HandshakeCancel := HandshakeCancel p; SharedKey := SharedKey p; EncryptedStreams := EncryptedStreams p;
     pcReconnectState := pcReconnectState p; CooldownUntil := CooldownUntil p; LastError := LastError p;
     LastStateChange := LastStateChange p; Stats := Stats p |}.
Definition set_error (e : option error) (p : PeerConnection) : PeerConnection :=
  {| PeerID := PeerID p; State := State p; IsOutbound := IsOutbound p; HandshakeTimer := HandshakeTimer p;
     HandshakeCancel := HandshakeCancel p; SharedKey := SharedKey p; EncryptedStreams := EncryptedStreams p;
     pcReconnectState := pcReconnectState p; CooldownUntil := CooldownUntil p; LastError := e;
     LastStateChange := LastStateChange p; Stats := Stats p |}.
Definition set_reconnect (r : option nat) (p : PeerConnection) : PeerConnection :=
  {| PeerID := PeerID p; State := State p; IsOutbound := IsOutbound p; HandshakeTimer := HandshakeTimer p;
     HandshakeCancel := HandshakeCancel p; SharedKey := SharedKey p; EncryptedStreams := EncryptedStreams p;
     pcReconnectState := r; CooldownUntil := CooldownUntil p; LastError := LastError p;
     LastStateChange := LastStateChange p; Stats := Stats p |}.
Definition set_stats (st : option nat) (p : PeerConnection) : PeerConnection :=
  {| PeerID := PeerID p; State := State p; IsOutbound := IsOutbound p; HandshakeTimer := HandshakeTimer p;
     HandshakeCancel := HandshakeCancel p; SharedKey := SharedKey p; EncryptedStreams := EncryptedStreams p;
     pcReconnectState := pcReconnectState p; CooldownUntil := CooldownUntil p; LastError := LastError p;
     LastStateChange := LastStateChange p; Stats := st |}.
Definition set_cooldown (u now : time) (p : PeerConnection) : PeerConnection :=
  {| PeerID := PeerID p; State := StateCooldown; IsOutbound := IsOutbound p; HandshakeTimer := HandshakeTimer p;
     HandshakeCancel := HandshakeCancel p; SharedKey := SharedKey p; EncryptedStreams := EncryptedStreams p;
     pcReconnectState := pcReconnectState p; CooldownUntil := u; LastError := LastError p;
     LastStateChange := now; Stats := Stats p |}.
Definition clear_streams (p : PeerConnection) : PeerConnection :=
  {| PeerID := PeerID p; State := State p; IsOutbound := IsOutbound p; HandshakeTimer := HandshakeTimer p;
     HandshakeCancel := HandshakeCancel p; SharedKey := SharedKey p; EncryptedStreams := ∅;
     pcReconnectState := pcReconnectState p; CooldownUntil := CooldownUntil p; LastError := LastError p;
     LastStateChange := LastStateChange p; Stats := Stats p |}.

Definition upd (f : PeerConnection → PeerConnection) : ST cell unit := st_modify (λ c, {| pc := f (pc c); rt := rt c |}).
Definition get_pc : ST cell PeerConnection := st_gets pc.
Definition Now : ST cell time := st_gets (λ c, clock (rt c)).
Definition on_keys {A} (f : ST heap A) : ST cell A := λ c,
  let (a, h) := f (keys (rt c)) in
  (a, {| pc := pc c; rt := {| keys := h; timers := timers (rt c); next_timer := next_timer (rt c); clock := clock (rt c) |} |}).
Definition upd_timer (f : Timer → Timer) (t : nat) : ST cell unit := st_modify (λ c,
  {| pc := pc c; rt := {| keys := keys (rt c); timers := alter f t (timers (rt c)); next_timer := next_timer (rt c); clock := clock (rt c) |} |}).

(** [timer.Stop()] and the cancel function of the timeout's context. *)
Definition stop_timer (t : Timer) : Timer :=
  {| t_peer := t_peer t; t_deadline := t_deadline t; t_stopped := true; t_cancelled := t_cancelled t; t_fired := t_fired t |}.
Definition cancel_timeout (t : Timer) : Timer :=
  {| t_peer := t_peer t; t_deadline := t_deadline t; t_stopped := t_stopped t; t_cancelled := true; t_fired := t_fired t |}.

(** ** Methods *)

Definition NewPeerConnection (peerID : string) (now : time) : PeerConnection :=
  {| PeerID := peerID; State := StateDisconnected; IsOutbound := false; HandshakeTimer := None; HandshakeCancel := None;
     SharedKey := None; EncryptedStreams := ∅; pcReconnectState := None; CooldownUntil := GoTime.zero; LastError := None;
     LastStateChange := now; Stats := None |}.

Definition TransitionTo (newState : ConnectionState) : ST cell (option error) :=
  p ← get_pc;
  match ValidateTransition (State p) newState with
  | Some err => mret (Some (Errorf "peer %s: %w" (Some err)))
  | None => now ← Now; _ ← upd (set_state newState now); mret None
  end.

Definition GetState : ST cell ConnectionState := st_gets (λ c, State (pc c)).

Definition CancelHandshakeTimeout : ST cell unit :=
  p ← get_pc;
  _ ← match HandshakeTimer p with Some t => upd_timer stop_timer t | None => mret tt end;
  _ ← match HandshakeCancel p with Some t => upd_timer cancel_timeout t | None => mret tt end;
  upd (set_timer None None).

Definition SetSharedKey (key : bytes) : ST cell unit :=
  r ← on_keys (alloc key); upd (set_key (Some r)).

(** The copy of the key; [None] is nil. *)
Definition GetSharedKey : ST cell (option ref) :=
  p ← get_pc;
  match SharedKey p with
  | None => mret None
  | Some k => r ← on_keys (copy k); mret (Some r)
  end.

Definition GetIsOutbound : ST cell bool := st_gets (λ c, IsOutbound (pc c)).
Definition SetIsOutbound (outbound : bool) : ST cell unit := upd (set_outbound outbound).
Definition SetError (err : option error) : ST cell unit := upd (set_error err).
Definition GetError : ST cell (option error) := st_gets (λ c, LastError (pc c)).

Definition StartCooldown (d : duration) : ST cell (option error) :=
  p ← get_pc;
  match ValidateTransition (State p) StateCooldown with
  | Some err => mret (Some err)
  | None => now ← Now; _ ← upd (set_cooldown (now + d)%Z now); mret None
  end.

Definition IsInCooldown : ST cell bool := st_gets (λ c,
  if negb (bool_decide (State (pc c) = StateCooldown)) then false
  else GoTime.Before (clock (rt c)) (CooldownUntil (pc c))).

Definition CooldownRemaining : ST cell duration := st_gets (λ c,
  if negb (bool_decide (State (pc c) = StateCooldown)) then 0%Z
  else let remaining := GoTime.Sub (CooldownUntil (pc c)) (clock (rt c)) in
       if (remaining <? 0)%Z then 0%Z else remaining).

Definition SetStats (st : option nat) : ST cell unit := upd (set_stats st).
Definition GetStats : ST cell (option nat) := st_gets (λ c, Stats (pc c)).

Definition Cleanup : ST cell unit :=
  p ← get_pc;
  _ ← match HandshakeTimer p with Some t => upd_timer stop_timer t | None => mret tt end;
  _ ← match HandshakeCancel p with Some t => upd_timer cancel_timeout t | None => mret tt end;
  _ ← upd (set_timer None None);
  _ ← match SharedKey p with Some k => on_keys (SecureZero k) | None => mret tt end;
  _ ← upd (set_key None);
  _ ← upd clear_streams;
  upd (set_reconnect None).

(** ** Facts *)

Ltac cell_unfold :=
  unfold get_pc, Now, upd, on_keys, upd_timer, mbind, ST_bind, mret, ST_ret, st_gets, st_modify.

Lemma TransitionTo_ok s c :
  edge (State (pc c)) s →
  TransitionTo s c = (None, {| pc := set_state s (clock (rt c)) (pc c); rt := rt c |}).
Proof. intros E. unfold TransitionTo. cell_unfold. by rewrite (proj2 (ValidateTransition_None _ _) E). Qed.

Lemma TransitionTo_err s c : ¬ edge (State (pc c)) s → ∃ e, TransitionTo s c = (Some e, c).
Proof.
  intros E. unfold TransitionTo. cell_unfold.
  destruct (ValidateTransition (State (pc c)) s) eqn:Hv; [by eexists |].
  by apply ValidateTransition_None in Hv.
Qed.

(** Only [TransitionTo] and [StartCooldown] touch the state, along an edge. *)
Definition state_step (c c' : cell) : Prop :=
  State (pc c') = State (pc c) ∨ edge (State (pc c)) (State (pc c')).

Lemma TransitionTo_state_step s c : state_step c (TransitionTo s c).2.
Proof.
  destruct (decide (edge (State (pc c)) s)) as [E | E].
  - rewrite TransitionTo_ok by done. by right.
  - destruct (TransitionTo_err s c E) as [e ->]. by left.
Qed.

Lemma StartCooldown_state_step d c : state_step c (StartCooldown d c).2.
Proof.
  unfold StartCooldown. cell_unfold. destruct (ValidateTransition (State (pc c)) StateCooldown) eqn:Hv; [by left |].
  right. by apply ValidateTransition_None.
Qed.

Lemma Cleanup_pc c :
  pc (Cleanup c).2
  = set_reconnect None (clear_streams (set_key None (set_timer None None (pc c)))).
Proof. unfold Cleanup. cell_unfold. by destruct (HandshakeTimer (pc c)), (HandshakeCancel (pc c)), (SharedKey (pc c)). Qed.

Lemma CancelHandshakeTimeout_pc c : pc (CancelHandshakeTimeout c).2 = set_timer None None (pc c).
Proof. unfold CancelHandshakeTimeout. cell_unfold. by destruct (HandshakeTimer (pc c)), (HandshakeCancel (pc c)). Qed.

Lemma Cleanup_clock c : clock (rt (Cleanup c).2) = clock (rt c) ∧ next_timer (rt (Cleanup c).2) = next_timer (rt c).
Proof. unfold Cleanup. cell_unfold. by destruct (HandshakeTimer (pc c)), (HandshakeCancel (pc c)), (SharedKey (pc c)). Qed.

(** A timer whose callback would still do its work. *)
Definition armed (ts : gmap nat Timer) (t : nat) : Prop :=
  ∃ x, ts !! t = Some x ∧ t_stopped x = false ∧ t_cancelled x = false ∧ t_fired x = false.

(** [Cleanup] on every connection: no timer of its own can fire any more, the
    key bytes are zero, and the fields are back to their initial values except
    state, error and direction. *)
Theorem Cleanup_releases c :
  let c' := (Cleanup c).2 in
  HandshakeTimer (pc c') = None ∧ SharedKey (pc c') = None ∧ pcReconnectState (pc c') = None
  ∧ State (pc c') = State (pc c)
  ∧ (∀ t, HandshakeTimer (pc c) = Some t → ¬ armed (timers (rt c')) t)
  ∧ (∀ k, SharedKey (pc c) = Some k → zeroed (deref (keys (rt c')) k))
  ∧ (∀ k, SharedKey (pc c) ≠ Some k → deref (keys (rt c')) k = deref (keys (rt c)) k).
Proof.
  cbv zeta. rewrite Cleanup_pc. split_and!; try done.
  - intros t Ht (x & Hx & Hs & _ & _). revert Hx. unfold Cleanup. cell_unfold. rewrite Ht.
    destruct (HandshakeCancel (pc c)) as [t'|], (SharedKey (pc c)); cbn; rewrite ?lookup_alter;
      repeat case_decide; intros Hx; subst; destruct (timers (rt c) !! t); cbn in *; simplify_eq/=.
  - intros k Hk. unfold Cleanup. cell_unfold. rewrite Hk.
    destruct (HandshakeTimer (pc c)), (HandshakeCancel (pc c)); cbn [rt keys pc snd fst on_keys];
      apply (eq_ind_r zeroed (memclr_zeroed (deref (keys (rt c)) k)));
      match goal with |- deref ?h k = _ => change h with (SecureZero k (keys (rt c))).2 end;
      unfold SecureZero; by rewrite deref_write_eq.
  - intros k Hk. unfold Cleanup. cell_unfold.
    destruct (HandshakeTimer (pc c)), (HandshakeCancel (pc c)), (SharedKey (pc c)) as [k'|]; cbn [rt keys pc snd fst]; try done;
      match goal with |- deref ?h k = _ => change h with (SecureZero k' (keys (rt c))).2 end;
      unfold SecureZero; by rewrite deref_write_ne by congruence.
Qed.

Definition at_time (u : time) (c : cell) : cell :=
  {| pc := pc c; rt := {| keys := keys (rt c); timers := timers (rt c); next_timer := next_timer (rt c); clock := u |} |}.

(** The cooldown window: it can only be entered from Connected, lasts exactly
    the given duration, and the remaining time reported agrees with it. *)
Theorem cooldown_window c d u :
  in_int64 d → (clock (rt c) <= u)%Z → (0 <= d)%Z →
  let '(e, c') := StartCooldown d c in
  match e with
  | None => State (pc c) = StateConnected ∧ State (pc c') = StateCooldown
            ∧ ((IsInCooldown (at_time u c')).1 = true ↔ (u < clock (rt c) + d)%Z)
            ∧ (CooldownRemaining (at_time u c')).1 = Z.max 0 (clock (rt c) + d - u)
  | Some _ => State (pc c) ≠ StateConnected ∧ c' = c
  end.
Proof.
  intros Hd Hu H0. unfold StartCooldown. cell_unfold.
  destruct (ValidateTransition (State (pc c)) StateCooldown) eqn:Hv.
  - split; [| done]. intros E. by rewrite E in Hv.
  - apply ValidateTransition_None in Hv. split; [by apply edge_to_Cooldown |]. split; [done |].
    unfold IsInCooldown, CooldownRemaining, at_time, GoTime.Before, GoTime.Sub, st_gets; cbn [fst pc rt clock State set_cooldown CooldownUntil].
    rewrite bool_decide_true by done. cbn [negb].
    split; [by rewrite Z.ltb_lt |].
    unfold in_int64, clamp64, minInt64, maxInt64 in *.
    destruct (_ <? 0)%Z eqn:E; go_bool; lia.
Qed.

(** ** Witness *)

Definition connected_cell : cell :=
  {| pc := set_state StateConnected 100%Z (NewPeerConnection "Qm1" 90%Z);
     rt := {| keys := empty_heap; timers := ∅; next_timer := 0; clock := 100%Z |} |}.

Lemma cooldown_window_witness :
  let c' := (StartCooldown 60%Z connected_cell).2 in
  State (pc c') = StateCooldown ∧ (CooldownRemaining (at_time 130%Z c')).1 = 30%Z.
Proof.
  destruct (cooldown_window connected_cell 60%Z 130%Z) as (_ & H2 & _ & H4);
    [vm_compute; split; discriminate | vm_compute; discriminate | vm_compute; discriminate |].
  split; [exact H2 | exact H4].
Defined.
