(* ===== verification/Gater.v ===== *)
(** * The connection gater ([pkg/protocol/gater.go])

    What libp2p asks before, during and after a connection is set up.  The
    blacklist comes from the address book through its interface, the
    connection state from whatever [SetStateChecker] installed. *)

From S2P Require Import Prelude Errors Interfaces.

Inductive Direction := DirUnknown | DirInbound | DirOutbound.

#[export] Instance Direction_eq_dec : EqDecision Direction.
Proof. solve_decision. Defined.

Section Gater.
Context {B A : Type} `{PeerBook B A} {M : Type} (IsConnecting : M → string → bool).

(** The checkers are shared objects, read at the time of the call. *)
Record ConnectionGater := { stateChecker : option M }.

Definition NewConnectionGater : ConnectionGater := {| stateChecker := None |}.

Definition SetStateChecker (checker : option M) (g : ConnectionGater) : ConnectionGater :=
  {| stateChecker := checker |}.

Definition InterceptPeerDial (b : B) (p : string) : bool := negb (pb_IsBlacklisted b p).

Definition InterceptAddrDial (b : B) (p : string) (addr : A) : bool := negb (pb_IsBlacklisted b p).

Definition InterceptAccept (addrs : list A) : bool := true.

Definition InterceptSecured (g : ConnectionGater) (b : B) (dir : Direction) (p : string) : bool :=
  if pb_IsBlacklisted b p then false
  else if bool_decide (dir = DirInbound)
  then match stateChecker g with
       | Some m => if IsConnecting m p then false else true
       | None => true
       end
  else true.

(** The second component is the disconnect reason, always 0. *)
Definition InterceptUpgraded (b : B) (remotePeer : string) : bool * Z :=
  if pb_IsBlacklisted b remotePeer then (false, 0%Z) else (true, 0%Z).

(** A blacklisted peer gets past none of the points where its identity is
    known, in either direction. *)
Theorem gater_refuses_blacklisted g b p addr dir :
  pb_IsBlacklisted b p = true →
  InterceptPeerDial b p = false ∧ InterceptAddrDial b p addr = false
  ∧ InterceptSecured g b dir p = false ∧ (InterceptUpgraded b p).1 = false.
Proof.
  intros Hb. unfold InterceptPeerDial, InterceptAddrDial, InterceptSecured, InterceptUpgraded. by rewrite Hb.
Qed.

(** A peer that is not blacklisted is refused in one case only: it dials us
    while we are dialling it. *)
Theorem gater_deduplicates g b p dir :
  pb_IsBlacklisted b p = false →
  (InterceptSecured g b dir p = false ↔
   dir = DirInbound ∧ ∃ m, stateChecker g = Some m ∧ IsConnecting m p = true)
  ∧ InterceptPeerDial b p = true ∧ (InterceptUpgraded b p).1 = true.
Proof.
  intros Hb. unfold InterceptPeerDial, InterceptSecured, InterceptUpgraded. rewrite Hb. split; [| done].
  split.
  - case_bool_decide; [| done]. destruct (stateChecker g) as [m|]; [| done].
    destruct (IsConnecting m p) eqn:E; [| done]. eauto.
  - intros (-> & m & -> & ->). done.
Qed.
End Gater.

(** ** Witnesses *)

#[local] Instance list_book : PeerBook (list string) string := {|
  pb_IsBlacklisted b p := existsb (String.eqb p) b;
  pb_GetPeer b p := Ok [];
  pb_UpdateLastSeen now p b := b;
|}.

Lemma gater_refuses_blacklisted_witness :
  InterceptPeerDial ["Qm1"] "Qm1" = false.
Proof.
  apply (gater_refuses_blacklisted (λ (m : unit) p, true) NewConnectionGater ["Qm1"] "Qm1" "/ip4/1.2.3.4" DirOutbound).
  reflexivity.
Defined.

Lemma gater_deduplicates_witness :
  InterceptSecured (λ (m : unit) p, true) (SetStateChecker (Some tt) NewConnectionGater) ["Qm1"] DirInbound "Qm2" = false.
Proof.
  apply (gater_deduplicates (H := list_book) (λ (m : unit) p, true) _ ["Qm1"] "Qm2" DirInbound eq_refl). split; [done |]. by exists tt.
Defined.
