(* ===== verification/Host.v ===== *)
(** * The libp2p host wrapper ([pkg/protocol/host.go], [handlers.go])

    What the wrapper makes of its configuration and which calls of the libp2p
    host each method is.  The host itself is libp2p's: a parameter with the
    laws of its documentation. *)

From S2P Require Import Prelude Errors Interfaces Validation Gater Heap Crypto.

(** ** Configuration *)

Section Config.
Context `{Libp2p} {M : Type}.

Record HostConfig := {
  PrivateKey : bytes;
  ListenAddrs : list Multiaddr;
  HasGater : option (ConnectionGater (M := M));
  ConnMgrLowWater : Z;
  ConnMgrHighWater : Z;
}.

Definition DefaultHostConfig : HostConfig :=
  {| PrivateKey := []; ListenAddrs := []; HasGater := None; ConnMgrLowWater := 100; ConnMgrHighWater := 400 |}.
End Config.
Arguments HostConfig {_} _.

(** ** libp2p

    [Host] is the state of a host and of what it is connected to.  [Identity]
    and [ConnMgr] are the values that [UnmarshalEd25519PrivateKey] and
    [NewConnManager] make. *)

Class LibP2PLib `{Libp2p} := {
  Identity : Type;
  ConnMgr : Type;
  UnmarshalEd25519PrivateKey : bytes → result error Identity;
  NewConnManager : Z → Z → duration → result error ConnMgr;
  LHost : Type;
  LStream : Type;
  Handler : Type;
  lh_ID : LHost → string;
  lh_Addrs : LHost → list Multiaddr;
  lh_AddAddrs : string → list Multiaddr → LHost → LHost;
  lh_PeerAddrs : LHost → string → list Multiaddr;
  lh_Connect : string → list Multiaddr → LHost → option error * LHost;
  lh_ClosePeer : string → LHost → option error * LHost;
  lh_Connected : LHost → string → bool;
  lh_SetStreamHandler : string → Handler → LHost → LHost;
  lh_RemoveStreamHandler : string → LHost → LHost;
  lh_Serves : LHost → string → option Handler;
  lh_NewStream : string → string → LHost → result error LStream * LHost;
  lh_Close : LHost → option error * LHost;
}.

(** The options of [libp2p.New], in the order in which they are given. *)
Inductive Option `{LibP2PLib} (M : Type) :=
| OptIdentity (k : Identity) | OptListenAddrStrings (l : list string) | OptConnectionManager (m : ConnMgr)
| OptEnableHolePunching | OptEnableRelay | OptNATPortMap | OptConnectionGater (g : ConnectionGater (M := M)).
Arguments OptIdentity {_ _ _} _.
Arguments OptListenAddrStrings {_ _ _} _.
Arguments OptConnectionManager {_ _ _} _.
Arguments OptEnableHolePunching {_ _ _}.
Arguments OptEnableRelay {_ _ _}.
Arguments OptNATPortMap {_ _ _}.
Arguments OptConnectionGater {_ _ _} _.

Class LibP2PNew `{LibP2PLib} (M : Type) := libp2p_New : list (Option M) → result error LHost.

(** What the documentation says of handlers and of the address store. *)
Class LibP2PHostLaws `{LibP2PLib} : Prop := {
  serves_set : ∀ p q h s, lh_Serves (lh_SetStreamHandler p h s) q = if decide (q = p) then Some h else lh_Serves s q;
  serves_removed : ∀ p q s, lh_Serves (lh_RemoveStreamHandler p s) q = if decide (q = p) then None else lh_Serves s q;
  addrs_added : ∀ p l q a s, a ∈ lh_PeerAddrs (lh_AddAddrs p l s) q ↔ a ∈ lh_PeerAddrs s q ∨ q = p ∧ a ∈ l;
  connect_keeps_addrs : ∀ p l q a s, a ∈ lh_PeerAddrs s q → a ∈ lh_PeerAddrs (lh_Connect p l s).2 q;
}.

(** ** The wrapper *)

Section Host.
Context `{HL : LibP2PLib} {M : Type} `{!LibP2PNew M}.

Record Host := { host : LHost; config : HostConfig M }.

Definition NewHost (cfg : HostConfig M) : result error Host :=
  match UnmarshalEd25519PrivateKey (PrivateKey cfg) with
  | Err e => Err (Errorf "failed to convert private key: %w" (Some e))
  | Ok libp2pPriv =>
      let listenAddrs := ma_String <$> ListenAddrs cfg in
      match NewConnManager (ConnMgrLowWater cfg) (ConnMgrHighWater cfg) 0 with
      | Err e => Err (Errorf "failed to create connection manager: %w" (Some e))
      | Ok connMgr =>
          let opts := [OptIdentity libp2pPriv; OptListenAddrStrings listenAddrs; OptConnectionManager connMgr;
                       OptEnableHolePunching; OptEnableRelay; OptNATPortMap] in
          let opts := match HasGater cfg with Some g => opts ++ [OptConnectionGater g] | None => opts end in
          match libp2p_New opts with
          | Err e => Err (Errorf "failed to create libp2p host: %w" (Some e))
          | Ok h => Ok {| host := h; config := cfg |}
          end
      end
  end.

Definition on_host {A} (f : LHost → A * LHost) : ST Host A := λ h,
  let (a, l) := f (host h) in (a, {| host := l; config := config h |}).
Definition upd_host (f : LHost → LHost) : ST Host unit := on_host (λ l, (tt, f l)).

Definition ID (h : Host) : string := lh_ID (host h).
Definition Addrs (h : Host) : list Multiaddr := lh_Addrs (host h).
Definition AddrInfo (h : Host) : string * list Multiaddr := (lh_ID (host h), lh_Addrs (host h)).

Definition Connect (p : string) (addrs : list Multiaddr) : ST Host (option error) :=
  _ ← upd_host (lh_AddAddrs p addrs);
  r ← on_host (lh_Connect p addrs);
  mret match r with
       | Some e => Some (Errorf "failed to connect to peer %s: %w" (Some e))
       | None => None
       end.

Definition Disconnect (p : string) : ST Host (option error) := on_host (lh_ClosePeer p).
Definition IsConnected (p : string) (h : Host) : bool := lh_Connected (host h) p.
Definition SetStreamHandler (protoID : string) (f : Handler) : ST Host unit := upd_host (lh_SetStreamHandler protoID f).
Definition SetStreamHandlerForProtocol (proto : string) (f : Handler) : ST Host unit :=
  upd_host (lh_SetStreamHandler (StreamProtocolID proto) f).
Definition NewStream (p : string) (protoID : string) : ST Host (result error LStream) :=
  on_host (lh_NewStream p (StreamProtocolID protoID)).
Definition NewHandshakeStream (p : string) : ST Host (result error LStream) := on_host (lh_NewStream p HandshakeProtocolID).
Definition RemoveStreamHandler (protoID : string) : ST Host unit := upd_host (lh_RemoveStreamHandler (StreamProtocolID protoID)).
Definition Close : ST Host (option error) := on_host lh_Close.

(** The protocol a stream of that name is opened with, and what serves it. *)
Definition serves (h : Host) (name : string) : option Handler := lh_Serves (host h) (StreamProtocolID name).

(** ** Calls that change what is served *)

Inductive registration := RSet (protoID : string) (f : Handler) | RSetFor (proto : string) (f : Handler) | RRemove (protoID : string).

Definition registers (r : registration) : ST Host unit :=
  match r with
  | RSet p f => SetStreamHandler p f
  | RSetFor p f => SetStreamHandlerForProtocol p f
  | RRemove p => RemoveStreamHandler p
  end.

(** What the calls say about a name: the last one that names its protocol. *)
Definition said (name : string) (r : registration) (before : option Handler) : option Handler :=
  match r with
  | RSet p f => if decide (p = StreamProtocolID name) then Some f else before
  | RSetFor p f => if decide (p = name) then Some f else before
  | RRemove p => if decide (p = name) then None else before
  end.
End Host.

(** ** The placeholder handler ([StreamHandler.HandleStream]): whatever the name,
    the stream is reset. *)
Definition HandleStream {S} (reset : S → S) (streamName : string) (stream : S) : S := reset stream.

(** ** What the wrapper does *)

Section Theorems.
Context `{HL : LibP2PLib} {M : Type} `{!LibP2PNew M} `{!LibP2PHostLaws}.
Notation Host := (Host (M := M)).

Lemma registers_serves r (h : Host) name : serves (registers r h).2 name = said name r (serves h name).
Proof.
  unfold serves. destruct r as [p f|p f|p]; cbn; rewrite ?serves_set, ?serves_removed.
  - repeat case_decide; congruence.
  - repeat case_decide; subst; try done. by match goal with E : StreamProtocolID _ = StreamProtocolID _ |- _ => apply StreamProtocolID_inj in E end.
  - repeat case_decide; subst; try done. by match goal with E : StreamProtocolID _ = StreamProtocolID _ |- _ => apply StreamProtocolID_inj in E end.
Qed.

(** A stream opened by name is served by what was registered last under its
    protocol: by name, or with the whole protocol identifier. *)
Lemma last_registration_serves (rs : list registration) (h : Host) name :
  serves (foldl (λ h r, (registers r h).2) h rs) name = foldl (λ o r, said name r o) (serves h name) rs.
Proof. revert h. induction rs as [|r rs IH]; intros h; cbn; [done |]. by rewrite IH, registers_serves. Qed.

(** [RemoveStreamHandler] takes a stream's name, [SetStreamHandler] a protocol
    identifier: what is set under an identifier that is not a stream's (the
    handshake's, for one) is not removed by giving the same string back, nor
    by any other call of the wrapper but [SetStreamHandler]. *)
Lemma set_not_removed p f (h : Host) (rs : list registration) :
  (∀ name, p ≠ StreamProtocolID name) → (∀ q g, RSet q g ∈ rs → q ≠ p) →
  lh_Serves (host (foldl (λ h r, (registers r h).2) (SetStreamHandler p f h).2 rs)) p = Some f.
Proof.
  intros Hp Hrs.
  assert (∀ h : Host, lh_Serves (host h) p = Some f → lh_Serves (host (foldl (λ h r, (registers r h).2) h rs)) p = Some f) as Hg.
  { clear h. induction rs as [|r rs IH]; intros h Hh; cbn; [done |]. apply IH.
    - intros q g Hq. apply (Hrs q g). by right.
    - destruct r as [q g|q g|q]; cbn; rewrite ?serves_set, ?serves_removed, decide_False; try done.
      apply not_eq_sym, (Hrs q g). by left. }
  apply Hg. cbn. by rewrite serves_set, decide_True.
Qed.

(** Dialing leaves the addresses it was given in the store, whether the peer
    answers or not, and reports libp2p's error as it is wrapped. *)
Lemma Connect_keeps_addrs p addrs (h : Host) a :
  a ∈ addrs → a ∈ lh_PeerAddrs (host (Connect p addrs h).2) p
  ∧ match (Connect p addrs h).1, (lh_Connect p addrs (lh_AddAddrs p addrs (host h))).1 with
    | None, None => True
    | Some e, Some e' => e = Errorf "failed to connect to peer %s: %w" (Some e')
    | _, _ => False
    end.
Proof.
  intros Ha. unfold Connect, upd_host, on_host, mbind, ST_bind, mret, ST_ret. cbn.
  pose proof (connect_keeps_addrs p addrs p a (lh_AddAddrs p addrs (host h))) as Hk.
  rewrite addrs_added in Hk. destruct (lh_Connect p addrs _) as [r l] eqn:E; cbn in *.
  split; [apply Hk; by right | by destruct r].
Qed.

(** A host is made only from a key and watermarks libp2p accepts; it dials from
    every address of the configuration and asks the gater it was given. *)
Lemma NewHost_options cfg h :
  NewHost cfg = Ok h →
  config h = cfg
  ∧ ∃ k m opts, UnmarshalEd25519PrivateKey (PrivateKey cfg) = Ok k
      ∧ NewConnManager (ConnMgrLowWater cfg) (ConnMgrHighWater cfg) 0 = Ok m
      ∧ libp2p_New opts = Ok (host h)
      ∧ OptListenAddrStrings (ma_String <$> ListenAddrs cfg) ∈ opts
      ∧ ∀ g, OptConnectionGater g ∈ opts ↔ HasGater cfg = Some g.
Proof.
  unfold NewHost. destruct (UnmarshalEd25519PrivateKey _) as [|k]; [done |].
  destruct (NewConnManager _ _ _) as [|m]; [done |]. intros Hn.
  destruct (libp2p_New _) as [|l] eqn:E in Hn; [done |]. simplify_eq/=. split; [done |].
  do 3 eexists. split_and!; [done | done | exact E | destruct (HasGater cfg); set_solver |].
  intros g. destruct (HasGater cfg); set_solver.
Qed.
End Theorems.

(** ** A host that satisfies the laws *)

Module Plain.
Record state := { served : gmap string nat; known : list (string * string) }.

#[export] Instance lib : @LibP2PLib plain_libp2p :=
  @Build_LibP2PLib plain_libp2p (list Z) (Z * Z)%type (λ k, Ok k) (λ l h _, Ok (l, h)) state string nat
    (λ _, "self"%string) (λ _, ["addr"%string])
    (λ p l s, {| served := served s; known := ((λ a : string, (p, a)) <$> l) ++ known s |})
    (λ s p, (filter (λ x, x.1 = p) (known s)).*2)
    (λ _ _ s, (None, s)) (λ _ s, (None, s)) (λ _ _, false)
    (λ p f s, {| served := <[p := f]> (served s); known := known s |})
    (λ p s, {| served := delete p (served s); known := known s |})
    (λ s p, served s !! p) (λ _ p s, (Ok p, s)) (λ s, (None, s)).

Lemma laws : @LibP2PHostLaws plain_libp2p lib.
Proof.
  split; cbn; intros *.
  - rewrite lookup_insert. repeat case_decide; congruence.
  - rewrite lookup_delete. repeat case_decide; congruence.
  - setoid_rewrite list_elem_of_fmap. setoid_rewrite list_elem_of_filter. setoid_rewrite elem_of_app. setoid_rewrite list_elem_of_fmap. split.
    + intros (x & -> & Hp & [(b & -> & Hb)|Hk]); cbn in *; [by right |]. left. by exists x.
    + intros [(x & -> & Hp & Hk)|[-> Ha]]; [by exists x; auto |]. exists (p, a). split_and!; [done | done |]. left. by exists a.
  - done.
Qed.

#[export] Instance new : @LibP2PNew plain_libp2p lib unit := λ _, Ok {| served := ∅; known := [] |}.

(** The handshake handler, set by its identifier, is still there after it was
    "removed". *)
Lemma handshake_handler_stays (h : Host (H := plain_libp2p) (HL := lib) (M := unit)) (f : Handler (LibP2PLib := lib)) :
  lh_Serves (host (RemoveStreamHandler HandshakeProtocolID (SetStreamHandler HandshakeProtocolID f h).2).2) HandshakeProtocolID = Some f.
Proof.
  pose proof laws. apply (set_not_removed HandshakeProtocolID f h [RRemove HandshakeProtocolID]).
  - intros name E. by apply (StreamProtocolID_not_handshake name).
  - intros q g [=]%list_elem_of_singleton.
Qed.
End Plain.
