(* ===== verification/Tracing.v ===== *)
(** * Tracing ([internal/observability/otel/tracing.go])

    OpenTelemetry is outside: a [Start*] method is the span it asks for, and
    the methods that end or annotate a span are the calls they make on it. *)

From S2P Require Import Prelude Errors Interfaces.

Definition TracerName : string := "github.com/blockberries/glueberry".

(** ** Names *)

Definition SpanConnect : string := "glueberry.connect".
Definition SpanDial : string := "glueberry.dial".
Definition SpanHandshake : string := "glueberry.handshake".
Definition SpanKeyDerive : string := "glueberry.key_derivation".
Definition SpanStreamSetup : string := "glueberry.stream_setup".
Definition SpanEstablished : string := "glueberry.established".
Definition SpanSend : string := "glueberry.send".
Definition SpanEncrypt : string := "glueberry.encrypt".
Definition SpanWrite : string := "glueberry.write".
Definition SpanReceive : string := "glueberry.receive".
Definition SpanRead : string := "glueberry.read".
Definition SpanDecrypt : string := "glueberry.decrypt".
Definition SpanDisconnect : string := "glueberry.disconnect".

Definition AttrPeerID : string := "peer.id".
Definition AttrStreamName : string := "stream.name".
Definition AttrMessageSize : string := "message.size".
Definition AttrConnectionDirection : string := "connection.direction".
Definition AttrHandshakeResult : string := "handshake.result".
Definition AttrErrorMessage : string := "error.message".

Inductive attribute := AttrString (key value : string) | AttrInt (key : string) (value : Z).
Definition attr_key (a : attribute) : string := match a with AttrString k _ | AttrInt k _ => k end.

Inductive span_kind := KindInternal | KindClient | KindProducer | KindConsumer.

(** What [tracer.Start] is given; the default kind is internal. *)
Record span_start := { sp_name : string; sp_attributes : list attribute; sp_kind : span_kind }.

Section Tracer.
Context `{Libp2p}.

Definition peer_attr (p : string) : attribute := AttrString AttrPeerID (peer_String p).

Definition StartConnect (p direction : string) : span_start :=
  {| sp_name := SpanConnect; sp_attributes := [peer_attr p; AttrString AttrConnectionDirection direction]; sp_kind := KindClient |}.
Definition StartDial (p : string) : span_start :=
  {| sp_name := SpanDial; sp_attributes := [peer_attr p]; sp_kind := KindInternal |}.
Definition StartHandshake (p : string) : span_start :=
  {| sp_name := SpanHandshake; sp_attributes := [peer_attr p]; sp_kind := KindInternal |}.
Definition StartKeyDerivation (p : string) : span_start :=
  {| sp_name := SpanKeyDerive; sp_attributes := [peer_attr p]; sp_kind := KindInternal |}.
Definition StartStreamSetup (p streamName : string) : span_start :=
  {| sp_name := SpanStreamSetup; sp_attributes := [peer_attr p; AttrString AttrStreamName streamName]; sp_kind := KindInternal |}.
Definition StartSend (p streamName : string) (size : Z) : span_start :=
  {| sp_name := SpanSend; sp_attributes := [peer_attr p; AttrString AttrStreamName streamName; AttrInt AttrMessageSize size];
     sp_kind := KindProducer |}.
Definition StartEncrypt (size : Z) : span_start :=
  {| sp_name := SpanEncrypt; sp_attributes := [AttrInt AttrMessageSize size]; sp_kind := KindInternal |}.
Definition StartReceive (p streamName : string) : span_start :=
  {| sp_name := SpanReceive; sp_attributes := [peer_attr p; AttrString AttrStreamName streamName]; sp_kind := KindConsumer |}.
Definition StartDecrypt : span_start := {| sp_name := SpanDecrypt; sp_attributes := []; sp_kind := KindInternal |}.
Definition StartDisconnect (p : string) : span_start :=
  {| sp_name := SpanDisconnect; sp_attributes := [peer_attr p]; sp_kind := KindInternal |}.
End Tracer.

(** ** What is done to a span *)

Inductive status_code := StatusOk | StatusError.

(** [err.Error()] is the rendered message, a parameter. *)
Inductive span_call := SetAttributes (a : attribute) | SetStatus (c : status_code) (description : string) | RecordErrorCall (e : error) | EndCall.

Section Span.
Context (render : error → string).

Definition RecordHandshakeResult (result : string) (err : option error) : list span_call :=
  SetAttributes (AttrString AttrHandshakeResult result)
  :: match err with
     | Some e => [SetStatus StatusError (render e); SetAttributes (AttrString AttrErrorMessage (render e))]
     | None => [SetStatus StatusOk ""]
     end.

Definition RecordError (err : option error) : list span_call :=
  match err with Some e => [RecordErrorCall e; SetStatus StatusError (render e)] | None => [] end.

Definition EndSpan (err : option error) : list span_call :=
  match err with Some e => [RecordErrorCall e; SetStatus StatusError (render e)] | None => [] end ++ [EndCall].

(** A span is ended once, by [EndSpan] only and as its last call; it carries an
    error status exactly when an error was given. *)
Lemma span_calls result err :
  (∃ l, EndSpan err = l ++ [EndCall] ∧ EndCall ∉ l)
  ∧ EndCall ∉ RecordError err ∧ EndCall ∉ RecordHandshakeResult result err
  ∧ ((∃ d, SetStatus StatusError d ∈ EndSpan err) ↔ is_Some err)
  ∧ ((∃ d, SetStatus StatusError d ∈ RecordHandshakeResult result err) ↔ is_Some err)
  ∧ ((∃ d, SetStatus StatusOk d ∈ RecordHandshakeResult result err) ↔ err = None).
Proof.
  assert (∀ (x : span_call) l, x ∈ l ↔ In x l) as Hin by (intros; apply list_elem_of_In).
  split_and!; [exists (RecordError err) | ..]; rewrite ?Hin; try setoid_rewrite Hin;
    (destruct err as [e|]; cbn; split_and?; naive_solver eauto).
Qed.
End Span.

(** The spans of the documented hierarchy that no method starts. *)
Lemma never_started `{Libp2p} s p d n size :
  s ∈ [StartConnect p d; StartDial p; StartHandshake p; StartKeyDerivation p; StartStreamSetup p n; StartSend p n size;
       StartEncrypt size; StartReceive p n; StartDecrypt; StartDisconnect p] →
  sp_name s ∉ [SpanEstablished; SpanWrite; SpanRead].
Proof.
  intros Hs. repeat (apply elem_of_cons in Hs as [->|Hs]); try by apply elem_of_nil in Hs.
  all: intros Hn; repeat (apply elem_of_cons in Hn as [Hn|Hn]); try discriminate Hn; by apply elem_of_nil in Hn.
Qed.
