(* ===== verification/Proc.v ===== *)
(** * Goroutines

    A goroutine's code is a [prog]: the sections it runs under a lock (atomic
    on the shared state), the calls whose answer the environment chooses
    (network, timers, contexts), and the goroutines it starts.  A [go]
    statement names a procedure of the component; [body] gives its code, so
    that a loop is a procedure that starts itself again. *)

From S2P Require Import Prelude.

Section Proc.
(** Shared state, procedures, calls to the environment and their answers. *)
Context {S P Q : Type} {R : Q → Type}.

Inductive prog (A : Type) : Type :=
| Ret (a : A)
| Atomic {X : Type} (f : ST S X) (k : X → prog A)
| Ask (q : Q) (k : R q → prog A)
| Go (p : P) (k : prog A).
Arguments Ret {A} _.
Arguments Atomic {A X} _ _.
Arguments Ask {A} _ _.
Arguments Go {A} _ _.

Fixpoint bind {A B} (f : A → prog B) (m : prog A) : prog B :=
  match m with
  | Ret a => f a
  | Atomic g k => Atomic g (λ x, bind f (k x))
  | Ask q k => Ask q (λ a, bind f (k a))
  | Go p k => Go p (bind f k)
  end.

#[global] Instance prog_ret : MRet prog := @Ret.
#[global] Instance prog_bind : MBind prog := @bind.

Definition atomic {X} (f : ST S X) : prog X := Atomic f Ret.
Definition ask (q : Q) : prog (R q) := Ask q Ret.
Definition go (p : P) : prog unit := Go p (Ret tt).

(** ** One goroutine alone

    [ans] answers its calls; the result is its value, the shared state, the
    goroutines it started and the calls it made, in order. *)

Record outcome (A : Type) := { value : A; final : S; spawned : list P; calls : list Q }.

Fixpoint run {A} (ans : ∀ q, R q) (m : prog A) (s : S) : outcome A :=
  match m with
  | Ret a => {| value := a; final := s; spawned := []; calls := [] |}
  | Atomic f k => let (x, s') := f s in run ans (k x) s'
  | Ask q k =>
      let o := run ans (k (ans q)) s in
      {| value := value _ o; final := final _ o; spawned := spawned _ o; calls := q :: calls _ o |}
  | Go p k =>
      let o := run ans k s in
      {| value := value _ o; final := final _ o; spawned := p :: spawned _ o; calls := calls _ o |}
  end.

(** Running a goroutine in pieces. *)
Lemma run_bind {A B} (ans : ∀ q, R q) (m : prog A) (k : A → prog B) s :
  let o := run ans m s in let o' := run ans (k (value _ o)) (final _ o) in
  run ans (bind k m) s
  = {| value := value _ o'; final := final _ o'; spawned := spawned _ o ++ spawned _ o'; calls := calls _ o ++ calls _ o' |}.
Proof.
  revert s. induction m as [a|X f k' IH|q k' IH|p k' IH]; intros s; cbn.
  - by destruct (run ans (k a) s).
  - destruct (f s) as [x s']. apply IH.
  - specialize (IH (ans q) s). cbn in IH. by rewrite IH.
  - specialize (IH s). cbn in IH. by rewrite IH.
Qed.

Lemma run_seq {A B} (ans : ∀ q, R q) (m : prog A) (k : A → prog B) s :
  run ans (m ≫= k) s
  = let o := run ans m s in let o' := run ans (k (value _ o)) (final _ o) in
    {| value := value _ o'; final := final _ o'; spawned := spawned _ o ++ spawned _ o'; calls := calls _ o ++ calls _ o' |}.
Proof. apply run_bind. Qed.

Lemma run_section {X} (ans : ∀ q, R q) (f : ST S X) s :
  run ans (atomic f) s = {| value := (f s).1; final := (f s).2; spawned := []; calls := [] |}.
Proof. cbn. by destruct (f s). Qed.

Lemma run_bind_final {A B} (ans : ∀ q, R q) (m : prog A) (k : A → prog B) s :
  final _ (run ans (bind k m) s) = final _ (run ans (k (value _ (run ans m s))) (final _ (run ans m s))).
Proof. by rewrite run_bind. Qed.

Lemma run_bind_spawned {A B} (ans : ∀ q, R q) (m : prog A) (k : A → prog B) s :
  spawned _ (run ans (bind k m) s)
  = spawned _ (run ans m s) ++ spawned _ (run ans (k (value _ (run ans m s))) (final _ (run ans m s))).
Proof. by rewrite run_bind. Qed.

(** ** What the code may ask for, whatever happens in between

    [asks P m]: every call [m] can make satisfies [P], for all answers and for
    any change of the shared state between its sections. *)

Fixpoint asks (P' : Q → Prop) {A} (m : prog A) : Prop :=
  match m with
  | Ret _ => True
  | Atomic f k => ∀ s, asks P' (k (f s).1)
  | Ask q k => P' q ∧ ∀ a, asks P' (k a)
  | Go p k => asks P' k
  end.

Lemma asks_bind (P' : Q → Prop) {A B} (m : prog A) (f : A → prog B) :
  asks P' m → (∀ a, asks P' (f a)) → asks P' (bind f m).
Proof. intros Hm Hf. induction m; cbn in *; naive_solver. Qed.

Lemma asks_weaken (P1 P2 : Q → Prop) {A} (m : prog A) : (∀ q, P1 q → P2 q) → asks P1 m → asks P2 m.
Proof. intros Hq Hm. induction m; cbn in *; naive_solver. Qed.

Lemma asks_any (P' : Q → Prop) {A} (m : prog A) : (∀ q, P' q) → asks P' m.
Proof. intros HP. induction m; cbn; auto. Qed.

(** The calls of one goroutine alone are among them. *)
Lemma run_asks (P' : Q → Prop) {A} ans (m : prog A) s : asks P' m → Forall P' (calls _ (run ans m s)).
Proof.
  revert s. induction m as [a|X f k IH|q k IH|p k IH]; intros s Hm; cbn in *; [done | | |]; try by eauto.
  - specialize (Hm s). destruct (f s) as [x s']. by apply IH.
  - destruct Hm. constructor; eauto.
Qed.

(** ** All interleavings *)

Context (body : P → prog unit).
(** Procedures the environment may start, answers it may give in a state, and
    the changes it may make by itself. *)
Context (api : S → P → Prop) (answers : S → ∀ q, R q → Prop) (env : S → S → Prop).

Record system := { shared : S; gos : list (prog unit) }.

Inductive step : system → system → Prop :=
| step_atomic s i X (f : ST S X) k :
    gos s !! i = Some (Atomic f k) →
    step s {| shared := (f (shared s)).2; gos := <[i := k (f (shared s)).1]> (gos s) |}
| step_ask s i q k a :
    gos s !! i = Some (Ask q k) → answers (shared s) q a →
    step s {| shared := shared s; gos := <[i := k a]> (gos s) |}
| step_go s i p k :
    gos s !! i = Some (Go p k) →
    step s {| shared := shared s; gos := <[i := k]> (gos s) ++ [body p] |}
| step_call s p :
    api (shared s) p → step s {| shared := shared s; gos := gos s ++ [body p] |}
| step_env s s' :
    env (shared s) s' → step s {| shared := s'; gos := gos s |}.

(** Every call of a whole execution is one its procedure may make. *)
Lemma step_asks (P' : Q → Prop) s s' :
  (∀ p, asks P' (body p)) → step s s' → Forall (asks P') (gos s) → Forall (asks P') (gos s').
Proof.
  intros Hb Hs Ha. rewrite Forall_lookup in Ha.
  assert (∀ i g, asks P' g → Forall (asks P') (<[i := g]> (gos s))) as Hins.
  { intros i g Hg. apply Forall_insert; [by apply Forall_lookup | done]. }
  destruct Hs as [s i X f k Hi|s i q k a Hi _|s i p k Hi|s p _|s s' _]; cbn;
    try (pose proof (Ha _ _ Hi) as Hg; cbn in Hg).
  - apply Hins, Hg.
  - apply Hins, Hg.
  - apply Forall_app. split; [by apply Hins | by constructor].
  - apply Forall_app. split; [by apply Forall_lookup | by constructor].
  - by apply Forall_lookup.
Qed.

(** A given interleaving: the goroutines whose turn it is, by index, with
    [ans] for the answers. *)
Definition turn (ans : ∀ q, R q) (s : system) (i : nat) : system :=
  match gos s !! i with
  | Some (Atomic f k) => {| shared := (f (shared s)).2; gos := <[i := k (f (shared s)).1]> (gos s) |}
  | Some (Ask q k) => {| shared := shared s; gos := <[i := k (ans q)]> (gos s) |}
  | Some (Go p k) => {| shared := shared s; gos := <[i := k]> (gos s) ++ [body p] |}
  | _ => s
  end.

Lemma turns_reachable ans l s :
  (∀ s q, answers s q (ans q)) → rtc step s (foldl (turn ans) s l).
Proof.
  intros Ha. revert s. induction l as [|i l IH]; intros s; cbn; [apply rtc_refl |].
  unfold turn at 2. destruct (gos s !! i) as [[?|X f k|q k|p k]|] eqn:E; try apply IH.
  all: eapply rtc_l; [| apply IH]; econstructor; eauto.
Qed.

(** A goroutine that has its turns in a row up to the end of [m]. *)
Lemma run_in_a_row ans {A} (m : prog A) (k : A → prog unit) sh gs i :
  asks (λ q, ∀ s, answers s q (ans q)) m → gs !! i = Some (bind k m) →
  let o := run ans m sh in
  rtc step {| shared := sh; gos := gs |}
    {| shared := final _ o; gos := <[i := k (value _ o)]> gs ++ (body <$> spawned _ o) |}.
Proof.
  cbv zeta. revert sh gs. induction m as [a|X f k' IH|q k' IH|p k' IH]; intros sh gs Ha Hi; cbn in *;
    pose proof (lookup_lt_Some _ _ _ Hi) as Hlt.
  - by rewrite list_insert_id, app_nil_r.
  - eapply rtc_l; [exact (step_atomic {| shared := sh; gos := gs |} i X f _ Hi) |]. cbn.
    specialize (Ha sh). destruct (f sh) as [x sh']. cbn in *. specialize (IH x sh' (<[i := bind k (k' x)]> gs)).
    rewrite list_insert_insert_eq in IH. apply IH; [done |]. by rewrite list_lookup_insert_eq.
  - destruct Ha as [Hq Ha]. eapply rtc_l; [exact (step_ask {| shared := sh; gos := gs |} i q _ (ans q) Hi (Hq _)) |]. cbn.
    specialize (IH (ans q) sh (<[i := bind k (k' (ans q))]> gs)).
    rewrite list_insert_insert_eq in IH. apply IH; [done |]. by rewrite list_lookup_insert_eq.
  - eapply rtc_l; [exact (step_go {| shared := sh; gos := gs |} i p _ Hi) |]. cbn.
    specialize (IH sh (<[i := bind k k']> gs ++ [body p])).
    rewrite insert_app_l, list_insert_insert_eq, <- app_assoc in IH by (by rewrite length_insert).
    apply IH; [done |]. rewrite lookup_app_l by (by rewrite length_insert). by rewrite list_lookup_insert_eq.
Qed.

(** A goroutine that has all its turns in a row. *)
Lemma run_to_end ans (m : prog unit) sh gs i :
  asks (λ q, ∀ s, answers s q (ans q)) m → gs !! i = Some m →
  ∃ gs', rtc step {| shared := sh; gos := gs |} {| shared := final _ (run ans m sh); gos := gs' |}.
Proof.
  revert sh gs. induction m as [a|X f k IH|q k IH|p k IH]; intros sh gs Ha Hi; cbn in *;
    pose proof (lookup_lt_Some _ _ _ Hi) as Hlt.
  - by eexists.
  - specialize (Ha sh). destruct (f sh) as [x sh'] eqn:E. cbn in Ha.
    destruct (IH x sh' (<[i := k x]> gs) Ha) as [gs' Hr]; [by rewrite list_lookup_insert_eq |].
    exists gs'. eapply rtc_l; [| exact Hr].
    pose proof (step_atomic {| shared := sh; gos := gs |} i X f k Hi) as Hs. cbn in Hs. by rewrite E in Hs.
  - destruct Ha as [Hq Ha]. destruct (IH (ans q) sh (<[i := k (ans q)]> gs) (Ha _)) as [gs' Hr];
      [by rewrite list_lookup_insert_eq |].
    exists gs'. eapply rtc_l; [| exact Hr]. exact (step_ask {| shared := sh; gos := gs |} i q k (ans q) Hi (Hq sh)).
  - destruct (IH sh (<[i := k]> gs ++ [body p]) Ha) as [gs' Hr].
    { rewrite lookup_app_l by (by rewrite length_insert). by rewrite list_lookup_insert_eq. }
    exists gs'. eapply rtc_l; [| exact Hr]. exact (step_go {| shared := sh; gos := gs |} i p k Hi).
Qed.

(** A call that has all its turns in a row. *)
Lemma call_in_a_row ans p sh gs :
  asks (λ q, ∀ s, answers s q (ans q)) (body p) → api sh p →
  ∃ gs', rtc step {| shared := sh; gos := gs |} {| shared := final _ (run ans (body p) sh); gos := gs' |}.
Proof.
  intros Ha Hp. destruct (run_to_end ans (body p) sh (gs ++ [body p]) (length gs) Ha) as [gs' Hr].
  { by rewrite lookup_app_r, Nat.sub_diag. }
  exists gs'. eapply rtc_l; [exact (step_call {| shared := sh; gos := gs |} p Hp) | exact Hr].
Qed.

(** ** Preservation: every atomic section of the code respects [T] *)

Context (T : S → S → Prop).

Fixpoint respects {A} (m : prog A) : Prop :=
  match m with
  | Ret _ => True
  | Atomic f k => (∀ s, T s (f s).2) ∧ ∀ x, respects (k x)
  | Ask q k => ∀ a, respects (k a)
  | Go p k => respects k
  end.

Lemma respects_bind {A B} (m : prog A) (f : A → prog B) :
  respects m → (∀ a, respects (f a)) → respects (bind f m).
Proof. intros Hm Hf. induction m; cbn in *; naive_solver. Qed.

(** Whole executions: [T] relates the states before and after every step. *)
Definition all_respect (s : system) : Prop := Forall respects (gos s).

Context (bodies_respect : ∀ p, respects (body p)) (env_respects : ∀ s s', env s s' → T s s').
Context `{!Reflexive T} `{!Transitive T}.

Lemma step_respects s s' : step s s' → all_respect s → T (shared s) (shared s') ∧ all_respect s'.
Proof.
  unfold all_respect. intros Hs Hr. rewrite Forall_lookup in Hr.
  assert (∀ i g, respects g → Forall respects (<[i := g]> (gos s))) as Hins.
  { intros i g Hg. apply Forall_insert; [by apply Forall_lookup | done]. }
  destruct Hs as [s i X f k Hi|s i q k a Hi Ha|s i p k Hi|s p Hp|s s' He]; cbn;
    try (pose proof (Hr _ _ Hi) as Hg; cbn in Hg).
  - split; [by apply Hg | apply Hins, Hg].
  - split; [done | apply Hins, Hg].
  - split; [done |]. apply Forall_app. split; [by apply Hins | by constructor].
  - split; [done |]. apply Forall_app. split; [by apply Forall_lookup | by constructor].
  - split; [by apply env_respects | by apply Forall_lookup].
Qed.

Lemma execution_respects s s' :
  rtc step s s' → all_respect s → T (shared s) (shared s') ∧ all_respect s'.
Proof.
  intros Hr. induction Hr as [s|s1 s2 s3 Hs _ IH]; intros Ha; [done |].
  destruct (step_respects _ _ Hs Ha) as [H12 Ha2]. destruct (IH Ha2) as [H23 Ha3].
  split; [by etrans | done].
Qed.
End Proc.

Arguments prog _ _ _ _ _ : clear implicits.
Arguments prog {S P Q R} A.
Arguments Ret {S P Q R A} _.
Arguments Atomic {S P Q R A X} _ _.
Arguments Ask {S P Q R A} _ _.
Arguments Go {S P Q R A} _ _.
Arguments value {S P Q A} _.
Arguments final {S P Q A} _.
Arguments spawned {S P Q A} _.
Arguments calls {S P Q A} _.

(** ** Code of a part, in the whole

    A part's code runs on its own component of a larger state, and names its
    own procedures. *)

Section Embed.
Context {S S' P P' Q : Type} {R : Q → Type} (get : S' → S) (put : S → S' → S') (inP : P → P').

Fixpoint embed {A} (m : prog (S := S) (P := P) (Q := Q) (R := R) A) : prog (S := S') (P := P') (Q := Q) (R := R) A :=
  match m with
  | Ret a => Ret a
  | Atomic f k => Atomic (λ s', let (x, s) := f (get s') in (x, put s s')) (λ x, embed (k x))
  | Ask q k => Ask q (λ a, embed (k a))
  | Go p k => Go (inP p) (embed k)
  end.

Context (get_put : ∀ s s', get (put s s') = s) (put_put : ∀ s1 s2 s', put s2 (put s1 s') = put s2 s')
  (put_get : ∀ s', put (get s') s' = s').

Lemma run_embed {A} (ans : ∀ q, R q) (m : prog A) s' :
  run ans (embed m) s'
  = let o := run ans m (get s') in
    {| value := value o; final := put (final o) s'; spawned := inP <$> spawned o; calls := calls o |}.
Proof.
  revert s'. induction m as [a|X f k IH|q k IH|p k IH]; intros s'; cbn.
  - by rewrite put_get.
  - destruct (f (get s')) as [x s]. rewrite IH. cbv zeta. by rewrite get_put, put_put.
  - by rewrite IH.
  - by rewrite IH.
Qed.

Lemma asks_embed {A} (P0 : Q → Prop) (m : prog A) : asks P0 m → asks P0 (embed m).
Proof using Type.
  intros Hm. induction m as [a|X f k IH|q k IH|p k IH]; cbn in *; [done | | naive_solver | auto].
  intros s'. specialize (Hm (get s')). destruct (f (get s')) as [x s]. by apply IH.
Qed.

Lemma respects_embed {A} (T : S → S → Prop) (T' : S' → S' → Prop) (m : prog A) :
  (∀ s s', T (get s') s → T' s' (put s s')) → respects T m → respects T' (embed m).
Proof.
  intros Hput Hm. induction m as [a|X f k IH|q k IH|p k IH]; cbn in *; [done | | auto | auto].
  destruct Hm as [Hf Hk]. split; [| auto]. intros s'. specialize (Hf (get s')).
  destruct (f (get s')) as [x s]. by apply Hput.
Qed.
End Embed.
