(* ===== verification/RelyGuarantee.v ===== *)
(** * Invariants of interleaved goroutines

    A rely-guarantee logic for the code of [Proc].  [inv] holds between any
    two sections; every section, and every change of the environment, takes a
    state to one related by [evolves]; what a goroutine knows about the state
    ([fact]s it has learnt in earlier sections) must survive such changes. *)

From S2P Require Import Prelude Proc.

Section Logic.
Context {S P Q : Type} {R : Q → Type}.
Notation code := (prog (S := S) (P := P) (Q := Q) (R := R)) (only parsing).
Context (answers : S → ∀ q, R q → Prop).
(** [may_start p]: what must be true to start the procedure [p]. *)
Context (inv : S → Prop) (evolves : S → S → Prop) (may_start : P → S → Prop).

(** [holds m post s]: run from a moment when the state is [s], in any
    interleaving, the sections of [m] keep [inv] and [evolves], and [post] is
    true of its result when it ends. *)
Fixpoint holds {A} (m : code A) (post : A → S → Prop) (s : S) : Prop :=
  match m with
  | Ret a => post a s
  | Atomic f k => ∀ s1, evolves s s1 → inv s1 →
      inv (f s1).2 ∧ evolves s1 (f s1).2 ∧ holds (k (f s1).1) post (f s1).2
  | Ask q k => ∀ a s1, evolves s s1 → inv s1 → answers s1 q a → holds (k a) post s1
  | Go p k => may_start p s ∧ holds k post s
  end.

(** ** Rules *)

Lemma holds_weaken {A} (m : code A) (post post' : A → S → Prop) s :
  (∀ a s', post a s' → post' a s') → holds m post s → holds m post' s.
Proof.
  intros Hp. revert s. induction m as [a|X f k IH|q k IH|p k IH]; intros s Hm; cbn in *; [auto | | eauto | naive_solver].
  intros s1 H1 H2. destruct (Hm s1 H1 H2) as (?&?&?). auto.
Qed.

Lemma holds_bind {A B} (m : code A) (f : A → code B) post s :
  holds m (λ a, holds (f a) post) s → holds (bind f m) post s.
Proof.
  revert s. induction m as [a|X g k IH|q k IH|p k IH]; intros s Hm; cbn in *; [done | | eauto | naive_solver].
  intros s1 H1 H2. destruct (Hm s1 H1 H2) as (?&?&?). auto.
Qed.

Lemma holds_atomic {X} (f : ST S X) (post : X → S → Prop) s :
  (∀ s1, evolves s s1 → inv s1 → inv (f s1).2 ∧ evolves s1 (f s1).2 ∧ post (f s1).1 (f s1).2) →
  holds (atomic f : code X) post s.
Proof. done. Qed.

(** A fact that changes of the state cannot take away. *)
Definition fact (F : S → Prop) : Prop := ∀ s s', evolves s s' → F s → F s'.

Context (facts_start : ∀ p, fact (may_start p)) `{!PreOrder evolves}.

Lemma holds_evolves {A} (m : code A) post s s' :
  (∀ a, fact (post a)) → evolves s s' → holds m post s → holds m post s'.
Proof.
  intros Hp He. induction m as [a|X f k IH|q k IH|p k IH]; cbn.
  - by apply Hp.
  - intros Hm s1 H1. apply Hm. by trans s'.
  - intros Hm a s1 H1. apply Hm. by trans s'.
  - intros [H1 H2]. split; [by apply (facts_start p s s') | auto].
Qed.

(** Code whose sections all keep the invariant by themselves, and which starts
    only what may be started from the beginning. *)
Definition keeps (s s' : S) : Prop := inv s → inv s' ∧ evolves s s'.

Fixpoint starts (ok : P → Prop) {A} (m : code A) : Prop :=
  match m with
  | Ret _ => True
  | Atomic f k => ∀ s, starts ok (k (f s).1)
  | Ask q k => ∀ a, starts ok (k a)
  | Go p k => ok p ∧ starts ok k
  end.

Lemma starts_weaken (ok ok' : P → Prop) {A} (m : code A) : (∀ p, ok p → ok' p) → starts ok m → starts ok' m.
Proof. intros Hp Hm. induction m; cbn in *; [done | auto | auto | destruct Hm; auto]. Qed.

Lemma starts_bind ok {A B} (m : code A) (f : A → code B) :
  starts ok m → (∀ a, starts ok (f a)) → starts ok (bind f m).
Proof. intros Hm Hf. induction m; cbn in *; [apply Hf | auto | auto | destruct Hm; auto]. Qed.

Lemma holds_respects {A} (m : code A) s :
  respects keeps m → starts (λ p, may_start p s) m → holds m (λ _ s', evolves s s') s.
Proof.
  assert (∀ s0, evolves s0 s → respects keeps m → starts (λ p, may_start p s) m → holds m (λ _ s', evolves s0 s') s) as Hg.
  2: { by apply Hg. }
  revert s. induction m as [a|X f k IH|q k IH|p k IH]; intros s s0 He Hr Hs; cbn in *; [done | | |].
  - destruct Hr as [Hf Hk]. intros s1 H1 H2. destruct (Hf s1 H2) as [H3 H4]. split; [done |]. split; [done |].
    assert (evolves s (f s1).2) by (by trans s1).
    apply IH; [by trans s | done |]. eapply starts_weaken; [| apply Hs]. intros p. by apply facts_start.
  - intros a s1 H1 _ _. apply IH; [by trans s | done |]. eapply starts_weaken; [| apply Hs]. intros p. by apply facts_start.
  - naive_solver.
Qed.

(** Such code, and then more. *)
Lemma holds_then {A B} (m : code A) (f : A → code B) post s :
  respects keeps m → starts (λ p, may_start p s) m → (∀ a s', evolves s s' → holds (f a) post s') →
  holds (bind f m) post s.
Proof.
  intros Hr Hs Hf. apply holds_bind. eapply holds_weaken; [| by apply holds_respects]. intros a s'. apply Hf.
Qed.

Lemma holds_ask q (post : R q → S → Prop) s :
  (∀ a s1, evolves s s1 → inv s1 → answers s1 q a → post a s1) → holds (ask q : code (R q)) post s.
Proof. done. Qed.

(** ** Whole executions *)

Context (body : P → code unit) (api : S → P → Prop) (env : S → S → Prop).

Definition good (s : system (S := S) (P := P) (Q := Q) (R := R)) : Prop :=
  inv (shared s) ∧ Forall (λ g, holds g (λ _ _, True) (shared s)) (gos s).

Context (bodies : ∀ p s, may_start p s → holds (body p) (λ _ _, True) s)
        (api_start : ∀ s p, inv s → api s p → may_start p s)
        (env_keeps : ∀ s s', inv s → env s s' → inv s' ∧ evolves s s').

Lemma gos_evolve (gs : list (code unit)) s s' :
  evolves s s' → Forall (λ g, holds g (λ _ _, True) s) gs → Forall (λ g, holds g (λ _ _, True) s') gs.
Proof. intros He Hg. eapply Forall_impl; [exact Hg |]. intros g Hh. eapply holds_evolves; [done | exact He | exact Hh]. Qed.

Lemma step_good s s' : step body api answers env s s' → good s → good s'.
Proof.
  intros Hs [Hi Hg]. assert (∀ i g, gos s !! i = Some g → holds g (λ _ _, True) (shared s)) as Hl
    by (intros i g Hg'; exact (Forall_lookup_1 _ _ _ _ Hg Hg')).
  destruct Hs as [s i X f k Hgi|s i q k a Hgi Ha|s i p k Hgi|s p Hp|s s' He]; cbn in *.
  - destruct (Hl _ _ Hgi (shared s) (reflexivity _) Hi) as (H1 & H2 & H3). split; [exact H1 |]. cbn.
    apply Forall_insert; [by eapply gos_evolve | exact H3].
  - split; [exact Hi |]. cbn. apply Forall_insert; [exact Hg |].
    exact (Hl _ _ Hgi a (shared s) (reflexivity _) Hi Ha).
  - destruct (Hl _ _ Hgi) as [H1 H2]. split; [exact Hi |]. cbn. apply Forall_app. split.
    + by apply Forall_insert.
    + constructor; [by apply bodies | constructor].
  - split; [exact Hi |]. cbn. apply Forall_app. split; [exact Hg |]. constructor; [| constructor].
    apply bodies. by apply api_start.
  - destruct (env_keeps _ _ Hi He) as [H1 H2]. split; [exact H1 |]. cbn. by eapply gos_evolve.
Qed.

Lemma execution_good s s' : rtc (step body api answers env) s s' → good s → good s'.
Proof. induction 1; eauto using step_good. Qed.
End Logic.

(** Sections of a part of the state, in the whole. *)
Section Part.
Context {S S' P P' Q : Type} {R : Q → Type} (get : S' → S) (put : S → S' → S') (inP : P → P').
Lemma starts_embed {A} (ok : P → Prop) (ok' : P' → Prop) (m : prog (S := S) (P := P) (Q := Q) (R := R) A) :
  (∀ p, ok p → ok' (inP p)) → starts ok m → starts ok' (embed get put inP m).
Proof.
  intros Hok Hm. induction m as [a|X f k IH|q k IH|p k IH]; cbn in *; [done | | auto | naive_solver].
  intros s'. specialize (Hm (get s')). destruct (f (get s')) as [x s]. by apply IH.
Qed.

Context (answers : S → ∀ q, R q → Prop) (answers' : S' → ∀ q, R q → Prop).
Context (inv : S → Prop) (evolves : S → S → Prop) (may_start : P → S → Prop).
Context (inv' : S' → Prop) (evolves' : S' → S' → Prop) (may_start' : P' → S' → Prop).
Context (part_inv : ∀ s', inv' s' → inv (get s'))
        (part_evolves : ∀ s1 s2, evolves' s1 s2 → evolves (get s1) (get s2))
        (part_answers : ∀ s' q a, answers' s' q a → answers (get s') q a)
        (part_start : ∀ p s', may_start p (get s') → may_start' (inP p) s')
        (get_put : ∀ s s', get (put s s') = s)
        (part_step : ∀ s' s, inv' s' → inv s → evolves (get s') s → inv' (put s s') ∧ evolves' s' (put s s')).

Lemma holds_embed {A} (m : prog (S := S) (P := P) (Q := Q) (R := R) A) (post : A → S → Prop) s' :
  holds answers inv evolves may_start m post (get s') →
  holds answers' inv' evolves' may_start' (embed get put inP m) (λ a s', post a (get s')) s'.
Proof.
  revert s'. induction m as [a|X f k IH|q k IH|p k IH]; intros s' Hm; cbn in *; [done | | |].
  - intros s1 H1 H2. destruct (Hm (get s1) (part_evolves _ _ H1) (part_inv _ H2)) as (H3 & H4 & H5).
    destruct (f (get s1)) as [x s]; cbn in *. destruct (part_step s1 s H2 H3 H4) as [H6 H7].
    split; [done |]. split; [done |]. apply IH. by rewrite get_put.
  - intros a s1 H1 H2 H3. apply IH. eauto.
  - destruct Hm as [H1 H2]. split; [by apply part_start | by apply IH].
Qed.
End Part.
