(* ===== verification/Compose.v ===== *)
(** * Components inside a larger program

    [Proc.embed] runs a component's code on its part of a larger state;
    [translate] also renames its calls to the environment.  A program whose
    goroutines act on a component only through the component's own procedures
    refines it: every execution of the program, looked at through the
    component's state, is an execution of the component alone
    ([composition_refines]), so that whatever holds of the component in every
    interleaving holds inside the program. *)

From S2P Require Import Prelude Proc RelyGuarantee.

Section Translate.
Context {S P Q Q' : Type} {R : Q → Type} {R' : Q' → Type} (inQ : Q → Q') (outA : ∀ q, R' (inQ q) → R q).

Fixpoint translate {A} (m : prog (S := S) (P := P) (Q := Q) (R := R) A) : prog (S := S) (P := P) (Q := Q') (R := R') A :=
  match m with
  | Ret a => Ret a
  | Atomic f k => Atomic f (λ x, translate (k x))
  | Ask q k => Ask (inQ q) (λ a, translate (k (outA q a)))
  | Go p k => Go p (translate k)
  end.

Lemma run_translate {A} (ans : ∀ q, R' q) (m : prog A) s :
  run ans (translate m) s
  = let o := run (λ q, outA q (ans (inQ q))) m s in
    {| value := value o; final := final o; spawned := spawned o; calls := inQ <$> calls o |}.
Proof.
  revert s. induction m as [a|X f k IH|q k IH|p k IH]; intros s; cbn; [done | | by rewrite IH | by rewrite IH].
  destruct (f s) as [x s']. apply IH.
Qed.

Lemma asks_translate {A} (P0 : Q' → Prop) (m : prog A) : asks (λ q, P0 (inQ q)) m → asks P0 (translate m).
Proof. intros Hm. induction m as [a|X f k IH|q k IH|p k IH]; cbn in *; naive_solver. Qed.

Lemma respects_translate {A} (T : S → S → Prop) (m : prog A) : respects T m → respects T (translate m).
Proof. intros Hm. induction m as [a|X f k IH|q k IH|p k IH]; cbn in *; naive_solver. Qed.

Lemma starts_translate {A} (ok : P → Prop) (m : prog A) : starts ok m → starts ok (translate m).
Proof. intros Hm. induction m as [a|X f k IH|q k IH|p k IH]; cbn in *; naive_solver. Qed.
End Translate.

(** [f] is left alone. *)
Definition kept {S X : Type} (f : S → X) (s s' : S) : Prop := f s' = f s.

#[export] Instance kept_refl {S X : Type} (f : S → X) : Reflexive (kept f).
Proof. done. Qed.
#[export] Instance kept_trans {S X : Type} (f : S → X) : Transitive (kept f).
Proof. unfold kept. intros ? ? ? ? ?. congruence. Qed.

(** One goroutine alone. *)
Lemma run_respects {S P Q : Type} {R : Q → Type} {A} (T : S → S → Prop) `{!Reflexive T} `{!Transitive T}
    ans (m : prog (S := S) (P := P) (Q := Q) (R := R) A) s :
  respects T m → T s (final (run ans m s)).
Proof.
  revert s. induction m as [a|X f k IH|q k IH|p k IH]; intros s Hm; cbn in *; [done | | auto | auto].
  destruct Hm as [Hf Hk]. specialize (Hf s). destruct (f s) as [x s']. cbn in *. etrans; [exact Hf | by apply IH].
Qed.

(** What every piece of code satisfies. *)
Lemma respects_any {S P Q : Type} {R : Q → Type} {A} (m : prog (S := S) (P := P) (Q := Q) (R := R) A) :
  respects (λ _ _, True) m.
Proof. induction m; cbn; auto. Qed.
Lemma starts_any {S P Q : Type} {R : Q → Type} {A} (m : prog (S := S) (P := P) (Q := Q) (R := R) A) :
  starts (λ _, True) m.
Proof. induction m; cbn; auto. Qed.

(** ** A component ([S], [P], [Q], [R]) inside a program ([S'], [P'], [Q'], [R']) *)

Section Refinement.
Context {S P Q : Type} {R : Q → Type} (body : P → prog (S := S) (P := P) (Q := Q) (R := R) unit)
  (api : S → P → Prop) (answers : S → ∀ q, R q → Prop) (env : S → S → Prop).
Context {S' P' Q' : Type} {R' : Q' → Type} (body' : P' → prog (S := S') (P := P') (Q := Q') (R := R') unit)
  (api' : S' → P' → Prop) (answers' : S' → ∀ q, R' q → Prop) (env' : S' → S' → Prop).
Context (get : S' → S) (put : S → S' → S') (inP : P → P') (inQ : Q → Q') (outA : ∀ q, R' (inQ q) → R q)
  (own : P' → Prop).
Notation part := (prog (S := S) (P := P) (Q := Q) (R := R)).
Notation whole := (prog (S := S') (P := P') (Q := Q') (R := R')).
Notation pstep := (step body api answers env).
Notation wstep := (step body' api' answers' env').

Definition lifted {A} (m : part A) : whole A := translate inQ outA (embed get put inP m).

(** The component goes on with [m], or is called anew. *)
Definition resumes (m m' : part unit) : Prop := m' = m ∨ ∃ p, (∀ s, api s p) ∧ m' = body p.

(** [tracks g m]: while the goroutine [g] of the program runs, the component
    sees one of its own goroutines run [m], or a change its environment may
    make.  [own] are the procedures that are not the component's. *)
Fixpoint tracks {A} (g : whole A) : part unit → Prop :=
  match g with
  | Ret _ => λ _, True
  | Atomic f k => λ m, ∃ m', resumes m m' ∧
      ((∀ s, rtc env (get s) (get (f s).2) ∧ tracks (k (f s).1) m')
       ∨ match m' with
         | Atomic f0 k0 => ∀ s, get (f s).2 = (f0 (get s)).2 ∧ tracks (k (f s).1) (k0 (f0 (get s)).1)
         | _ => False
         end)
  | Ask q k => λ m, ∃ m', resumes m m' ∧
      ((∀ a, tracks (k a) m')
       ∨ match m' with
         | Ask q0 k0 => ∀ s a, answers' s q a → ∃ b, answers (get s) q0 b ∧ tracks (k a) (k0 b)
         | _ => False
         end)
  | Go p k => λ m, ∃ m', resumes m m' ∧
      ((own p ∧ tracks k m')
       ∨ match m' with
         | Go p0 k0 => p = inP p0 ∧ tracks k k0
         | _ => False
         end)
  end.

Lemma resumes_refl m : resumes m m.
Proof. by left. Qed.

Lemma resumes_trans m1 m2 m3 : resumes m1 m2 → resumes m2 m3 → resumes m1 m3.
Proof. intros H1 [->|H2]; [done | by right]. Qed.

Lemma tracks_resume {A} (g : whole A) m m' : resumes m m' → tracks g m' → tracks g m.
Proof. intros H1. destruct g; cbn; [done | ..]; intros (m2 & H2 & H); eauto using resumes_trans. Qed.

Lemma tracks_call {A} (g : whole A) p m : (∀ s, api s p) → tracks g (body p) → tracks g m.
Proof. intros Hp. apply tracks_resume. right. eauto. Qed.

Lemma tracks_bind {A B} (g : whole A) (k : A → whole B) m :
  tracks g m → (∀ a m', tracks (k a) m') → tracks (bind k g) m.
Proof.
  intros Hg Hk. revert m Hg. induction g as [a|X f k' IH|q k' IH|p k' IH]; intros m; cbn; [eauto | ..];
    intros (m' & Hm & H); exists m'; (split; [exact Hm |]).
  - destruct H as [H|H]; [left | right].
    + intros s. destruct (H s). eauto.
    + destruct m' as [|X0 f0 k0|q0 k0|p0 k0]; try done. intros s. destruct (H s). eauto.
  - destruct H as [H|H]; [left; eauto | right].
    destruct m' as [|X0 f0 k0|q0 k0|p0 k0]; try done. intros s a Ha. destruct (H s a Ha) as (b & Hb & Ht). eauto.
  - destruct H as [[H1 H2]|H]; [left; eauto | right].
    destruct m' as [|X0 f0 k0|q0 k0|p0 k0]; try done. destruct H. eauto.
Qed.

(** Code that only changes the component as its environment may. *)
Lemma tracks_quiet {A} (g : whole A) m : respects (λ s s', rtc env (get s) (get s')) g → starts own g → tracks g m.
Proof.
  intros Hr Hs. revert m. induction g as [a|X f k IH|q k IH|p k IH]; intros m; cbn in *; [done | ..];
    (exists m; split; [apply resumes_refl |]; left).
  - destruct Hr. intros s. auto.
  - auto.
  - destruct Hs. auto.
Qed.

Context (get_put : ∀ s s', get (put s s') = s)
  (answers_in : ∀ s q a, answers' s (inQ q) a → answers (get s) q (outA q a)).

Lemma tracks_lifted {A} (m : part A) (k : A → part unit) : tracks (lifted m) (bind k m).
Proof using answers_in get_put.
  induction m as [a|X f k' IH|q k' IH|p k' IH]; [done | ..]; cbn.
  - eexists. split; [apply resumes_refl |]. right. intros s. destruct (f (get s)) as [x s1]. cbn. eauto.
  - eexists. split; [apply resumes_refl |]. right. eauto.
  - eexists. split; [apply resumes_refl |]. right. eauto.
Qed.

Lemma tracks_lifted_unit (m : part unit) : tracks (lifted m) m.
Proof using answers_in get_put.
  induction m as [a|X f k' IH|q k' IH|p k' IH]; [done | ..]; cbn.
  - eexists. split; [apply resumes_refl |]. right. intros s. destruct (f (get s)) as [x s1]. cbn. eauto.
  - eexists. split; [apply resumes_refl |]. right. eauto.
  - eexists. split; [apply resumes_refl |]. right. eauto.
Qed.

(** A call of the component, whatever it did before. *)
Lemma tracks_called {A} (m : part A) (k : A → part unit) p m0 :
  (∀ s, api s p) → body p = bind k m → tracks (lifted m) m0.
Proof using answers_in get_put. intros Hp E. apply (tracks_call _ p); [done |]. rewrite E. apply tracks_lifted. Qed.

Lemma tracks_own (f : S' → S') m : (∀ s, rtc env (get s) (get (f s))) → tracks (atomic (st_modify f)) m.
Proof using Type. intros Hf. cbn. exists m. split; [apply resumes_refl |]. left. eauto. Qed.

Lemma tracks_section {X} (f : ST S' X) m : (∀ s, rtc env (get s) (get (f s).2)) → tracks (atomic f) m.
Proof using Type. intros Hf. cbn. exists m. split; [apply resumes_refl |]. left. eauto. Qed.

Lemma tracks_ask q m : tracks (ask q : whole _) m.
Proof using Type. cbn. exists m. split; [apply resumes_refl |]. left. eauto. Qed.

Lemma tracks_go p m : own p → tracks (go p : whole _) m.
Proof using Type. cbn. exists m. split; [apply resumes_refl |]. left. eauto. Qed.

(** ** The simulation *)

(** Where in the component's system a goroutine's part runs, if anywhere. *)
Definition at_ (ms : list (part unit)) (o : option nat) : option (part unit) :=
  match o with Some j => ms !! j | None => Some (mret tt) end.

Record linked (gs : list (whole unit)) (ms : list (part unit)) (js : list (option nat)) : Prop := {
  ln_length : length js = length gs;
  ln_inj : ∀ i1 i2 j, js !! i1 = Some (Some j) → js !! i2 = Some (Some j) → i1 = i2;
  ln_tracks : ∀ i g o, gs !! i = Some g → js !! i = Some o → ∃ m, at_ ms o = Some m ∧ tracks g m;
}.

(** The component's goroutines that run for the program exist. *)
Lemma linked_lt gs ms js i j : linked gs ms js → js !! i = Some (Some j) → j < length ms.
Proof.
  intros [Hl _ Ht] Hj. destruct (lookup_lt_is_Some_2 gs i) as [g Hg]; [rewrite <- Hl; by eapply lookup_lt_Some |].
  destruct (Ht i g _ Hg Hj) as (m & Hm & _). by eapply lookup_lt_Some.
Qed.

(** A new goroutine of the program, with its counterpart at [o]. *)
Lemma linked_app gs ms js g o m :
  linked gs ms js → at_ ms o = Some m → tracks g m → (∀ i j, o = Some j → js !! i ≠ Some (Some j)) →
  linked (gs ++ [g]) ms (js ++ [o]).
Proof.
  intros [Hl Hi Ht] Hm Hg Hf. split.
  - rewrite !length_app. cbn. lia.
  - intros i1 i2 j H1 H2. apply lookup_app_Some in H1 as [H1|[L1 H1]]; apply lookup_app_Some in H2 as [H2|[L2 H2]].
    + by eapply Hi.
    + apply list_lookup_singleton_Some in H2 as [_ ->]. by destruct (Hf i1 j eq_refl).
    + apply list_lookup_singleton_Some in H1 as [_ ->]. by destruct (Hf i2 j eq_refl).
    + apply list_lookup_singleton_Some in H1 as [? _], H2 as [? _]. lia.
  - intros i g' o' H1 H2. apply lookup_app_Some in H1 as [H1|[L1 H1]].
    + rewrite lookup_app_l in H2 by (rewrite Hl; by eapply lookup_lt_Some). by eapply Ht.
    + apply list_lookup_singleton_Some in H1 as [E <-]. rewrite lookup_app_r in H2 by lia.
      apply list_lookup_singleton_Some in H2 as [_ <-]. eauto.
Qed.

(** A new goroutine of the component changes nothing. *)
Lemma linked_grow gs ms js m : linked gs ms js → linked gs (ms ++ [m]) js.
Proof.
  intros [Hl Hi Ht]. split; [done | done |]. intros i g o H1 H2. destruct (Ht i g o H1 H2) as (m' & Hm & Hg).
  exists m'. split; [| done]. destruct o as [j|]; [| done]. cbn in *. rewrite lookup_app_l; [done |]. by eapply lookup_lt_Some.
Qed.

(** The goroutine at [i] moves; its counterpart at [o] has become [m]. *)
Lemma linked_move gs ms js i g o m ms' :
  linked gs ms js → js !! i = Some o → tracks g m → at_ ms' o = Some m → length ms ≤ length ms' →
  (∀ j, o ≠ Some j → j < length ms → ms' !! j = ms !! j) →
  linked (<[i := g]> gs) ms' js.
Proof.
  intros [Hl Hi Ht] Ho Hg Hm Hlen Hoth. split; [by rewrite length_insert | done |].
  intros i' g' o' H1 H2. apply list_lookup_insert_Some in H1 as [(<- & <- & _)|[Hne H1]].
  - assert (o' = o) as -> by congruence. eauto.
  - destruct (Ht i' g' o' H1 H2) as (m' & Hm' & Hg'). exists m'. split; [| done].
    destruct o' as [j|]; [| done]. cbn in *. rewrite Hoth; [done | | by eapply lookup_lt_Some].
    intros ->. by apply Hne, (Hi i i' j).
Qed.

(** The goroutine at [i] is at a point where its part resumes as [m']: the
    component takes the call, if there is one. *)
Lemma linked_resume gs ms js i g o m m' sh :
  linked gs ms js → gs !! i = Some g → js !! i = Some o → at_ ms o = Some m → resumes m m' →
  ∃ ms' js' o', rtc pstep {| shared := sh; gos := ms |} {| shared := sh; gos := ms' |}
    ∧ (∀ g', tracks g' m' → linked (<[i := g']> gs) ms' js') ∧ js' !! i = Some o' ∧ at_ ms' o' = Some m'.
Proof.
  intros Hln Hg Ho Hm [->|(p & Hp & ->)].
  - exists ms, js, o. split; [apply rtc_refl |]. split; [| done]. intros g' Hg'.
    by apply (linked_move gs ms js i g' o m ms).
  - pose proof Hln as [Hl Hi Ht].
    exists (ms ++ [body p]), (<[i := Some (length ms)]> js), (Some (length ms)). split.
    { eapply rtc_once, (step_call body api answers env {| shared := sh; gos := ms |}). apply Hp. }
    pose proof (lookup_lt_Some _ _ _ Ho) as Hlt.
    pose proof (λ i' j, linked_lt gs ms js i' j Hln) as Hb.
    split; [| split; [by apply list_lookup_insert_eq | cbn; by rewrite lookup_app_r, Nat.sub_diag by lia]].
    intros g' Hg'. split.
    + by rewrite !length_insert.
    + intros i1 i2 j H1 H2. apply list_lookup_insert_Some in H1 as [(<- & [= <-] & _)|[N1 H1]];
        apply list_lookup_insert_Some in H2 as [(<- & E & _)|[N2 H2]]; [done | | |].
      * apply Hb in H2. lia.
      * injection E as <-. apply Hb in H1. lia.
      * by eapply Hi.
    + intros i' g1 o1 H1 H2. apply list_lookup_insert_Some in H1 as [(<- & <- & _)|[Hne H1]].
      * rewrite list_lookup_insert_eq in H2 by done. injection H2 as <-. eexists. split; [| exact Hg'].
        cbn. by rewrite lookup_app_r, Nat.sub_diag by lia.
      * rewrite list_lookup_insert_ne in H2 by done. destruct (Ht i' g1 o1 H1 H2) as (m1 & Hm1 & Hg1).
        exists m1. split; [| done]. destruct o1 as [j|]; [| done]. cbn in *.
        rewrite lookup_app_l; [done |]. by eapply lookup_lt_Some.
Qed.

(** Both sides make the same step. *)
Lemma linked_turn gs ms js i j (g : whole unit) m g1 m1 :
  (∀ g' : whole unit, tracks g' m → linked (<[i := g']> gs) ms js) → js !! i = Some (Some j) → ms !! j = Some m →
  tracks g m → tracks g1 m1 → linked (<[i := g1]> gs) (<[j := m1]> ms) js.
Proof using Type.
  intros Hln Hj Hm Hg H1. pose proof (lookup_lt_Some _ _ _ Hm) as Hlt.
  rewrite <- (list_insert_insert_eq gs i g1 g).
  eapply (linked_move _ ms js i _ (Some j)); [by apply Hln | done | exact H1 | cbn; by apply list_lookup_insert_eq | by rewrite length_insert |].
  intros j' Hj' _. apply list_lookup_insert_ne. congruence.
Qed.

(** Both sides start a goroutine. *)
Lemma linked_spawn gs ms js g m :
  linked gs ms js → tracks g m → linked (gs ++ [g]) (ms ++ [m]) (js ++ [Some (length ms)]).
Proof using Type.
  intros Hln Hg. apply (linked_app _ _ _ _ (Some (length ms)) m); [by apply linked_grow | | done |].
  - cbn. by rewrite lookup_app_r, Nat.sub_diag by lia.
  - intros i j [= <-] Hj. apply (linked_lt _ _ _ _ _ Hln) in Hj. lia.
Qed.

Context (bodies : ∀ p, tracks (body' (inP p)) (body p)) (own_bodies : ∀ p, own p → tracks (body' p) (mret tt))
  (api_in : ∀ s p, api' s p → own p ∨ ∃ p0, p = inP p0 ∧ api (get s) p0)
  (env_in : ∀ s s', env' s s' → rtc env (get s) (get s')).

Definition simulated (w : system (S := S') (P := P') (R := R')) (c : system (S := S) (P := P) (R := R)) : Prop :=
  shared c = get (shared w) ∧ ∃ js, linked (gos w) (gos c) js.

Lemma env_steps ms s s' : rtc env s s' → rtc pstep {| shared := s; gos := ms |} {| shared := s'; gos := ms |}.
Proof using Type.
  induction 1 as [|s s1 s' H1 _ IH]; [apply rtc_refl |]. eapply rtc_l; [| exact IH].
  exact (step_env body api answers env {| shared := s; gos := ms |} s1 H1).
Qed.

Lemma simulation_step w w' c :
  wstep w w' → simulated w c → ∃ c', rtc pstep c c' ∧ simulated w' c'.
Proof using get_put answers_in bodies own_bodies api_in env_in.
  intros Hs [Hsh [js Hln]]. destruct c as [sh ms]. cbn in Hsh. subst sh. cbn in Hln.
  assert (∀ i g, gos w !! i = Some g → ∃ o m, js !! i = Some o ∧ at_ ms o = Some m ∧ tracks g m) as Hat.
  { intros i g Hi. destruct (lookup_lt_is_Some_2 js i) as [o Ho]; [rewrite (ln_length _ _ _ Hln); by eapply lookup_lt_Some |].
    destruct (ln_tracks _ _ _ Hln i g o Hi Ho) as (m & ? & ?). eauto. }
  destruct Hs as [w i X f k Hi|w i q k a Hi Ha|w i p k Hi|w p Hp|w s' He]; cbn [shared gos].
  - destruct (Hat _ _ Hi) as (o & m & Ho & Hm & m' & Hr & Ht).
    destruct (linked_resume _ ms js i _ o m m' (get (shared w)) Hln Hi Ho Hm Hr) as (ms1 & js1 & o1 & H1 & H2 & H3 & H4).
    destruct Ht as [Ht|Ht].
    + destruct (Ht (shared w)) as [E Hk]. eexists. split; [etrans; [exact H1 | apply env_steps, E] |].
      split; [done |]. exists js1. by apply H2.
    + destruct m' as [|X0 f0 k0|q0 k0|p0 k0]; try done. destruct (Ht (shared w)) as [E Hk].
      destruct o1 as [j|]; [| done].
      eexists. split; [eapply rtc_r; [exact H1 | exact (step_atomic body api answers env {| shared := get (shared w); gos := ms1 |} j X0 f0 k0 H4)] |].
      split; [done |]. exists js1. apply (linked_turn _ _ _ _ _ (Atomic f k) (Atomic f0 k0)); [done.. | | done].
      cbn. eexists. split; [apply resumes_refl |]. by right.
  - destruct (Hat _ _ Hi) as (o & m & Ho & Hm & m' & Hr & Ht).
    destruct (linked_resume _ ms js i _ o m m' (get (shared w)) Hln Hi Ho Hm Hr) as (ms1 & js1 & o1 & H1 & H2 & H3 & H4).
    destruct Ht as [Ht|Ht].
    + eexists. split; [exact H1 |]. split; [done |]. exists js1. by apply H2.
    + destruct m' as [|X0 f0 k0|q0 k0|p0 k0]; try done. destruct (Ht (shared w) a Ha) as (b & Hb & Hk).
      destruct o1 as [j|]; [| done].
      eexists. split; [eapply rtc_r; [exact H1 | exact (step_ask body api answers env {| shared := get (shared w); gos := ms1 |} j q0 k0 b H4 Hb)] |].
      split; [done |]. exists js1. apply (linked_turn _ _ _ _ _ (Ask q k) (Ask q0 k0)); [done.. | | done].
      cbn. eexists. split; [apply resumes_refl |]. by right.
  - destruct (Hat _ _ Hi) as (o & m & Ho & Hm & m' & Hr & Ht).
    destruct (linked_resume _ ms js i _ o m m' (get (shared w)) Hln Hi Ho Hm Hr) as (ms1 & js1 & o1 & H1 & H2 & H3 & H4).
    destruct Ht as [[Hown Hk]|Ht].
    + eexists. split; [exact H1 |]. split; [done |]. exists (js1 ++ [None]). cbn [gos].
      apply (linked_app _ _ _ _ None (mret tt)); [by apply H2 | done | by apply own_bodies | done].
    + destruct m' as [|X0 f0 k0|q0 k0|p0 k0]; try done. destruct Ht as [-> Hk].
      destruct o1 as [j|]; [| done].
      eexists. split; [eapply rtc_r; [exact H1 | exact (step_go body api answers env {| shared := get (shared w); gos := ms1 |} j p0 k0 H4)] |].
      split; [done |]. exists (js1 ++ [Some (length (<[j := k0]> ms1))]). cbn [gos].
      assert (linked (<[i := k]> (gos w)) (<[j := k0]> ms1) js1) as Hln1.
      { apply (linked_turn _ _ _ _ _ (Go (inP p0) k) (Go p0 k0)); [done.. | | done].
        cbn. eexists. split; [apply resumes_refl |]. by right. }
      by apply linked_spawn.
  - destruct (api_in _ _ Hp) as [Hown|(p0 & -> & Hp0)].
    + exists {| shared := get (shared w); gos := ms |}. split; [apply rtc_refl |]. split; [done |]. exists (js ++ [None]).
      apply (linked_app _ _ _ _ None (mret tt)); [done | done | by apply own_bodies | done].
    + eexists. split; [apply rtc_once, (step_call body api answers env {| shared := get (shared w); gos := ms |} p0 Hp0) |].
      split; [done |]. exists (js ++ [Some (length ms)]). by apply linked_spawn.
  - eexists. split; [apply env_steps, env_in, He |]. split; [done |]. by exists js.
Qed.

(** Every execution of the program, from a start with goroutines of its own,
    is, at the component, one of the component's own. *)
Lemma composition_refines s0 ps w :
  Forall own ps → rtc wstep {| shared := s0; gos := body' <$> ps |} w →
  ∃ ms, rtc pstep {| shared := get s0; gos := [] |} {| shared := get (shared w); gos := ms |}.
Proof using get_put answers_in bodies own_bodies api_in env_in.
  assert (∀ w1 w2, rtc wstep w1 w2 → ∀ c1, simulated w1 c1 → ∃ c2, rtc pstep c1 c2 ∧ simulated w2 c2) as Hsim.
  { induction 1 as [|w1 w2 w3 H1 _ IH]; intros c1 Hc; [by exists c1; split; [apply rtc_refl |] |].
    destruct (simulation_step _ _ _ H1 Hc) as (c2 & H2 & Hc2). destruct (IH c2 Hc2) as (c3 & H3 & Hc3).
    exists c3. split; [by etrans | done]. }
  intros Hps Hr. destruct (Hsim _ _ Hr {| shared := get s0; gos := [] |}) as (c & Hc & [Hsh _]).
  - split; [done |]. exists ((λ _, None) <$> ps). split; cbn [gos]; [by rewrite !length_fmap | |].
    + intros i1 i2 j H1. by apply list_lookup_fmap_Some in H1 as (x & ? & ?).
    + intros i g o H1 H2. apply list_lookup_fmap_Some in H1 as (q & -> & Hq), H2 as (q' & -> & _).
      eexists. split; [done |]. apply own_bodies. by eapply Forall_lookup_1.
  - destruct c as [sh ms]. cbn in Hsh. subst. by exists ms.
Qed.
End Refinement.
