(* ===== verification/FileSystem.v ===== *)
(** * Files, descriptors and file locks of the processes of one machine

    The operating system under the address book's storage: names, open files,
    the locks of [storage_unix.go] and [storage_windows.go], the mutexes of the
    processes.  A call may fail for any reason; a lock or a mutex that is taken
    makes its caller wait. *)

From S2P Require Import Prelude Errors Interfaces Storage.

(** A goroutine: its process and a number of its own. *)
Notation client := (nat * nat)%type (only parsing).

(** ** File locks

    A lock of an open file covers the bytes from [lk_from] up to [lk_to] of
    its file. *)

Record file_lock := {
  lk_owner : client * nat;      (** the open file: its client and descriptor *)
  lk_node : nat;
  lk_from : Z;
  lk_to : Z;
  lk_exclusive : bool;
}.
Global Instance file_lock_eq_dec : EqDecision file_lock.
Proof. solve_decision. Defined.

Inductive lock_request := Flock (how : Z) | LockFileEx (flags reserved low high : Z).
Inductive unlock_request := Funlock (how : Z) | UnlockFileEx (reserved low high : Z).

Module LockFlags.
Definition LOCK_SH : Z := 1.
Definition LOCK_EX : Z := 2.
Definition LOCK_UN : Z := 8.
Definition LOCKFILE_FAIL_IMMEDIATELY : Z := 1.
Definition LOCKFILE_EXCLUSIVE_LOCK : Z := 2.
End LockFlags.
Import LockFlags.

Definition overlap (l1 l2 : file_lock) : Prop :=
  (lk_from l1 < lk_to l2 ∧ lk_from l2 < lk_to l1)%Z.

(** Two locks that cannot both be held. *)
Definition conflict (l1 l2 : file_lock) : Prop :=
  lk_node l1 = lk_node l2 ∧ overlap l1 l2 ∧ (lk_exclusive l1 = true ∨ lk_exclusive l2 = true).
Global Instance conflict_dec l1 l2 : Decision (conflict l1 l2).
Proof. unfold conflict, overlap. apply _. Defined.

(** [flock] locks whole files. *)
Definition whole_file : Z := 2 ^ 64.
Definition range_end (low high : Z) : Z := low + high * 2 ^ 32.

Definition requested (o : client * nat) (n : nat) (r : lock_request) : option file_lock :=
  match r with
  | Flock how =>
      if (how =? LOCK_EX)%Z then Some {| lk_owner := o; lk_node := n; lk_from := 0; lk_to := whole_file; lk_exclusive := true |}
      else if (how =? LOCK_SH)%Z then Some {| lk_owner := o; lk_node := n; lk_from := 0; lk_to := whole_file; lk_exclusive := false |}
      else None
  | LockFileEx flags _ low high =>
      Some {| lk_owner := o; lk_node := n; lk_from := 0; lk_to := range_end low high; lk_exclusive := Z.testbit flags 1 |}
  end.

(** The locks that stand in the way: [flock] converts the lock an open file
    has; [LockFileEx] waits for it too. *)
Definition in_the_way (r : lock_request) (l l' : file_lock) : Prop :=
  conflict l l' ∧ match r with Flock _ => lk_owner l' ≠ lk_owner l | LockFileEx _ _ _ _ => True end.
Global Instance in_the_way_dec r l l' : Decision (in_the_way r l l').
Proof. unfold in_the_way. destruct r; apply _. Defined.

Definition same_file (o : client * nat) (n : nat) (l : file_lock) : Prop := lk_owner l = o ∧ lk_node l = n.

(** The lock table once the request is granted; [None] while it has to wait. *)
Definition grant (o : client * nat) (n : nat) (r : lock_request) (ls : list file_lock) : option (list file_lock) :=
  match requested o n r with
  | None => None
  | Some l =>
      if decide (Exists (in_the_way r l) ls) then None
      else Some (l :: match r with Flock _ => filter (λ l', ¬ same_file o n l') ls | LockFileEx _ _ _ _ => ls end)
  end.

Definition release (o : client * nat) (n : nat) (r : unlock_request) (ls : list file_lock) : list file_lock :=
  match r with
  | Funlock how => if (how =? LOCK_UN)%Z then filter (λ l, ¬ same_file o n l) ls else ls
  | UnlockFileEx _ low high => filter (λ l, ¬ (same_file o n l ∧ lk_to l = range_end low high)) ls
  end.

Definition drop_owner (o : client * nat) (ls : list file_lock) : list file_lock := filter (λ l, lk_owner l ≠ o) ls.

(** What the two storage files ask for. *)
Class Platform := { acquire_request : lock_request; release_request : unlock_request }.

Definition unix : Platform := {| acquire_request := Flock LOCK_EX; release_request := Funlock LOCK_UN |}.
Definition windows : Platform :=
  {| acquire_request := LockFileEx LOCKFILE_EXCLUSIVE_LOCK 0 1 0; release_request := UnlockFileEx 0 1 0 |}.

(** [c] has a lock that no one else can have at the same time. *)
Definition excludes (o : client * nat) (n : nat) (l : file_lock) : Prop :=
  lk_owner l = o ∧ lk_node l = n ∧ lk_exclusive l = true ∧ (lk_from l <= 0 < lk_to l)%Z.

(** What the storage relies on, whatever the platform. *)
Class PlatformLaws `{Platform} : Prop := {
  granted_excludes : ∀ o n ls ls', grant o n acquire_request ls = Some ls' → ∃ l, l ∈ ls' ∧ excludes o n l;
  granted_others : ∀ o n ls ls' l, grant o n acquire_request ls = Some ls' → lk_owner l ≠ o → l ∈ ls' ↔ l ∈ ls;
  granted_own : ∀ o n ls ls' l, grant o n acquire_request ls = Some ls' → l ∈ ls' → lk_owner l = o ∨ l ∈ ls;
  free_granted : ∀ o n ls, (∀ l, l ∈ ls → lk_node l ≠ n) → is_Some (grant o n acquire_request ls);
}.

(** No two locks of the table conflict, unless one open file has both. *)
Definition table_ok (ls : list file_lock) : Prop :=
  ∀ l1 l2, l1 ∈ ls → l2 ∈ ls → conflict l1 l2 → lk_owner l1 = lk_owner l2.

Lemma conflict_sym l1 l2 : conflict l1 l2 → conflict l2 l1.
Proof. unfold conflict, overlap. intuition auto. Qed.

Lemma excludes_conflict o1 o2 n l1 l2 : excludes o1 n l1 → excludes o2 n l2 → conflict l1 l2.
Proof. unfold excludes, conflict, overlap. intuition (congruence || lia). Qed.

Lemma table_ok_subset ls ls' : (∀ l, l ∈ ls' → l ∈ ls) → table_ok ls → table_ok ls'.
Proof. unfold table_ok. naive_solver. Qed.

Lemma filter_subset {A} (P : A → Prop) `{!∀ x, Decision (P x)} (l : list A) x : x ∈ filter P l → x ∈ l.
Proof. by intros [_ ?]%list_elem_of_filter. Qed.

Lemma grant_table_ok o n r ls ls' : grant o n r ls = Some ls' → table_ok ls → table_ok ls'.
Proof.
  unfold grant. destruct (requested o n r) as [l|] eqn:El; [| done]. case_decide as Hw; [done |].
  intros [= <-] Hok. rewrite <- Forall_Exists_neg, Forall_forall in Hw.
  set (rest := match r with Flock _ => _ | LockFileEx _ _ _ _ => _ end).
  assert (∀ l', l' ∈ rest → l' ∈ ls) as Hrest by (unfold rest; destruct r; eauto using filter_subset).
  assert (∀ l', l' ∈ rest → conflict l l' → lk_owner l = lk_owner l') as Hnew.
  { intros l' Hl' Hc. specialize (Hw _ (Hrest _ Hl')). unfold in_the_way in Hw.
    destruct r; [| tauto]. destruct (decide (lk_owner l' = lk_owner l)); [done | tauto]. }
  intros l1 l2 [->|H1]%elem_of_cons [->|H2]%elem_of_cons Hc; [done | by apply Hnew | | by apply Hok; auto].
  symmetry. apply Hnew; [done | by apply conflict_sym].
Qed.

Lemma release_subset o n r ls l : l ∈ release o n r ls → l ∈ ls.
Proof. unfold release. repeat case_match; eauto using filter_subset. Qed.

Lemma release_others o n r ls l : lk_owner l ≠ o → l ∈ release o n r ls ↔ l ∈ ls.
Proof.
  intros Ho. split; [apply release_subset |]. unfold release, same_file. intros Hl.
  repeat case_match; try apply list_elem_of_filter; naive_solver.
Qed.

#[export] Instance unix_laws : @PlatformLaws unix.
Proof.
  split; unfold grant; cbn; intros o n ls; intros *.
  - case_decide; [done |]. intros [= <-]. eexists. split; [by left |]. unfold excludes, whole_file; cbn. auto with lia.
  - case_decide; [done |]. intros [= <-] Ho. rewrite elem_of_cons, list_elem_of_filter. unfold same_file.
    split; [intros [->|[_ ?]]; by auto | naive_solver].
  - case_decide; [done |]. intros [= <-]. intros [->|[_ ?]%list_elem_of_filter]%elem_of_cons; auto.
  - intros Hl. rewrite decide_False; [by eauto |]. rewrite Exists_exists. intros (l' & Hin & [(Hn & _) _]). cbn in Hn.
    by apply (Hl _ Hin).
Qed.

#[export] Instance windows_laws : @PlatformLaws windows.
Proof.
  split; unfold grant; cbn; intros o n ls; intros *.
  - case_decide; [done |]. intros [= <-]. eexists. split; [by left |]. unfold excludes, range_end; cbn. auto with lia.
  - case_decide; [done |]. intros [= <-] Ho. rewrite elem_of_cons. naive_solver.
  - case_decide; [done |]. intros [= <-]. intros [->|?]%elem_of_cons; auto.
  - intros Hl. rewrite decide_False; [by eauto |]. rewrite Exists_exists. intros (l' & Hin & [(Hn & _) _]). cbn in Hn.
    by apply (Hl _ Hin).
Qed.

(** ** Calls

    [MkdirDir p] makes the directory of the path [p] when it has one.  A
    descriptor is a number of the client.  [ReadFile] answers [None] for a file
    that does not exist. *)

Inductive syscall :=
| MuLock (mu : nat) | MuUnlock (mu : nat)
| MkdirDir (p : string) | MarshalIndent
| OpenFile (p : string) (trunc : bool)
| LockFile (fd : nat) (r : lock_request) | UnlockFile (fd : nat) (r : unlock_request)
| ReadFile (p : string) | WriteFile (fd : nat) (c : content) | SyncFile (fd : nat) | CloseFile (fd : nat)
| RenameFile (src dst : string) | RemoveFile (p : string).

Definition answer (q : syscall) : Type :=
  match q with
  | MuLock _ | MuUnlock _ => unit
  | OpenFile _ _ => result error nat
  | ReadFile _ => result error (option content)
  | _ => option error
  end.

(** Names refer to files by number.  [older] are the directories a loss of
    power may bring back, since nothing syncs them; a file's own content is
    safe from it once it is synced. *)
Record kernel := {
  names : gmap string nat;
  older : list (gmap string nat);
  nodes : gmap nat file;
  fds : gmap (client * nat) nat;
  locks : list file_lock;
  mutexes : gmap (nat * nat) client;    (** by process and storage object *)
}.

Definition set_names (m : gmap string nat) (k : kernel) : kernel :=
  {| names := m; older := names k :: older k; nodes := nodes k; fds := fds k; locks := locks k; mutexes := mutexes k |}.
Definition set_nodes (m : gmap nat file) (k : kernel) : kernel :=
  {| names := names k; older := older k; nodes := m; fds := fds k; locks := locks k; mutexes := mutexes k |}.
Definition set_fds (m : gmap (client * nat) nat) (k : kernel) : kernel :=
  {| names := names k; older := older k; nodes := nodes k; fds := m; locks := locks k; mutexes := mutexes k |}.
Definition set_locks (l : list file_lock) (k : kernel) : kernel :=
  {| names := names k; older := older k; nodes := nodes k; fds := fds k; locks := l; mutexes := mutexes k |}.
Definition set_mutexes (m : gmap (nat * nat) client) (k : kernel) : kernel :=
  {| names := names k; older := older k; nodes := nodes k; fds := fds k; locks := locks k; mutexes := m |}.

Definition put_node (n : nat) (c : content) (synced : bool) (k : kernel) : kernel :=
  set_nodes (<[n := {| f_content := c; f_synced := synced |}]> (nodes k)) k.

(** One call of the client [c], with its answer.  A call that fails changes
    nothing, except that a failed write may leave anything in the file, and
    that a file is closed whatever [Close] says. *)
Definition sys (c : client) (k : kernel) (q : syscall) : answer q → kernel → Prop :=
  match q with
  | MuLock mu => λ _ k', mutexes k !! (c.1, mu) = None ∧ k' = set_mutexes (<[(c.1, mu) := c]> (mutexes k)) k
  | MuUnlock mu => λ _ k', k' = set_mutexes (delete (c.1, mu) (mutexes k)) k
  | MkdirDir _ | MarshalIndent => λ _ k', k' = k
  | OpenFile p trunc => λ a k',
      match a with
      | Err _ => k' = k
      | Ok fd =>
          fds k !! (c, fd) = None
          ∧ match names k !! p with
            | Some n => k' = set_fds (<[(c, fd) := n]> (fds k)) (if trunc then put_node n CEmpty false k else k)
            | None => ∃ n, nodes k !! n = None
                ∧ k' = set_fds (<[(c, fd) := n]> (fds k)) (set_names (<[p := n]> (names k)) (put_node n CEmpty false k))
            end
      end
  | LockFile fd r => λ a k',
      match a with
      | Some _ => k' = k
      | None => ∃ n ls, fds k !! (c, fd) = Some n ∧ grant (c, fd) n r (locks k) = Some ls ∧ k' = set_locks ls k
      end
  | UnlockFile fd r => λ a k',
      match a with
      | Some _ => k' = k
      | None => ∃ n, fds k !! (c, fd) = Some n ∧ k' = set_locks (release (c, fd) n r (locks k)) k
      end
  | ReadFile p => λ a k',
      k' = k ∧ match a with Err _ => True | Ok a => a = f_content <$> (names k !! p ≫= λ n, nodes k !! n) end
  | WriteFile fd d => λ a k',
      match a with
      | Some _ => k' = k ∨ ∃ n d', fds k !! (c, fd) = Some n ∧ k' = put_node n d' false k
      | None => ∃ n, fds k !! (c, fd) = Some n ∧ k' = put_node n d false k
      end
  | SyncFile fd => λ a k',
      match a with
      | Some _ => k' = k
      | None => ∃ n f, fds k !! (c, fd) = Some n ∧ nodes k !! n = Some f ∧ k' = put_node n (f_content f) true k
      end
  | CloseFile fd => λ _ k', k' = set_locks (drop_owner (c, fd) (locks k)) (set_fds (delete (c, fd) (fds k)) k)
  | RenameFile src dst => λ a k',
      match a with
      | Some _ => k' = k
      | None => ∃ n, names k !! src = Some n ∧ k' = set_names (<[dst := n]> (delete src (names k))) k
      end
  | RemoveFile p => λ a k',
      match a with
      | Some _ => k' = k
      | None => is_Some (names k !! p) ∧ k' = set_names (delete p (names k)) k
      end
  end.

(** A process is killed: its files are closed, its locks go. *)
Definition kill (p : nat) (k : kernel) : kernel :=
  {| names := names k; older := older k; nodes := nodes k;
     fds := filter (λ x, x.1.1.1 ≠ p) (fds k);
     locks := filter (λ l, (lk_owner l).1.1 ≠ p) (locks k);
     mutexes := filter (λ x, x.1.1 ≠ p) (mutexes k) |}.

(** The machine loses its power: one of the directories is found again, a file
    that was not synced holds anything. *)
Inductive power_loss (k : kernel) : kernel → Prop :=
| lost m (nodes' : gmap nat file) :
    m ∈ names k :: older k →
    (∀ n f, nodes k !! n = Some f → f_synced f = true → nodes' !! n = Some f) →
    (∀ n, is_Some (nodes k !! n) → is_Some (nodes' !! n)) →
    power_loss k {| names := m; older := []; nodes := nodes'; fds := ∅; locks := []; mutexes := ∅ |}.

(** ** What a call leaves alone *)

(** The part of the kernel that belongs to [c]. *)
Record same_own (c : client) (k k' : kernel) : Prop := {
  so_fds : ∀ fd, fds k' !! (c, fd) = fds k !! (c, fd);
  so_locks : ∀ l, (lk_owner l).1 = c → l ∈ locks k' ↔ l ∈ locks k;
  so_mutexes : ∀ mu, mutexes k !! (c.1, mu) = Some c → mutexes k' !! (c.1, mu) = Some c;
  so_mutexes' : ∀ mu, mutexes k' !! (c.1, mu) = Some c → mutexes k !! (c.1, mu) = Some c;
}.

#[export] Instance same_own_refl c : Reflexive (same_own c).
Proof. by split. Qed.
#[export] Instance same_own_trans c : Transitive (same_own c).
Proof.
  intros k1 k2 k3 [F1 L1 M1 N1] [F2 L2 M2 N2]. split; intros; [by rewrite F2, F1 | by rewrite L2, L1 | auto | auto].
Qed.

Lemma own_names c m k : same_own c k (set_names m k).
Proof. by split. Qed.
Lemma own_nodes c m k : same_own c k (set_nodes m k).
Proof. by split. Qed.
Lemma own_fds c m k : (∀ fd, m !! (c, fd) = fds k !! (c, fd)) → same_own c k (set_fds m k).
Proof. by split. Qed.
Lemma own_locks c ls k : (∀ l, (lk_owner l).1 = c → l ∈ ls ↔ l ∈ locks k) → same_own c k (set_locks ls k).
Proof. by split. Qed.
Lemma own_mutexes c m k :
  (∀ mu, mutexes k !! (c.1, mu) = Some c ↔ m !! (c.1, mu) = Some c) → same_own c k (set_mutexes m k).
Proof. intros Hm. split; cbn; naive_solver. Qed.
#[export] Hint Resolve own_names own_nodes own_fds own_locks own_mutexes : go.

Lemma owner_ne l c c' fd : (lk_owner l).1 = c' → c' ≠ c → lk_owner l ≠ (c, fd).
Proof. intros <- Hc E. by rewrite E in Hc. Qed.

(** A call of [c] leaves what belongs to others alone, if [c] unlocks its own
    mutexes only and locks files as the platform does. *)
Lemma sys_others `{PlatformLaws} c c' k q a k' :
  sys c k q a k' → c' ≠ c →
  match q with
  | LockFile _ r => r = acquire_request
  | MuUnlock mu => mutexes k !! (c.1, mu) = Some c
  | _ => True
  end → same_own c' k k'.
Proof.
  intros Hs Hc Hq.
  assert (∀ (m : gmap (client * nat) nat) f n f', <[(c, f) := n]> m !! (c', f') = m !! (c', f')) as Hne.
  { intros. apply lookup_insert_ne. congruence. }
  destruct q; cbn in Hs; simplify_eq/=.
  - destruct Hs as [Hf ->]. apply own_mutexes. intros m. destruct (decide ((c'.1, m) = (c.1, mu))) as [E|E].
    + rewrite E, lookup_insert_eq. split; [congruence | intros [=]; by subst].
    + by rewrite lookup_insert_ne.
  - apply own_mutexes. intros m. destruct (decide ((c'.1, m) = (c.1, mu))) as [E|E].
    + rewrite E, lookup_delete_eq. split; [congruence | done].
    + by rewrite lookup_delete_ne.
  - done.
  - done.
  - destruct a as [e|fd]; [by subst |]. destruct Hs as [_ Hs]. case_match.
    + subst. trans (if trunc then put_node n CEmpty false k else k); [by destruct trunc |].
      apply own_fds. intros f'. destruct trunc; apply Hne.
    + destruct Hs as (n & _ & ->). etrans; [| apply own_fds; intros f'; apply Hne]. etrans; [apply own_nodes | apply own_names].
  - destruct a as [e|]; [by subst |]. destruct Hs as (n & ls & _ & Hg & ->). apply own_locks.
    intros l Hl. apply (granted_others _ _ _ _ _ Hg). eapply owner_ne; eauto.
  - destruct a as [e|]; [by subst |]. destruct Hs as (n & _ & ->). apply own_locks.
    intros l Hl. apply release_others. eapply owner_ne; eauto.
  - by destruct Hs as [-> _].
  - destruct a as [e|]; [destruct Hs as [->|(n & d' & _ & ->)] | destruct Hs as (n & _ & ->)]; done || apply own_nodes.
  - destruct a as [e|]; [by subst |]. destruct Hs as (n & f & _ & _ & ->). apply own_nodes.
  - subst. trans (set_fds (delete (c, fd) (fds k)) k); [apply own_fds; intros f'; apply lookup_delete_ne; congruence |].
    apply own_locks.
    intros l Hl. unfold drop_owner. rewrite list_elem_of_filter. cbn.
    split; [tauto |]. intros; split; [| done]. eapply owner_ne; eauto.
  - destruct a; [by subst |]. destruct Hs as (n & _ & ->). apply own_names.
  - destruct a; [by subst |]. destruct Hs as (_ & ->). apply own_names.
Qed.

(** The table of locks stays free of conflicts. *)
Lemma sys_table c k q a k' : sys c k q a k' → table_ok (locks k) → table_ok (locks k').
Proof.
  intros Hs Hk. destruct q; cbn in Hs; try (by subst); try (destruct Hs; subst; done).
  - destruct a as [e|fd]; [by subst |]. destruct Hs as [_ Hs]. case_match; [by destruct trunc; subst |].
    by destruct Hs as (n & _ & ->).
  - destruct a; [by subst |]. destruct Hs as (n & ls & _ & Hg & ->). by eapply grant_table_ok.
  - destruct a; [by subst |]. destruct Hs as (n & _ & ->). eapply table_ok_subset; [apply release_subset | done].
  - destruct a; [destruct Hs as [->|(n & d' & _ & ->)] | destruct Hs as (n & _ & ->)]; done.
  - destruct a; [by subst |]. by destruct Hs as (n & f & _ & _ & ->).
  - subst. eapply table_ok_subset; [apply filter_subset | done].
  - destruct a; [by subst |]. by destruct Hs as (n & _ & ->).
  - destruct a; [by subst |]. by destruct Hs as (_ & ->).
Qed.

Lemma kill_others p c k : c.1 ≠ p → same_own c k (kill p k).
Proof.
  intros Hc. split; cbn.
  - intros fd. destruct (fds k !! (c, fd)) as [n|] eqn:E.
    + by apply map_lookup_filter_Some.
    + rewrite map_lookup_filter_None. auto.
  - intros l Hl. rewrite list_elem_of_filter, Hl. tauto.
  - intros mu Hm. by apply map_lookup_filter_Some.
  - intros mu Hm. by apply map_lookup_filter_Some in Hm as [? _].
Qed.

(** [c] has no file open, no lock and no mutex. *)
Record idle (c : client) (k : kernel) : Prop := {
  id_fds : ∀ fd, fds k !! (c, fd) = None;
  id_locks : ∀ l, l ∈ locks k → (lk_owner l).1 ≠ c;
  id_mutexes : ∀ mu, mutexes k !! (c.1, mu) ≠ Some c;
}.

Lemma idle_same c k k' : same_own c k k' → idle c k → idle c k'.
Proof.
  intros [F L M N] [F' L' M']. split; intros *.
  - by rewrite F.
  - intros Hl E. apply L in Hl; [| done]. by apply (L' _ Hl).
  - intros E. apply N in E. by apply M' in E.
Qed.

Lemma kill_idle p c k : c.1 = p → idle c (kill p k).
Proof.
  intros <-. split; cbn; intros *.
  - rewrite map_lookup_filter_None. right. intros n _ Hn. by apply Hn.
  - intros [Hl _]%list_elem_of_filter E. apply Hl. by rewrite E.
  - intros [_ Hm]%map_lookup_filter_Some. by apply Hm.
Qed.

(** ** The calls that succeed, as a function

    Numbers of files and descriptors are the next ones; [None] where the call
    waits or has to fail. *)
Definition succeed (c : client) (k : kernel) (q : syscall) : option (answer q * kernel) :=
  match q return option (answer q * kernel) with
  | MuLock mu =>
      if decide (mutexes k !! (c.1, mu) = None) then Some (tt, set_mutexes (<[(c.1, mu) := c]> (mutexes k)) k) else None
  | MuUnlock mu => Some (tt, set_mutexes (delete (c.1, mu) (mutexes k)) k)
  | MkdirDir _ | MarshalIndent => Some (None, k)
  | OpenFile p trunc =>
      let fd := size (fds k) in
      let n := size (nodes k) in
      if decide (fds k !! (c, fd) = None) then
        match names k !! p with
        | Some n => Some (Ok fd, set_fds (<[(c, fd) := n]> (fds k)) (if trunc then put_node n CEmpty false k else k))
        | None =>
            if decide (nodes k !! n = None) then
              Some (Ok fd, set_fds (<[(c, fd) := n]> (fds k)) (set_names (<[p := n]> (names k)) (put_node n CEmpty false k)))
            else None
        end
      else None
  | LockFile fd r => n ← fds k !! (c, fd); ls ← grant (c, fd) n r (locks k); Some (None, set_locks ls k)
  | UnlockFile fd r => n ← fds k !! (c, fd); Some (None, set_locks (release (c, fd) n r (locks k)) k)
  | ReadFile p => Some (Ok (f_content <$> (names k !! p ≫= λ n, nodes k !! n)), k)
  | WriteFile fd d => n ← fds k !! (c, fd); Some (None, put_node n d false k)
  | SyncFile fd => n ← fds k !! (c, fd); f ← nodes k !! n; Some (None, put_node n (f_content f) true k)
  | CloseFile fd => Some (None, set_locks (drop_owner (c, fd) (locks k)) (set_fds (delete (c, fd) (fds k)) k))
  | RenameFile src dst => n ← names k !! src; Some (None, set_names (<[dst := n]> (delete src (names k))) k)
  | RemoveFile p => n ← names k !! p; Some (None, set_names (delete p (names k)) k)
  end.

Lemma succeed_sys c k q x k' : succeed c k q = Some (x, k') → sys c k q x k'.
Proof.
  destruct q; cbn; intros Hs; simplify_option_eq; try done; eauto 6.
  all: case_match; simplify_option_eq; split; by eauto.
Qed.
