(* ===== verification/StorageCalls.v ===== *)
(** * The storage as the system calls it makes ([storage.go], [storage_unix.go], [storage_windows.go])

    [Storage] has [load] and [save] as functions on the file system; here they
    are the sequences of calls that any number of goroutines of any number of
    processes make on one file, with their mutex and file lock, and the
    abstract storage they implement: one file, on which the functions of
    [Storage] take effect at once. *)

From S2P Require Import Prelude Errors Interfaces Storage FileSystem Proc.

(** Code that makes system calls, and nothing else. *)
Notation calls_code := (prog (S := unit) (P := Empty_set) (Q := syscall) (R := answer)).

(** ** The code *)

Section Code.
Context `{Libp2p} `{Platform}.
Notation code := calls_code.

Definition lock_path (path : string) : string := path +:+ lockFileSuffix.
Definition temp_path (path : string) : string := path +:+ tempFileSuffix.
Definition backup_path (path : string) : string := path +:+ backupFileSuffix.

Definition sys_acquireFileLock (path : string) : code (result error nat) :=
  made ← (ask (MkdirDir (lock_path path)) : code (option error));
  match made with
  | Some e => mret (Err (Errorf "failed to create lock directory: %w" (Some e)))
  | None =>
    opened ← (ask (OpenFile (lock_path path) false) : code (result error nat));
    match opened with
    | Err e => mret (Err (Errorf "failed to open lock file: %w" (Some e)))
    | Ok lockFile =>
      taken ← (ask (LockFile lockFile acquire_request) : code (option error));
      match taken with
      | Some e =>
          _ ← (ask (CloseFile lockFile) : code (option error));
          mret (Err (Errorf "failed to acquire file lock: %w" (Some e)))
      | None => mret (Ok lockFile)
      end
    end
  end.

(** A nil file is not released. *)
Definition sys_releaseFileLock (lockFile : option nat) : code unit :=
  match lockFile with
  | None => mret tt
  | Some fd =>
      _ ← (ask (UnlockFile fd release_request) : code (option error));
      _ ← (ask (CloseFile fd) : code (option error));
      mret tt
  end.

(** What both methods do around their work: [s.mu.Lock], the file lock, and
    the deferred calls that undo them. *)
Definition locked_section {A} (mu : nat) (path : string) (refused : error → A) (body : code A) : code A :=
  _ ← (ask (MuLock mu) : code unit);
  lockFile ← sys_acquireFileLock path;
  match lockFile with
  | Err e => _ ← (ask (MuUnlock mu) : code unit); mret (refused e)
  | Ok fd =>
      r ← body;
      _ ← sys_releaseFileLock (Some fd);
      _ ← (ask (MuUnlock mu) : code unit);
      mret r
  end.

Definition sys_backup (path : string) : code (result error addressBookData) :=
  moved ← (ask (RenameFile path (backup_path path)) : code (option error));
  mret match moved with
       | Some e => Err (Errorf "failed to parse address book and backup failed: parse error: %w, backup error: %v" None)
       | None => Ok empty_book
       end.

Definition load_body (path : string) : code (result error addressBookData) :=
  data ← (ask (ReadFile path) : code (result error (option content)));
  match data with
  | Err e => mret (Err (Errorf "failed to read address book: %w" (Some e)))
  | Ok None => mret (Ok empty_book)
  | Ok (Some CEmpty) => mret (Ok empty_book)
  | Ok (Some CCorrupt) => sys_backup path
  | Ok (Some (CDoc j)) =>
      match unmarshal_book j with
      | None => sys_backup path
      | Some (v, ps) => mret (Ok {| Version := v; Peers := default ∅ ps |})
      end
  end.

Definition sys_load (mu : nat) (path : string) : code (result error addressBookData) :=
  locked_section mu path (λ e, Err (Errorf "failed to acquire lock for load: %w" (Some e))) (load_body path).

(** The temporary file is removed when a step after its creation fails, and
    closed first while it is open. *)
Definition discard (tempFile : option nat) (path : string) (e : error) : code (option error) :=
  _ ← match tempFile with
      | Some fd => _ ← (ask (CloseFile fd) : code (option error)); mret tt
      | None => mret tt
      end;
  _ ← (ask (RemoveFile (temp_path path)) : code (option error));
  mret (Some e).

(** The last four steps, each with its clean-up. *)
Definition save_rename (path : string) : code (option error) :=
  renamed ← (ask (RenameFile (temp_path path) path) : code (option error));
  match renamed with
  | Some e => discard None path (Errorf "failed to rename temporary file: %w" (Some e))
  | None => mret None
  end.

Definition save_close (path : string) (tempFile : nat) : code (option error) :=
  closed ← (ask (CloseFile tempFile) : code (option error));
  match closed with
  | Some e => discard None path (Errorf "failed to close temporary file: %w" (Some e))
  | None => save_rename path
  end.

Definition save_sync (path : string) (tempFile : nat) : code (option error) :=
  synced ← (ask (SyncFile tempFile) : code (option error));
  match synced with
  | Some e => discard (Some tempFile) path (Errorf "failed to sync temporary file: %w" (Some e))
  | None => save_close path tempFile
  end.

Definition save_temp (path : string) (tempFile : nat) (data : content) : code (option error) :=
  wrote ← (ask (WriteFile tempFile data) : code (option error));
  match wrote with
  | Some e => discard (Some tempFile) path (Errorf "failed to write temporary file: %w" (Some e))
  | None => save_sync path tempFile
  end.

Definition save_body (path : string) (book : addressBookData) : code (option error) :=
  made ← (ask (MkdirDir path) : code (option error));
  match made with
  | Some e => mret (Some (Errorf "failed to create directory: %w" (Some e)))
  | None =>
    marshalled ← (ask MarshalIndent : code (option error));
    match marshalled with
    | Some e => mret (Some (Errorf "failed to marshal address book: %w" (Some e)))
    | None =>
      opened ← (ask (OpenFile (temp_path path) true) : code (result error nat));
      match opened with
      | Err e => mret (Some (Errorf "failed to create temporary file: %w" (Some e)))
      | Ok tempFile => save_temp path tempFile (CDoc (marshal_book book))
      end
    end
  end.

Definition sys_save (mu : nat) (path : string) (book : addressBookData) : code (option error) :=
  locked_section mu path (λ e, Some (Errorf "failed to acquire lock for save: %w" (Some e))) (save_body path book).

(** ** Operations, and the machine that runs them *)

Inductive operation := OpSave (book : addressBookData) | OpLoad.
Inductive outcome := Saved (r : option error) | Loaded (r : result error addressBookData).

(** [mu] is the storage object the goroutine calls, of its process. *)
Definition operation_code (path : string) (mu : nat) (op : operation) : code outcome :=
  match op with
  | OpSave b => r ← sys_save mu path b; mret (Saved r)
  | OpLoad => r ← sys_load mu path; mret (Loaded r)
  end.

Record machine := { kern : kernel; running : gmap client (code outcome) }.

(** What can be seen from outside the operating system. *)
Inductive event :=
| Called (c : client) (op : operation) | Returned (c : client) (r : outcome) | Killed (p : nat) | PowerLost | Internal.

Definition kill_clients {A} (p : nat) (m : gmap client A) : gmap client A := filter (λ x, x.1.1 ≠ p) m.

Inductive mstep (path : string) : event → machine → machine → Prop :=
| m_call s c mu op :
    running s !! c = None →
    mstep path (Called c op) s {| kern := kern s; running := <[c := operation_code path mu op]> (running s) |}
| m_sys s c q k a k' :
    running s !! c = Some (Ask q k) → sys c (kern s) q a k' →
    mstep path Internal s {| kern := k'; running := <[c := k a]> (running s) |}
| m_return s c r :
    running s !! c = Some (Ret r) →
    mstep path (Returned c r) s {| kern := kern s; running := delete c (running s) |}
| m_kill s p :
    mstep path (Killed p) s {| kern := kill p (kern s); running := kill_clients p (running s) |}
| m_power s k' :
    power_loss (kern s) k' → mstep path PowerLost s {| kern := k'; running := ∅ |}.

(** ** The abstract storage

    [value] is the file; [past] are the values a loss of power may bring back. *)

Inductive progress := Pending (op : operation) | Committed (r : outcome).

Record storage := { value : option file; past : list (option file); clients : gmap client progress }.

(** An operation as [Storage] has it, looked at through the file at [path]:
    on some disk that has the file, with some outcome of every call. *)
Definition takes_effect (path : string) (op : operation) (v : option file) (r : outcome) (v' : option file) : Prop :=
  ∃ (o : io_op → option error) (d d' : disk),
    current d !! path = v ∧ current d' !! path = v'
    ∧ match op, r with
      | OpSave b, Saved e => save o path b d = (e, d')
      | OpLoad, Loaded x => load o path d = (x, d')
      | _, _ => False
      end.

Definition commit (c : client) (r : outcome) (v' : option file) (a : storage) : storage :=
  {| value := v'; past := value a :: past a; clients := <[c := Committed r]> (clients a) |}.

Inductive astep (path : string) : event → storage → storage → Prop :=
| a_call a c op :
    clients a !! c = None →
    astep path (Called c op) a {| value := value a; past := past a; clients := <[c := Pending op]> (clients a) |}
| a_commit a c op r v' :
    clients a !! c = Some (Pending op) → takes_effect path op (value a) r v' → astep path Internal a (commit c r v' a)
| a_return a c r :
    clients a !! c = Some (Committed r) →
    astep path (Returned c r) a {| value := value a; past := past a; clients := delete c (clients a) |}
| a_kill a p :
    astep path (Killed p) a {| value := value a; past := past a; clients := kill_clients p (clients a) |}
| a_power a v :
    v ∈ value a :: past a → astep path PowerLost a {| value := v; past := []; clients := ∅ |}.
End Code.

(** Executions with what is seen of them. *)
Definition visible `{Libp2p} (e : event) : list event := match e with Internal => [] | _ => [e] end.

Inductive exec `{Libp2p} {S} (step : event → S → S → Prop) : list event → S → S → Prop :=
| exec_refl s : exec step [] s s
| exec_step s1 s2 s3 e l : exec step l s1 s2 → step e s2 s3 → exec step (l ++ visible e) s1 s3.

(** ** A goroutine that makes all its calls in a row, all of them successfully *)

Fixpoint run_client `{Libp2p} {Pl : Platform} (fuel : nat) (c : client) (s : machine) : option (outcome * machine) :=
  match fuel with
  | O => None
  | S fuel =>
      match running s !! c with
      | Some (Ret r) => Some (r, {| kern := kern s; running := delete c (running s) |})
      | Some (Ask q k) =>
          match succeed c (kern s) q with
          | Some (x, k') => run_client fuel c {| kern := k'; running := <[c := k x]> (running s) |}
          | None => None
          end
      | _ => None
      end
  end.

Lemma exec_head `{Libp2p} {S} (step : event → S → S → Prop) e l s1 s2 s3 :
  step e s1 s2 → exec step l s2 s3 → exec step (visible e ++ l) s1 s3.
Proof.
  intros Hs He. revert s1 Hs. induction He as [s|s1 s2 s3 e' l _ IH Hstep]; intros s0 Hs.
  - rewrite app_nil_r. apply (exec_step step s0 s0 s e []); [constructor | done].
  - rewrite app_assoc. econstructor; [by apply IH | done].
Qed.

Lemma run_client_exec `{Libp2p} {Pl : Platform} path fuel c s r s' :
  run_client fuel c s = Some (r, s') → exec (mstep path) [Returned c r] s s'.
Proof.
  revert s. induction fuel as [|fuel IH]; intros s; cbn; [done |]. intros Hr.
  destruct (running s !! c) as [[r'|X g k|q k|p k]|] eqn:E; simplify_eq.
  - eapply (exec_head _ (Returned c r) []); [by constructor | constructor].
  - destruct (succeed c (kern s) q) as [[x k']|] eqn:Es; [| done].
    eapply (exec_head _ Internal [_]), IH, Hr. econstructor; [done | by apply succeed_sys].
Qed.

(** The machine it leaves. *)
Definition after_client `{Libp2p} {Pl : Platform} (fuel : nat) (c : client) (s : machine) : machine :=
  default s (snd <$> run_client fuel c s).

Lemma after_client_exec `{Libp2p} {Pl : Platform} path fuel c s r :
  fst <$> run_client fuel c s = Some r → exec (mstep path) [Returned c r] s (after_client fuel c s).
Proof.
  unfold after_client. destruct (run_client fuel c s) as [[r' s']|] eqn:E; [| done]. intros [= ->]. cbn.
  by eapply run_client_exec.
Qed.
