(* ===== verification/StorageConcurrency.v ===== *)
(** * The storage under concurrency, crashes and losses of power

    Every execution of the goroutines and processes that load and save one
    address book file is an execution of the abstract storage, in which each
    operation of [Storage] takes effect at once; and none of them can keep the
    others waiting for ever.  The proof is a rely-guarantee logic per client
    ([ok]): what a client knows about its own files and locks, and about the
    address book's files while it has the lock, no other client can change. *)

From S2P Require Import Prelude Errors Interfaces Storage FileSystem Proc StorageCalls.

Section Logic.
Context `{Libp2pLaws} `{PlatformLaws} (path : string).
Notation code := calls_code.
Notation lockp := (lock_path path).
Notation tempp := (temp_path path).
Notation backupp := (backup_path path).

Lemma paths_ne : tempp ≠ path ∧ lockp ≠ path ∧ backupp ≠ path ∧ tempp ≠ lockp ∧ tempp ≠ backupp ∧ lockp ≠ backupp.
Proof using Type.
  split_and!; try (by apply suffix_ne); by intros ?%append_inj_r.
Qed.

(** ** Invariants *)

Notation world := (kernel * storage)%type (only parsing).

(** The file a directory has under the path. *)
Definition target (ns : gmap nat file) (m : gmap string nat) : option file := n ← m !! path; ns !! n.

(** What holds of every directory: its names are different files, and the
    address book is on the disk. *)
Record dir_ok (ns : gmap nat file) (m : gmap string nat) : Prop := {
  do_synced : ∀ n, m !! path = Some n → ∃ f, ns !! n = Some f ∧ f_synced f = true;
  do_nodes : ∀ q n, m !! q = Some n → is_Some (ns !! n);
  do_temp : ∀ n, m !! path = Some n → m !! tempp ≠ Some n;
  do_lock : ∀ n, m !! path = Some n → m !! lockp ≠ Some n;
  do_both : ∀ n, m !! tempp = Some n → m !! lockp ≠ Some n;
}.

(** What holds of the current files and of the directories a loss of power may
    bring back. *)
Record files_ok (ns : gmap nat file) (cur : gmap string nat) (old : list (gmap string nat)) (v : option file) (past : list (option file)) : Prop := {
  fo_dirs : ∀ m, m ∈ cur :: old → dir_ok ns m;
  fo_apart : ∀ m n, m ∈ old → m !! path = Some n → cur !! tempp ≠ Some n ∧ cur !! lockp ≠ Some n;
  fo_value : v = target ns cur;
  fo_past : ∀ m, m ∈ old → target ns m ∈ v :: past;
}.

Definition Inv (w : world) : Prop :=
  files_ok (nodes w.1) (names w.1) (older w.1) (value w.2) (past w.2) ∧ table_ok (locks w.1).

(** [c] has the lock of the storage. *)
Definition critical (c : client) (k : kernel) : Prop :=
  ∃ n l, names k !! lockp = Some n ∧ l ∈ locks k ∧ (lk_owner l).1 = c ∧ excludes (lk_owner l) n l.

Lemma critical_unique c c' k : table_ok (locks k) → critical c k → critical c' k → c = c'.
Proof using Type.
  intros Ht (n & l & Hn & Hl & <- & He) (n' & l' & Hn' & Hl' & <- & He'). simplify_eq.
  f_equal. apply Ht; [done | done |]. by eapply excludes_conflict.
Qed.

(** Files other than the lock file. *)
Definition files_agree (k k' : kernel) : Prop :=
  (∀ q, q ≠ lockp → names k' !! q = names k !! q)
  ∧ ∀ q n, q ≠ lockp → names k !! q = Some n → nodes k' !! n = nodes k !! n.

Record rely (c : client) (w w' : world) : Prop := {
  re_own : same_own c w.1 w'.1;
  re_lock : ∀ n, names w.1 !! lockp = Some n → names w'.1 !! lockp = Some n;
  re_files : critical c w.1 → files_agree w.1 w'.1;
  re_client : clients w'.2 !! c = clients w.2 !! c;
}.

Lemma critical_rely c w w' : rely c w w' → critical c w.1 → critical c w'.1.
Proof using Type.
  intros [[_ L _ _] Hl _ _] (n & l & Hn & Hin & Ho & He). exists n, l. split_and!; auto. by apply L.
Qed.

#[global] Instance rely_refl c : Reflexive (rely c).
Proof using Type. intros w. by split. Qed.
#[global] Instance rely_trans c : Transitive (rely c).
Proof using Type.
  intros w1 w2 w3 H12 H23. pose proof (critical_rely _ _ _ H12) as Hc.
  destruct H12 as [O1 L1 F1 C1], H23 as [O2 L2 F2 C2]. split; [by etrans | auto | | congruence].
  intros Hw. destruct (F1 Hw) as [A1 B1], (F2 (Hc Hw)) as [A2 B2]. split.
  - intros q Hq. by rewrite A2, A1.
  - intros q n Hq Hn. rewrite (B2 q n), (B1 q n); [done | done | done | done |]. by rewrite A1.
Qed.

(** What a step of [c] may do to the others. *)
Definition guar (c : client) (w w' : world) : Prop := ∀ c', c' ≠ c → rely c' w w'.

(** ** Steps that keep the files in order *)

Lemma target_insert ns m n f : (∀ n', m !! path = Some n' → n' ≠ n) → target (<[n := f]> ns) m = target ns m.
Proof using Type.
  intros Hn. unfold target. destruct (m !! path) as [n'|] eqn:E; cbn; [| done].
  rewrite lookup_insert_ne; [done |]. intros ->. by apply (Hn n').
Qed.

Lemma dir_ok_insert ns m n f : (∀ n', m !! path = Some n' → n' ≠ n) → dir_ok ns m → dir_ok (<[n := f]> ns) m.
Proof using Type.
  intros Hn [D1 D2 D3 D4 D5]. split; try done.
  - intros n' E. rewrite lookup_insert_ne by (intros <-; by apply (Hn n)). by apply D1.
  - intros q n' E. rewrite lookup_insert. case_decide; [done | by eapply D2].
Qed.

(** The temporary file's content does not matter. *)
Lemma files_temp_node ns cur old v past t f :
  cur !! tempp = Some t → files_ok ns cur old v past → files_ok (<[t := f]> ns) cur old v past.
Proof using Type.
  intros Ht [F1 F2 F3 F4].
  assert (∀ m n, m ∈ cur :: old → m !! path = Some n → n ≠ t) as Hne.
  { intros m n [->|Hm]%elem_of_cons E ->; [exact (do_temp _ _ (F1 cur (list_elem_of_here _ _)) t E Ht) | exact (proj1 (F2 m t Hm E) Ht)]. }
  split.
  - intros m Hm. apply dir_ok_insert; [intros n; by apply Hne | by apply F1].
  - done.
  - rewrite target_insert; [done |]. intros n. apply Hne. by left.
  - intros m Hm. rewrite target_insert; [by apply F4 |]. intros n. apply Hne. by right.
Qed.

(** A new file that is not the address book. *)
Lemma files_create ns cur old v past p n f :
  p = lockp ∨ p = tempp → cur !! p = None → ns !! n = None → files_ok ns cur old v past →
  files_ok (<[n := f]> ns) (<[p := n]> cur) (cur :: old) v past.
Proof using Type.
  intros Hp Hc Hn [F1 F2 F3 F4]. pose proof paths_ne as (Ht & Hl & _ & Htl & _).
  assert (p ≠ path) as Hpp by (by destruct Hp as [->| ->]).
  assert (∀ m q n', m ∈ cur :: old → m !! q = Some n' → n' ≠ n) as Hne.
  { intros m q n' Hm E ->. destruct (do_nodes _ _ (F1 m Hm) q n E). congruence. }
  assert (target (<[n := f]> ns) (<[p := n]> cur) = target ns cur) as Hcur.
  { unfold target. rewrite lookup_insert_ne by done. apply target_insert. intros n'. apply Hne. by left. }
  split.
  - intros m [->|Hm]%elem_of_cons.
    + destruct (F1 cur (list_elem_of_here _ _)) as [D1 D2 D3 D4 D5].
      assert (∀ q n', cur !! q = Some n' → n' ≠ n) as Hnc by (intros q n'; apply Hne; by left).
      split.
      * intros n'. rewrite lookup_insert_ne by done. intros E. rewrite lookup_insert_ne by (by apply not_eq_sym, (Hnc path)).
        by apply D1.
      * intros q n'. rewrite lookup_insert. case_decide as Hq; [intros [= <-]; by rewrite lookup_insert_eq |].
        intros E. rewrite lookup_insert_ne by (by apply not_eq_sym, (Hnc q)). by eapply D2.
      * intros n'. rewrite (lookup_insert_ne _ p path) by done. intros E. rewrite lookup_insert.
        case_decide; [intros [= <-]; by apply (Hnc path n) | by apply D3].
      * intros n'. rewrite (lookup_insert_ne _ p path) by done. intros E. rewrite lookup_insert.
        case_decide; [intros [= <-]; by apply (Hnc path n) | by apply D4].
      * intros n'. rewrite !lookup_insert. repeat case_decide; simplify_eq; [| | by apply D5].
        -- intros [= <-] E. by apply (Hnc lockp n).
        -- intros E [= <-]. by apply (Hnc tempp n).
    + apply dir_ok_insert; [intros n'; by apply Hne | by apply F1].
  - intros m n' Hm E. assert (n' ≠ n) as Hnn by (eapply Hne; eauto).
    assert (cur !! tempp ≠ Some n' ∧ cur !! lockp ≠ Some n') as [G1 G2].
    { apply elem_of_cons in Hm as [->|Hm]; [| by eapply F2]. pose proof (F1 cur (list_elem_of_here _ _)) as [].
      split; auto. }
    rewrite !lookup_insert. repeat case_decide; simplify_eq; split; congruence.
  - by rewrite Hcur.
  - intros m [->|Hm]%elem_of_cons.
    + rewrite target_insert by (intros n'; apply Hne; by left). rewrite F3. by left.
    + rewrite target_insert by (intros n'; apply Hne; by right). by apply F4.
Qed.

(** Without its temporary file. *)
Lemma files_remove ns cur old v past :
  files_ok ns cur old v past → files_ok ns (delete tempp cur) (cur :: old) v past.
Proof using Type.
  intros [F1 F2 F3 F4]. pose proof paths_ne as (Ht & Hl & _ & Htl & _).
  assert (∀ q, q ≠ tempp → delete tempp cur !! q = cur !! q) as Hd by (intros; by apply lookup_delete_ne).
  pose proof (F1 cur (list_elem_of_here _ _)) as D. split.
  - intros m [->|Hm]%elem_of_cons; [| by apply F1]. destruct D as [D1 D2 D3 D4 D5]. split.
    + intros n. rewrite Hd by done. apply D1.
    + intros q n [_ E]%lookup_delete_Some. by eapply D2.
    + intros n _. by rewrite lookup_delete_eq.
    + intros n. rewrite !Hd by done. apply D4.
    + intros n. by rewrite lookup_delete_eq.
  - intros m n Hm E. rewrite lookup_delete_eq, Hd by done. split; [done |].
    apply elem_of_cons in Hm as [->|Hm]; [by apply D | by eapply F2].
  - rewrite F3. unfold target. by rewrite Hd.
  - intros m [->|Hm]%elem_of_cons; [rewrite F3; by left | by apply F4].
Qed.

(** The temporary file becomes the address book. *)
Lemma files_rename ns cur old v past t f :
  cur !! tempp = Some t → ns !! t = Some f → f_synced f = true → files_ok ns cur old v past →
  files_ok ns (<[path := t]> (delete tempp cur)) (cur :: old) (Some f) (v :: past).
Proof using Type.
  intros Hc Hn Hs [F1 F2 F3 F4]. pose proof paths_ne as (Ht & Hl & _ & Htl & _).
  pose proof (F1 cur (list_elem_of_here _ _)) as D. set (cur' := <[path := t]> _).
  assert (cur' !! path = Some t) as E1 by apply lookup_insert_eq.
  assert (cur' !! tempp = None) as E2 by (unfold cur'; by rewrite lookup_insert_ne, lookup_delete_eq).
  assert (cur' !! lockp = cur !! lockp) as E3 by (unfold cur'; by rewrite lookup_insert_ne, lookup_delete_ne).
  split.
  - intros m [->|Hm]%elem_of_cons; [| by apply F1]. destruct D as [D1 D2 D3 D4 D5]. split.
    + intros n. rewrite E1. intros [= <-]. eauto.
    + intros q n. unfold cur'. rewrite lookup_insert. case_decide; [intros [= <-]; by rewrite Hn |].
      intros [_ E]%lookup_delete_Some. by eapply D2.
    + intros n _. by rewrite E2.
    + intros n. rewrite E1, E3. intros [= <-]. by apply D5.
    + intros n. by rewrite E2.
  - intros m n Hm E. rewrite E2, E3. split; [done |].
    apply elem_of_cons in Hm as [->|Hm]; [by apply D | by eapply F2].
  - unfold target. rewrite E1. done.
  - intros m [->|Hm]%elem_of_cons; right; [rewrite F3; by left | by apply F4].
Qed.

(** A corrupt address book is moved away. *)
Lemma files_backup ns cur old v past n :
  cur !! path = Some n → files_ok ns cur old v past →
  files_ok ns (<[backupp := n]> (delete path cur)) (cur :: old) None (v :: past).
Proof using Type.
  intros Hc [F1 F2 F3 F4]. pose proof paths_ne as (Ht & Hl & Hb & Htl & Htb & Hlb).
  pose proof (F1 cur (list_elem_of_here _ _)) as D. set (cur' := <[backupp := n]> _).
  assert (cur' !! path = None) as E1 by (unfold cur'; by rewrite lookup_insert_ne, lookup_delete_eq).
  assert (cur' !! tempp = cur !! tempp) as E2 by (unfold cur'; by rewrite lookup_insert_ne, lookup_delete_ne).
  assert (cur' !! lockp = cur !! lockp) as E3 by (unfold cur'; by rewrite lookup_insert_ne, lookup_delete_ne).
  split.
  - intros m [->|Hm]%elem_of_cons; [| by apply F1]. destruct D as [D1 D2 D3 D4 D5]. split; try (intros n'; by rewrite E1).
    + intros q n'. unfold cur'. rewrite lookup_insert. case_decide; [intros [= <-]; by eapply D2 |].
      intros [_ E]%lookup_delete_Some. by eapply D2.
    + intros n'. rewrite E2, E3. apply D5.
  - intros m n' Hm E. rewrite E2, E3.
    apply elem_of_cons in Hm as [->|Hm]; [split; by apply D | by eapply F2].
  - unfold target. by rewrite E1.
  - intros m [->|Hm]%elem_of_cons; right; [rewrite F3; by left | by apply F4].
Qed.

(** An operation that takes effect without changing the file. *)
Lemma files_commit ns cur old v past : files_ok ns cur old v past → files_ok ns cur old v (v :: past).
Proof using Type. intros [F1 F2 F3 F4]. split; try done. intros m Hm. right. by apply F4. Qed.

(** ** The logic *)

Definition unlocked (c : client) (k : kernel) : Prop := ∀ l, l ∈ locks k → (lk_owner l).1 ≠ c.

(** A call that makes its caller wait is made with nothing in hand that
    another client may be waiting for. *)
Definition may_call (c : client) (q : syscall) (k : kernel) : Prop :=
  match q with
  | MuLock _ => idle c k
  | MuUnlock mu => mutexes k !! (c.1, mu) = Some c
  | LockFile fd r => r = acquire_request ∧ unlocked c k ∧ ∃ n, fds k !! (c, fd) = Some n ∧ names k !! lockp = Some n
  | _ => True
  end.

(** At most one operation of [c] takes effect. *)
Definition may_commit (c : client) (a a' : storage) : Prop :=
  a' = a ∨ ∃ op r v', clients a !! c = Some (Pending op) ∧ takes_effect path op (value a) r v' ∧ a' = commit c r v' a.

Fixpoint ok (c : client) {A} (m : code A) (post : A → world → Prop) (w : world) : Prop :=
  match m with
  | Ret a => ∀ w1, rely c w w1 → Inv w1 → post a w1
  | Ask q k => ∀ w1, rely c w w1 → Inv w1 →
      may_call c q w1.1
      ∧ ∀ a k2, sys c w1.1 q a k2 →
          ∃ a2, may_commit c w1.2 a2 ∧ Inv (k2, a2) ∧ guar c w1 (k2, a2) ∧ ok c (k a) post (k2, a2)
  | Atomic _ _ | Go _ _ => ∀ w1, rely c w w1 → Inv w1 → False
  end.

Lemma ok_later c {A} (m : code A) post w : (∀ w1, rely c w w1 → Inv w1 → ok c m post w1) → ok c m post w.
Proof using Type. destruct m as [a|X f k|q k|p k]; cbn; intros Hok w1 Hr Hi; by eapply (Hok w1). Qed.

Lemma ok_rely c {A} (m : code A) post w w' : rely c w w' → ok c m post w → ok c m post w'.
Proof using Type.
  destruct m as [a|X f k|q k|p k]; cbn; intros Hr Hok w1 Hr1 Hi; (eapply Hok; [by etrans | done]).
Qed.

Lemma ok_seq c {A B} (m : code A) (f : A → code B) post w :
  ok c m (λ a, ok c (f a) post) w → ok c (m ≫= f) post w.
Proof using Type.
  change (m ≫= f) with (bind f m).
  revert w. induction m as [a|X g k IH|q k IH|p k IH]; intros w Hok; cbn in *; [by apply ok_later | done | | done].
  intros w1 Hr Hi. destruct (Hok w1 Hr Hi) as [Hm Hs]. split; [done |].
  intros a k2 Ha. destruct (Hs a k2 Ha) as (a2 & ? & ? & ? & ?). eauto 7.
Qed.

Lemma ok_weaken c {A} (m : code A) (post post' : A → world → Prop) w :
  (∀ a w', post a w' → post' a w') → ok c m post w → ok c m post' w.
Proof using Type.
  intros Hp. revert w. induction m as [a|X f k IH|q k IH|p k IH]; intros w Hok; cbn in *; [auto | done | | done].
  intros w1 Hr Hi. destruct (Hok w1 Hr Hi) as [Hm Hs]. split; [done |].
  intros a k2 Ha. destruct (Hs a k2 Ha) as (a2 & ? & ? & ? & ?). eauto 7.
Qed.
(** ** Calls *)

Lemma may_commit_others c a a' c' : may_commit c a a' → c' ≠ c → clients a' !! c' = clients a !! c'.
Proof using Type. intros [->|(op & r & v' & _ & _ & ->)] Hc; [done |]. cbn. by rewrite lookup_insert_ne. Qed.

Lemma ok_call c q {A} (f : answer q → code A) post w :
  (∀ k a, rely c w (k, a) → Inv (k, a) →
     may_call c q k
     ∧ ∀ x k2, sys c k q x k2 →
         ∃ a2, may_commit c a a2 ∧ files_ok (nodes k2) (names k2) (older k2) (value a2) (past a2)
           ∧ (∀ n, names k !! lockp = Some n → names k2 !! lockp = Some n)
           ∧ (critical c k ∨ files_agree k k2) ∧ ok c (f x) post (k2, a2)) →
  ok c (Ask q f) post w.
Proof using All.
  intros Hc [k a] Hr Hi. destruct (Hc k a Hr Hi) as [Hm Hs]. split; [done |]. intros x k2 Hx.
  destruct (Hs x k2 Hx) as (a2 & Ha & Hf & Hl & Hg & Hok). exists a2. split_and!; [done | | | done].
  - split; [done |]. eapply sys_table; [done | by apply Hi].
  - intros c' Hcc. split; cbn.
    + eapply sys_others; [done | done |]. destruct q; try done. by destruct Hm.
    + done.
    + intros Hcr. destruct Hg as [Hg|Hg]; [| done]. exfalso. apply Hcc. eapply critical_unique; eauto. apply Hi.
    + by eapply may_commit_others.
Qed.

(** What [c] has in hand: its mutex, its open files [F], and the lock it has
    through the descriptor [L] if any. *)
Record held (c : client) (mu : nat) (F : gmap nat nat) (L : option nat) (k : kernel) : Prop := {
  he_fds : ∀ fd, fds k !! (c, fd) = F !! fd;
  he_lock : match L with
            | None => unlocked c k
            | Some fd => ∃ n, F !! fd = Some n ∧ names k !! lockp = Some n
                ∧ (∀ l, l ∈ locks k → (lk_owner l).1 = c → lk_owner l = (c, fd))
                ∧ ∃ l, l ∈ locks k ∧ excludes (c, fd) n l
            end;
  he_mutex : ∀ m, mutexes k !! (c.1, m) = Some c ↔ m = mu;
}.

Lemma held_rely c mu F L w w' : rely c w w' → held c mu F L w.1 → held c mu F L w'.1.
Proof using Type.
  intros [[O1 O2 O3 O4] Hl _ _] [G1 G2 G3]. split.
  - intros fd. by rewrite O1.
  - destruct L as [fd|].
    + destruct G2 as (n & Hf & Hn & Ho & l & Hin & He). exists n. split_and!; auto.
      * intros l' Hl'. intros E. apply Ho; [by apply O2 | done].
      * exists l. split; [| done]. apply O2; [by destruct He as [-> _] | done].
    + intros l Hin E. apply O2 in Hin; [| done]. by apply (G2 l Hin).
  - intros m. rewrite <- G3. split; auto.
Qed.

Lemma held_critical c mu F fd k : held c mu F (Some fd) k → critical c k.
Proof using Type.
  intros [_ (n & _ & Hn & Ho & l & Hin & He) _]. exists n, l. destruct He as (Hol & ?). rewrite Hol. unfold excludes. by rewrite Hol.
Qed.

Lemma agree_refl k k' : names k' = names k → nodes k' = nodes k → files_agree k k'.
Proof using Type. intros E1 E2. split; by rewrite ?E1, ?E2. Qed.

(** Calls that leave the files alone. *)
Definition quiet (q : syscall) : bool :=
  match q with
  | OpenFile _ _ | WriteFile _ _ | SyncFile _ | RenameFile _ _ | RemoveFile _ => false
  | _ => true
  end.

Lemma quiet_files c k q x k2 :
  quiet q = true → sys c k q x k2 → names k2 = names k ∧ nodes k2 = nodes k ∧ older k2 = older k.
Proof using Type.
  intros Hq Hs. destruct q; try done; cbn in Hs; try (destruct Hs as [? ->]; done); try (by subst).
  - destruct x; [by subst |]. by destruct Hs as (n & ls & _ & _ & ->).
  - destruct x; [by subst |]. by destruct Hs as (n & _ & ->).
  - by destruct Hs as [-> _].
Qed.

Lemma ok_quiet c q {A} (f : answer q → code A) post w :
  quiet q = true →
  (∀ k a, rely c w (k, a) → Inv (k, a) →
     may_call c q k ∧ ∀ x k2, sys c k q x k2 → ok c (f x) post (k2, a)) →
  ok c (Ask q f) post w.
Proof using All.
  intros Hq Hc. apply ok_call. intros k a Hr Hi. destruct (Hc k a Hr Hi) as [Hm Hs]. split; [done |].
  intros x k2 Hx. destruct (quiet_files _ _ _ _ _ Hq Hx) as (E1 & E2 & E3). exists a.
  rewrite E1, E2, E3. split_and!; [by left | apply Hi | done | right; by apply agree_refl | by apply Hs].
Qed.

(** The mutex. *)
Lemma ok_MuLock c mu {A} (f : unit → code A) post w :
  idle c w.1 →
  (∀ w', held c mu ∅ None w'.1 → clients w'.2 !! c = clients w.2 !! c → ok c (f tt) post w') →
  ok c (Ask (MuLock mu) f) post w.
Proof using All.
  intros Hid Hk. apply ok_quiet; [done |]. intros k a Hr Hi.
  pose proof (idle_same _ _ _ (re_own _ _ _ Hr) Hid) as [I1 I2 I3]; cbn in *. split; [by split |].
  intros [] k2 [Hm ->]. apply Hk; [| apply (re_client _ _ _ Hr)]. split; [done | done |]. cbn. intros m.
  rewrite lookup_insert. case_decide as E; [by split; congruence |].
  split; [by intros ?%I3 | intros ->; done].
Qed.

(** Any answer but a success of the operation is still to be returned. *)
Definition ready (c : client) (op : operation) (r : outcome) (a : storage) : Prop :=
  clients a !! c = Some (Committed r) ∨ clients a !! c = Some (Pending op) ∧ ∀ v, takes_effect path op v r v.

Lemma ok_MuUnlock c mu op r {A} (f : unit → code A) post w :
  held c mu ∅ None w.1 → ready c op r w.2 →
  (∀ w', idle c w'.1 → clients w'.2 !! c = Some (Committed r) → ok c (f tt) post w') →
  ok c (Ask (MuUnlock mu) f) post w.
Proof using All.
  intros Hh Hrd Hk. apply ok_call. intros k a Hr Hi.
  pose proof (held_rely _ _ _ _ _ _ Hr Hh) as [G1 G2 G3]; cbn in *.
  pose proof (re_client _ _ _ Hr) as Hc; cbn in *. split; [by apply G3 |].
  intros [] k2 ->. assert (idle c (set_mutexes (delete (c.1, mu) (mutexes k)) k)) as Hid.
  { split; cbn; [done | done |]. intros m [Hne Hm]%lookup_delete_Some. apply G3 in Hm. congruence. }
  destruct Hrd as [Hrd|[Hrd Ht]].
  - exists a. split_and!; [by left | apply Hi | done | right; by apply agree_refl |].
    apply Hk; [done |]. cbn. congruence.
  - exists (commit c r (value a) a). split_and!; [| by apply files_commit, Hi | done | right; by apply agree_refl |].
    + right. exists op, r, (value a). split_and!; [congruence | done | done].
    + apply Hk; [done |]. cbn. by rewrite lookup_insert_eq.
Qed.

(** The lock file. *)
Lemma insert_fd (c : client) (fd n : nat) (m : gmap (client * nat) nat) (F : gmap nat nat) :
  (∀ fd', m !! (c, fd') = F !! fd') → ∀ fd', <[(c, fd) := n]> m !! (c, fd') = <[fd := n]> F !! fd'.
Proof using Type.
  intros Hf fd'. rewrite !lookup_insert. repeat case_decide; simplify_eq; done.
Qed.

Lemma create_agree p n f k :
  p = lockp ∨ p = tempp → names k !! p = None → nodes k !! n = None → (∀ q n', names k !! q = Some n' → is_Some (nodes k !! n')) →
  p = lockp → files_agree k (set_names (<[p := n]> (names k)) (set_nodes (<[n := f]> (nodes k)) k)).
Proof using Type.
  intros _ Hp Hn Hno ->. split; cbn.
  - intros q Hq. by apply lookup_insert_ne.
  - intros q n' _ E. apply lookup_insert_ne. intros ->. destruct (Hno _ _ E). congruence.
Qed.

Lemma ok_open_lock c mu {A} (f : result error nat → code A) post w :
  held c mu ∅ None w.1 →
  (∀ e w', held c mu ∅ None w'.1 → clients w'.2 !! c = clients w.2 !! c → ok c (f (Err e)) post w') →
  (∀ fd n w', held c mu {[fd := n]} None w'.1 → names w'.1 !! lockp = Some n → clients w'.2 !! c = clients w.2 !! c →
     ok c (f (Ok fd)) post w') →
  ok c (Ask (OpenFile lockp false) f) post w.
Proof using All.
  intros Hh He Hk. apply ok_call. intros k a Hr Hi. split; [done |].
  pose proof (held_rely _ _ _ _ _ _ Hr Hh) as Hh'. pose proof (re_client _ _ _ Hr) as Hc. cbn in Hh', Hc.
  intros [e|fd] k2; cbn.
  - intros ->. exists a. split_and!; [by left | apply Hi | done | right; by apply agree_refl | by apply He].
  - intros [Hfd Hs]. exists a. destruct Hh' as [G1 G2 G3].
    assert (∀ n fd', <[(c, fd) := n]> (fds k) !! (c, fd') = ({[fd := n]} : gmap nat nat) !! fd') as Hf
      by (intros n; apply (insert_fd _ _ _ _ ∅); done).
    destruct (names k !! lockp) as [n|] eqn:En.
    + subst k2. split_and!; [by left | apply Hi | by intros n' [= <-] | right; by apply agree_refl |].
      apply (Hk fd n); [split; [apply Hf | apply G2 | apply G3] | done | done].
    + destruct Hs as (n & Hn & ->). cbn. split_and!; [by left | | done | right |].
      * apply files_create; [by left | done | done | apply Hi].
      * apply (create_agree lockp); [by left | done | done | | done].
        intros q n' E. eapply do_nodes, E. eapply fo_dirs; [apply Hi | by left].
      * apply (Hk fd n); [split; [apply Hf | apply G2 | apply G3] | by apply lookup_insert_eq | done].
Qed.

Lemma ok_LockFile c mu fd n {A} (f : option error → code A) post w :
  held c mu {[fd := n]} None w.1 → names w.1 !! lockp = Some n →
  (∀ e w', held c mu {[fd := n]} None w'.1 → clients w'.2 !! c = clients w.2 !! c → ok c (f (Some e)) post w') →
  (∀ w', held c mu {[fd := n]} (Some fd) w'.1 → clients w'.2 !! c = clients w.2 !! c → ok c (f None) post w') →
  ok c (Ask (LockFile fd acquire_request) f) post w.
Proof using All.
  intros Hh Hn He Hk. apply ok_quiet; [done |]. intros k a Hr Hi.
  pose proof (held_rely _ _ _ _ _ _ Hr Hh) as Hh'. pose proof (re_client _ _ _ Hr) as Hc.
  pose proof (re_lock _ _ _ Hr _ Hn) as Hn'. cbn in Hh', Hc, Hn'. pose proof Hh' as [G1 G2 G3].
  assert (fds k !! (c, fd) = Some n) as Hfd by (by rewrite G1, lookup_singleton_eq).
  split; [cbn; eauto |]. intros [e|] k2; cbn.
  - intros ->. by apply (He e).
  - intros (n' & ls & Hf & Hg & ->). assert (n' = n) as -> by congruence. apply Hk; [| done].
    split; [done | | done]. cbn. exists n. split_and!; [by apply lookup_singleton_eq | done | |].
    + intros l Hl Ho. destruct (granted_own _ _ _ _ _ Hg Hl) as [?|Hin]; [done |]. by destruct (G2 _ Hin).
    + destruct (granted_excludes _ _ _ _ Hg) as (l & Hl & He'). eauto.
Qed.

Lemma held_close c mu F L fd k :
  held c mu F L k →
  held c mu (delete fd F) (if decide (L = Some fd) then None else L)
    (set_locks (drop_owner (c, fd) (locks k)) (set_fds (delete (c, fd) (fds k)) k)).
Proof using Type.
  intros [G1 G2 G3]. split; cbn; [| | done].
  - intros fd'. rewrite !lookup_delete. repeat case_decide; simplify_eq; done.
  - case_decide as E; [subst |].
    + destruct G2 as (n & _ & _ & Ho & _). intros l [Hne Hin]%list_elem_of_filter Hl. by apply Hne, Ho.
    + destruct L as [fd'|]; cbn.
      * destruct G2 as (n & Hf & Hn & Ho & l & Hin & Hl). exists n.
        assert (fd' ≠ fd) by congruence. rewrite lookup_delete_ne by done. split_and!; [done | done | |].
        -- intros l' [_ Hin']%list_elem_of_filter. by apply Ho.
        -- exists l. split; [| done]. apply list_elem_of_filter. split; [| done]. destruct Hl as (-> & _). congruence.
      * intros l [_ Hin]%list_elem_of_filter. by apply G2.
Qed.

Lemma ok_CloseFile c mu F L fd {A} (f : option error → code A) post w :
  held c mu F L w.1 →
  (∀ e w', held c mu (delete fd F) (if decide (L = Some fd) then None else L) w'.1 →
     clients w'.2 !! c = clients w.2 !! c → ok c (f e) post w') →
  ok c (Ask (CloseFile fd) f) post w.
Proof using All.
  intros Hh Hk. apply ok_quiet; [done |]. intros k a Hr Hi.
  pose proof (held_rely _ _ _ _ _ _ Hr Hh) as Hh'. split; [done |]. intros e k2 ->.
  apply Hk; [by apply held_close | apply (re_client _ _ _ Hr)].
Qed.

(** Calls with no effect on what [c] has. *)
Lemma ok_noop c mu F L q {A} (f : answer q → code A) post w :
  match q with MkdirDir _ | MarshalIndent => True | _ => False end → held c mu F L w.1 →
  (∀ x w', held c mu F L w'.1 → clients w'.2 !! c = clients w.2 !! c → ok c (f x) post w') →
  ok c (Ask q f) post w.
Proof using All.
  intros Hq Hh Hk. apply ok_quiet; [by destruct q |]. intros k a Hr Hi.
  pose proof (held_rely _ _ _ _ _ _ Hr Hh) as Hh'.
  destruct q; try done; (split; [done |]; intros x k2 ->; apply Hk; [done | apply (re_client _ _ _ Hr)]).
Qed.
(** ** The code *)

(** Brings the next call of the code to the front. *)
Ltac next_call :=
  match goal with |- ok ?c ?m ?post ?w => let m' := eval hnf in m in change (ok c m' post w) end.

(** What [c] has, and where its operation is. *)
Definition has (c : client) mu F L (p : option progress) (w : world) : Prop :=
  held c mu F L w.1 ∧ clients w.2 !! c = p.

Lemma has_rely c mu F L p w w' : rely c w w' → has c mu F L p w → has c mu F L p w'.
Proof using Type. intros Hr [Hh Hp]. split; [by eapply held_rely | by rewrite (re_client _ _ _ Hr)]. Qed.

Lemma ok_return c {A} (a : A) post w : (∀ w1, rely c w w1 → post a w1) → ok c (mret a) post w.
Proof using Type. intros Hp w1 Hr _. by apply Hp. Qed.

(** What the acquisition of the lock may answer. *)
Definition lock_error (e : error) : Prop :=
  ∃ e', e = Errorf "failed to create lock directory: %w" (Some e') ∨ e = Errorf "failed to open lock file: %w" (Some e')
    ∨ e = Errorf "failed to acquire file lock: %w" (Some e').

Lemma ok_acquire c mu p w :
  has c mu ∅ None p w →
  ok c (sys_acquireFileLock path)
    (λ r w', match r with Err e => lock_error e ∧ has c mu ∅ None p w' | Ok fd => ∃ n, has c mu {[fd := n]} (Some fd) p w' end) w.
Proof using All.
  intros [Hh Hp]. eapply ok_noop; [exact I | exact Hh |]. intros [e|] w1 Hh1 E1; cbn.
  { intros w' Hr _. split; [exists e; auto |]. apply (has_rely _ _ _ _ _ _ _ Hr). split; [done | congruence]. }
  apply (ok_open_lock _ _ _ _ _ Hh1).
  { intros e w2 Hh2 E2 w' Hr _. split; [exists e; auto |]. apply (has_rely _ _ _ _ _ _ _ Hr). split; [done | congruence]. }
  intros fd n w2 Hh2 Hn E2. apply (ok_LockFile _ _ _ _ _ _ _ Hh2 Hn).
  - intros e w3 Hh3 E3. apply (ok_CloseFile _ _ _ _ _ _ _ _ Hh3). intros e' w4 Hh4 E4 w' Hr _.
    split; [exists e; auto |]. apply (has_rely _ _ _ _ _ _ _ Hr). split; [| congruence].
    rewrite delete_singleton_eq in Hh4. by case_decide.
  - intros w3 Hh3 E3 w' Hr _. exists n. apply (has_rely _ _ _ _ _ _ _ Hr). split; [done | congruence].
Qed.

(** Unlocking changes the locks of the descriptor only. *)
Lemma ok_release c mu fd n p w :
  has c mu {[fd := n]} (Some fd) p w →
  ok c (sys_releaseFileLock (Some fd)) (λ _ w', has c mu ∅ None p w') w.
Proof using All.
  intros [Hh Hp]. apply ok_quiet; [done |]. intros k a Hr Hi. split; [done |].
  pose proof (held_rely _ _ _ _ _ _ Hr Hh) as [G1 G2 G3]. pose proof (re_client _ _ _ Hr) as Hc.
  cbn in G1, G2, G3, Hc. intros e k2 Hs. cbn in Hs.
  assert (fds k2 = fds k ∧ mutexes k2 = mutexes k ∧ ∀ l, l ∈ locks k2 → l ∈ locks k) as (E1 & E2 & E3).
  { destruct e; [by subst |]. destruct Hs as (n' & _ & ->). split_and!; [done | done |]. intros l. apply release_subset. }
  next_call. apply ok_quiet; [done |]. intros k3 a3 Hr3 Hi3. split; [done |]. intros e' k4 -> w' Hr' _.
  apply (has_rely _ _ _ _ _ _ _ Hr'). pose proof (re_own _ _ _ Hr3) as [O1 O2 O3 O4]. cbn in *.
  split; [| cbn; pose proof (re_client _ _ _ Hr3) as Hc3; cbn in Hc3; congruence].
  split; cbn.
  - intros fd'. rewrite lookup_delete. case_decide as Hd; [done |]. rewrite O1, E1, G1, lookup_empty, lookup_singleton_ne; [done |].
    congruence.
  - intros l [Hne Hl]%list_elem_of_filter Ho. destruct G2 as (n' & _ & _ & Ho' & _). apply Hne, Ho'; [| done].
    apply E3. by apply O2.
  - intros m. rewrite <- G3, <- E2. split; auto.
Qed.

(** The whole of a method, around its body. *)
Lemma ok_locked_section c mu op {A} (wrap : A → outcome) refused (body : code A) w :
  idle c w.1 → clients w.2 !! c = Some (Pending op) →
  (∀ e v, lock_error e → takes_effect path op v (wrap (refused e)) v) →
  (∀ fd n w1, has c mu {[fd := n]} (Some fd) (Some (Pending op)) w1 →
     ok c body (λ r w', ∃ p, has c mu {[fd := n]} (Some fd) p w' ∧ ready c op (wrap r) w'.2) w1) →
  ok c (r ← locked_section mu path refused body; mret (wrap r))
    (λ r w', idle c w'.1 ∧ clients w'.2 !! c = Some (Committed r)) w.
Proof using All.
  intros Hid Hp Hrf Hb. unfold locked_section. apply ok_seq.
  apply (ok_MuLock _ _ _ _ _ Hid). intros w1 Hh1 E1.
  assert (has c mu ∅ None (Some (Pending op)) w1) as Hw1 by (split; [done | congruence]).
  assert (∀ r w', has c mu ∅ None (clients w'.2 !! c) w' → ready c op (wrap r) w'.2 →
    ok c (_ ← (ask (MuUnlock mu) : code unit); mret r)
      (λ r0, ok c (mret (wrap r0)) (λ r w', idle c w'.1 ∧ clients w'.2 !! c = Some (Committed r))) w') as Hend.
  { intros r w' [Hh _] Hr. apply (ok_MuUnlock _ _ _ _ _ _ _ Hh Hr). intros w2 Hid2 E2 w3 Hr3 _ w4 Hr4 _.
    pose proof (transitivity Hr3 Hr4) as Hr'. split; [by eapply idle_same, Hid2; apply Hr' | by rewrite (re_client _ _ _ Hr')]. }
  apply ok_seq. eapply ok_weaken; [| by apply ok_acquire]. intros [e|fd] w2; lazy beta iota.
  - intros [He Hw2]. apply Hend; [split; [apply Hw2 | done] |]. right. split; [apply Hw2 | intros v; by apply Hrf].
  - intros (n & Hw2). apply ok_seq. eapply ok_weaken; [| by apply (Hb _ _ _ Hw2)].
    intros r w3 (p & Hw3 & Hrd). apply ok_seq. eapply ok_weaken; [| by eapply ok_release].
    intros _ w4 [Hh4 Hp4]. apply Hend; [by split |]. unfold ready in *. rewrite Hp4. by destruct Hw3 as [_ <-].
Qed.
(** ** When an operation takes effect *)

Definition disk_of (v : option file) : disk :=
  {| current := match v with Some f => {[path := f]} | None => ∅ end; visited := [] |}.

Lemma disk_of_target v : current (disk_of v) !! path = v.
Proof using Type. destruct v; cbn; [apply lookup_singleton_eq | done]. Qed.

(** Everything succeeds but one call. *)
Definition fail_at (op : io_op) (e : error) : io_op → option error :=
  λ x, match op, x with
       | OpLockDir, OpLockDir | OpLockOpen, OpLockOpen | OpLock, OpLock | OpMkdir, OpMkdir | OpMarshal, OpMarshal
       | OpRead, OpRead | OpOpenTemp, OpOpenTemp | OpWrite, OpWrite | OpSync, OpSync | OpClose, OpClose
       | OpRename, OpRename | OpRemove, OpRemove | OpBackup, OpBackup => Some e
       | _, _ => None
       end.

(** What the content of the file means. *)
Definition parsed (f : content) : option addressBookData :=
  match f with
  | CEmpty => Some empty_book
  | CCorrupt => None
  | CDoc j => (λ x, {| Version := x.1; Peers := default ∅ x.2 |}) <$> unmarshal_book j
  end.

Lemma load_now o v r v' :
  (load o path (disk_of v)).1 = r → current (load o path (disk_of v)).2 !! path = v' → takes_effect path OpLoad v (Loaded r) v'.
Proof using Type. intros <- <-. exists o, (disk_of v). eexists. split_and!; [apply disk_of_target | done | apply surjective_pairing]. Qed.

Lemma save_now o b v r v' :
  (save o path b (disk_of v)).1 = r → current (save o path b (disk_of v)).2 !! path = v' → takes_effect path (OpSave b) v (Saved r) v'.
Proof using Type. intros <- <-. exists o, (disk_of v). eexists. split_and!; [apply disk_of_target | done | apply surjective_pairing]. Qed.

(** [load] once it has the lock and can read. *)
Lemma load_read o d :
  o OpLockDir = None → o OpLockOpen = None → o OpLock = None → o OpRead = None →
  let d1 := {| current := create_lock path (current d); visited := create_lock path (current d) :: visited d |} in
  load o path d =
    match current d !! path with
    | None => (Ok empty_book, d1)
    | Some f =>
        match parsed (f_content f), o OpBackup with
        | Some b, _ => (Ok b, d1)
        | None, Some _ => (Err (Errorf "failed to parse address book and backup failed: parse error: %w, backup error: %v" None), d1)
        | None, None => (Ok empty_book, {| current := rename path backupp (current d1); visited := rename path backupp (current d1) :: visited d1 |})
        end
    end.
Proof using Type.
  intros E1 E2 E3 E4. unfold load, acquireFileLock, set_fs, st_gets, mbind, ST_bind, mret, ST_ret. rewrite E1, E2, E3, E4. cbn.
  rewrite create_lock_path. unfold parsed. destruct (current d !! path) as [[[| |j] ?]|]; cbn; try done.
  - by destruct (o OpBackup).
  - destruct (unmarshal_book j) as [[]|]; cbn; [done | by destruct (o OpBackup)].
Qed.

Lemma load_ok v b :
  match v with None => Some empty_book | Some f => parsed (f_content f) end = Some b → takes_effect path OpLoad v (Loaded (Ok b)) v.
Proof using Type.
  intros Hb. apply (load_now io_ok); rewrite load_read, disk_of_target by done; destruct v; simplify_eq; rewrite ?Hb; cbn; try done.
  all: rewrite create_lock_path; done || apply (disk_of_target (Some _)).
Qed.

Lemma load_corrupt f : parsed (f_content f) = None → takes_effect path OpLoad (Some f) (Loaded (Ok empty_book)) None.
Proof using Type.
  intros Hb. pose proof paths_ne as (_ & _ & Hn & _).
  apply (load_now io_ok); rewrite load_read, disk_of_target by done; rewrite Hb; cbn; [done |].
  unfold rename. by rewrite create_lock_path, lookup_singleton_eq, lookup_insert_ne, lookup_delete_eq.
Qed.

Lemma load_not_moved (e : error) f :
  parsed (f_content f) = None →
  takes_effect path OpLoad (Some f)
    (Loaded (Err (Errorf "failed to parse address book and backup failed: parse error: %w, backup error: %v" None))) (Some f).
Proof using Type.
  intros Hb. apply (load_now (fail_at OpBackup e)); rewrite load_read, disk_of_target by done; rewrite Hb; cbn; [done |].
  rewrite create_lock_path. apply (disk_of_target (Some f)).
Qed.

Lemma load_unread e v : takes_effect path OpLoad v (Loaded (Err (Errorf "failed to read address book: %w" (Some e)))) v.
Proof using Type. apply (load_now (fail_at OpRead e)); [done |].
  transitivity (create_lock path (current (disk_of v)) !! path); [done | by rewrite create_lock_path, disk_of_target]. Qed.

Lemma load_not_locked e v :
  lock_error e → takes_effect path OpLoad v (Loaded (Err (Errorf "failed to acquire lock for load: %w" (Some e)))) v.
Proof using Type.
  intros (e' & [->|[->| ->]]); [apply (load_now (fail_at OpLockDir e')) | apply (load_now (fail_at OpLockOpen e')) | apply (load_now (fail_at OpLock e'))].
  all: try done; try apply disk_of_target.
  all: transitivity (create_lock path (current (disk_of v)) !! path); [done | by rewrite create_lock_path, disk_of_target].
Qed.

Lemma save_not_locked b e v :
  lock_error e → takes_effect path (OpSave b) v (Saved (Some (Errorf "failed to acquire lock for save: %w" (Some e)))) v.
Proof using Type.
  intros (e' & [->|[->| ->]]); [apply (save_now (fail_at OpLockDir e')) | apply (save_now (fail_at OpLockOpen e')) | apply (save_now (fail_at OpLock e'))].
  all: try done; try apply disk_of_target.
  all: transitivity (create_lock path (current (disk_of v)) !! path); [done | by rewrite create_lock_path, disk_of_target].
Qed.

(** A save that fails, at whatever call. *)
Lemma save_failed b e v :
  (∃ o, (save o path b (disk_of v)).1 = Some e) → takes_effect path (OpSave b) v (Saved (Some e)) v.
Proof using Type.
  intros (o & E). apply (save_now o); [done |]. pose proof (save_final o path b (current (disk_of v))) as Hf. cbv zeta in Hf.
  change {| current := current (disk_of v); visited := [] |} with (disk_of v) in Hf. rewrite E in Hf.
  destruct Hf as [-> _]. apply disk_of_target.
Qed.

Lemma save_done b v :
  takes_effect path (OpSave b) v (Saved None) (Some {| f_content := CDoc (marshal_book b); f_synced := true |}).
Proof using Type.
  apply (save_now io_ok); [done |]. pose proof (save_final io_ok path b (current (disk_of v))) as Hf. by destruct Hf.
Qed.

Lemma save_refused b e v :
  (∃ e', e = Errorf "failed to create directory: %w" (Some e') ∨ e = Errorf "failed to marshal address book: %w" (Some e')
     ∨ e = Errorf "failed to create temporary file: %w" (Some e') ∨ e = Errorf "failed to write temporary file: %w" (Some e')
     ∨ e = Errorf "failed to sync temporary file: %w" (Some e') ∨ e = Errorf "failed to close temporary file: %w" (Some e')
     ∨ e = Errorf "failed to rename temporary file: %w" (Some e')) → takes_effect path (OpSave b) v (Saved (Some e)) v.
Proof using Type.
  intros (e' & He). apply save_failed. destruct_or! He; subst;
    [exists (fail_at OpMkdir e') | exists (fail_at OpMarshal e') | exists (fail_at OpOpenTemp e') | exists (fail_at OpWrite e')
    | exists (fail_at OpSync e') | exists (fail_at OpClose e') | exists (fail_at OpRename e')]; reflexivity.
Qed.
(** ** The body of [load] *)

(** A call in the critical section: nobody else touches the files meanwhile. *)
Lemma ok_crit c mu F fd q {A} (f : answer q → code A) post w :
  held c mu F (Some fd) w.1 → may_call c q w.1 →
  match q with MuLock _ | MuUnlock _ | LockFile _ _ => False | _ => True end →
  (∀ k a, rely c w (k, a) → Inv (k, a) → held c mu F (Some fd) k → files_agree w.1 k → clients a !! c = clients w.2 !! c →
     ∀ x k2, sys c k q x k2 →
       ∃ a2, may_commit c a a2 ∧ files_ok (nodes k2) (names k2) (older k2) (value a2) (past a2)
         ∧ names k2 !! lockp = names k !! lockp ∧ ok c (f x) post (k2, a2)) →
  ok c (Ask q f) post w.
Proof using All.
  intros Hh Hm Hq Hk. apply ok_call. intros k a Hr Hi. pose proof (held_rely _ _ _ _ _ _ Hr Hh) as Hh'.
  split; [by destruct q |]. intros x k2 Hx.
  destruct (Hk k a Hr Hi Hh' (re_files _ _ _ Hr (held_critical _ _ _ _ _ Hh)) (re_client _ _ _ Hr) x k2 Hx) as (a2 & H3 & H4 & E & H5).
  exists a2. split_and!; [done | done | by rewrite E | left; by eapply held_critical | done].
Qed.

Notation in_section c mu fd n p := (has c mu {[fd := n]} (Some fd) p) (only parsing).

(** The body has returned [r]. *)
Definition body_done (c : client) mu fd n op (r : outcome) (w : world) : Prop :=
  ∃ p, has c mu {[fd := n]} (Some fd) p w ∧ ready c op r w.2.

Lemma ok_done c mu fd n op {A} (wrap : A → outcome) (r : A) w :
  body_done c mu fd n op (wrap r) w → ok c (mret r) (λ r w', body_done c mu fd n op (wrap r) w') w.
Proof using Type.
  intros (p & Hw & Hrd). apply ok_return. intros w1 Hr. exists p. split; [by eapply has_rely |].
  unfold ready in *. by rewrite (re_client _ _ _ Hr).
Qed.

Lemma Inv_value k a : Inv (k, a) → value a = target (nodes k) (names k).
Proof using Type. intros [Hf _]. apply Hf. Qed.

Lemma target_names (k : kernel) : target (nodes k) (names k) = names k !! path ≫= λ n, nodes k !! n.
Proof using Type. done. Qed.

(** A corrupt file is moved away. *)
Lemma ok_backup c mu fd n w f :
  in_section c mu fd n (Some (Pending OpLoad)) w → target (nodes w.1) (names w.1) = Some f → parsed (f_content f) = None →
  ok c (sys_backup path) (λ r w', body_done c mu fd n OpLoad (Loaded r) w') w.
Proof using All.
  intros [Hh Hp] Ht Hc. pose proof paths_ne as (_ & Hl & _ & _ & _ & Hlb).
  apply (ok_crit _ _ _ _ _ _ _ _ Hh); [done | done |].
  intros k a Hr Hi Hh' [A1 A2] Hcl x k2 Hs.
  assert (∃ m, names k !! path = Some m ∧ nodes k !! m = Some f) as (m & Hm & Hf).
  { unfold target in Ht. apply bind_Some in Ht as (m & Hm & Hf). exists m. split; [by rewrite A1 by done |].
    by rewrite (A2 path m). }
  assert (value a = Some f) as Hv by (rewrite (Inv_value _ _ Hi); unfold target; by rewrite Hm).
  rewrite Hp in Hcl. destruct x as [e|]; cbn in Hs.
  - subst k2. exists (commit c (Loaded (Err (Errorf "failed to parse address book and backup failed: parse error: %w, backup error: %v" None))) (value a) a).
    split_and!; [| apply files_commit, Hi | done |].
    + right. do 3 eexists. split_and!; [done | | done]. rewrite Hv. by apply (load_not_moved e).
    + apply ok_done. eexists. split; [split; [done | reflexivity] |]. left. cbn. by rewrite lookup_insert_eq.
  - destruct Hs as (m' & Hm' & ->). assert (m' = m) as -> by congruence.
    exists (commit c (Loaded (Ok empty_book)) None a). split_and!.
    + right. do 3 eexists. split_and!; [done | | done]. rewrite Hv. by apply load_corrupt.
    + cbn. apply files_backup; [done | apply Hi].
    + cbn. by rewrite lookup_insert_ne, lookup_delete_ne.
    + apply ok_done. eexists. split; [split; [| reflexivity] |]; [| left; cbn; by rewrite lookup_insert_eq].
      destruct Hh' as [G1 (n' & G2 & G3 & G4) G5]. split; [done | | done]. exists n'. cbn.
      by rewrite lookup_insert_ne, lookup_delete_ne.
Qed.

Lemma ok_load_body c mu fd n w :
  in_section c mu fd n (Some (Pending OpLoad)) w →
  ok c (load_body path) (λ r w', body_done c mu fd n OpLoad (Loaded r) w') w.
Proof using All.
  intros [Hh Hp]. apply (ok_crit _ _ _ _ _ _ _ _ Hh); [done | done |].
  intros k a Hr Hi Hh' _ Hcl x k2 Hs. rewrite Hp in Hcl. destruct Hs as [-> Hx].
  assert (∀ b, match value a with None => Some empty_book | Some f => parsed (f_content f) end = Some b →
    ∃ a2, may_commit c a a2 ∧ files_ok (nodes k) (names k) (older k) (value a2) (past a2) ∧ names k !! lockp = names k !! lockp
      ∧ ok c (mret (Ok b)) (λ r w', body_done c mu fd n OpLoad (Loaded r) w') (k, a2)) as Hok.
  { intros b Hb. exists (commit c (Loaded (Ok b)) (value a) a). split_and!; [| apply files_commit, Hi | done |].
    - right. do 3 eexists. split_and!; [done | by apply load_ok | done].
    - apply ok_done. eexists. split; [split; [done | reflexivity] |]. left. cbn. by rewrite lookup_insert_eq. }
  destruct x as [e|x].
  { exists a. split_and!; [by left | apply Hi | done |]. apply ok_done. eexists. split; [split; [done | reflexivity] |].
    right. split; [done |]. intros v. apply load_unread. }
  rewrite <- target_names, <- (Inv_value _ _ Hi) in Hx. subst x.
  assert (∀ f, value a = Some f → parsed (f_content f) = None →
    ∃ a2, may_commit c a a2 ∧ files_ok (nodes k) (names k) (older k) (value a2) (past a2) ∧ names k !! lockp = names k !! lockp
      ∧ ok c (sys_backup path) (λ r w', body_done c mu fd n OpLoad (Loaded r) w') (k, a2)) as Hback.
  { intros f Hf Hb. exists a. split_and!; [by left | apply Hi | done |]. apply (ok_backup _ _ _ _ _ f); [done | | done].
    rewrite <- Hf. symmetry. by apply Inv_value. }
  destruct (value a) as [[ct sy]|] eqn:Hv; cbn in Hok, Hback |- *; [| by apply Hok].
  destruct ct as [| |j]; [by apply Hok | by eapply Hback |]. unfold parsed in *.
  destruct (unmarshal_book j) as [[ver ps]|] eqn:Hj; cbn in Hok; [by apply Hok |]. eapply Hback; [done |]. cbn. by rewrite Hj.
Qed.
(** ** The body of [save] *)

(** The files [c] has open while it writes. *)
Definition open_files (fd n : nat) (tempFile : option nat) (t : nat) : gmap nat nat :=
  match tempFile with Some tfd => <[tfd := t]> {[fd := n]} | None => {[fd := n]} end.

(** The temporary file [t] holds [f]. *)
Record drafting (c : client) mu fd n (tempFile : option nat) t (f : file) b (w : world) : Prop := {
  dr_has : has c mu (open_files fd n tempFile t) (Some fd) (Some (Pending (OpSave b))) w;
  dr_name : names w.1 !! tempp = Some t;
  dr_node : nodes w.1 !! t = Some f;
  dr_fresh : tempFile ≠ Some fd;
}.

(** A call on the draft. *)
Lemma ok_draft c mu fd n tf t f b q {A} (g : answer q → code A) post w :
  drafting c mu fd n tf t f b w → may_call c q w.1 →
  match q with MuLock _ | MuUnlock _ | LockFile _ _ => False | _ => True end →
  (∀ k a, Inv (k, a) → drafting c mu fd n tf t f b (k, a) → ∀ x k2, sys c k q x k2 →
       ∃ a2, may_commit c a a2 ∧ files_ok (nodes k2) (names k2) (older k2) (value a2) (past a2)
         ∧ names k2 !! lockp = names k !! lockp ∧ ok c (g x) post (k2, a2)) →
  ok c (Ask q g) post w.
Proof using All.
  intros [[Hh Hp] Hn Hf Hne] Hm Hq Hk. pose proof paths_ne as (_ & _ & _ & Htl & _).
  apply (ok_crit _ _ _ _ _ _ _ _ Hh Hm Hq). intros k a Hr Hi Hh' [A1 A2] Hc x k2 Hs. eapply Hk; [done | | done].
  split; [split; [done | cbn; congruence] | | | done]; cbn; [by rewrite A1 | by rewrite (A2 tempp)].
Qed.

Lemma drafting_refused c mu fd n t f b e w :
  drafting c mu fd n None t f b w → (∀ v, takes_effect path (OpSave b) v (Saved (Some e)) v) →
  body_done c mu fd n (OpSave b) (Saved (Some e)) w.
Proof using Type. intros [[Hh Hp] _ _ _] He. eexists. split; [by split |]. right. by split. Qed.

Lemma drafting_close c mu fd n tfd t f b k a :
  drafting c mu fd n (Some tfd) t f b (k, a) →
  drafting c mu fd n None t f b (set_locks (drop_owner (c, tfd) (locks k)) (set_fds (delete (c, tfd) (fds k)) k), a).
Proof using Type.
  intros [[Hh Hp] Hn Hf Hne]. split; [split; [| done] | done | done | done]. cbn in *.
  pose proof (held_close _ _ _ _ tfd _ Hh) as Hc. rewrite decide_False in Hc by congruence.
  cbn in Hc. rewrite delete_insert_id in Hc; [done |]. rewrite lookup_singleton_ne; congruence.
Qed.

Lemma ok_discard c mu fd n tf t f b e w :
  drafting c mu fd n tf t f b w → (∀ v, takes_effect path (OpSave b) v (Saved (Some e)) v) →
  ok c (discard tf path e) (λ r w', body_done c mu fd n (OpSave b) (Saved r) w') w.
Proof using All.
  intros Hd He. pose proof paths_ne as (_ & _ & _ & Htl & _).
  assert (∀ w, drafting c mu fd n None t f b w →
    ok c (_ ← (ask (RemoveFile tempp) : code (option error)); mret (Some e))
      (λ r w', body_done c mu fd n (OpSave b) (Saved r) w') w) as Hrem.
  { clear w Hd. intros w Hd. apply (ok_draft _ _ _ _ _ _ _ _ _ _ _ _ Hd); [done | done |].
    intros k a Hi Hd' x k2 Hs. destruct Hd' as [[Hh Hp] Hn Hf _]. cbn in Hh, Hp, Hn, Hf.
    destruct x as [e'|]; cbn in Hs.
    - subst k2. exists a. split_and!; [by left | apply Hi | done |]. apply ok_done, (drafting_refused _ _ _ _ t f); [by split | done].
    - destruct Hs as [_ ->]. exists a. cbn. split_and!; [by left | apply files_remove, Hi | by rewrite lookup_delete_ne |].
      apply ok_done. exists (Some (Pending (OpSave b))). split; [| right; by split]. split; [| done].
      destruct Hh as [G1 (n' & G2 & G3 & G4) G5]. split; [done | | done]. exists n'. cbn. by rewrite lookup_delete_ne. }
  destruct tf as [tfd|]; [| by apply (Hrem w)].
  apply (ok_draft _ _ _ _ _ _ _ _ _ _ _ _ Hd); [done | done |].
  intros k a Hi Hd' x k2 ->. exists a. split_and!; [by left | apply Hi | done |].
  apply (Hrem (_, a)). by apply drafting_close.
Qed.

Lemma drafting_put c mu fd n tf t f b ct sy k a :
  drafting c mu fd n tf t f b (k, a) → drafting c mu fd n tf t {| f_content := ct; f_synced := sy |} b (put_node t ct sy k, a).
Proof using Type.
  intros [[[G1 G2 G3] Hp] Hn Hf Hne]. split; [split; [by split | done] | done | | done]. cbn. by rewrite lookup_insert_eq.
Qed.

Lemma drafting_fd c mu fd n tfd t f b k a : drafting c mu fd n (Some tfd) t f b (k, a) → fds k !! (c, tfd) = Some t.
Proof using Type. intros [[[G1 _ _] _] _ _ _]. cbn in *. rewrite G1. cbn. apply lookup_insert_eq. Qed.

Lemma put_files k a t ct sy :
  Inv (k, a) → names k !! tempp = Some t →
  files_ok (nodes (put_node t ct sy k)) (names (put_node t ct sy k)) (older (put_node t ct sy k)) (value a) (past a).
Proof using Type. intros [Hi _] Ht. cbn. by apply files_temp_node. Qed.

Notation finishes c mu fd n b := (λ r w', body_done c mu fd n (OpSave b) (Saved r) w') (only parsing).

Lemma ok_save_rename c mu fd n t b w :
  drafting c mu fd n None t {| f_content := CDoc (marshal_book b); f_synced := true |} b w →
  ok c (save_rename path) (finishes c mu fd n b) w.
Proof using All.
  intros Hd. pose proof paths_ne as (Htp & Hlp & _ & Htl & _).
  apply (ok_draft _ _ _ _ _ _ _ _ _ _ _ _ Hd); [done | done |].
  intros k a Hi Hd1 [e|] k2 Hs; cbn in Hs.
  - subst k2. exists a. split_and!; [by left | apply Hi | done |].
    apply (ok_discard _ _ _ _ None t _ _ _ _ Hd1). intros v. apply save_refused. eauto 10.
  - destruct Hd1 as [[Hh Hp] Hn Hf _]. cbn in Hh, Hp, Hn, Hf. destruct Hs as (t' & Ht' & ->). assert (t' = t) as -> by congruence.
    eexists (commit c (Saved None) _ a). split_and!.
    + right. do 3 eexists. split_and!; [done | apply save_done | done].
    + cbn. by apply files_rename; [..| apply Hi].
    + cbn. by rewrite lookup_insert_ne, lookup_delete_ne.
    + apply ok_done. eexists. split; [split; [| reflexivity] |]; [| left; cbn; by rewrite lookup_insert_eq].
      destruct Hh as [G1 (n' & G2 & G3 & G4) G5]. split; [done | | done]. exists n'. cbn.
      by rewrite lookup_insert_ne, lookup_delete_ne.
Qed.

Lemma ok_save_close c mu fd n tfd t b w :
  drafting c mu fd n (Some tfd) t {| f_content := CDoc (marshal_book b); f_synced := true |} b w →
  ok c (save_close path tfd) (finishes c mu fd n b) w.
Proof using All.
  intros Hd. apply (ok_draft _ _ _ _ _ _ _ _ _ _ _ _ Hd); [done | done |].
  intros k a Hi Hd1 x k2 ->. exists a. split_and!; [by left | apply Hi | done |].
  apply drafting_close in Hd1. destruct x as [e|]; [| by eapply ok_save_rename].
  apply (ok_discard _ _ _ _ None t _ _ _ _ Hd1). intros v. apply save_refused. eauto 10.
Qed.

Lemma ok_save_sync c mu fd n tfd t sy b w :
  drafting c mu fd n (Some tfd) t {| f_content := CDoc (marshal_book b); f_synced := sy |} b w →
  ok c (save_sync path tfd) (finishes c mu fd n b) w.
Proof using All.
  intros Hd. apply (ok_draft _ _ _ _ _ _ _ _ _ _ _ _ Hd); [done | done |].
  intros k a Hi Hd1 x k2 Hs. pose proof (drafting_fd _ _ _ _ _ _ _ _ _ _ Hd1) as Hfd.
  exists a. destruct x as [e|]; cbn in Hs.
  - subst k2. split_and!; [by left | apply Hi | done |].
    apply (ok_discard _ _ _ _ (Some tfd) t _ _ _ _ Hd1). intros v. apply save_refused. eauto 10.
  - destruct Hs as (t' & f & Ht' & Hf & ->). assert (t' = t) as -> by congruence.
    pose proof (dr_node _ _ _ _ _ _ _ _ _ Hd1) as Hn. cbn in Hn. assert (f_content f = CDoc (marshal_book b)) as -> by (by simplify_eq).
    split_and!; [by left | apply put_files; [done | apply Hd1] | done |].
    eapply ok_save_close, drafting_put, Hd1.
Qed.

Lemma ok_save_temp c mu fd n tfd t f b w :
  drafting c mu fd n (Some tfd) t f b w →
  ok c (save_temp path tfd (CDoc (marshal_book b))) (finishes c mu fd n b) w.
Proof using All.
  intros Hd. apply (ok_draft _ _ _ _ _ _ _ _ _ _ _ _ Hd); [done | done |].
  intros k a Hi Hd1 x k2 Hs. pose proof (drafting_fd _ _ _ _ _ _ _ _ _ _ Hd1) as Hfd.
  pose proof (dr_name _ _ _ _ _ _ _ _ _ Hd1) as Ht1.
  assert (∀ e v, takes_effect path (OpSave b) v (Saved (Some (Errorf "failed to write temporary file: %w" (Some e)))) v) as He.
  { intros e v. apply save_refused. eauto 10. }
  exists a. destruct x as [e|]; cbn in Hs.
  - destruct Hs as [->|(t' & d' & Ht' & ->)].
    + split_and!; [by left | apply Hi | done |]. by apply (ok_discard _ _ _ _ (Some tfd) t f).
    + assert (t' = t) as -> by congruence. split_and!; [by left | by apply put_files | done |].
      eapply (ok_discard _ _ _ _ (Some tfd) t); [by eapply drafting_put | done].
  - destruct Hs as (t' & Ht' & ->). assert (t' = t) as -> by congruence.
    split_and!; [by left | by apply put_files | done |]. eapply ok_save_sync, drafting_put, Hd1.
Qed.

(** Opening the temporary file, which may be there from a save that failed. *)
Lemma ok_open_temp c mu fd n b {A} (f : result error nat → code A) post w :
  in_section c mu fd n (Some (Pending (OpSave b))) w →
  (∀ e w', in_section c mu fd n (Some (Pending (OpSave b))) w' → ok c (f (Err e)) post w') →
  (∀ tfd t g w', drafting c mu fd n (Some tfd) t g b w' → ok c (f (Ok tfd)) post w') →
  ok c (Ask (OpenFile tempp true) f) post w.
Proof using All.
  intros [Hh Hp] He Hk. pose proof paths_ne as (Htp & Hlp & _ & Htl & _).
  apply (ok_crit _ _ _ _ _ _ _ _ Hh); [done | done |].
  intros k a Hr Hi Hh' _ Hcl x k2 Hs. rewrite Hp in Hcl. exists a. destruct x as [e|tfd]; cbn in Hs.
  { subst k2. split_and!; [by left | apply Hi | done |]. apply He. by split. }
  destruct Hs as [Hfd Hs]. pose proof Hh' as [G1 (n' & G2 & G3 & G4) G5].
  assert (tfd ≠ fd) as Hne. { intros ->. rewrite G1, lookup_singleton_eq in Hfd. done. }
  assert (n' = n) as -> by (rewrite lookup_singleton_eq in G2; congruence).
  assert (∀ t fd', <[(c, tfd) := t]> (fds k) !! (c, fd') = open_files fd n (Some tfd) t !! fd') as Hf
    by (intros t; by apply insert_fd).
  assert (∀ t, open_files fd n (Some tfd) t !! fd = Some n) as Hfn by (intros t; cbn; by rewrite lookup_insert_ne).
  destruct (names k !! tempp) as [t|] eqn:Et.
  - subst k2. split_and!; [by left | by apply put_files | done |].
    eapply (Hk tfd t). split; [split; [| done] | done | cbn; by rewrite lookup_insert_eq | congruence].
    split; [apply Hf | exists n; eauto | done].
  - destruct Hs as (t & Ht & ->). cbn. split_and!; [by left | | by rewrite lookup_insert_ne |].
    + apply files_create; [by right | done | done | apply Hi].
    + eapply (Hk tfd t). split; [split; [| done] | cbn; by rewrite lookup_insert_eq | cbn; by rewrite lookup_insert_eq | congruence].
      split; [apply Hf | exists n; cbn; rewrite !lookup_insert_ne by done; eauto | done].
Qed.

Lemma ok_save_body c mu fd n b w :
  in_section c mu fd n (Some (Pending (OpSave b))) w → ok c (save_body path b) (finishes c mu fd n b) w.
Proof using All.
  intros [Hh Hp].
  assert (∀ e w', held c mu {[fd := n]} (Some fd) w'.1 → clients w'.2 !! c = Some (Pending (OpSave b)) →
    (∀ v, takes_effect path (OpSave b) v (Saved (Some e)) v) → ok c (mret (Some e)) (finishes c mu fd n b) w') as Hend.
  { intros e w' Hh' Hp' He. apply ok_done. eexists. split; [by split |]. right. by split. }
  eapply ok_noop; [exact I | exact Hh |]. intros [e|] w1 Hh1 E1; next_call.
  { apply Hend; [done | congruence |]. intros v. apply save_refused. eauto. }
  eapply ok_noop; [exact I | exact Hh1 |]. intros [e|] w2 Hh2 E2; next_call.
  { apply Hend; [done | congruence |]. intros v. apply save_refused. eauto 6. }
  eapply (ok_open_temp _ _ _ _ b); [split; [exact Hh2 | congruence] | |].
  - intros e w3 [Hh3 Hp3]. apply Hend; [done | done |]. intros v. apply save_refused. eauto 7.
  - intros tfd t g w3 Hd. by eapply ok_save_temp.
Qed.

(** ** Whole operations *)

Lemma ok_operation c mu op w :
  idle c w.1 → clients w.2 !! c = Some (Pending op) →
  ok c (operation_code path mu op) (λ r w', idle c w'.1 ∧ clients w'.2 !! c = Some (Committed r)) w.
Proof using All.
  intros Hid Hp. destruct op as [b|]; unfold operation_code.
  - apply (ok_locked_section c mu (OpSave b) Saved); [done | done | |].
    + intros e v He. by apply save_not_locked.
    + intros fd n w1 Hw1. by apply ok_save_body.
  - apply (ok_locked_section c mu OpLoad Loaded); [done | done | |].
    + intros e v He. by apply load_not_locked.
    + intros fd n w1 Hw1. by apply ok_load_body.
Qed.
End Logic.
