(* ===== verification/StorageAtomicity.v ===== *)
(** * What the storage promises to all its users

    The refinement of the abstract storage by the goroutines and processes that
    share one address book file, and that none of them waits for ever. *)

From S2P Require Import Prelude Errors Interfaces Storage FileSystem Proc StorageCalls StorageConcurrency.

Section Atomicity.
Context `{Libp2pLaws} `{PlatformLaws} (path : string).
Notation code := calls_code.

(** A machine that has just started: nothing is open, and the files are in
    order ([dir_ok]). *)
Record booted (k : kernel) : Prop := {
  bt_files : dir_ok path (nodes k) (names k);
  bt_older : older k = [];
  bt_fds : fds k = ∅;
  bt_locks : locks k = [];
  bt_mutexes : mutexes k = ∅;
}.

Definition start (k : kernel) : machine := {| kern := k; running := ∅ |}.
Definition the_file (k : kernel) : option file := target path (nodes k) (names k).
Definition initial (v : option file) : storage := {| value := v; past := []; clients := ∅ |}.

Notation finished c := (λ r w, idle c w.1 ∧ clients w.2 !! c = Some (Committed r)) (only parsing).

(** A mutex belongs to a goroutine of its process. *)
Definition mutexes_ok (k : kernel) : Prop := ∀ p mu c, mutexes k !! (p, mu) = Some c → c.1 = p.

Record sim (s : machine) (a : storage) : Prop := {
  sim_inv : Inv path (kern s, a);
  sim_mutexes : mutexes_ok (kern s);
  sim_run : ∀ c m, running s !! c = Some m → ok path c m (finished c) (kern s, a);
  sim_idle : ∀ c, running s !! c = None → idle c (kern s) ∧ clients a !! c = None;
}.

Lemma sim_start k : booted k → sim (start k) (initial (the_file k)).
Proof using Type.
  intros [B1 B2 B3 B4 B5]. split; cbn.
  - split; [| cbn; rewrite B4; by intros ? ? ?%elem_of_nil]. cbn. rewrite B2. split; [| | done |].
    + intros m ->%list_elem_of_singleton. done.
    + by intros m n ?%elem_of_nil.
    + by intros m ?%elem_of_nil.
  - intros p mu c. by rewrite B5, lookup_empty.
  - done.
  - intros c _. split; [| done]. split; intros *; rewrite ?B3, ?B4, ?B5; try done. by intros ?%elem_of_nil.
Qed.

Lemma sys_mutexes_ok c k q x k' : sys c k q x k' → mutexes_ok k → mutexes_ok k'.
Proof using Type.
  intros Hs Hk. assert (mutexes k' = mutexes k → mutexes_ok k') as Hsame by (intros E p mu c' Hm; rewrite E in Hm; by eapply Hk).
  destruct q; cbn in Hs.
  - destruct Hs as [_ ->]. intros p mu' c'. cbn. rewrite lookup_insert. case_decide as E; [| apply Hk].
    intros [= <-]. congruence.
  - subst. intros p mu' c'. cbn. intros [_ Hm]%lookup_delete_Some. by eapply Hk.
  - by subst.
  - by subst.
  - apply Hsame. destruct x; [by subst |]. destruct Hs as [_ Hs]. case_match; [by destruct trunc; subst |].
    by destruct Hs as (n' & _ & ->).
  - apply Hsame. destruct x; [by subst |]. by destruct Hs as (n & ls & _ & _ & ->).
  - apply Hsame. destruct x; [by subst |]. by destruct Hs as (n & _ & ->).
  - by destruct Hs as [-> _].
  - apply Hsame. destruct x; [destruct Hs as [->|(n & d' & _ & ->)] | destruct Hs as (n & _ & ->)]; done.
  - apply Hsame. destruct x; [by subst |]. by destruct Hs as (n & f & _ & _ & ->).
  - by apply Hsame; subst.
  - apply Hsame. destruct x; [by subst |]. by destruct Hs as (n & _ & ->).
  - apply Hsame. destruct x; [by subst |]. by destruct Hs as (_ & ->).
Qed.

(** Another client's program after a step that it relies on. *)
Lemma sim_others s a c m k' a' :
  sim s a → running s !! c = Some m → rely path c (kern s, a) (k', a') → ok path c m (finished c) (k', a').
Proof using Type. intros Hs Hm Hr. eapply ok_rely; [exact Hr | by apply Hs]. Qed.

Lemma client_rely c k a a' : clients a' !! c = clients a !! c → rely path c (k, a) (k, a').
Proof using Type. by split. Qed.

Lemma sim_call s a c mu op :
  sim s a → running s !! c = None →
  sim {| kern := kern s; running := <[c := operation_code path mu op]> (running s) |}
    {| value := value a; past := past a; clients := <[c := Pending op]> (clients a) |}.
Proof using All.
  intros Hs Hc. destruct (sim_idle _ _ Hs c Hc) as [Hid Hcl]. split; cbn.
  - exact (sim_inv _ _ Hs).
  - apply Hs.
  - intros c' m. rewrite lookup_insert. case_decide as E; [subst; intros [= <-] | intros Hm].
    + apply ok_operation; [done |]. cbn. by rewrite lookup_insert_eq.
    + eapply sim_others; [done | done |]. apply client_rely. cbn. by rewrite lookup_insert_ne.
  - intros c' [Hc' Hne]%lookup_insert_None. rewrite lookup_insert_ne by done. by apply Hs.
Qed.

Lemma sim_return s a c r :
  sim s a → running s !! c = Some (Ret r) →
  clients a !! c = Some (Committed r)
  ∧ sim {| kern := kern s; running := delete c (running s) |} {| value := value a; past := past a; clients := delete c (clients a) |}.
Proof using Type.
  intros Hs Hc. destruct (sim_run _ _ Hs c _ Hc (kern s, a) (reflexivity _) (sim_inv _ _ Hs)) as [Hid Hcl]. split; [done |].
  split; cbn.
  - exact (sim_inv _ _ Hs).
  - apply Hs.
  - intros c' m [Hne Hm]%lookup_delete_Some. eapply sim_others; [done | done |]. apply client_rely. cbn. by rewrite lookup_delete_ne.
  - intros c'. rewrite !lookup_delete. case_decide as E; [by subst | by apply Hs].
Qed.

Lemma sim_sys s a c q k x k' :
  sim s a → running s !! c = Some (Ask q k) → sys c (kern s) q x k' →
  ∃ a', may_commit path c a a' ∧ sim {| kern := k'; running := <[c := k x]> (running s) |} a'.
Proof using Type.
  intros Hs Hc Hx. destruct (sim_run _ _ Hs c _ Hc (kern s, a) (reflexivity _) (sim_inv _ _ Hs)) as [Hm Hk].
  destruct (Hk x k' Hx) as (a' & Ha & Hi & Hg & Hok). exists a'. split; [done |]. split; cbn.
  - done.
  - eapply sys_mutexes_ok; [done | apply Hs].
  - intros c' m. rewrite lookup_insert. case_decide as E; [by subst; intros [= <-] |]. intros Hm'.
    eapply sim_others; [done | done |]. by apply Hg, not_eq_sym.
  - intros c' [Hc' Hne]%lookup_insert_None. destruct (sim_idle _ _ Hs c' Hc') as [Hid Hcl].
    pose proof (Hg c' (not_eq_sym Hne)) as Hr. split.
    + eapply idle_same; [apply Hr | done].
    + rewrite <- Hcl. apply (re_client _ _ _ _ Hr).
Qed.

Lemma lookup_kill {A} (p : nat) (m : gmap client A) (c : client) : kill_clients p m !! c = if decide (c.1 = p) then None else m !! c.
Proof using Type.
  unfold kill_clients. rewrite map_lookup_filter. destruct (m !! c) as [x|]; cbn; [| by case_decide].
  unfold guard. repeat case_decide; done.
Qed.

Lemma sim_kill s a p :
  sim s a → sim {| kern := kill p (kern s); running := kill_clients p (running s) |}
              {| value := value a; past := past a; clients := kill_clients p (clients a) |}.
Proof using Type.
  intros Hs. destruct (sim_inv _ _ Hs) as [Hf Ht].
  assert (∀ c, c.1 ≠ p → rely path c (kern s, a)
    (kill p (kern s), {| value := value a; past := past a; clients := kill_clients p (clients a) |})) as Hr.
  { intros c Hc. split; cbn; [by apply kill_others | done | done |]. rewrite lookup_kill. by rewrite decide_False. }
  split; cbn.
  - split; [exact Hf |]. eapply table_ok_subset; [apply filter_subset | exact Ht].
  - intros p' mu c [Hm _]%map_lookup_filter_Some. by eapply Hs.
  - intros c m. rewrite lookup_kill. case_decide as Hc; [done |]. intros Hm. eapply sim_others; eauto.
  - intros c. rewrite !lookup_kill. case_decide as Hc; [intros _; split; [by apply kill_idle | done] |].
    intros Hm. destruct (sim_idle _ _ Hs c Hm) as [Hid Hcl]. split; [| done]. eapply idle_same; [by apply kill_others | done].
Qed.

Lemma sim_power s a k' :
  sim s a → power_loss (kern s) k' →
  ∃ v, v ∈ value a :: past a ∧ sim {| kern := k'; running := ∅ |} (initial v).
Proof using Type.
  intros Hs Hp. destruct (sim_inv _ _ Hs) as [[F1 F2 F3 F4] _]. cbn in *. destruct Hp as [m nodes' Hm Hsync Hsome].
  pose proof (F1 m Hm) as [D1 D2 D3 D4 D5]. set (k' := {| names := m |}).
  assert (dir_ok path nodes' m) as Hd.
  { split; [| | done | done | done].
    - intros n E. destruct (D1 n E) as (f & Hf & Hy). exists f. split; [by eapply Hsync | done].
    - intros q n E. eapply Hsome, D2, E. }
  assert (target path nodes' m = target path (nodes (kern s)) m) as E.
  { unfold target. destruct (m !! path) as [n|] eqn:En; cbn; [| done]. destruct (D1 n eq_refl) as (f & Hf & Hy).
    by rewrite (Hsync _ _ Hf Hy). }
  exists (target path nodes' m). split.
  - rewrite E. apply elem_of_cons in Hm as [->|Hm]; [rewrite F3; by left | by apply F4].
  - apply (sim_start k'). by split.
Qed.

(** Every step of the machine is one of the abstract storage, or invisible. *)
Lemma sim_step e s s' a :
  mstep path e s s' → sim s a → ∃ a', (astep path e a a' ∨ e = Internal ∧ a' = a) ∧ sim s' a'.
Proof using All.
  intros [s0 c mu op Hc|s0 c q k x k' Hc Hx|s0 c r Hc|s0 p|s0 k' Hp] Hs.
  - eexists. split; [left | by apply sim_call]. constructor. by apply (sim_idle _ _ Hs).
  - destruct (sim_sys _ _ _ _ _ _ _ Hs Hc Hx) as (a' & [->|(op & r & v' & H3 & H4 & ->)] & Hs'); [by eauto |].
    eexists. split; [left | exact Hs']. by econstructor.
  - destruct (sim_return _ _ _ _ Hs Hc) as [Hcl Hs']. eexists. split; [left | exact Hs']. by constructor.
  - eexists. split; [left | by apply sim_kill]. constructor.
  - destruct (sim_power _ _ _ Hs Hp) as (v & Hv & Hs'). eexists. split; [left | exact Hs']. by constructor.
Qed.

Lemma sim_exec l s s' a :
  exec (mstep path) l s s' → sim s a → ∃ a', exec (astep path) l a a' ∧ sim s' a'.
Proof using All.
  induction 1 as [s|s1 s2 s3 e l _ IH Hstep]; intros Hs; [exists a; by split; [constructor |] |].
  destruct (IH Hs) as (a2 & Ha2 & Hs2). destruct (sim_step _ _ _ _ Hstep Hs2) as (a3 & [Ha3|[-> ->]] & Hs3).
  - exists a3. split; [by econstructor | done].
  - exists a2. cbn. by rewrite app_nil_r.
Qed.

Lemma atomic_storage k l s :
  booted k → exec (mstep path) l (start k) s →
  ∃ a, exec (astep path) l (initial (the_file k)) a ∧ value a = the_file (kern s).
Proof using All.
  intros Hk He. destruct (sim_exec _ _ _ _ He (sim_start _ Hk)) as (a & Ha & Hs). exists a. split; [done |].
  by apply (Inv_value path _ _ (sim_inv _ _ Hs)).
Qed.

(** ** Nobody waits for ever

    [goes_on]: a goroutine makes its next call or returns; taking the lock is
    not refused (it may still have to wait). *)

Inductive goes_on (s : machine) : machine → Prop :=
| go_call c q k x k' :
    running s !! c = Some (Ask q k) → sys c (kern s) q x k' →
    match q return answer q → Prop with LockFile _ _ => λ x, x = None | _ => λ _, True end x →
    goes_on s {| kern := k'; running := <[c := k x]> (running s) |}
| go_return c r :
    running s !! c = Some (Ret r) → goes_on s {| kern := kern s; running := delete c (running s) |}.

(** The calls that wait. *)
Definition at_mutex (m : code outcome) : bool := match m with Ask (MuLock _) _ => true | _ => false end.
Definition waits (m : code outcome) : bool := match m with Ask (MuLock _) _ | Ask (LockFile _ _) _ => true | _ => false end.

(** Other calls can always be made. *)
Lemma sys_enabled c k q : match q with MuLock _ | LockFile _ _ => False | _ => True end → ∃ x k', sys c k q x k'.
Proof using Type.
  destruct q; try done; intros _; cbn.
  - by exists tt; eexists.
  - by exists None; eexists.
  - by exists None; eexists.
  - by exists (Err context_Canceled); eexists.
  - by exists (Some context_Canceled); eexists.
  - exists (Err context_Canceled). by eexists.
  - exists (Some context_Canceled). by exists k; left.
  - by exists (Some context_Canceled); eexists.
  - by exists None; eexists.
  - by exists (Some context_Canceled); eexists.
  - by exists (Some context_Canceled); eexists.
Qed.

Lemma sim_may_call s a c q k : sim s a → running s !! c = Some (Ask q k) → may_call path c q (kern s).
Proof using Type. intros Hs Hc. apply (sim_run _ _ Hs c _ Hc (kern s, a) (reflexivity _) (sim_inv _ _ Hs)). Qed.

(** Everybody waits: the file lock is free. *)
Lemma waiting_unlocked s a :
  sim s a → map_Forall (λ _ m, waits m = true) (running s) → ∀ l, l ∉ locks (kern s).
Proof using Type.
  intros Hs Hw l Hl. destruct (running s !! (lk_owner l).1) as [m|] eqn:E.
  - pose proof (Hw _ _ E) as Hm. destruct m as [|X g k|q k|p k]; try done. pose proof (sim_may_call _ _ _ _ _ Hs E) as Hc.
    destruct q; try done; cbn in Hc; [by apply (id_locks _ _ Hc l Hl) | by apply (proj1 (proj2 Hc) l Hl)].
  - destruct (sim_idle _ _ Hs _ E) as [Hid _]. by apply (id_locks _ _ Hid l Hl).
Qed.

(** Everybody waits for a mutex: the mutexes are free. *)
Lemma waiting_no_mutex s a :
  sim s a → map_Forall (λ _ m, at_mutex m = true) (running s) → ∀ x, mutexes (kern s) !! x = None.
Proof using Type.
  intros Hs Hw [p mu]. destruct (mutexes (kern s) !! (p, mu)) as [c|] eqn:E; [exfalso | done].
  pose proof (sim_mutexes _ _ Hs _ _ _ E) as <-. destruct (running s !! c) as [m|] eqn:Em.
  - pose proof (Hw _ _ Em) as Hm. destruct m as [|X g k|q k|p k]; try done. pose proof (sim_may_call _ _ _ _ _ Hs Em) as Hc.
    destruct q; try done. by apply (id_mutexes _ _ Hc mu).
  - destruct (sim_idle _ _ Hs _ Em) as [Hid _]. by apply (id_mutexes _ _ Hid mu).
Qed.

Lemma sim_goes_on s a : sim s a → running s ≠ ∅ → ∃ s', goes_on s s'.
Proof using All.
  intros Hs Hne. destruct (decide (map_Forall (λ _ m, waits m = true) (running s))) as [Hw|Hw].
  2: { apply map_not_Forall in Hw as (c & m & Hm & Hw); [| apply _]. destruct m as [r|X g k|q k|p k].
    - eexists. by eapply go_return.
    - exfalso. exact (sim_run _ _ Hs c _ Hm (kern s, a) (reflexivity _) (sim_inv _ _ Hs)).
    - destruct (sys_enabled c (kern s) q) as (x & k' & Hx); [by destruct q; cbn in Hw |].
      eexists. eapply go_call; [done | exact Hx | by destruct q].
    - exfalso. exact (sim_run _ _ Hs c _ Hm (kern s, a) (reflexivity _) (sim_inv _ _ Hs)). }
  destruct (decide (map_Forall (λ _ m, at_mutex m = true) (running s))) as [Hmu|Hmu].
  - destruct (map_choose _ Hne) as (c & m & Hm). pose proof (Hmu _ _ Hm) as Hq.
    destruct m as [|X g k|[mu| | | | | | | | | | | |] k|p k]; try done.
    eexists. eapply (go_call _ c (MuLock mu) _ tt); [done | | done]. cbn. split; [| reflexivity]. by eapply waiting_no_mutex.
  - apply map_not_Forall in Hmu as (c & m & Hm & Hmu); [| apply _]. pose proof (Hw _ _ Hm) as Hq.
    destruct m as [|X g k|[mu| | | | |fd r| | | | | | |] k|p k]; try done.
    destruct (sim_may_call _ _ _ _ _ Hs Hm) as (-> & _ & n & Hfd & _).
    destruct (free_granted (c, fd) n (locks (kern s))) as [ls Hg].
    { intros l Hl. exfalso. by eapply waiting_unlocked. }
    eexists. eapply (go_call _ c (LockFile fd acquire_request) _ None); [done | | done]. cbn. eauto.
Qed.

(** At most [n] calls are left. *)
Fixpoint within {A} (n : nat) (m : code A) {struct m} : Prop :=
  match m with
  | Ret _ => True
  | Ask q k => match n with O => False | S n => ∀ x, within n (k x) end
  | _ => False
  end.

Lemma within_le {A} n n' (m : code A) : within n m → n ≤ n' → within n' m.
Proof using Type.
  revert n n'. induction m as [a|X f k IH|q k IH|p k IH]; intros n n'; [by intros _ _; exact I | by intros [] | | by intros []].
  destruct n, n'; cbn; [done | done | lia |]. intros Hk Hn x. eapply IH; [apply Hk | lia].
Qed.

Lemma within_bind {A B} n n' (m : code A) (f : A → code B) : within n m → (∀ a, within n' (f a)) → within (n + n') (m ≫= f).
Proof using Type.
  change (m ≫= f) with (bind f m). intros Hm Hf. revert n Hm. induction m as [a|X g k IH|q k IH|p k IH]; intros n Hm; [| by destruct Hm | | by destruct Hm]; cbn in *.
  - eapply within_le; [apply Hf | lia].
  - destruct n; [done |]. cbn. intros x. by apply IH.
Qed.

Lemma discard_within tf e : within 2 (discard tf path e).
Proof using Type. destruct tf; cbn; done. Qed.

Lemma save_temp_within fd d : within 5 (save_temp path fd d).
Proof using Type.
  intros [e|]; cbn; [exact (within_le 2 4 _ (discard_within (Some fd) e) ltac:(lia)) |].
  intros [e|]; cbn; [by intros ? [] |]. intros [e|]; cbn; [by intros ? |]. by intros [e|]; cbn.
Qed.

Lemma save_body_within b : within 8 (save_body path b).
Proof using Type. intros [e|]; [done |]. intros [e|]; [done |]. intros [e|fd]; [done |]. apply save_temp_within. Qed.

Lemma load_body_within : within 2 (load_body path).
Proof using Type.
  assert (within 1 (sys_backup path)) as Hb by (intros x; done).
  intros [e|[[| |j]|]]; [done | done | exact Hb | | done]. cbn. destruct (unmarshal_book j) as [[]|]; [done | exact Hb].
Qed.

Lemma locked_within {A} n mu refused (body : code A) : within n body → within (8 + n) (locked_section mu path refused body).
Proof using Type.
  intros Hb. intros u. apply (within_bind 4 (3 + n)); [| intros [e|fd]].
  - intros [e|]; [done |]. intros [e|fd]; [done |]. intros [e|]; [intros ?; done | done].
  - intros ?. done.
  - apply (within_le (n + 3)); [| lia]. apply within_bind; [done |]. intros r x y z. done.
Qed.

(** The longest operation, a [save] whose renaming fails, makes 15 calls. *)
Lemma operation_within mu op : within 16 (operation_code path mu op).
Proof using Type.
  destruct op as [b|]; cbn [operation_code].
  - apply (within_bind 16 0); [apply locked_within, save_body_within | done].
  - apply (within_le 10); [| lia]. apply (within_bind 10 0); [apply (locked_within 2), load_body_within | done].
Qed.

(** The calls left to all clients, and one return each. *)
Definition total (b : gmap client nat) : nat := map_fold (λ _ n acc, S n + acc) 0 b.

Lemma total_delete b (c : client) n : b !! c = Some n → total b = S n + total (delete c b).
Proof using Type. intros Hb. unfold total. rewrite (map_fold_delete_L _ _ c n b); [done | intros; lia | done]. Qed.

Lemma total_insert b (c : client) n : total (<[c := n]> b) = S n + total (delete c b).
Proof using Type. rewrite (total_delete _ c n) by apply lookup_insert_eq. by rewrite delete_insert_eq. Qed.

Lemma total_const {A} (n : nat) (m : gmap client A) : total ((λ _, n) <$> m) = S n * size m.
Proof using Type.
  induction m as [|c x m Hc IH] using map_ind; [by rewrite fmap_empty, map_size_empty, Nat.mul_0_r |].
  rewrite fmap_insert, total_insert, delete_id by (by rewrite lookup_fmap, Hc).
  rewrite IH, map_size_insert_None by done. lia.
Qed.

Definition budget (b : gmap client nat) (s : machine) : Prop :=
  ∀ c m, running s !! c = Some m → ∃ n, b !! c = Some n ∧ within n m.

Lemma goes_on_budget b s s' : goes_on s s' → budget b s → ∃ b', budget b' s' ∧ total b' < total b.
Proof using Type.
  intros [c q k x k' Hc _ _|c r Hc] Hb; destruct (Hb _ _ Hc) as (n & Hn & Hw).
  - destruct n as [|n]; [done |]. exists (<[c := n]> b). split.
    + intros c' m. cbn. rewrite !lookup_insert. case_decide; [intros [= <-]; eauto | apply Hb].
    + rewrite total_insert, (total_delete _ _ _ Hn). lia.
  - exists (delete c b). split; [| rewrite (total_delete _ _ _ Hn); lia].
    intros c' m. cbn. rewrite !lookup_delete. case_decide; [done | apply Hb].
Qed.

Lemma goes_on_bounded n s s' b : nsteps goes_on n s s' → budget b s → n ≤ total b.
Proof using Type.
  intros Hn. revert b. induction Hn as [s|n s1 s2 s3 Hs _ IH]; intros b Hb; [lia |].
  destruct (goes_on_budget _ _ _ Hs Hb) as (b' & Hb' & Hlt). specialize (IH b' Hb'). lia.
Qed.

Definition all_within (s : machine) : Prop := ∀ c m, running s !! c = Some m → within 16 m.

Lemma step_within e s s' : mstep path e s s' → all_within s → all_within s'.
Proof using Type.
  intros [s0 c mu op Hc|s0 c q k x k' Hc Hx|s0 c r Hc|s0 p|s0 k' Hp] Hw c' m; cbn.
  - rewrite lookup_insert. case_decide; [intros [= <-]; apply operation_within | apply Hw].
  - rewrite lookup_insert. case_decide; [| apply Hw]. intros [= <-]. pose proof (Hw _ _ Hc x) as Hk.
    eapply within_le; [exact Hk | lia].
  - intros [_ Hm]%lookup_delete_Some. by eapply Hw.
  - rewrite lookup_kill. case_decide; [done | apply Hw].
  - done.
Qed.

Lemma exec_within l s s' : exec (mstep path) l s s' → all_within s → all_within s'.
Proof using Type. induction 1; eauto using step_within. Qed.

Lemma goes_on_step s s' : goes_on s s' → ∃ e, mstep path e s s'.
Proof using Type. intros [c q k x k' Hc Hx _|c r Hc]; eexists; by econstructor. Qed.

Lemma goes_on_sim n s s' a : nsteps goes_on n s s' → sim s a → ∃ a', sim s' a'.
Proof using All.
  intros Hn. revert a. induction Hn as [s|n s1 s2 s3 Hs _ IH]; intros a Ha; [eauto |].
  destruct (goes_on_step _ _ Hs) as [e He]. destruct (sim_step _ _ _ _ He Ha) as (a' & _ & Ha'). eauto.
Qed.

(** ** What can be read back *)

Definition whole (b : addressBookData) : option file := Some {| f_content := CDoc (marshal_book b); f_synced := true |}.

Lemma save_effect b v r v' : takes_effect path (OpSave b) v r v' → v' = v ∨ v' = whole b.
Proof using Type.
  intros (o & d & d' & <- & <- & Hs). destruct r as [e|]; [| done]. destruct d as [cur vis].
  pose proof (save_final o path b cur) as Hf. destruct (save_current_visited o path b cur vis) as [E1 E2].
  rewrite Hs in E1, E2. cbn in E1, E2, Hf. rewrite <- E1, <- E2 in Hf. unfold whole. destruct e; naive_solver.
Qed.

(** What a load makes of the file. *)
Definition means (v : option file) (b : addressBookData) : Prop :=
  match v with
  | None => b = empty_book
  | Some f => b = default empty_book (parsed (f_content f))
  end.

(** A load that stops before it reads. *)
Ltac load_stops :=
  lazymatch goal with Hs : load _ _ _ = _ |- _ =>
    unfold load, acquireFileLock, set_fs, mbind, ST_bind, mret, ST_ret in Hs;
    repeat match goal with E : _ = Some _ |- _ => rewrite E in Hs | E : _ = None |- _ => rewrite E in Hs end; cbn in Hs; simplify_eq;
    (split; [left; cbn; by rewrite ?create_lock_path | done])
  end.

Lemma load_effect v r v' :
  takes_effect path OpLoad v r v' →
  (v' = v ∨ v' = None ∧ ∃ f, v = Some f ∧ parsed (f_content f) = None) ∧ ∀ b, r = Loaded (Ok b) → means v b.
Proof using Type.
  intros (o & d & d' & <- & <- & Hs). destruct r as [|x]; [done |]. pose proof (paths_ne path) as (_ & _ & Hb & _).
  change (load o path d = (x, d')) in Hs.
  destruct (o OpLockDir) eqn:E1; [load_stops |]. destruct (o OpLockOpen) eqn:E2; [load_stops |].
  destruct (o OpLock) eqn:E3; [load_stops |]. destruct (o OpRead) eqn:E4; [load_stops |].
  rewrite load_read in Hs by done. destruct (current d !! path) as [f|] eqn:Ef.
  - destruct (parsed (f_content f)) as [b|] eqn:Ep; [| destruct (o OpBackup)]; simplify_eq/=; rewrite ?Ep; cbn.
    + split; [left; by rewrite create_lock_path | intros; by simplify_eq].
    + split; [left; by rewrite create_lock_path | intros; by simplify_eq].
    + split; [| intros; by simplify_eq]. right. split; [| eauto]. unfold rename. rewrite create_lock_path, Ef.
      by rewrite lookup_insert_ne, lookup_delete_eq.
  - simplify_eq/=. split; [left; by rewrite create_lock_path | intros; by simplify_eq].
Qed.

(** A file that has to be moved away: the one that was there, or a book that
    somebody saves in which an identifier cannot be decoded. *)
Definition unreadable (v0 : option file) (l : list event) : Prop :=
  (∃ f, v0 = Some f ∧ parsed (f_content f) = None) ∨ ∃ c b, Called c (OpSave b) ∈ l ∧ ¬ storable (Peers b).

(** What may be in the file: what was there, a book that somebody saves, or
    nothing when what was there could not be read. *)
Definition allowed (v0 : option file) (l : list event) (v : option file) : Prop :=
  v = v0 ∨ (v = None ∧ unreadable v0 l) ∨ ∃ c b, Called c (OpSave b) ∈ l ∧ v = whole b.

(** The book a load may return. *)
Definition readable (v0 : option file) (l : list event) (b : addressBookData) : Prop :=
  ∃ v, allowed v0 l v ∧ means v b.

Lemma allowed_app v0 l l' v : allowed v0 l v → allowed v0 (l ++ l') v.
Proof using Type.
  assert (∀ e, e ∈ l → e ∈ l ++ l') as Hl by (intros; apply elem_of_app; by left).
  unfold allowed, unreadable. naive_solver.
Qed.
Lemma readable_app v0 l l' b : readable v0 l b → readable v0 (l ++ l') b.
Proof using Type. intros (v & Hv & Hb). exists v. split; [by apply allowed_app | done]. Qed.

Record history_ok (v0 : option file) (l : list event) (a : storage) : Prop := {
  hi_values : ∀ v, v ∈ value a :: past a → allowed v0 l v;
  hi_pending : ∀ c op, clients a !! c = Some (Pending op) → Called c op ∈ l;
  hi_committed : ∀ c b, clients a !! c = Some (Committed (Loaded (Ok b))) → readable v0 l b;
  hi_returned : ∀ c b, Returned c (Loaded (Ok b)) ∈ l → readable v0 l b;
}.

(** A book whose identifiers can be decoded can be read once it is saved. *)
Lemma allowed_corrupt v0 l f : allowed v0 l (Some f) → parsed (f_content f) = None → unreadable v0 l.
Proof using All.
  intros [<-|[[? _]|(c & b & Hc & [= ->])]] Hp; [left; eauto | done |]. right. exists c, b. split; [done |].
  intros Hb. unfold parsed in Hp. cbn [f_content] in Hp. by rewrite json_book_roundtrip in Hp.
Qed.

Lemma effect_allowed v0 l c op v r v' :
  Called c op ∈ l → allowed v0 l v → takes_effect path op v r v' → allowed v0 l v' ∧ ∀ b, r = Loaded (Ok b) → readable v0 l b.
Proof using All.
  intros Hc Hv Ht. destruct op as [b|].
  - split; [| intros b' ->; by destruct Ht as (o & d & d' & _ & _ & [])].
    destruct (save_effect _ _ _ _ Ht) as [->| ->]; [done |]. right; right; eauto.
  - destruct (load_effect _ _ _ Ht) as [Hv' Hr]. split; [| intros b Hb; exists v; auto].
    destruct Hv' as [->|[-> (f & -> & Hf)]]; [done |]. right; left. split; [done |]. by eapply allowed_corrupt.
Qed.

Lemma history_app v0 l l' a : history_ok v0 l a → (∀ c b, Returned c (Loaded (Ok b)) ∈ l' → readable v0 l b) → history_ok v0 (l ++ l') a.
Proof using Type.
  intros [I1 I2 I3 I4] Hl. split.
  - intros v Hv. by apply allowed_app, I1.
  - intros c op Hc. apply elem_of_app. left. eauto.
  - intros c b Hc. eapply readable_app, I3, Hc.
  - intros c b [Hc|Hc]%elem_of_app; apply readable_app; eauto.
Qed.

Lemma history_step v0 l e a a' : astep path e a a' → history_ok v0 l a → history_ok v0 (l ++ visible e) a'.
Proof using All.
  intros Hs Hh. destruct Hs as [a c op Hc|a c op r v' Hc Ht|a c r Hc|a p|a v Hv]; cbn [visible].
  - apply (history_app _ _ [Called c op]) in Hh; [| by intros ? ? ?%list_elem_of_singleton]. destruct Hh as [I1 I2 I3 I4].
    split; cbn; [done | | | done].
    + intros c' op'. rewrite lookup_insert. case_decide as E; [| by apply I2]. intros [= <-]. subst. apply elem_of_app. right. by left.
    + intros c' b. rewrite lookup_insert. case_decide; [done | apply I3].
  - rewrite app_nil_r. destruct Hh as [I1 I2 I3 I4].
    destruct (effect_allowed v0 l _ _ _ _ _ (I2 _ _ Hc) (I1 _ (list_elem_of_here _ _)) Ht) as [Hv' Hr]. split; cbn; [| | | done].
    + intros v [->|Hv]%elem_of_cons; [done | by apply I1].
    + intros c' op'. rewrite lookup_insert. case_decide; [done | apply I2].
    + intros c' b. rewrite lookup_insert. case_decide; [intros [= ->]; by apply Hr | apply I3].
  - apply history_app.
    + destruct Hh as [I1 I2 I3 I4]. split; cbn; [done | | | done]; intros c' x [_ Hx]%lookup_delete_Some; eauto.
    + intros c' b [= <- <-]%list_elem_of_singleton. by eapply Hh.
  - apply history_app; [| by intros ? ? ?%list_elem_of_singleton].
    destruct Hh as [I1 I2 I3 I4]. split; cbn; [done | | | done]; intros c' x; rewrite lookup_kill; (case_decide; [done | eauto]).
  - apply history_app; [| by intros ? ? ?%list_elem_of_singleton]. destruct Hh as [I1 I2 I3 I4]. split; cbn; [| done | done | done].
    intros v' ->%list_elem_of_singleton. by apply I1.
Qed.

Lemma history_exec v0 l a a' :
  exec (astep path) l a a' → history_ok v0 [] a → history_ok v0 l a'.
Proof using All. induction 1; eauto using history_step. Qed.

Lemma history_initial v0 : history_ok v0 [] (initial v0).
Proof using Type.
  split; cbn; [| done | done | by intros ? ? ?%elem_of_nil]. intros v ->%list_elem_of_singleton. by left.
Qed.
End Atomicity.

(** ** Theorems *)

(** C4. Loading and saving is atomic for all who share the file.  In every
    interleaving of any number of goroutines of any number of processes, on
    Unix or on Windows, whatever calls fail, whenever processes are killed in
    the middle and the power is lost: what the callers see, and what is in the
    file, is an execution of the abstract storage, in which [load] and [save]
    take effect at one moment between their call and their return, and a loss
    of power brings back an earlier whole value of the file. *)
Theorem storage_atomic `{Libp2pLaws} `{PlatformLaws} path k l s :
  booted path k → exec (mstep path) l (start k) s →
  ∃ a, exec (astep path) l (initial (the_file path k)) a ∧ value a = the_file path (kern s).
Proof. apply atomic_storage. Qed.

(** C5. Nothing but whole books, ever.  In the same executions the address book's
    file holds what was there at first, or exactly what some caller saves, or
    is missing because what was there could not be read and has been moved
    away (what was there at first, or a saved book in which some identifier
    cannot be decoded); and every [load] that succeeds returns the meaning of
    such a file. *)
Theorem storage_whole `{Libp2pLaws} `{PlatformLaws} path k l s :
  booted path k → exec (mstep path) l (start k) s →
  let v := the_file path (kern s) in
  let v0 := the_file path k in
  (v = v0
   ∨ (v = None ∧ ((∃ f, v0 = Some f ∧ parsed (f_content f) = None) ∨ ∃ c b, Called c (OpSave b) ∈ l ∧ ¬ storable (Peers b)))
   ∨ ∃ c b, Called c (OpSave b) ∈ l ∧ v = Some {| f_content := CDoc (marshal_book b); f_synced := true |})
  ∧ ∀ c b, Returned c (Loaded (Ok b)) ∈ l → readable v0 l b.
Proof.
  intros Hk He. destruct (atomic_storage path _ _ _ Hk He) as (a & Ha & Hv). cbv zeta. rewrite <- Hv.
  destruct (history_exec path _ _ _ _ Ha (history_initial _)) as [I1 _ _ I4]. split; [| done].
  apply I1. by left.
Qed.

(** C6. Nobody waits for ever.  From every state that is reached, as long as the
    kernel does not refuse the file lock outright, the goroutines that are in
    [load] or [save] can go on as long as one of them has not returned (no
    deadlock between mutexes and file locks, no lock left behind on any error
    path or by a killed process), and they go on for at most 17 steps each:
    however they are scheduled, all of them return. *)
Theorem storage_returns `{Libp2pLaws} `{PlatformLaws} path k l s n s' :
  booted path k → exec (mstep path) l (start k) s → nsteps goes_on n s s' →
  n ≤ 17 * size (running s) ∧ (running s' ≠ ∅ → ∃ s'', goes_on s' s'').
Proof.
  intros Hk He Hn. destruct (sim_exec path _ _ _ _ He (sim_start path _ Hk)) as (a & _ & Hs). split.
  - rewrite <- (total_const 16). eapply goes_on_bounded; [exact Hn |]. intros c m Hm. exists 16.
    rewrite lookup_fmap, Hm. split; [done |]. by apply (exec_within path _ _ _ He (λ c' m', ltac:(done)) c).
  - destruct (goes_on_sim path _ _ _ _ Hn Hs) as (a' & Hs'). by eapply sim_goes_on.
Qed.

(** ** Witnesses *)

Definition empty_disk : kernel :=
  {| names := ∅; older := []; nodes := ∅; fds := ∅; locks := []; mutexes := ∅ |}.

Lemma empty_disk_booted `{Libp2p} path : booted path empty_disk.
Proof. split; [| done..]. split; cbn; intros *; by rewrite ?lookup_empty. Qed.

(** One process saves while another one has called [load] and waits. *)
Definition saver : client := (0, 0).
Definition loader : client := (1, 0).
Definition called (Pl : Platform) (c : client) op (s : machine) : machine (H := plain_libp2p) :=
  {| kern := kern s; running := <[c := operation_code (H0 := Pl) "book.json" 0 op]> (running s) |}.
Definition two_callers (Pl : Platform) : machine (H := plain_libp2p) :=
  called Pl loader OpLoad (called Pl saver (OpSave one_book) (start empty_disk)).
Definition both_done (Pl : Platform) : machine (H := plain_libp2p) :=
  after_client (Pl := Pl) 20 loader (after_client (Pl := Pl) 20 saver (two_callers Pl)).

Definition their_events : list (event (H := plain_libp2p)) :=
  [Called saver (OpSave one_book); Called loader OpLoad; Returned saver (Saved None);
   Returned loader (Loaded (Ok {| Version := 1%Z; Peers := reloaded (H := plain_libp2p) <$> Peers one_book |}))].

Lemma exec_app {S} `{Libp2p} (step : event → S → S → Prop) l1 l2 s1 s2 s3 :
  exec step l1 s1 s2 → exec step l2 s2 s3 → exec step (l1 ++ l2) s1 s3.
Proof. intros H1 H2. induction H2; [by rewrite app_nil_r |]. rewrite app_assoc. econstructor; eauto. Qed.

Lemma both_called (Pl : Platform) :
  exec (H := plain_libp2p) (mstep (H0 := Pl) "book.json") [Called saver (OpSave one_book); Called loader OpLoad]
    (start empty_disk) (two_callers Pl).
Proof.
  set (s1 := called Pl saver (OpSave one_book) (start empty_disk)).
  apply (exec_step (H := plain_libp2p) _ _ s1 _ (Called loader OpLoad) [Called saver (OpSave one_book)]).
  - apply (exec_step (H := plain_libp2p) _ (start empty_disk) (start empty_disk) s1 (Called saver (OpSave one_book)) []); [constructor |].
    by apply (m_call (H := plain_libp2p) "book.json" (start empty_disk) saver 0 (OpSave one_book)).
  - by apply (m_call (H := plain_libp2p) "book.json" s1 loader 0 OpLoad).
Qed.

(** By evaluation, without writing the normal form of the instances out. *)
Ltac by_computation := match goal with |- ?a = ?b => exact (@eq_refl _ b <: a = b) end.

Lemma both_run_windows :
  exec (H := plain_libp2p) (mstep (H0 := windows) "book.json") their_events (start empty_disk) (both_done windows).
Proof.
  apply (exec_app (H := plain_libp2p) _ [_; _] [_; _] _ (two_callers windows)); [apply both_called |].
  apply (exec_app (H := plain_libp2p) _ [_] [_] _ (after_client (Pl := windows) 20 saver (two_callers windows))).
  - apply after_client_exec. by_computation.
  - apply after_client_exec. by_computation.
Qed.

Lemma storage_atomic_witness :
  exec (H := plain_libp2p) (mstep (H0 := windows) "book.json") their_events (start empty_disk) (both_done windows)
  ∧ ∃ a, exec (H := plain_libp2p) (astep (H := plain_libp2p) "book.json") their_events (initial (the_file "book.json" empty_disk)) a
         ∧ value a = the_file "book.json" (kern (both_done windows)).
Proof.
  split; [exact both_run_windows |].
  exact (storage_atomic (H0 := plain_libp2p_laws) (H1 := windows) (H2 := windows_laws) "book.json" _ _ _ (empty_disk_booted (H := plain_libp2p) _) both_run_windows).
Defined.

Lemma storage_whole_witness :
  the_file "book.json" (kern (both_done windows)) = Some {| f_content := CDoc (marshal_book (H := plain_libp2p) one_book); f_synced := true |}
  ∧ readable (H := plain_libp2p) (the_file "book.json" empty_disk) their_events
      {| Version := 1%Z; Peers := reloaded (H := plain_libp2p) <$> Peers one_book |}.
Proof.
  split; [vm_compute; reflexivity |].
  apply (proj2 (storage_whole (H0 := plain_libp2p_laws) (H1 := windows) (H2 := windows_laws) "book.json" _ _ _ (empty_disk_booted (H := plain_libp2p) _) both_run_windows) loader).
  do 3 right. by left.
Defined.

(** The loader takes its turn. *)
Definition loader_in (s : machine (H := plain_libp2p)) : Prop :=
  nsteps (goes_on (H := plain_libp2p)) 1 (two_callers unix) s.

Lemma storage_returns_witness :
  ∃ s, loader_in s ∧ 1 ≤ 17 * size (running (two_callers unix)) ∧ ∃ s', goes_on s s'.
Proof.
  eexists. eassert (loader_in _) as Hn.
  { eapply nsteps_l; [| apply nsteps_O].
    eapply (go_call (H := plain_libp2p) (two_callers unix) loader (MuLock 0) _ tt); [reflexivity | | exact I].
    split; [reflexivity | reflexivity]. }
  split; [exact Hn |].
  destruct (storage_returns (H0 := plain_libp2p_laws) (H1 := unix) (H2 := unix_laws) "book.json" _ _ _ _ _ (empty_disk_booted (H := plain_libp2p) _) (both_called unix) Hn) as [H1 H2].
  split; [exact H1 |]. apply H2. apply insert_non_empty.
Defined.
