(* ===== verification/Subscriptions.v ===== *)
(** * Event subscriptions ([node.go])

    The node broadcasts every connection event to its main channel and to the
    channel of every subscription.  Subscriptions are objects with a context
    derived from the node's: a goroutine per subscription closes its channel
    when the context is done.  Sending on a closed channel and closing one
    twice are panics, which end the process: [panicked] records them. *)

From S2P Require Import Prelude Errors ConnState Dispatcher Proc.

Notation event := ConnState.Public.ConnectionEvent.

Record EventSubscription := {
  ch : Chan.chan event;
  sub_cancelled : bool;       (** its own context *)
  sub_done : bool;
  closeOnce : bool;           (** the [sync.Once] has run *)
}.

(** The part of [Node] that deals with events. *)
Record hub := {
  events : Chan.chan event;
  subs : gmap nat EventSubscription;       (** all objects *)
  eventSubs : option (gset nat);           (** nil once the node has stopped *)
  stopped : bool;                          (** [n.ctx] is done *)
  next_sub : nat;
  EventBufferSize : nat;
  panicked : bool;
}.

Definition set_subs (f : gmap nat EventSubscription → gmap nat EventSubscription) (h : hub) : hub :=
  {| events := events h; subs := f (subs h); eventSubs := eventSubs h; stopped := stopped h; next_sub := next_sub h;
     EventBufferSize := EventBufferSize h; panicked := panicked h |}.
Definition set_events (c : Chan.chan event) (h : hub) : hub :=
  {| events := c; subs := subs h; eventSubs := eventSubs h; stopped := stopped h; next_sub := next_sub h;
     EventBufferSize := EventBufferSize h; panicked := panicked h |}.
Definition set_eventSubs (f : option (gset nat) → option (gset nat)) (h : hub) : hub :=
  {| events := events h; subs := subs h; eventSubs := f (eventSubs h); stopped := stopped h; next_sub := next_sub h;
     EventBufferSize := EventBufferSize h; panicked := panicked h |}.
Definition set_stopped (h : hub) : hub :=
  {| events := events h; subs := subs h; eventSubs := eventSubs h; stopped := true; next_sub := next_sub h;
     EventBufferSize := EventBufferSize h; panicked := panicked h |}.
Definition bump (h : hub) : hub :=
  {| events := events h; subs := subs h; eventSubs := eventSubs h; stopped := stopped h; next_sub := S (next_sub h);
     EventBufferSize := EventBufferSize h; panicked := panicked h |}.
Definition panic (h : hub) : hub :=
  {| events := events h; subs := subs h; eventSubs := eventSubs h; stopped := stopped h; next_sub := next_sub h;
     EventBufferSize := EventBufferSize h; panicked := true |}.

Definition set_ch (c : Chan.chan event) (s : EventSubscription) : EventSubscription :=
  {| ch := c; sub_cancelled := sub_cancelled s; sub_done := sub_done s; closeOnce := closeOnce s |}.
Definition set_flags (cancelled done once : bool) (s : EventSubscription) : EventSubscription :=
  {| ch := ch s; sub_cancelled := cancelled; sub_done := done; closeOnce := once |}.

Definition new_hub (n : nat) : hub :=
  {| events := Chan.make n; subs := ∅; eventSubs := Some ∅; stopped := false; next_sub := 0; EventBufferSize := n;
     panicked := false |}.

(** ** Filters *)

Record EventFilter := { PeerIDs : list string; States : list ConnState.Public.ConnectionState }.

#[export] Instance public_state_eq_dec : EqDecision ConnState.Public.ConnectionState.
Proof. solve_decision. Defined.

(** [for ... { if x == y { found = true; break } }] *)
Fixpoint found {A} `{EqDecision A} (y : A) (l : list A) : bool :=
  match l with
  | [] => false
  | x :: l => if decide (x = y) then true else found y l
  end.

Definition matches (f : EventFilter) (evt : event) : bool :=
  if (0 <? length (PeerIDs f)) && negb (found (ConnState.Public.PeerID evt) (PeerIDs f)) then false
  else if (0 <? length (States f)) && negb (found (ConnState.Public.State evt) (States f)) then false
  else true.

(** ** The environment and the goroutines *)

Inductive query :=
| QDone (i : nat)               (** [<-ctx.Done()] of subscription [i] *)
| QOrder (l : list nat)         (** the order of a [range] over the map *)
| QPick.                        (** which ready case a [select] takes *)

Definition answer (q : query) : Type :=
  match q with QDone _ => unit | QOrder _ => list nat | QPick => bool end.

Inductive proc :=
| PClose (i : nat)                                        (** the goroutine [SubscribeEvents] starts *)
| PFilter (base own : nat) (f : EventFilter)              (** the one [FilteredEvents] starts *)
| PSubscribe
| PUnsubscribe (i : nat)
| PFiltered (f : EventFilter)
| PForward (evt : event)                                  (** one event in [forwardEvents] *)
| PFinish.                                                (** its deferred function *)

Notation code := (prog (S := hub) (P := proc) (Q := query) (R := answer)) (only parsing).

(** A section that acts on an object; the addresses are those of objects. *)
Definition upd_sub (i : nat) (f : EventSubscription → EventSubscription) : ST hub unit := st_modify (set_subs (alter f i)).

(** [close(ch)] *)
Definition close_ch (i : nat) : ST hub unit := st_modify (λ h,
  match subs h !! i with
  | None => h
  | Some s => match Chan.close (ch s) with
              | None => panic h
              | Some c => set_subs (<[i := set_ch c s]>) h
              end
  end).

Definition closeChannel (i : nat) : ST hub unit :=
  h ← st_get;
  match subs h !! i with
  | None => mret tt
  | Some s => if closeOnce s then mret tt
              else _ ← upd_sub i (λ s, set_flags (sub_cancelled s) (sub_done s) true s); close_ch i
  end.

Definition sub_cancel (i : nat) : ST hub unit := upd_sub i (λ s, set_flags true (sub_done s) (closeOnce s) s).

Definition ctx_done (h : hub) (i : nat) : bool :=
  stopped h || match subs h !! i with Some s => sub_cancelled s | None => true end.

Definition Unsubscribe (i : nat) : code unit :=
  first ← atomic (
    h ← st_get;
    match subs h !! i with
    | None => mret false
    | Some s => if sub_done s then mret false
                else _ ← upd_sub i (λ s, set_flags (sub_cancelled s) true (closeOnce s) s); mret true
    end);
  if (first : bool) then
    _ ← atomic (sub_cancel i);
    atomic (st_modify (set_eventSubs (fmap (M := option) (.∖ {[i]}))))
  else mret tt.

(** [&EventSubscription{...}] *)
Definition new_sub : ST hub nat :=
  h ← st_get;
  _ ← st_modify bump;
  _ ← st_modify (set_subs (<[next_sub h := {| ch := Chan.make (EventBufferSize h); sub_cancelled := false;
                                              sub_done := false; closeOnce := false |}]>));
  mret (next_sub h).

Definition SubscribeEvents : code (option nat) :=
  i ← atomic new_sub;
  _ ← go (PClose i);
  live ← atomic (
    h ← st_get;
    match eventSubs h with
    | None => mret false
    | Some l => _ ← st_modify (set_eventSubs (λ _, Some ({[i]} ∪ l))); mret true
    end);
  if (live : bool) then mret (Some i)
  else
    _ ← atomic (sub_cancel i);
    _ ← atomic (close_ch i);
    mret None.

Definition closer (i : nat) : code unit := _ ← ask (QDone i); atomic (closeChannel i).

Definition FilteredEvents (f : EventFilter) : code (option nat) :=
  base ← SubscribeEvents;
  match base with
  | None => mret None
  | Some b =>
      i ← atomic new_sub;
      _ ← go (PFilter b i f);
      mret (Some i)
  end.

Definition EventsForPeer (p : string) : code (option nat) := FilteredEvents {| PeerIDs := [p]; States := [] |}.
Definition EventsForStates (l : list ConnState.Public.ConnectionState) : code (option nat) :=
  FilteredEvents {| PeerIDs := []; States := l |}.

(** [select { case c <- evt: default: }] on a subscription's channel. *)
Definition send_sub (evt : event) (i : nat) : ST hub unit := st_modify (λ h,
  match subs h !! i with
  | None => h
  | Some s => match Chan.try_send evt (ch s) with
              | None => panic h
              | Some (_, c) => set_subs (<[i := set_ch c s]>) h
              end
  end).

Inductive filter_turn := FStop | FClosed | FAgain.

(** One turn of the filtering goroutine: when nothing is ready it blocks,
    which is a turn without effect.  [pick] decides when both cases are. *)
Definition filter_section (base own : nat) (f : EventFilter) (pick : bool) : ST hub filter_turn :=
  h ← st_get;
  match subs h !! base with
  | None => mret FClosed
  | Some s =>
      let done := ctx_done h own in
      match Chan.try_recv (ch s) with
      | (Chan.WouldBlock, _) => mret (if done then FStop else FAgain)
      | (Chan.ClosedDrained, _) => mret (if done && pick then FStop else FClosed)
      | (Chan.Value evt, c) =>
          if done && pick then mret FStop
          else
            _ ← st_modify (set_subs (<[base := set_ch c s]>));
            _ ← (if matches f evt then send_sub evt own else mret tt);
            mret FAgain
      end
  end.

(** The deferred [close(filtered)] runs on both ways out. *)
Definition filter_loop (base own : nat) (f : EventFilter) : code unit :=
  pick ← ask QPick;
  r ← atomic (filter_section base own f pick);
  match r with
  | FAgain => go (PFilter base own f)
  | FClosed => atomic (close_ch own)
  | FStop => _ ← Unsubscribe base; atomic (close_ch own)
  end.

(** ** Forwarding *)

Definition send_main (evt : event) : ST hub bool := λ h,
  match Chan.try_send evt (events h) with
  | None => (false, panic h)
  | Some (sent, c) => (sent, set_events c h)
  end.

Fixpoint send_each (evt : event) (l : list nat) : code unit :=
  match l with
  | [] => mret tt
  | i :: l => _ ← atomic (send_sub evt i); send_each evt l
  end.

Definition forward (evt : event) : code unit :=
  _ ← atomic (send_main evt);
  l ← atomic (st_gets (λ h, elements (default ∅ (eventSubs h))));
  l ← ask (QOrder l);
  send_each evt l.

Fixpoint close_all (l : list nat) : ST hub unit :=
  match l with
  | [] => mret tt
  | i :: l => _ ← closeChannel i; close_all l
  end.

Definition finish : code unit :=
  _ ← atomic (st_modify (λ h, match Chan.close (events h) with None => panic h | Some c => set_events c h end));
  atomic (
    h ← st_get;
    _ ← close_all (elements (default ∅ (eventSubs h)));
    st_modify (set_eventSubs (λ _, None))).

(** ** All goroutines *)

Definition discard {X} (m : code X) : code unit := _ ← m; mret tt.

Definition body (q : proc) : code unit :=
  match q with
  | PClose i => closer i
  | PFilter b i f => filter_loop b i f
  | PSubscribe => discard SubscribeEvents
  | PUnsubscribe i => Unsubscribe i
  | PFiltered f => discard (FilteredEvents f)
  | PForward evt => forward evt
  | PFinish => finish
  end.

Definition api (h : hub) (q : proc) : Prop :=
  match q with PClose _ | PFilter _ _ _ => False | _ => True end.

Definition answers (h : hub) (q : query) : answer q → Prop :=
  match q with
  | QDone i => λ _, ctx_done h i = true
  | QOrder l => λ l', l' ≡ₚ l
  | QPick => λ _, True
  end.

(** By themselves: the application receives, and the node stops. *)
Inductive env : hub → hub → Prop :=
| env_main h v c : Chan.try_recv (events h) = (Chan.Value v, c) → env h (set_events c h)
| env_sub h i s v c : subs h !! i = Some s → Chan.try_recv (ch s) = (Chan.Value v, c) →
    env h (set_subs (<[i := set_ch c s]>) h)
| env_stop h : env h (set_stopped h).
