(* ===== verification/SubscriptionBehaviour.v ===== *)
(** * What subscribers get

    A broadcast reaches every subscriber that has room, a filtered
    subscription gets exactly the matching events, nothing panics while the
    node runs and nobody leaves; and how leaving makes it panic. *)

From S2P Require Import Prelude Errors ConnState Dispatcher Proc RelyGuarantee Subscriptions.

(** ** Filters *)

(** The reference: an empty list admits everything. *)
Definition wanted (f : EventFilter) (evt : event) : Prop :=
  (PeerIDs f = [] ∨ ConnState.Public.PeerID evt ∈ PeerIDs f) ∧ (States f = [] ∨ ConnState.Public.State evt ∈ States f).

Lemma found_iff {A} `{EqDecision A} (y : A) l : found y l = true ↔ y ∈ l.
Proof.
  induction l as [|x l IH]; cbn; [set_solver |]. case_decide; subst; [set_solver |]. rewrite IH. set_solver.
Qed.

Lemma admits {A} `{EqDecision A} (y : A) l : (0 <? length l) && negb (found y l) = false ↔ l = [] ∨ y ∈ l.
Proof.
  rewrite <- found_iff. destruct l as [|x l]; [cbn; naive_solver |]. cbn [length Nat.ltb Nat.leb andb].
  rewrite negb_false_iff. naive_solver.
Qed.

Lemma matches_iff f evt : matches f evt = true ↔ wanted f evt.
Proof.
  unfold matches, wanted. rewrite <- !admits. destruct (_ && _); [naive_solver |]. by destruct (_ && _); naive_solver.
Qed.

#[export] Instance wanted_dec f evt : Decision (wanted f evt).
Proof. destruct (matches f evt) eqn:E; [left | right]; rewrite <- matches_iff; congruence. Defined.

(** What a channel holds after a send that does not block. *)
Definition offer (evt : event) (c : Chan.chan event) : Chan.chan event :=
  if bool_decide (length (Chan.buf c) < Chan.cap c) then Chan.mk (Chan.buf c ++ [evt]) (Chan.cap c) false else c.

Lemma try_send_offer evt (c : Chan.chan event) :
  Chan.is_closed c = false → ∃ b, Chan.try_send evt c = Some (b, offer evt c).
Proof. intros Hc. unfold Chan.try_send, offer. rewrite Hc.
  case_decide; [rewrite bool_decide_true by done | rewrite bool_decide_false by done]; eexists; reflexivity. Qed.

Lemma offer_open evt c : Chan.is_closed c = false → Chan.is_closed (offer evt c) = false.
Proof. intros Hc. unfold offer. by case_bool_decide. Qed.

Lemma offer_take evt c l :
  Chan.ok c → take (Chan.cap c) (Chan.buf (offer evt c) ++ l) = take (Chan.cap c) (Chan.buf c ++ evt :: l)
              ∧ Chan.cap (offer evt c) = Chan.cap c ∧ Chan.ok (offer evt c).
Proof.
  unfold Chan.ok, offer. intros Hok. case_bool_decide as Hr; cbn.
  - rewrite <- app_assoc, length_app. cbn. split; [done |]. split; [done | lia].
  - split; [| done]. rewrite !take_app_ge by lia. replace (Chan.cap c - length (Chan.buf c)) with 0 by lia. done.
Qed.

Lemma ctx_done_lookup h h' i :
  stopped h' = stopped h → sub_cancelled <$> subs h' !! i = sub_cancelled <$> subs h !! i → ctx_done h' i = ctx_done h i.
Proof.
  intros Hs Hc. unfold ctx_done. rewrite Hs. destruct (subs h !! i), (subs h' !! i); cbn in Hc; congruence.
Qed.

(** One turn of the filter on the next event. *)
Lemma filter_turn_runs f b i pick h sb si evt rest :
  subs h !! b = Some sb → subs h !! i = Some si → b ≠ i → Chan.is_closed (ch si) = false → ctx_done h i = false →
  Chan.buf (ch sb) = evt :: rest →
  let h' := (filter_section b i f pick h).2 in
  (filter_section b i f pick h).1 = FAgain
  ∧ subs h' !! b = Some (set_ch (Chan.mk rest (Chan.cap (ch sb)) (Chan.is_closed (ch sb))) sb)
  ∧ subs h' !! i = Some (set_ch (if matches f evt then offer evt (ch si) else ch si) si)
  ∧ panicked h' = panicked h ∧ ctx_done h' i = false.
Proof.
  intros Hb Hi Hne Ho Hd Hbuf. cbv zeta. unfold filter_section, st_get, st_modify, mbind, ST_bind, mret, ST_ret.
  rewrite Hb, Hd. unfold Chan.try_recv. rewrite Hbuf. cbn [andb].
  set (h1 := set_subs _ h). assert (subs h1 !! i = Some si) as Hi1 by (cbn; by rewrite lookup_insert_ne).
  assert (subs h1 !! b = Some (set_ch (Chan.mk rest (Chan.cap (ch sb)) (Chan.is_closed (ch sb))) sb)) as Hb1
    by (cbn; by rewrite lookup_insert_eq).
  assert (ctx_done h1 i = false) as Hd1 by (rewrite <- Hd; apply ctx_done_lookup; [done | by rewrite Hi, Hi1]).
  destruct (matches f evt).
  - unfold send_sub, st_modify. rewrite Hi1. destruct (try_send_offer evt (ch si) Ho) as [sent ->]. cbn [fst snd].
    split; [done |]. split; [cbn; by rewrite lookup_insert_ne, lookup_insert_eq |]. split; [cbn; by rewrite lookup_insert_eq |].
    split; [done |]. rewrite <- Hd1. apply ctx_done_lookup; [done |]. rewrite Hi1. cbn. by rewrite lookup_insert_eq.
  - cbn [fst snd]. split; [done |]. split; [exact Hb1 |]. split; [rewrite Hi1; by destruct si |]. by split.
Qed.

(** A filtered subscription gets exactly the events that match the filter, in
    order, up to the room its channel has: after as many turns of the
    filtering goroutine as there were events, it holds the reference filter of
    what the base subscription held. *)
Theorem filter_forwards f b i pick h sb si :
  subs h !! b = Some sb → subs h !! i = Some si → b ≠ i → Chan.is_closed (ch si) = false → Chan.ok (ch si) →
  ctx_done h i = false →
  let h' := Nat.iter (length (Chan.buf (ch sb))) (λ h, (filter_section b i f pick h).2) h in
  panicked h' = panicked h
  ∧ (∃ sb', subs h' !! b = Some sb' ∧ Chan.buf (ch sb') = [])
  ∧ ∃ si', subs h' !! i = Some si'
           ∧ Chan.buf (ch si') = take (Chan.cap (ch si)) (Chan.buf (ch si) ++ filter (wanted f) (Chan.buf (ch sb))).
Proof.
  cbv zeta. remember (Chan.buf (ch sb)) as l eqn:El. revert h sb si El.
  induction l as [|evt l IH]; intros h sb si El Hb Hi Hne Ho Hok Hd.
  - cbn. split; [done |]. split; [by exists sb |]. exists si. split; [done |].
    by rewrite app_nil_r, take_ge.
  - destruct (filter_turn_runs f b i pick h sb si evt l Hb Hi Hne Ho Hd (eq_sym El)) as (_ & Hb' & Hi' & Hp & Hd').
    cbn [length]. rewrite Nat.iter_succ_r.
    set (h1 := (filter_section b i f pick h).2) in *.
    set (si1 := set_ch (if matches f evt then offer evt (ch si) else ch si) si) in *.
    assert (Chan.ok (ch si1) ∧ Chan.is_closed (ch si1) = false ∧ Chan.cap (ch si1) = Chan.cap (ch si)) as (Hok1 & Ho1 & Hc1).
    { unfold si1. destruct (matches f evt); cbn; [| done].
      destruct (offer_take evt (ch si) [] Hok) as (_ & -> & ?). by split_and!; [| apply offer_open |]. }
    destruct (IH h1 (set_ch (Chan.mk l (Chan.cap (ch sb)) (Chan.is_closed (ch sb))) sb) si1 eq_refl Hb' Hi' Hne Ho1 Hok1 Hd') as (H1 & H2 & si' & H3 & H4).
    split; [by rewrite H1, Hp |]. split; [exact H2 |]. exists si'. split; [exact H3 |]. rewrite H4, Hc1.
    unfold si1; cbn [ch set_ch]. rewrite filter_cons. destruct (matches f evt) eqn:Em.
    + rewrite decide_True by (by apply matches_iff). by apply offer_take.
    + rewrite decide_False by (rewrite <- matches_iff; congruence). done.
Qed.

(** ** Broadcasting *)

(** Everybody who is registered can be sent to. *)
Record healthy (h : hub) : Prop := {
  hl_events : Chan.is_closed (events h) = false;
  hl_subs : ∀ l i, eventSubs h = Some l → i ∈ l → ∃ s, subs h !! i = Some s ∧ Chan.is_closed (ch s) = false;
}.

Lemma send_sub_runs evt i h s :
  subs h !! i = Some s → Chan.is_closed (ch s) = false →
  (send_sub evt i h).2 = set_subs (<[i := set_ch (offer evt (ch s)) s]>) h.
Proof. intros Hi Hc. cbn. rewrite Hi. by destruct (try_send_offer evt (ch s) Hc) as [b ->]. Qed.

Lemma send_each_runs (ans : ∀ q, answer q) evt l h :
  NoDup l → (∀ i, i ∈ l → ∃ s, subs h !! i = Some s ∧ Chan.is_closed (ch s) = false) →
  let h' := final (run ans (send_each evt l) h) in
  events h' = events h ∧ eventSubs h' = eventSubs h ∧ panicked h' = panicked h ∧ stopped h' = stopped h
  ∧ ∀ i, subs h' !! i = (λ s, if bool_decide (i ∈ l) then set_ch (offer evt (ch s)) s else s) <$> subs h !! i.
Proof.
  cbv zeta. revert h. induction l as [|i l IH]; intros h Hn Hs; cbn [send_each].
  - cbn. split_and!; [done.. |]. intros j. by destruct (subs h !! j).
  - apply NoDup_cons in Hn as [Hi Hn]. destruct (Hs i) as (s & Hsi & Hc); [set_solver |].
    unfold mbind, prog_bind. rewrite run_bind_final. cbn [atomic run].
    pose proof (send_sub_runs evt i h s Hsi Hc) as Hrun. destruct (send_sub evt i h) as [[] h1]. cbn in Hrun. subst h1.
    cbn [final value].
    destruct (IH (set_subs (<[i:=set_ch (offer evt (ch s)) s]>) h) Hn) as (H1 & H2 & H3 & H4 & H5).
    { intros j Hj. cbn. rewrite lookup_insert_ne by set_solver. apply Hs. set_solver. }
    cbn in H1, H2, H3, H4. split_and!; [done.. |]. intros j. rewrite H5. cbn. rewrite lookup_insert. case_decide as Hji.
    + subst j. rewrite Hsi. cbn. rewrite (bool_decide_false (i ∈ l)), (bool_decide_true (i ∈ i :: l)) by set_solver. done.
    + destruct (subs h !! j); [| done]. cbn. f_equal.
      rewrite (bool_decide_ext (j ∈ l) (j ∈ i :: l)); [done | set_solver].
Qed.

(** One event reaches everybody: with the subscribers healthy, whatever the
    order of the iteration, the main channel and every registered subscriber
    that has room get the event at the end of what they have not received
    yet, a full channel loses it and nothing else, an object that is not
    registered is left alone, and nothing panics. *)
Theorem broadcast_delivers (ans : ∀ q, answer q) evt h l :
  healthy h → eventSubs h = Some l → ans (QOrder (elements l)) ≡ₚ elements l →
  let h' := final (run ans (forward evt) h) in
  panicked h' = panicked h ∧ eventSubs h' = Some l ∧ events h' = offer evt (events h)
  ∧ ∀ i, ch <$> subs h' !! i = (if bool_decide (i ∈ l) then offer evt else id) <$> (ch <$> subs h !! i).
Proof.
  intros [Ho Hs] Hl Hp. cbv zeta. unfold forward, mbind, prog_bind. cbn [atomic ask bind run].
  unfold send_main. destruct (try_send_offer evt (events h) Ho) as [b ->]. cbn [run st_gets fst snd].
  cbn [eventSubs set_events]. rewrite Hl. cbn [default from_option id final].
  destruct (send_each_runs ans evt (ans (QOrder (elements l))) (set_events (offer evt (events h)) h)) as (H1 & H2 & H3 & _ & H5).
  - rewrite Hp. apply NoDup_elements.
  - intros i Hi. rewrite Hp in Hi. apply elem_of_elements in Hi. exact (Hs l i Hl Hi).
  - cbn in H1, H2, H3. rewrite H2, Hl, H1, H3. split_and!; [done.. |]. intros i. rewrite H5. cbn.
    rewrite (bool_decide_ext (i ∈ ans (QOrder (elements l))) (i ∈ l)) by (rewrite Hp; apply elem_of_elements).
    destruct (subs h !! i) as [s|]; [| done]. cbn. by case_bool_decide.
Qed.

(** ** While the node runs and nobody leaves *)

(** Nothing is closed and no context is done. *)
Record serving (h : hub) : Prop := {
  sv_flags : stopped h = false ∧ panicked h = false ∧ Chan.is_closed (events h) = false;
  sv_subs : ∀ i s, subs h !! i = Some s → i < next_sub h ∧ sub_cancelled s = false ∧ Chan.is_closed (ch s) = false;
  sv_open : eventSubs h ≠ None;
}.

Definition objects_stay (h h' : hub) : Prop := ∀ i, is_Some (subs h !! i) → is_Some (subs h' !! i).

#[export] Instance objects_stay_preorder : PreOrder objects_stay.
Proof. split; [by intros h i | intros h1 h2 h3 H1 H2 i Hi; auto]. Qed.

Definition may_start (q : proc) (h : hub) : Prop :=
  match q with
  | PClose i => is_Some (subs h !! i)
  | PFilter b i _ => is_Some (subs h !! b) ∧ is_Some (subs h !! i)
  | PUnsubscribe _ | PFinish => False
  | _ => True
  end.

Lemma serving_start_fact q : fact objects_stay (may_start q).
Proof. intros h h' Hs Hm. destruct q; cbn in *; try done; [by apply Hs | destruct Hm; split; by apply Hs]. Qed.

(** The calls of a node that runs and whose subscribers stay. *)
Definition api_staying (h : hub) (q : proc) : Prop :=
  match q with PSubscribe | PFiltered _ | PForward _ => True | _ => False end.

Definition env_running (h h' : hub) : Prop := env h h' ∧ stopped h' = false.

Notation calm := (keeps serving objects_stay).

Lemma serving_ctx h i : serving h → is_Some (subs h !! i) → ctx_done h i = false.
Proof.
  intros [(Hs & _) Ho _] [s Hi]. unfold ctx_done. rewrite Hs, Hi. by destruct (Ho i s Hi) as (_ & -> & _).
Qed.

(** The channel of an object changes, and stays open. *)
Lemma set_ch_calm h i s c :
  subs h !! i = Some s → Chan.is_closed c = false → calm h (set_subs (<[i := set_ch c s]>) h).
Proof.
  intros Hi Hc [Hf Ho Hl]. split.
  - split; cbn; try done. intros j s' Hj. rewrite lookup_insert in Hj. case_decide; [| by apply Ho].
    injection Hj as <-. subst. cbn. destruct (Ho _ _ Hi) as (? & ? & _). by split_and!.
  - intros j Hj. cbn. rewrite lookup_insert. case_decide; [by eexists | done].
Qed.

Lemma send_sub_calm evt i h : calm h (send_sub evt i h).2.
Proof.
  intros Hsv. cbn. destruct (subs h !! i) as [s|] eqn:Hi; [| by split].
  destruct (sv_subs h Hsv i s Hi) as (_ & _ & Hc). destruct (try_send_offer evt (ch s) Hc) as [b ->].
  apply set_ch_calm; [done | by apply offer_open | done].
Qed.

Lemma send_main_calm evt h : calm h (send_main evt h).2.
Proof.
  intros [(H1 & H2 & H3) Ho Hl]. unfold send_main. destruct (try_send_offer evt (events h) H3) as [b ->]. cbn.
  split; [| by intros i]. split; cbn; try done. split_and!; [done.. | by apply offer_open].
Qed.

Lemma new_sub_calm h :
  calm h (new_sub h).2 ∧ is_Some (subs (new_sub h).2 !! (new_sub h).1).
Proof.
  unfold new_sub, st_get, st_modify, mbind, ST_bind, mret, ST_ret; cbn. split; [| rewrite lookup_insert_eq; by eexists]. intros [Hf Ho Hl]. split.
  - split; cbn; try done. intros i s. rewrite lookup_insert. case_decide as Hi; [intros [= <-]; cbn; by split_and!; [lia |..] |].
    intros Hs. destruct (Ho i s Hs) as (? & ?). by split; [lia |].
  - intros i Hi. cbn. rewrite lookup_insert. case_decide; [by eexists | done].
Qed.

Notation hold := (holds answers serving objects_stay may_start) (only parsing).

Lemma SubscribeEvents_holds h :
  hold SubscribeEvents (λ r h', ∀ i, r = Some i → is_Some (subs h' !! i)) h.
Proof.
  unfold SubscribeEvents. apply holds_bind, holds_atomic. intros h1 _ Hsv.
  destruct (new_sub_calm h1) as [Hc Hi]. destruct (Hc Hsv) as [H1 H2]. split; [exact H1 |]. split; [exact H2 |].
  destruct (new_sub h1) as [i h2]. cbn [fst snd] in *. apply holds_bind. cbn. split; [exact Hi |].
  intros h3 H3 Hsv3. unfold st_get, st_modify, mbind, ST_bind, mret, ST_ret.
  destruct Hsv3 as [Hf Ho Hl]. destruct (eventSubs h3) as [l|] eqn:El; [| done]. cbn.
  split; [by split |]. split; [by intros j |]. intros j [= <-]. by apply H3.
Qed.

Lemma body_holds q h : may_start q h → hold (body q) (λ _ _, True) h.
Proof.
  intros Hm. destruct q as [i|b i f| |i|f|evt|]; cbn [body]; try done.
  - cbn. intros [] h1 H1 Hsv Hd. rewrite serving_ctx in Hd; [done.. | by apply H1].
  - destruct Hm as [Hb Hi]. unfold filter_loop. apply holds_bind. cbn. intros pick h1 H1 _ _ h2 H2 Hsv.
    pose proof (serving_ctx h2 i Hsv (H2 _ (H1 _ Hi))) as Hd. destruct (H2 _ (H1 _ Hb)) as [sb Hsb].
    unfold filter_section, st_get, st_modify, mbind, ST_bind, mret, ST_ret. rewrite Hsb, Hd.
    destruct (sv_subs h2 Hsv b sb Hsb) as (_ & _ & Hc). unfold Chan.try_recv.
    destruct (Chan.buf (ch sb)) as [|evt rest] eqn:Eb.
    + rewrite Hc. cbn. split; [done |]. split; [done |]. split; [| done]. split; [by eexists | by apply H2, H1].
    + cbn [andb]. destruct (set_ch_calm h2 b sb (Chan.mk rest (Chan.cap (ch sb)) (Chan.is_closed (ch sb))) Hsb Hc Hsv) as [H3 H4].
      set (h3 := set_subs _ h2) in *.
      assert (calm h3 ((if matches f evt then send_sub evt i else mret tt) h3).2) as Hc3
        by (destruct (matches f evt); [apply send_sub_calm | by intros ?; split]).
      destruct (Hc3 H3) as [H5 H6]. unfold mret, ST_ret in *.
      destruct ((if matches f evt then send_sub evt i else λ s : hub, ((), s)) h3) as [u h4]. cbn [fst snd] in *.
      split; [exact H5 |]. split; [by trans h3 |]. cbn. split; [| done].
      split; [apply H6; apply H4; by eexists | apply H6, H4, H2, H1, Hi].
  - unfold discard. apply holds_bind. eapply holds_weaken; [| apply SubscribeEvents_holds]. done.
  - unfold discard, FilteredEvents. do 2 apply holds_bind. eapply holds_weaken; [| apply SubscribeEvents_holds].
    intros [b|] h1 Hb; [| done]. specialize (Hb b eq_refl). apply holds_bind, holds_atomic. intros h2 H2 Hsv.
    destruct (new_sub_calm h2) as [Hc Hi]. destruct (Hc Hsv) as [H3 H4]. split; [exact H3 |]. split; [exact H4 |].
    destruct (new_sub h2) as [i h3]. cbn [fst snd] in *. cbn. split; [| done]. split; [by apply H4, H2 | exact Hi].
  - unfold forward. apply holds_bind, holds_atomic. intros h1 _ Hsv. destruct (send_main_calm evt h1 Hsv) as [H1 H2].
    split; [exact H1 |]. split; [exact H2 |]. cbn. intros h2 _ Hsv2. split; [done |]. split; [done |].
    intros l h3 _ _ _. generalize h3; clear. induction l as [|i l IH]; intros h; [done |]. cbn [send_each].
    apply holds_bind, holds_atomic. intros h1 _ Hsv. destruct (send_sub_calm evt i h1 Hsv) as [H1 H2].
    split; [exact H1 |]. split; [exact H2 |]. apply IH.
Qed.

(** As long as the node runs and no subscriber leaves, no interleaving of
    subscribing, filtering, broadcasting and receiving panics. *)
Theorem running_never_panics n h gs :
  rtc (step body api_staying answers env_running) {| shared := new_hub n; gos := [] |} {| shared := h; gos := gs |} →
  panicked h = false ∧ Chan.is_closed (events h) = false
  ∧ ∀ i s, subs h !! i = Some s → Chan.is_closed (ch s) = false.
Proof.
  intros Hr. assert (good answers serving objects_stay may_start {| shared := h; gos := gs |}) as [Hsv _].
  { eapply (execution_good answers serving objects_stay may_start serving_start_fact body api_staying env_running body_holds);
      [by intros h1 [] | | exact Hr |].
    - intros h1 h2 Hsv [He Hst]. destruct He as [h1 v c Hc|h1 i s v c Hi Hc|h1].
      + split; [| by intros i]. destruct Hsv as [(H1 & H2 & H3) Ho Hl]. split; cbn; try done. split_and!; try done.
        unfold Chan.try_recv in Hc. destruct (Chan.buf _); [by destruct (Chan.is_closed _) | by injection Hc as <- <-].
      + apply set_ch_calm; [done | | done]. destruct (sv_subs h1 Hsv i s Hi) as (_ & _ & Ho).
        unfold Chan.try_recv in Hc. destruct (Chan.buf _); [by destruct (Chan.is_closed _) | by injection Hc as <- <-].
      + done.
    - split; [| constructor]. split; cbn; [done | intros i s; by rewrite lookup_empty | done]. }
  destruct Hsv as [(_ & H1 & H2) Ho _]. split; [done |]. split; [done |]. intros i s Hi. by destruct (Ho i s Hi) as (_ & _ & ?).
Qed.

(** ** How leaving panics *)

(** An environment that answers at once, in the map's own order. *)
Definition prompt (q : query) : answer q :=
  match q with QDone _ => tt | QOrder l => l | QPick => true end.

Lemma send_sub_panicked evt j h : panicked h = true → panicked (send_sub evt j h).2 = true.
Proof. intros Hp. cbn. destruct (subs h !! j) as [sj|]; [| done]. by destruct (Chan.try_send evt (ch sj)) as [[]|]. Qed.

Lemma send_sub_closed evt i j h s :
  subs h !! i = Some s → Chan.is_closed (ch s) = true →
  panicked (send_sub evt j h).2 = true ∨ (j ≠ i ∧ subs (send_sub evt j h).2 !! i = Some s).
Proof.
  intros Hi Hc. cbn. destruct (decide (j = i)) as [->|Hne].
  - left. rewrite Hi. unfold Chan.try_send. by rewrite Hc.
  - destruct (subs h !! j) as [sj|]; [| by right].
    destruct (Chan.try_send evt (ch sj)) as [[]|]; [| by left]. right. split; [done |]. cbn. by rewrite lookup_insert_ne.
Qed.

Lemma send_each_panic evt i s l h :
  panicked h = true ∨ (i ∈ l ∧ subs h !! i = Some s ∧ Chan.is_closed (ch s) = true) →
  panicked (final (run prompt (send_each evt l) h)) = true.
Proof.
  revert h. induction l as [|j l IH]; intros h Hh; cbn [send_each].
  - destruct Hh as [Hp|[Hi _]]; [done | set_solver].
  - unfold mbind, prog_bind. rewrite run_bind_final. cbn [atomic run].
    pose proof (send_sub_panicked evt j h) as H1. pose proof (send_sub_closed evt i j h s) as H2.
    destruct (send_sub evt j h) as [[] h1]. cbn [final value snd] in *. apply IH.
    destruct Hh as [Hp|(Hin & Hi & Hc)]; [left; auto |].
    destruct (H2 Hi Hc) as [Hp|[Hne Hi']]; [by left | right]. split; [set_solver | done].
Qed.

(** A broadcast with a registered subscriber's channel closed. *)
Lemma forward_panics evt i s l h :
  eventSubs h = Some l → i ∈ l → subs h !! i = Some s → Chan.is_closed (ch s) = true →
  panicked (final (run prompt (forward evt) h)) = true.
Proof.
  intros Hl Hi Hs Hc. unfold forward, mbind, prog_bind. cbn [atomic ask bind run].
  destruct (send_main evt h) as [b h1] eqn:Em. cbn [run st_gets].
  assert (subs h1 = subs h ∧ eventSubs h1 = eventSubs h) as [E1 E2]
    by (unfold send_main in Em; destruct (Chan.try_send evt (events h)) as [[]|]; by injection Em as <- <-).
  cbn [final prompt]. rewrite E2, Hl. cbn [default from_option id]. apply (send_each_panic evt i s). right.
  rewrite E1. split; [by apply elem_of_elements | done].
Qed.

(** The goroutine that closes a channel, once the context is done. *)
Lemma closer_closes i s h :
  subs h !! i = Some s → closeOnce s = false → Chan.is_closed (ch s) = false →
  let h' := (closeChannel i h).2 in
  eventSubs h' = eventSubs h ∧ panicked h' = panicked h
  ∧ ∃ s', subs h' !! i = Some s' ∧ Chan.is_closed (ch s') = true.
Proof.
  intros Hi Ho Hc. cbv zeta. unfold closeChannel, upd_sub, close_ch, st_get, st_modify, mbind, ST_bind, mret, ST_ret.
  rewrite Hi, Ho. cbn. rewrite lookup_alter_eq, Hi. cbn. unfold Chan.close. rewrite Hc. cbn.
  split; [done |]. split; [done |]. rewrite lookup_insert_eq. by eexists.
Qed.

Lemma close_ch_closed i s h :
  subs h !! i = Some s → Chan.is_closed (ch s) = true → panicked (close_ch i h).2 = true.
Proof. intros Hi Hc. cbn. rewrite Hi. unfold Chan.close. by rewrite Hc. Qed.

Lemma close_ch_closes i s h :
  subs h !! i = Some s → Chan.is_closed (ch s) = false →
  ∃ s', subs (close_ch i h).2 !! i = Some s' ∧ closeOnce s' = closeOnce s ∧ Chan.is_closed (ch s') = true.
Proof.
  intros Hi Hc. cbn. rewrite Hi. unfold Chan.close. rewrite Hc. cbn. rewrite lookup_insert_eq. by eexists.
Qed.

Lemma closeChannel_closed i s h :
  subs h !! i = Some s → closeOnce s = false → Chan.is_closed (ch s) = true → panicked (closeChannel i h).2 = true.
Proof.
  intros Hi Ho Hc. unfold closeChannel, st_get, mbind, ST_bind. rewrite Hi, Ho.
  apply (close_ch_closed i (set_flags (sub_cancelled s) (sub_done s) true s)); [| done].
  cbn. by rewrite lookup_alter_eq, Hi.
Qed.

Lemma forward_asks evt : asks (λ q, ∀ h, answers h q (prompt q)) (forward evt).
Proof.
  unfold forward. cbn. intros _ h. split; [by intros ? |]. intros l. induction l as [|i l IH]; [done |].
  cbn. by intros _.
Qed.

(** From a moment when the context of a registered subscription is done, while
    its closing goroutine and a broadcast are on their way. *)
Lemma done_then_broadcast env evt i s l h gs j k :
  eventSubs h = Some l → i ∈ l → subs h !! i = Some s → closeOnce s = false → Chan.is_closed (ch s) = false →
  ctx_done h i = true → gs !! j = Some (closer i) → gs !! k = Some (forward evt) → j ≠ k →
  ∃ s', rtc (step body api answers env) {| shared := h; gos := gs |} s' ∧ panicked (shared s') = true.
Proof.
  intros Hl Hin Hi Ho Hc Hd Hj Hk Hne.
  destruct (closer_closes i s h Hi Ho Hc) as (E1 & _ & s1 & Hs1 & Hc1).
  pose proof (forward_panics evt i s1 l (closeChannel i h).2 ltac:(congruence) Hin Hs1 Hc1) as Hp.
  pose proof (lookup_lt_Some _ _ _ Hj) as Hlt.
  set (gs1 := <[j := atomic (closeChannel i)]> gs). set (gs2 := <[j := (mret tt : prog unit)]> gs1).
  destruct (run_to_end body api answers env prompt (forward evt) (closeChannel i h).2 gs2 k (forward_asks evt)) as [gs' Hr].
  { unfold gs2, gs1. by rewrite !list_lookup_insert_ne. }
  exists {| shared := final (run prompt (forward evt) (closeChannel i h).2); gos := gs' |}. split; [| exact Hp].
  eapply rtc_l; [exact (step_ask body api answers env {| shared := h; gos := gs |} j (QDone i) _ tt Hj Hd) |]. cbn [shared gos].
  eapply rtc_l; [| exact Hr].
  pose proof (step_atomic body api answers env {| shared := h; gos := gs1 |} j unit (closeChannel i) (λ x, Ret x)) as Hs.
  unfold gs2. destruct (closeChannel i h) as [[] h1] eqn:Ec. cbn in Hs. rewrite Ec in Hs. apply Hs.
  unfold gs1. by rewrite list_lookup_insert_eq.
Qed.

(** Leaving, and stopping, can bring the process down.  A subscription's
    goroutine closes its channel as soon as the context is done, without the
    lock that a broadcast holds and before the subscription is taken off the
    list: when [Unsubscribe] is called, or the node stops, while an event is
    on its way, the broadcast sends on a closed channel. *)
Theorem leaving_panics env evt i s l h :
  eventSubs h = Some l → i ∈ l → subs h !! i = Some s → sub_done s = false → closeOnce s = false →
  Chan.is_closed (ch s) = false →
  (∃ s', rtc (step body api answers env) {| shared := h; gos := [forward evt; Unsubscribe i; closer i] |} s'
         ∧ panicked (shared s') = true)
  ∧ (stopped h = true →
     ∃ s', rtc (step body api answers env) {| shared := h; gos := [forward evt; closer i] |} s' ∧ panicked (shared s') = true).
Proof.
  intros Hl Hin Hi Hd Ho Hc. split.
  - set (h1 := (sub_cancel i (upd_sub i (λ s, set_flags (sub_cancelled s) true (closeOnce s) s) h).2).2).
    assert (subs h1 !! i = Some (set_flags true true (closeOnce s) s)) as Hi1
      by (cbn; by rewrite !lookup_alter_eq, Hi).
    destruct (done_then_broadcast env evt i (set_flags true true (closeOnce s) s) l h1
      [forward evt; atomic (st_modify (set_eventSubs (fmap (M := option) (.∖ {[i]})))); closer i] 2 0) as (s' & Hr & Hp); try done.
    { unfold ctx_done. by rewrite Hi1, orb_true_r. }
    exists s'. split; [| exact Hp].
    eapply rtc_l; [eapply (step_atomic body api answers env {| shared := h; gos := [forward evt; Unsubscribe i; closer i] |} 1); reflexivity |].
    cbn [shared gos]. unfold st_get, mbind, ST_bind, mret, ST_ret. rewrite Hi, Hd. cbn [upd_sub st_modify fst snd].
    eapply rtc_l; [eapply (step_atomic body api answers env _ 1); reflexivity |]. exact Hr.
  - intros Hst. apply (done_then_broadcast env evt i s l h _ 1 0); try done. unfold ctx_done. by rewrite Hst.
Qed.

(** A subscription made after the node has stopped ends the process instead
    of returning nil: at the end of [SubscribeEvents] two goroutines are left
    to close the same channel, one of them without the [sync.Once], and in
    either order the second one panics. *)
Theorem late_subscription_panics env h :
  eventSubs h = None →
  ∃ h1 i, rtc (step body api answers env) {| shared := h; gos := [body PSubscribe] |}
            {| shared := h1; gos := [Atomic (close_ch i) (λ _, mret tt); closer i] |}
          ∧ ctx_done h1 i = true
          ∧ panicked (closeChannel i (close_ch i h1).2).2 = true
          ∧ panicked (close_ch i (closeChannel i h1).2).2 = true.
Proof.
  intros Hn. set (i := next_sub h). set (h1 := (sub_cancel i (new_sub h).2).2). exists h1, i.
  assert (subs h1 !! i = Some {| ch := Chan.make (EventBufferSize h); sub_cancelled := true; sub_done := false; closeOnce := false |})
    as Hi by (unfold h1, new_sub, st_get, st_modify, mbind, ST_bind, mret, ST_ret; cbn; by rewrite lookup_alter_eq, lookup_insert_eq).
  split; [| split; [| split]].
  - eapply rtc_l; [eapply (step_atomic body api answers env {| shared := h; gos := [body PSubscribe] |} 0); reflexivity |]. cbn.
    eapply rtc_l; [eapply (step_go body api answers env _ 0); reflexivity |]. cbn.
    eapply rtc_l; [eapply (step_atomic body api answers env _ 0); reflexivity |]. cbn.
    unfold st_get, st_modify, mbind, ST_bind, mret, ST_ret. cbn [fst snd].
    assert (eventSubs (new_sub h).2 = None) as -> by done. cbn.
    eapply rtc_l; [eapply (step_atomic body api answers env _ 0); reflexivity |]. cbn. apply rtc_refl.
  - unfold ctx_done. by rewrite Hi, orb_true_r.
  - destruct (close_ch_closes i _ h1 Hi eq_refl) as (s' & Hs' & Ho & Hc). apply (closeChannel_closed i s' _ Hs'); [by rewrite Ho | done].
  - destruct (closer_closes i _ h1 Hi eq_refl eq_refl) as (_ & _ & s' & Hs' & Hc). by apply (close_ch_closed i s').
Qed.

(** ** Witnesses *)

Module SubscriptionWitness.
Definition evt0 : event := {| ConnState.Public.PeerID := "Qm1"; ConnState.Public.State := ConnState.Public.StateConnected;
                              ConnState.Public.Error := None; ConnState.Public.Timestamp := 1%Z |}.
Definition evt1 : event := {| ConnState.Public.PeerID := "Qm2"; ConnState.Public.State := ConnState.Public.StateConnected;
                              ConnState.Public.Error := None; ConnState.Public.Timestamp := 2%Z |}.
Definition sub0 (l : list event) : EventSubscription :=
  {| ch := Chan.mk l 3 false; sub_cancelled := false; sub_done := false; closeOnce := false |}.
Definition hub0 : hub :=
  {| events := Chan.make 3; subs := {[0 := sub0 [evt0; evt1]; 1 := sub0 []]}; eventSubs := Some {[0]}; stopped := false;
     next_sub := 2; EventBufferSize := 3; panicked := false |}.
Definition only_Qm2 : EventFilter := {| PeerIDs := ["Qm2"%string]; States := [] |}.

Lemma filter_forwards_witness :
  ∃ s, subs (Nat.iter 2 (λ h, (filter_section 0 1 only_Qm2 true h).2) hub0) !! 1 = Some s ∧ Chan.buf (ch s) = [evt1].
Proof.
  destruct (filter_forwards only_Qm2 0 1 true hub0 (sub0 [evt0; evt1]) (sub0 []) eq_refl eq_refl ltac:(lia) eq_refl
    ltac:(vm_compute; lia) eq_refl) as (_ & _ & s & H1 & H2).
  exists s. split; [exact H1 | rewrite H2; vm_compute; reflexivity].
Defined.

Lemma hub0_healthy : healthy hub0.
Proof.
  split; [done |]. intros l i [= <-] Hi%elem_of_singleton. subst. by eexists.
Qed.

Lemma broadcast_delivers_witness :
  events (final (run prompt (forward evt0) hub0)) = Chan.mk [evt0] 3 false
  ∧ ch <$> subs (final (run prompt (forward evt0) hub0)) !! 0 = Some (Chan.mk [evt0; evt1; evt0] 3 false).
Proof.
  destruct (broadcast_delivers prompt evt0 hub0 {[0]} hub0_healthy eq_refl (Permutation_refl _)) as (_ & _ & H1 & H2).
  split; [exact H1 | rewrite H2; vm_compute; reflexivity].
Defined.

Lemma running_never_panics_witness :
  panicked (final (run prompt (body PSubscribe) (new_hub 3))) = false.
Proof.
  destruct (call_in_a_row body api_staying answers env_running prompt PSubscribe (new_hub 3) []) as [gs Hr]; [| done |].
  - cbn. intros h0 h. unfold st_get, st_modify, mbind, ST_bind, mret, ST_ret. destruct (eventSubs h); cbn; done.
  - exact (proj1 (running_never_panics 3 _ gs Hr)).
Defined.

Lemma leaving_panics_witness :
  ∃ s', rtc (step body api answers env) {| shared := hub0; gos := [forward evt0; Unsubscribe 0; closer 0] |} s'
        ∧ panicked (shared s') = true.
Proof.
  exact (proj1 (leaving_panics env evt0 0 (sub0 [evt0; evt1]) {[0]} hub0 eq_refl ltac:(set_solver) eq_refl eq_refl eq_refl eq_refl)).
Defined.

Definition hub_stopped : hub := final (run prompt finish (set_stopped hub0)).

Lemma late_subscription_panics_witness :
  ∃ h1 i, rtc (step body api answers env) {| shared := hub_stopped; gos := [body PSubscribe] |}
            {| shared := h1; gos := [Atomic (close_ch i) (λ _, mret tt); closer i] |}.
Proof.
  destruct (late_subscription_panics env hub_stopped ltac:(vm_compute; reflexivity)) as (h1 & i & H & _). by exists h1, i.
Defined.
End SubscriptionWitness.
