(* ===== verification/Stats.v ===== *)
(** * Statistics of a peer ([stats.go])

    The tracker counts messages and bytes per peer and per stream, the time
    connected, and warns once when a peer's messages may exhaust the random
    nonces.  Counters are [int64] and wrap; [now] is what [time.Now] returns
    inside the method. *)

From S2P Require Import Prelude.
Local Open Scope Z_scope.
Local Open Scope go_scope.

Definition NonceExhaustionWarningThreshold : Z := Z.shiftl 1 40.

Record StreamStats := {
  Name : string;
  MessagesSent : Z;
  MessagesReceived : Z;
  BytesSent : Z;
  BytesReceived : Z;
  LastSentAt : time;
  LastReceivedAt : time;
}.

Record PeerStats := {
  ps_PeerID : string;
  Connected : bool;
  IsOutbound : bool;
  ConnectedAt : time;
  TotalConnectTime : duration;
  ps_MessagesSent : Z;
  ps_MessagesReceived : Z;
  ps_BytesSent : Z;
  ps_BytesReceived : Z;
  ps_StreamStats : gmap string StreamStats;
  LastMessageAt : time;
  ConnectionCount : Z;
  FailureCount : Z;
}.

Record streamStatsInternal := {
  messagesSent : Z;
  messagesReceived : Z;
  bytesSent : Z;
  bytesReceived : Z;
  lastSentAt : time;
  lastReceivedAt : time;
}.

(** The callback is set or nil; what it was called with is returned. *)
Record PeerStatsTracker := {
  peerID : string;
  connectedAt : time;
  totalConnectTime : duration;
  t_messagesSent : Z;
  t_messagesReceived : Z;
  t_bytesSent : Z;
  t_bytesReceived : Z;
  streamStats : gmap string streamStatsInternal;
  lastMessageAt : time;
  connectionCount : Z;
  failureCount : Z;
  nonceWarningEmitted : bool;
  onNonceExhaustion : bool;
}.

Definition NewPeerStatsTracker (p : string) (callback : bool) : PeerStatsTracker :=
  {| peerID := p; connectedAt := GoTime.zero; totalConnectTime := 0;
     t_messagesSent := 0; t_messagesReceived := 0; t_bytesSent := 0; t_bytesReceived := 0;
     streamStats := ∅; lastMessageAt := GoTime.zero; connectionCount := 0; failureCount := 0;
     nonceWarningEmitted := false; onNonceExhaustion := callback |}.

(** ** Recording *)

Definition set_connection (s : PeerStatsTracker) (at_ : time) (total : duration) (count failures : Z) : PeerStatsTracker :=
  {| peerID := peerID s; connectedAt := at_; totalConnectTime := total;
     t_messagesSent := t_messagesSent s; t_messagesReceived := t_messagesReceived s;
     t_bytesSent := t_bytesSent s; t_bytesReceived := t_bytesReceived s;
     streamStats := streamStats s; lastMessageAt := lastMessageAt s; connectionCount := count;
     failureCount := failures; nonceWarningEmitted := nonceWarningEmitted s;
     onNonceExhaustion := onNonceExhaustion s |}.

Definition RecordConnectionStart (now : time) : ST PeerStatsTracker unit := st_modify (λ s,
  set_connection s now (totalConnectTime s) (connectionCount s +₆₄ 1) (failureCount s)).

Definition RecordConnectionEnd (now : time) : ST PeerStatsTracker unit := st_modify (λ s,
  if negb (GoTime.IsZero (connectedAt s))
  then set_connection s GoTime.zero (totalConnectTime s +₆₄ GoTime.Sub now (connectedAt s))
         (connectionCount s) (failureCount s)
  else s).

Definition RecordFailure : ST PeerStatsTracker unit := st_modify (λ s,
  set_connection s (connectedAt s) (totalConnectTime s) (connectionCount s) (failureCount s +₆₄ 1)).

Definition new_stream : streamStatsInternal :=
  {| messagesSent := 0; messagesReceived := 0; bytesSent := 0; bytesReceived := 0;
     lastSentAt := GoTime.zero; lastReceivedAt := GoTime.zero |}.

(** The stream's entry, created on first use. *)
Definition stream_of (s : PeerStatsTracker) (name : string) : streamStatsInternal :=
  default new_stream (streamStats s !! name).

Definition count_sent (now : time) (size : Z) (ss : streamStatsInternal) : streamStatsInternal :=
  {| messagesSent := messagesSent ss +₆₄ 1; messagesReceived := messagesReceived ss;
     bytesSent := bytesSent ss +₆₄ size; bytesReceived := bytesReceived ss;
     lastSentAt := now; lastReceivedAt := lastReceivedAt ss |}.

Definition count_received (now : time) (size : Z) (ss : streamStatsInternal) : streamStatsInternal :=
  {| messagesSent := messagesSent ss; messagesReceived := messagesReceived ss +₆₄ 1;
     bytesSent := bytesSent ss; bytesReceived := bytesReceived ss +₆₄ size;
     lastSentAt := lastSentAt ss; lastReceivedAt := now |}.

(** The returned call of the callback is made after the lock is released. *)
Definition RecordMessageSent (now : time) (streamName : string) (size : Z) : ST PeerStatsTracker (option (string * Z)) := λ s,
  let sent := t_messagesSent s +₆₄ 1 in
  let shouldWarn := negb (nonceWarningEmitted s) && (NonceExhaustionWarningThreshold <=? sent)
                    && onNonceExhaustion s in
  let s' := {| peerID := peerID s; connectedAt := connectedAt s; totalConnectTime := totalConnectTime s;
               t_messagesSent := sent; t_messagesReceived := t_messagesReceived s;
               t_bytesSent := t_bytesSent s +₆₄ size; t_bytesReceived := t_bytesReceived s;
               streamStats := <[streamName := count_sent now size (stream_of s streamName)]> (streamStats s);
               lastMessageAt := now; connectionCount := connectionCount s; failureCount := failureCount s;
               nonceWarningEmitted := nonceWarningEmitted s || shouldWarn;
               onNonceExhaustion := onNonceExhaustion s |} in
  ((if shouldWarn && onNonceExhaustion s then Some (peerID s, sent) else None), s').

Definition RecordMessageReceived (now : time) (streamName : string) (size : Z) : ST PeerStatsTracker unit := st_modify (λ s,
  {| peerID := peerID s; connectedAt := connectedAt s; totalConnectTime := totalConnectTime s;
     t_messagesSent := t_messagesSent s; t_messagesReceived := t_messagesReceived s +₆₄ 1;
     t_bytesSent := t_bytesSent s; t_bytesReceived := t_bytesReceived s +₆₄ size;
     streamStats := <[streamName := count_received now size (stream_of s streamName)]> (streamStats s);
     lastMessageAt := now; connectionCount := connectionCount s; failureCount := failureCount s;
     nonceWarningEmitted := nonceWarningEmitted s; onNonceExhaustion := onNonceExhaustion s |}).

(** ** Reading *)

Definition copy_stream (name : string) (ss : streamStatsInternal) : StreamStats :=
  {| Name := name; MessagesSent := messagesSent ss; MessagesReceived := messagesReceived ss;
     BytesSent := bytesSent ss; BytesReceived := bytesReceived ss;
     LastSentAt := lastSentAt ss; LastReceivedAt := lastReceivedAt ss |}.

Definition Snapshot (now : time) (p : string) (connected isOutbound : bool) (s : PeerStatsTracker) : PeerStats :=
  {| ps_PeerID := p; Connected := connected; IsOutbound := isOutbound; ConnectedAt := connectedAt s;
     TotalConnectTime := if connected && negb (GoTime.IsZero (connectedAt s))
                         then totalConnectTime s +₆₄ GoTime.Sub now (connectedAt s)
                         else totalConnectTime s;
     ps_MessagesSent := t_messagesSent s; ps_MessagesReceived := t_messagesReceived s;
     ps_BytesSent := t_bytesSent s; ps_BytesReceived := t_bytesReceived s;
     ps_StreamStats := map_imap (λ name ss, Some (copy_stream name ss)) (streamStats s);
     LastMessageAt := lastMessageAt s; ConnectionCount := connectionCount s; FailureCount := failureCount s |}.

Definition LastActivity (now : time) (s : PeerStatsTracker) : time :=
  if negb (GoTime.IsZero (connectedAt s)) then now else lastMessageAt s.

(** ** Sequences of calls *)

Inductive op :=
| OStart (now : time) | OEnd (now : time) | OFailure
| OSent (now : time) (name : string) (size : Z) | OReceived (now : time) (name : string) (size : Z).

(** One call: the callback it made, if any, and the new tracker. *)
Definition apply (x : op) (s : PeerStatsTracker) : option (string * Z) * PeerStatsTracker :=
  match x with
  | OStart now => (None, (RecordConnectionStart now s).2)
  | OEnd now => (None, (RecordConnectionEnd now s).2)
  | OFailure => (None, (RecordFailure s).2)
  | OSent now name size => RecordMessageSent now name size s
  | OReceived now name size => (None, (RecordMessageReceived now name size s).2)
  end.

Fixpoint apply_all (xs : list op) (s : PeerStatsTracker) : list (string * Z) * PeerStatsTracker :=
  match xs with
  | [] => ([], s)
  | x :: xs => let '(w, s1) := apply x s in
               let '(ws, s2) := apply_all xs s1 in
               (option_list w ++ ws, s2)
  end.

(** ** What the history says *)

Section History.
(** The sizes of the messages of one direction, on one stream or on all. *)
Definition sent_sizes (which : string → bool) (xs : list op) : list Z :=
  omap (λ x, match x with OSent _ n size => if which n then Some size else None | _ => None end) xs.
Definition received_sizes (which : string → bool) (xs : list op) : list Z :=
  omap (λ x, match x with OReceived _ n size => if which n then Some size else None | _ => None end) xs.

Definition sum (l : list Z) : Z := foldr Z.add 0 l.
Definition count (l : list Z) : Z := Z.of_nat (length l).

Definition all (_ : string) : bool := true.
Definition only (name n : string) : bool := String.eqb name n.
End History.

(** The counters are those of the history since some start. *)
Record counts_ok (s s' : PeerStatsTracker) (xs : list op) : Prop := {
  co_sent : t_messagesSent s' = wrap64 (t_messagesSent s + count (sent_sizes all xs));
  co_bsent : t_bytesSent s' = wrap64 (t_bytesSent s + sum (sent_sizes all xs));
  co_recv : t_messagesReceived s' = wrap64 (t_messagesReceived s + count (received_sizes all xs));
  co_brecv : t_bytesReceived s' = wrap64 (t_bytesReceived s + sum (received_sizes all xs));
  co_stream : ∀ name,
    let ss := stream_of s name in let ss' := stream_of s' name in
    messagesSent ss' = wrap64 (messagesSent ss + count (sent_sizes (only name) xs))
    ∧ bytesSent ss' = wrap64 (bytesSent ss + sum (sent_sizes (only name) xs))
    ∧ messagesReceived ss' = wrap64 (messagesReceived ss + count (received_sizes (only name) xs))
    ∧ bytesReceived ss' = wrap64 (bytesReceived ss + sum (received_sizes (only name) xs));
}.

(** Counters in range stay in range. *)
Record in_range (s : PeerStatsTracker) : Prop := {
  ir_peer : Forall in_int64 [t_messagesSent s; t_bytesSent s; t_messagesReceived s; t_bytesReceived s];
  ir_stream : ∀ name, let ss := stream_of s name in
    Forall in_int64 [messagesSent ss; bytesSent ss; messagesReceived ss; bytesReceived ss];
}.

Lemma in_range_new p cb : in_range (NewPeerStatsTracker p cb).
Proof.
  split; cbn; [| intros name; unfold stream_of; cbn; rewrite lookup_empty; cbn];
    rewrite !Forall_cons, Forall_nil; unfold in_int64, minInt64, maxInt64; lia.
Qed.

(** The streams of a tracker after one of them was updated. *)
Lemma stream_of_insert s s' name ss n :
  streamStats s' = <[name := ss]> (streamStats s) →
  stream_of s' n = if only n name then ss else stream_of s n.
Proof.
  intros E. unfold stream_of, only. rewrite E, lookup_insert.
  destruct (String.eqb_spec n name); case_decide; cbn; congruence.
Qed.

Lemma apply_in_range x s : in_range s → in_range (apply x s).2.
Proof.
  intros [Hp Hs].
  assert (∀ name ss, Forall in_int64 [messagesSent ss; bytesSent ss; messagesReceived ss; bytesReceived ss] →
    ∀ s' n, streamStats s' = <[name := ss]> (streamStats s) →
    Forall in_int64 [messagesSent (stream_of s' n); bytesSent (stream_of s' n); messagesReceived (stream_of s' n); bytesReceived (stream_of s' n)]) as Hins.
  { intros name ss Hss s' n E. rewrite (stream_of_insert _ _ _ _ _ E). destruct (only n name); [done | apply Hs]. }
  destruct x as [| | |now name size|now name size]; cbn;
    unfold RecordMessageSent, RecordMessageReceived, RecordConnectionStart, RecordConnectionEnd, RecordFailure; cbn;
    try (destruct (negb _)); split; cbn; try exact Hs; try exact Hp.
  all: try (rewrite !Forall_cons in *; naive_solver eauto with go).
  all: intros n; eapply (Hins name); [| reflexivity]; specialize (Hs name); cbn in *; rewrite !Forall_cons in *;
    naive_solver eauto with go.
Qed.

Lemma sizes_app which xs ys :
  sent_sizes which (xs ++ ys) = sent_sizes which xs ++ sent_sizes which ys
  ∧ received_sizes which (xs ++ ys) = received_sizes which xs ++ received_sizes which ys.
Proof. unfold sent_sizes, received_sizes. by rewrite !omap_app. Qed.

Lemma sum_app k l : sum (k ++ l) = sum k + sum l.
Proof. unfold sum. induction k as [|x k IH]; cbn; [done |]. rewrite IH. lia. Qed.

Lemma count_app k l : count (k ++ l) = count k + count l.
Proof. unfold count. rewrite length_app. lia. Qed.

(** One call adds what it says. *)
Lemma apply_counts x s : in_range s → counts_ok s (apply x s).2 [x].
Proof.
  intros [Hp Hs]. rewrite !Forall_cons in Hp. destruct Hp as (? & ? & ? & ? & _).
  assert (∀ name, let ss := stream_of s name in
    messagesSent ss = wrap64 (messagesSent ss + 0) ∧ bytesSent ss = wrap64 (bytesSent ss + 0)
    ∧ messagesReceived ss = wrap64 (messagesReceived ss + 0) ∧ bytesReceived ss = wrap64 (bytesReceived ss + 0)) as Hsame.
  { intros name ss. subst ss. specialize (Hs name). cbn in Hs. rewrite !Forall_cons in Hs. destruct Hs as (? & ? & ? & ? & _).
    by rewrite !Z.add_0_r, !wrap64_id. }
  destruct x as [| | |now name size|now name size]; cbn;
    unfold RecordMessageSent, RecordMessageReceived, RecordConnectionStart, RecordConnectionEnd, RecordFailure; cbn;
    try (destruct (negb _)); split; cbn; rewrite ?Z.add_0_r, ?wrap64_id by done; try done; try exact Hsame.
  all: intros n; erewrite stream_of_insert by reflexivity; unfold sent_sizes, received_sizes, only; cbn;
    destruct (String.eqb_spec n name) as [-> |]; cbn; [| apply Hsame];
    specialize (Hsame name); cbn in Hsame; rewrite ?Z.add_0_r in *; split_and!; done || apply Hsame.
Qed.

Lemma counts_ok_trans s1 s2 s3 xs ys : counts_ok s1 s2 xs → counts_ok s2 s3 ys → counts_ok s1 s3 (xs ++ ys).
Proof.
  intros [A1 A2 A3 A4 A5] [B1 B2 B3 B4 B5].
  split; [| | | | intros name; destruct (A5 name) as (C1 & C2 & C3 & C4), (B5 name) as (D1 & D2 & D3 & D4); split_and!].
  all: rewrite ?(proj1 (sizes_app _ xs ys)), ?(proj2 (sizes_app _ xs ys)), ?sum_app, ?count_app, Z.add_assoc.
  all: etrans; [eassumption |]; match goal with E : ?l = wrap64 _ |- context[?l] => rewrite E end; by rewrite wrap64_add_l.
Qed.

Lemma apply_all_counts xs s : in_range s → counts_ok s (apply_all xs s).2 xs.
Proof.
  revert s. induction xs as [|x xs IH]; intros s Hs.
  - assert (counts_ok s (apply_all [] s).2 ([] : list op)) as Hc; [| exact Hc].
    destruct Hs as [Hp Hs]. rewrite !Forall_cons in Hp. destruct Hp as (? & ? & ? & ? & _).
    split; cbn; rewrite ?Z.add_0_r, ?wrap64_id by done; try done.
    intros name. specialize (Hs name). cbn in Hs. rewrite !Forall_cons in Hs. destruct Hs as (? & ? & ? & ? & _).
    by rewrite !Z.add_0_r, !wrap64_id.
  - pose proof (apply_counts x s Hs) as H1. pose proof (IH _ (apply_in_range x s Hs)) as H2. cbn.
    destruct (apply x s) as [w s1]; cbn in *. destruct (apply_all xs s1) as [ws s2]; cbn in *.
    exact (counts_ok_trans _ _ _ [x] xs H1 H2).
Qed.

(** A stream has an entry exactly when a message was counted on it. *)
Lemma apply_streams x s name :
  streamStats (apply x s).2 !! name = None →
  streamStats s !! name = None ∧ sent_sizes (only name) [x] = [] ∧ received_sizes (only name) [x] = [].
Proof.
  destruct x as [| | |now n size|now n size]; cbn; try done; try (by destruct (negb _)).
  all: rewrite lookup_insert_None; intros [? Hne]; unfold only; destruct (String.eqb_spec name n); by subst.
Qed.

Lemma apply_all_streams xs s name :
  streamStats (apply_all xs s).2 !! name = None →
  streamStats s !! name = None ∧ sent_sizes (only name) xs = [] ∧ received_sizes (only name) xs = [].
Proof.
  revert s. induction xs as [|x xs IH]; intros s; [done |].
  destruct (sizes_app (only name) [x] xs) as [E1 E2]. cbn [app] in E1, E2. rewrite E1, E2. cbn [apply_all].
  pose proof (apply_streams x s name) as H1. destruct (apply x s) as [w s1]; cbn in *.
  specialize (IH s1). destruct (apply_all xs s1) as [ws s2]; cbn in *. intros Hn.
  destruct (IH Hn) as (Hs1 & -> & ->), (H1 Hs1) as (Hs & -> & ->). done.
Qed.

(** ** Properties *)

(** C36. The statistics of a peer are those of its history: after any calls, every
    counter of the snapshot, of the peer and of each stream, is the number (or
    the total size) of the messages recorded, modulo the width of the counter,
    and a stream that is not listed carried none. *)
Theorem snapshot_counts xs p cb now c out :
  let s := Snapshot now p c out (apply_all xs (NewPeerStatsTracker p cb)).2 in
  ps_MessagesSent s = wrap64 (count (sent_sizes all xs)) ∧ ps_BytesSent s = wrap64 (sum (sent_sizes all xs))
  ∧ ps_MessagesReceived s = wrap64 (count (received_sizes all xs))
  ∧ ps_BytesReceived s = wrap64 (sum (received_sizes all xs))
  ∧ ∀ name,
    match ps_StreamStats s !! name with
    | Some ss => Name ss = name
        ∧ MessagesSent ss = wrap64 (count (sent_sizes (only name) xs))
        ∧ BytesSent ss = wrap64 (sum (sent_sizes (only name) xs))
        ∧ MessagesReceived ss = wrap64 (count (received_sizes (only name) xs))
        ∧ BytesReceived ss = wrap64 (sum (received_sizes (only name) xs))
    | None => sent_sizes (only name) xs = [] ∧ received_sizes (only name) xs = []
    end.
Proof.
  cbv zeta. destruct (apply_all_counts xs _ (in_range_new p cb)) as [H1 H2 H3 H4 H5]. cbn in *.
  split_and!; try done. intros name. rewrite map_lookup_imap.
  pose proof (apply_all_streams xs (NewPeerStatsTracker p cb) name) as Hn. specialize (H5 name).
  unfold stream_of in H5; cbn in H5. rewrite lookup_empty in H5; cbn in H5.
  destruct (streamStats _ !! name) as [ss|]; cbn in *; [split_and!; done || apply H5 | by apply Hn].
Qed.

Lemma RecordMessageSent_warns now name size s :
  nonceWarningEmitted s = false → onNonceExhaustion s = true →
  let '(w, s') := RecordMessageSent now name size s in
  onNonceExhaustion s' = true ∧ peerID s' = peerID s ∧ t_messagesSent s' = t_messagesSent s +₆₄ 1
  ∧ nonceWarningEmitted s' = (NonceExhaustionWarningThreshold <=? t_messagesSent s')
  ∧ w = if NonceExhaustionWarningThreshold <=? t_messagesSent s' then Some (peerID s, t_messagesSent s') else None.
Proof. intros Hw Hc. unfold RecordMessageSent. cbn. rewrite Hw, Hc. cbn. rewrite !andb_true_r. by destruct (_ <=? _). Qed.

(** No second warning. *)
Lemma warned_stays x s :
  nonceWarningEmitted s = true → (apply x s).1 = None ∧ nonceWarningEmitted (apply x s).2 = true.
Proof. intros Hw. destruct x; cbn; try (by destruct (negb _)); by rewrite Hw. Qed.

Lemma warned_stays_all xs s : nonceWarningEmitted s = true → (apply_all xs s).1 = [].
Proof.
  revert s. induction xs as [|x xs IH]; intros s Hw; [done |]. cbn.
  destruct (warned_stays x s Hw) as [H1 H2]. destruct (apply x s) as [w s1]; cbn in *. subst w.
  specialize (IH s1 H2). by destruct (apply_all xs s1).
Qed.

(** The calls of the callback from a state that has not warned yet. *)
Lemma warnings_from xs s :
  nonceWarningEmitted s = false → onNonceExhaustion s = true →
  0 <= t_messagesSent s < NonceExhaustionWarningThreshold →
  t_messagesSent s + count (sent_sizes all xs) <= maxInt64 →
  (apply_all xs s).1
  = if NonceExhaustionWarningThreshold <=? t_messagesSent s + count (sent_sizes all xs)
    then [(peerID s, NonceExhaustionWarningThreshold)] else [].
Proof.
  revert s. induction xs as [|x xs IH]; intros s Hw Hc Hr Hmax.
  { change (count (sent_sizes all [])) with 0. rewrite Z.add_0_r.
    by destruct (Z.leb_spec NonceExhaustionWarningThreshold (t_messagesSent s)); [lia |]. }
  destruct (sizes_app all [x] xs) as [E _]. cbn [app] in E. rewrite E, count_app in Hmax |- *.
  assert (0 <= count (sent_sizes all xs)) as Hpos by (unfold count; lia).
  assert (NonceExhaustionWarningThreshold < maxInt64) as Hth by done.
  assert ((∃ now name size, x = OSent now name size) ∨ ∀ now name size, x ≠ OSent now name size)
    as [(now & name & size & ->) | Hns] by (destruct x; eauto; by right).
  - change (sent_sizes all [OSent now name size]) with [size] in *. change (count [size]) with 1 in *.
    cbn [apply_all apply]. pose proof (RecordMessageSent_warns now name size s Hw Hc) as H1.
    destruct (RecordMessageSent now name size s) as [w s1]. destruct H1 as (Hc1 & Hp1 & Hs1 & Hw1 & ->).
    rewrite wrap64_id in Hs1 by (unfold in_int64, minInt64; lia).
    destruct (Z.leb_spec NonceExhaustionWarningThreshold (t_messagesSent s1)) as [Hle | Hlt].
    + pose proof (warned_stays_all xs s1 Hw1) as Hn. destruct (apply_all xs s1) as [ws s2]; cbn in *. subst ws.
      destruct (Z.leb_spec NonceExhaustionWarningThreshold (t_messagesSent s + (1 + count (sent_sizes all xs)))); [| lia].
      do 2 f_equal. lia.
    + specialize (IH s1 Hw1 Hc1 ltac:(lia) ltac:(lia)). rewrite Hs1, Hp1 in IH. rewrite Z.add_assoc.
      by destruct (apply_all xs s1) as [ws s2].
  - assert (sent_sizes all [x] = [] ∧ (apply x s).1 = None ∧ nonceWarningEmitted (apply x s).2 = false
            ∧ onNonceExhaustion (apply x s).2 = true ∧ t_messagesSent (apply x s).2 = t_messagesSent s
            ∧ peerID (apply x s).2 = peerID s) as (Ex & H1 & Hw1 & Hc1 & Hs1 & Hp1).
    { destruct x; cbn; try (by split_and!); [by destruct (negb _); split_and! | by destruct (Hns now name size)]. }
    clear E. rewrite Ex in Hmax |- *. change (count []) with 0 in *. rewrite Z.add_0_l in *.
    cbn [apply_all]. destruct (apply x s) as [w s1]; cbn in H1, Hw1, Hc1, Hs1, Hp1. subst w. rewrite <- Hs1 in *. rewrite <- Hp1.
    specialize (IH s1 Hw1 Hc1 Hr Hmax). by destruct (apply_all xs s1).
Qed.

(** The nonce warning is given exactly once, with the message that reaches
    the threshold, however many messages follow, and not before. *)
Theorem nonce_warning_once xs p :
  count (sent_sizes all xs) <= maxInt64 →
  (apply_all xs (NewPeerStatsTracker p true)).1
  = if NonceExhaustionWarningThreshold <=? count (sent_sizes all xs)
    then [(p, NonceExhaustionWarningThreshold)] else [].
Proof. intros Hm. by apply (warnings_from xs (NewPeerStatsTracker p true)). Qed.

(** ** Witness *)

Lemma nonce_warning_once_witness :
  (apply_all [OStart 1; OSent 2 "chat" 100; OReceived 3 "chat" 7] (NewPeerStatsTracker "Qm1" true)).1 = [].
Proof.
  exact (nonce_warning_once [OStart 1; OSent 2 "chat" 100; OReceived 3 "chat" 7] "Qm1" ltac:(vm_compute; discriminate)).
Defined.
