(* ===== verification/Streams.v ===== *)
(** * Streams to a peer ([pkg/streams/encrypted.go], [unencrypted.go], [handshake.go])

    A stream object is created by the stream manager, which also starts its
    read loop.  The loop of a stream, the senders and [Close] run concurrently:
    each is code over the [store] of all stream objects, cut where it gives a
    lock back or calls the network.  The framing of messages and the
    connection itself are third-party code: the [query] calls, which the
    environment answers.  Message buffers live in the heap, so that zeroing
    them can be stated. *)

From S2P Require Import Prelude Errors Heap Crypto Dispatcher Proc.

(** ** Data *)

Definition HandshakeStreamName : string := "handshake".

Record IncomingMessage := {
  im_PeerID : string;
  im_StreamName : string;
  im_Data : ref;
  im_Timestamp : time;
}.

(** A callback is its identity, or nil; the calls made are recorded. *)
Inductive report :=
| RDecryptionError (cb : nat) (p : string) (e : error)
| ROversized (cb : nat) (p name : string) (size : nat)
| RDropped (cb : nat) (p name : string).

(** [es_stream] is the libp2p stream, [es_cancelled] the stream's own context. *)
Record EncryptedStream := {
  es_name : string;
  es_peerID : string;
  es_stream : nat;
  es_sharedKey : ref;
  es_cipher : Cipher;
  es_onDecryptionError : option nat;
  es_onOversizedMessage : option nat;
  es_onMessageDropped : option nat;
  es_maxMessageSize : Z;
  es_cancelled : bool;
  es_closed : bool;
  es_closeErr : option error;
}.

Record EncryptedStreamConfig := {
  OnDecryptionError : option nat;
  OnOversizedMessage : option nat;
  OnMessageDropped : option nat;
  MaxMessageSize : Z;
}.

Record UnencryptedStream := {
  us_name : string;
  us_peerID : string;
  us_stream : nat;
  us_onMessageDropped : option nat;
  us_cancelled : bool;
  us_closed : bool;
  us_closeErr : option error;
}.

(** All stream objects by address; [base_done] is the context the streams'
    contexts come from, [incoming] the channel they share, which no stream
    closes. *)
Record store := {
  hp : heap;
  encs : gmap nat EncryptedStream;
  uncs : gmap nat UnencryptedStream;
  next_obj : nat;
  incoming : Chan.chan IncomingMessage;
  reports : list report;
  base_done : bool;
  clock : time;
}.

Definition set_hp (h : heap) (s : store) : store :=
  {| hp := h; encs := encs s; uncs := uncs s; next_obj := next_obj s; incoming := incoming s;
     reports := reports s; base_done := base_done s; clock := clock s |}.
Definition set_encs (f : gmap nat EncryptedStream → gmap nat EncryptedStream) (s : store) : store :=
  {| hp := hp s; encs := f (encs s); uncs := uncs s; next_obj := next_obj s; incoming := incoming s;
     reports := reports s; base_done := base_done s; clock := clock s |}.
Definition set_uncs (f : gmap nat UnencryptedStream → gmap nat UnencryptedStream) (s : store) : store :=
  {| hp := hp s; encs := encs s; uncs := f (uncs s); next_obj := next_obj s; incoming := incoming s;
     reports := reports s; base_done := base_done s; clock := clock s |}.
Definition bump (s : store) : store :=
  {| hp := hp s; encs := encs s; uncs := uncs s; next_obj := S (next_obj s); incoming := incoming s;
     reports := reports s; base_done := base_done s; clock := clock s |}.
Definition set_incoming (c : Chan.chan IncomingMessage) (s : store) : store :=
  {| hp := hp s; encs := encs s; uncs := uncs s; next_obj := next_obj s; incoming := c;
     reports := reports s; base_done := base_done s; clock := clock s |}.
Definition add_report (r : option report) (s : store) : store :=
  {| hp := hp s; encs := encs s; uncs := uncs s; next_obj := next_obj s; incoming := incoming s;
     reports := reports s ++ option_list r; base_done := base_done s; clock := clock s |}.
Definition set_base_done (s : store) : store :=
  {| hp := hp s; encs := encs s; uncs := uncs s; next_obj := next_obj s; incoming := incoming s;
     reports := reports s; base_done := true; clock := clock s |}.

Definition on_heap {X} (f : ST heap X) : ST store X := λ s, let (x, h) := f (hp s) in (x, set_hp h s).

(** ** The environment *)

Inductive next_result := NextMsg (frame : bytes) | NextEOF | NextErr (e : error) | NextEnd.

Inductive query :=
| QCtxErr                                              (** the caller's [ctx.Err()] *)
| QDeadline                                            (** the caller's [ctx.Deadline()] *)
| QRand                                                (** [rand.Read] of a nonce *)
| QSelect                                              (** which ready case a [select] takes *)
| QNewStream (p name : string)                         (** [host.NewStream] *)
| QNext (stream : nat)                                 (** [reader.Next] and [reader.Err] *)
| QSetWriteDeadline (stream : nat) (d : option time)
| QWrite (stream : nat) (frame : bytes)                (** [writer.WriteDelimited] *)
| QFlush (stream : nat)
| QClose (stream : nat).                               (** [stream.Close] *)

Definition answer (q : query) : Type :=
  match q with
  | QCtxErr | QWrite _ _ | QFlush _ | QClose _ => option error
  | QDeadline => option time
  | QRand => result error bytes
  | QSelect => bool
  | QNewStream _ _ => result error nat
  | QNext _ => next_result
  | QSetWriteDeadline _ _ => unit
  end.

(** The goroutines a stream starts. *)
Inductive loop := LEncrypted (i : nat) | LUnencrypted (i : nat).

Section Streams.
Context `{CryptoLib}.
Notation code := (prog (S := store) (P := loop) (Q := query) (R := answer)) (only parsing).

(** Reads and updates of an object; the addresses the code holds are those of
    existing objects. *)
Definition enc_gets {X} `{Inhabited X} (i : nat) (f : EncryptedStream → X) : ST store X :=
  st_gets (λ s, match encs s !! i with Some es => f es | None => inhabitant end).
Definition enc_upd (i : nat) (f : EncryptedStream → EncryptedStream) : ST store unit :=
  st_modify (set_encs (alter f i)).
Definition unc_gets {X} `{Inhabited X} (i : nat) (f : UnencryptedStream → X) : ST store X :=
  st_gets (λ s, match uncs s !! i with Some us => f us | None => inhabitant end).
Definition unc_upd (i : nat) (f : UnencryptedStream → UnencryptedStream) : ST store unit :=
  st_modify (set_uncs (alter f i)).

Definition es_close (c : Cipher) (es : EncryptedStream) : EncryptedStream :=
  {| es_name := es_name es; es_peerID := es_peerID es; es_stream := es_stream es; es_sharedKey := es_sharedKey es;
     es_cipher := c; es_onDecryptionError := es_onDecryptionError es; es_onOversizedMessage := es_onOversizedMessage es;
     es_onMessageDropped := es_onMessageDropped es; es_maxMessageSize := es_maxMessageSize es;
     es_cancelled := es_cancelled es; es_closed := true; es_closeErr := es_closeErr es |}.
Definition es_cancel (es : EncryptedStream) : EncryptedStream :=
  {| es_name := es_name es; es_peerID := es_peerID es; es_stream := es_stream es; es_sharedKey := es_sharedKey es;
     es_cipher := es_cipher es; es_onDecryptionError := es_onDecryptionError es;
     es_onOversizedMessage := es_onOversizedMessage es; es_onMessageDropped := es_onMessageDropped es;
     es_maxMessageSize := es_maxMessageSize es; es_cancelled := true; es_closed := es_closed es;
     es_closeErr := es_closeErr es |}.
Definition es_set_err (closed : bool) (e : option error) (es : EncryptedStream) : EncryptedStream :=
  {| es_name := es_name es; es_peerID := es_peerID es; es_stream := es_stream es; es_sharedKey := es_sharedKey es;
     es_cipher := es_cipher es; es_onDecryptionError := es_onDecryptionError es;
     es_onOversizedMessage := es_onOversizedMessage es; es_onMessageDropped := es_onMessageDropped es;
     es_maxMessageSize := es_maxMessageSize es; es_cancelled := es_cancelled es; es_closed := closed;
     es_closeErr := e |}.
Definition us_set (cb : option nat) (cancelled closed : bool) (e : option error) (us : UnencryptedStream) : UnencryptedStream :=
  {| us_name := us_name us; us_peerID := us_peerID us; us_stream := us_stream us; us_onMessageDropped := cb;
     us_cancelled := cancelled; us_closed := closed; us_closeErr := e |}.

(** ** encrypted.go *)

(** The object, before its read loop is started. *)
Definition new_encrypted (name peerID : string) (stream : nat) (sharedKey : ref) (config : EncryptedStreamConfig)
    : ST store (result error nat) :=
  kb ← on_heap (read sharedKey);
  c ← on_heap (NewCipher kb);
  match c with
  | Err e => mret (Err (Errorf "failed to create cipher: %w" (Some e)))
  | Ok cipher =>
      i ← st_gets next_obj;
      _ ← st_modify bump;
      _ ← st_modify (set_encs (<[i :=
            {| es_name := name; es_peerID := peerID; es_stream := stream; es_sharedKey := sharedKey;
               es_cipher := cipher; es_onDecryptionError := OnDecryptionError config;
               es_onOversizedMessage := OnOversizedMessage config; es_onMessageDropped := OnMessageDropped config;
               es_maxMessageSize := MaxMessageSize config; es_cancelled := false; es_closed := false;
               es_closeErr := None |}]>));
      mret (Ok i)
  end.

Definition NewEncryptedStream (name peerID : string) (stream : nat) (sharedKey : ref) (config : EncryptedStreamConfig)
    : code (result error nat) :=
  r ← atomic (new_encrypted name peerID stream sharedKey config);
  match r with
  | Err e => mret (Err e)
  | Ok i => _ ← go (LEncrypted i); mret (Ok i)
  end.

(** [closeMu] is held from the test of [closed] to the end of the encryption:
    one section, with the answers of the second context check and of the
    random source. *)
Definition encrypt_section (i : nat) (ctx : option error) (rnd : result error bytes) (data : bytes)
    : ST store (result error bytes) :=
  s ← st_get;
  match encs s !! i with
  | None => mret (Err (Errorf "panic: nil pointer dereference" None))
  | Some es =>
      if es_closed es then mret (Err (Errorf "stream is closed" None))
      else match ctx with
           | Some e => mret (Err e)
           | None => match Cipher_Encrypt (es_cipher es) rnd data [] with
                     | Err e => mret (Err (Errorf "encryption failed: %w" (Some e)))
                     | Ok encrypted => mret (Ok encrypted)
                     end
           end
  end.

(** Under [writeMu]: the context check, the deadline for the time of the
    write, one frame and its flush. *)
Definition write_frame (stream : nat) (frame : bytes) : code (option error) :=
  e ← ask QCtxErr;
  match e with
  | Some e => mret (Some e)
  | None =>
      deadline ← ask QDeadline;
      _ ← match deadline with Some d => ask (QSetWriteDeadline stream (Some d)) | None => mret tt end;
      w ← ask (QWrite stream frame);
      res ← match w with
            | Some e => mret (Some (Errorf "write failed: %w" (Some e)))
            | None => f ← ask (QFlush stream);
                      mret match f with
                           | Some e => Some (Errorf "flush failed: %w" (Some e))
                           | None => None
                           end
            end;
      _ ← match deadline with Some _ => ask (QSetWriteDeadline stream None) | None => mret tt end;
      mret res
  end.

Definition es_SendCtx (i : nat) (data : bytes) : code (option error) :=
  e ← ask QCtxErr;
  match e with
  | Some e => mret (Some e)
  | None =>
      ctx ← ask QCtxErr;
      rnd ← ask QRand;
      r ← atomic (encrypt_section i ctx rnd data);
      match r with
      | Err e => mret (Some e)
      | Ok encrypted => stream ← atomic (enc_gets i es_stream); write_frame stream encrypted
      end
  end.

Definition enc_done (i : nat) : ST store bool :=
  st_gets (λ s, base_done s || match encs s !! i with Some es => es_cancelled es | None => true end).

Definition es_markClosed (i : nat) (err : option error) : ST store unit :=
  enc_upd i (λ es, if es_closed es then es else es_set_err true err es).

(** Oversized frames are reported, zeroed and skipped. *)
Definition oversized (i : nat) (encrypted : ref) : ST store bool :=
  s ← st_get;
  match encs s !! i with
  | None => mret false
  | Some es =>
      let size := length (deref (hp s) encrypted) in
      if (0 <? es_maxMessageSize es)%Z && (es_maxMessageSize es <? Z.of_nat size)%Z then
        _ ← st_modify (add_report ((λ cb, ROversized cb (es_peerID es) (es_name es) size) <$> es_onOversizedMessage es));
        _ ← on_heap (SecureZero encrypted);
        mret true
      else mret false
  end.

(** The plaintext of [Open] is a buffer of its own. *)
Definition decrypt_section (i : nat) (encrypted : ref) : ST store (result error ref) :=
  s ← st_get;
  match encs s !! i with
  | None => mret (Err (Errorf "panic: nil pointer dereference" None))
  | Some es => match Cipher_Decrypt (es_cipher es) (deref (hp s) encrypted) [] with
               | Err e => mret (Err e)
               | Ok plaintext => r ← on_heap (alloc plaintext); mret (Ok r)
               end
  end.

(** The [select] around the send: with room and a live context the message is
    sent; with room and a done context [pick] says which case is taken.  The
    result says whether the loop returns. *)
Definition es_deliver (i : nat) (decrypted : ref) (pick : bool) : ST store bool :=
  s ← st_get;
  match encs s !! i with
  | None => mret true
  | Some es =>
      let msg := {| im_PeerID := es_peerID es; im_StreamName := es_name es; im_Data := decrypted; im_Timestamp := clock s |} in
      let done := base_done s || es_cancelled es in
      match Chan.try_send msg (incoming s) with
      | Some (true, c) =>
          if negb done || pick then _ ← st_modify (set_incoming c); mret false
          else _ ← on_heap (SecureZero decrypted); mret true
      | _ =>
          _ ← on_heap (SecureZero decrypted);
          if (done : bool) then mret true
          else _ ← st_modify (add_report ((λ cb, RDropped cb (es_peerID es) (es_name es)) <$> es_onMessageDropped es));
               mret false
      end
  end.

Definition report_decryption (i : nat) (e : error) : ST store unit :=
  s ← st_get;
  st_modify (add_report match encs s !! i with
                        | Some es => (λ cb, RDecryptionError cb (es_peerID es) e) <$> es_onDecryptionError es
                        | None => None
                        end).

(** One turn of the loop; the loop goes on as a goroutine of its own. *)
Definition es_readLoop (i : nat) : code unit :=
  done ← atomic (enc_done i);
  if (done : bool) then atomic (es_markClosed i None)
  else
    stream ← atomic (enc_gets i es_stream);
    r ← ask (QNext stream);
    match r with
    | NextEOF | NextEnd => atomic (es_markClosed i None)
    | NextErr e =>
        _ ← atomic (es_markClosed i (Some (Errorf "read error: %w" (Some e))));
        atomic (es_markClosed i None)
    | NextMsg frame =>
        encrypted ← atomic (on_heap (alloc frame));
        big ← atomic (oversized i encrypted);
        if (big : bool) then go (LEncrypted i)
        else
          d ← atomic (decrypt_section i encrypted);
          _ ← atomic (on_heap (SecureZero encrypted));
          match d with
          | Err e => _ ← atomic (report_decryption i e); go (LEncrypted i)
          | Ok decrypted =>
              pick ← ask QSelect;
              stop ← atomic (es_deliver i decrypted pick);
              if (stop : bool) then atomic (es_markClosed i None) else go (LEncrypted i)
          end
    end.

(** [None]: this call closes the stream; [Some e]: it was closed, with [e]. *)
Definition es_close_begin (i : nat) : ST store (option (option error)) :=
  s ← st_get;
  match encs s !! i with
  | None => mret (Some None)
  | Some es =>
      if es_closed es then mret (Some (es_closeErr es))
      else c ← on_heap (Cipher_Close (es_cipher es)); _ ← enc_upd i (es_close c); mret None
  end.

Definition es_Close (i : nat) : code (option error) :=
  first ← atomic (es_close_begin i);
  match first with
  | Some err => mret err
  | None =>
      _ ← atomic (enc_upd i es_cancel);
      stream ← atomic (enc_gets i es_stream);
      err ← ask (QClose stream);
      _ ← atomic (enc_upd i (λ es, es_set_err (es_closed es) err es));
      mret err
  end.

Definition es_IsClosed (i : nat) : ST store bool := enc_gets i es_closed.

(** ** unencrypted.go *)

Definition new_unencrypted (name peerID : string) (stream : nat) : ST store nat :=
  i ← st_gets next_obj;
  _ ← st_modify bump;
  _ ← st_modify (set_uncs (<[i :=
        {| us_name := name; us_peerID := peerID; us_stream := stream; us_onMessageDropped := None;
           us_cancelled := false; us_closed := false; us_closeErr := None |}]>));
  mret i.

Definition NewUnencryptedStream (name peerID : string) (stream : nat) : code nat :=
  i ← atomic (new_unencrypted name peerID stream);
  _ ← go (LUnencrypted i);
  mret i.

Definition SetOnMessageDropped (i : nat) (callback : option nat) : ST store unit :=
  unc_upd i (λ us, us_set callback (us_cancelled us) (us_closed us) (us_closeErr us) us).

Definition us_SendCtx (i : nat) (data : bytes) : code (option error) :=
  e ← ask QCtxErr;
  match e with
  | Some e => mret (Some e)
  | None =>
      closed ← atomic (unc_gets i us_closed);
      if (closed : bool) then mret (Some (Errorf "stream is closed" None))
      else
        e ← ask QCtxErr;
        match e with
        | Some e => mret (Some e)
        | None => stream ← atomic (unc_gets i us_stream); write_frame stream data
        end
  end.

Definition unc_done (i : nat) : ST store bool :=
  st_gets (λ s, base_done s || match uncs s !! i with Some us => us_cancelled us | None => true end).

Definition us_markClosed (i : nat) (err : option error) : ST store unit :=
  unc_upd i (λ us, if us_closed us then us else us_set (us_onMessageDropped us) (us_cancelled us) true err us).

(** The message's buffer is the one the reader made; it is not zeroed. *)
Definition us_deliver (i : nat) (data : ref) (pick : bool) : ST store bool :=
  s ← st_get;
  match uncs s !! i with
  | None => mret true
  | Some us =>
      let msg := {| im_PeerID := us_peerID us; im_StreamName := us_name us; im_Data := data; im_Timestamp := clock s |} in
      let done := base_done s || us_cancelled us in
      match Chan.try_send msg (incoming s) with
      | Some (true, c) =>
          if negb done || pick then _ ← st_modify (set_incoming c); mret false else mret true
      | _ =>
          if (done : bool) then mret true
          else _ ← st_modify (add_report ((λ cb, RDropped cb (us_peerID us) (us_name us)) <$> us_onMessageDropped us));
               mret false
      end
  end.

Definition us_readLoop (i : nat) : code unit :=
  done ← atomic (unc_done i);
  if (done : bool) then atomic (us_markClosed i None)
  else
    stream ← atomic (unc_gets i us_stream);
    r ← ask (QNext stream);
    match r with
    | NextEOF | NextEnd => atomic (us_markClosed i None)
    | NextErr e =>
        _ ← atomic (us_markClosed i (Some (Errorf "read error: %w" (Some e))));
        atomic (us_markClosed i None)
    | NextMsg frame =>
        data ← atomic (on_heap (alloc frame));
        pick ← ask QSelect;
        stop ← atomic (us_deliver i data pick);
        if (stop : bool) then atomic (us_markClosed i None) else go (LUnencrypted i)
    end.

Definition us_close_begin (i : nat) : ST store (option (option error)) :=
  s ← st_get;
  match uncs s !! i with
  | None => mret (Some None)
  | Some us =>
      if us_closed us then mret (Some (us_closeErr us))
      else _ ← unc_upd i (λ us, us_set (us_onMessageDropped us) (us_cancelled us) true (us_closeErr us) us); mret None
  end.

Definition us_Close (i : nat) : code (option error) :=
  first ← atomic (us_close_begin i);
  match first with
  | Some err => mret err
  | None =>
      _ ← atomic (unc_upd i (λ us, us_set (us_onMessageDropped us) true (us_closed us) (us_closeErr us) us));
      stream ← atomic (unc_gets i us_stream);
      err ← ask (QClose stream);
      _ ← atomic (unc_upd i (λ us, us_set (us_onMessageDropped us) (us_cancelled us) (us_closed us) err us));
      mret err
  end.

Definition us_IsClosed (i : nat) : ST store bool := unc_gets i us_closed.

(** What a goroutine started by a stream runs. *)
Definition loop_body (l : loop) : code unit :=
  match l with LEncrypted i => es_readLoop i | LUnencrypted i => us_readLoop i end.
End Streams.

(** ** handshake.go

    A [HandshakeStream] is used by one goroutine: its methods are functions
    of its state, the clock and the outcome of the calls below it. *)

Module HandshakeStream.
Record t := { stream : nat; deadline : time; closed : bool }.

Definition NewHandshakeStream (now : time) (stream : nat) (timeout : duration) : t :=
  {| stream := stream; deadline := (now + timeout)%Z; closed := false |}.

Definition guard (now : time) (hs : t) : option error :=
  if closed hs then Some (Errorf "handshake stream is closed" None)
  else if GoTime.After now (deadline hs) then Some (Errorf "handshake deadline exceeded" None)
  else None.

(** [write] and [flush] are the outcomes of the writer. *)
Definition Send (now : time) (write flush : option error) (hs : t) : option error :=
  match guard now hs with
  | Some e => Some e
  | None => match write with
            | Some e => Some (Errorf "failed to write message: %w" (Some e))
            | None => match flush with
                      | Some e => Some (Errorf "failed to flush message: %w" (Some e))
                      | None => None
                      end
            end
  end.

Definition Receive (now : time) (next : next_result) (hs : t) : result error bytes :=
  match guard now hs with
  | Some e => Err e
  | None => match next with
            | NextMsg m => Ok m
            | NextEOF => Err (Errorf "connection closed: %w" None)
            | NextErr e => Err (Errorf "failed to read message: %w" (Some e))
            | NextEnd => Err (Errorf "no message available" None)
            end
  end.

(** The first component says whether the stream below is reset. *)
Definition Close (reset : option error) (hs : t) : (bool * option error) * t :=
  if closed hs then ((false, None), hs)
  else ((true, reset), {| stream := stream hs; deadline := deadline hs; closed := true |}).

Definition CloseWrite (below : option error) (hs : t) : option error :=
  if closed hs then Some (Errorf "handshake stream is closed" None) else below.

Definition TimeRemaining (now : time) (hs : t) : duration :=
  let remaining := GoTime.Sub (deadline hs) now in
  if (remaining <? 0)%Z then 0%Z else remaining.

Definition IsClosed (hs : t) : bool := closed hs.
End HandshakeStream.
