(* ===== verification/StreamBehaviour.v ===== *)
(** * What the streams do

    One turn of a read loop, a send and a close, each run by itself; what can
    be written to an encrypted stream whatever runs next to the sender; and a
    message from one end of a connection to the other. *)

From S2P Require Import Prelude Errors Heap Crypto Dispatcher Proc Streams.

(** Symbolic execution of a run named [E]. *)
Ltac stream_unfold E :=
  unfold es_SendCtx, write_frame, encrypt_section, enc_done, enc_gets, enc_upd, es_markClosed, oversized, decrypt_section,
    es_deliver, report_decryption, es_close_begin, us_SendCtx, unc_gets, unc_upd, unc_done, us_markClosed, us_deliver,
    us_close_begin, on_heap in E;
  unfold st_get, st_gets, st_modify, atomic, ask, go, mbind, ST_bind, mret, ST_ret, prog_bind, prog_ret in E; cbn in E.
Ltac stream_with E t := repeat (progress (t; rewrite ?lookup_insert_eq, ?lookup_alter_eq in E; cbn in E)).

Section Turn.
Context `{CryptoLib}.
Notation code := (prog (S := store) (P := loop) (Q := query) (R := answer)) (only parsing).

(** A stream in use: open, its cipher ready, nobody stopping it. *)
Record live (s : store) (i : nat) (es : EncryptedStream) (k : bytes) : Prop := {
  lv_obj : encs s !! i = Some es;
  lv_open : es_closed es = false;
  lv_ctx : base_done s = false ∧ es_cancelled es = false;
  lv_key : aead (es_cipher es) = Some k;
  lv_cipher : Crypto.closed (es_cipher es) = false;
  lv_chan : Chan.is_closed (incoming s) = false;
}.

(** The reference behaviour of one frame: what is delivered, what is
    reported. *)
Definition frame_spec (es : EncryptedStream) (room : bool) (frame : bytes) : option bytes * option report :=
  if (0 <? es_maxMessageSize es)%Z && (es_maxMessageSize es <? Z.of_nat (length frame))%Z
  then (None, (λ cb, ROversized cb (es_peerID es) (es_name es) (length frame)) <$> es_onOversizedMessage es)
  else match Cipher_Decrypt (es_cipher es) frame [] with
       | Err e => (None, (λ cb, RDecryptionError cb (es_peerID es) e) <$> es_onDecryptionError es)
       | Ok pt => if room then (Some pt, None)
                  else (None, (λ cb, RDropped cb (es_peerID es) (es_name es)) <$> es_onMessageDropped es)
       end.

Definition room (c : Chan.chan IncomingMessage) : bool := bool_decide (length (Chan.buf c) < Chan.cap c).

Lemma try_send_open {A} (v : A) (c : Chan.chan A) :
  Chan.is_closed c = false →
  Chan.try_send v c = Some (if bool_decide (length (Chan.buf c) < Chan.cap c)
                            then (true, Chan.mk (Chan.buf c ++ [v]) (Chan.cap c) false) else (false, c)).
Proof. intros Hc. unfold Chan.try_send. rewrite Hc. by case_decide; case_bool_decide. Qed.

Lemma deref_block r bs b n : deref {| blocks := <[r := bs]> b; next := n |} r = bs.
Proof. unfold deref; cbn. by rewrite lookup_insert_eq. Qed.

(** A buffer allocated, used and zeroed. *)
Lemma residue_zeroed h bs : no_residue h (SecureZero (next h) (alloc bs h).2).2 [].
Proof.
  eapply (no_residue_zero _ _ [next h]); [done | intros q Hq; set_solver |].
  exact (no_residue_alloc h h [] bs (no_residue_refl _ _)).
Qed.

Lemma residue_pair h bs pt : no_residue h (SecureZero (next h) (alloc pt (alloc bs h).2).2).2 [S (next h)].
Proof.
  eapply (no_residue_zero _ _ [S (next h); next h]); [done | intros q Hq; set_solver |].
  exact (no_residue_alloc h _ [next h] pt (no_residue_alloc h h [] bs (no_residue_refl _ _))).
Qed.

Lemma residue_dropped h bs pt :
  no_residue h (SecureZero (S (next h)) (SecureZero (next h) (alloc pt (alloc bs h).2).2).2).2 [].
Proof.
  eapply (no_residue_zero _ _ [S (next h)]); [lia | intros q ?; set_solver | apply residue_pair].
Qed.

Lemma deref_pair h bs pt : deref (SecureZero (next h) (alloc pt (alloc bs h).2).2).2 (S (next h)) = pt.
Proof. unfold SecureZero. rewrite deref_write_ne by lia. exact (deref_alloc_eq pt (alloc bs h).2). Qed.

(** One turn of the read loop of a live stream on a frame: the loop goes on,
    the stream stays open, exactly what [frame_spec] says is delivered and
    reported, and no buffer but the delivered one keeps bytes of the message. *)
Lemma readLoop_turn (ans : ∀ q, answer q) s i es k frame :
  live s i es k → ans (QNext (es_stream es)) = NextMsg frame →
  let o := run ans (es_readLoop i : code unit) s in
  spawned o = [LEncrypted i] ∧ calls (run ans (es_readLoop i : code unit) s) ⊆ [QNext (es_stream es); QSelect]
  ∧ encs (final o) = encs s ∧ uncs (final o) = uncs s ∧ base_done (final o) = base_done s
  ∧ reports (final o) = reports s ++ option_list (frame_spec es (room (incoming s)) frame).2
  ∧ match (frame_spec es (room (incoming s)) frame).1 with
    | Some pt => ∃ r, incoming (final o)
          = Chan.mk (Chan.buf (incoming s) ++ [{| im_PeerID := es_peerID es; im_StreamName := es_name es;
                                                  im_Data := r; im_Timestamp := clock s |}])
              (Chan.cap (incoming s)) false
        ∧ deref (hp (final o)) r = pt ∧ no_residue (hp s) (hp (final o)) [r]
    | None => incoming (final o) = incoming s ∧ no_residue (hp s) (hp (final o)) []
    end.
Proof.
  intros [Hi Ho [Hb Hca] Hk Hc Hch] Hq. cbv zeta.
  destruct (run ans (es_readLoop i) s) as [v sF sp cl] eqn:E. unfold es_readLoop in E. stream_unfold E.
  stream_with E ltac:(rewrite ?Hi, ?Hb, ?Hca, ?Hq in E). unfold frame_spec.
  rewrite deref_block in E.
  destruct ((0 <? es_maxMessageSize es)%Z && (es_maxMessageSize es <? Z.of_nat (length frame))%Z) eqn:Hsz; cbn in E.
  { injection E as <- <- <- <-. cbn. split_and!; [done | set_solver | done | done | done | done | done |].
    apply residue_zeroed. }
  stream_with E ltac:(rewrite ?Hi, ?deref_block in E).
  destruct (Cipher_Decrypt (es_cipher es) frame []) as [e|pt] eqn:Hd; cbn in E.
  { stream_with E ltac:(rewrite ?Hi in E). injection E as <- <- <- <-. cbn.
    split_and!; [done | set_solver | done | done | done | done | done |]. apply residue_zeroed. }
  stream_with E ltac:(rewrite ?Hi, ?Hca, ?(try_send_open _ _ Hch) in E). rewrite Hb in E. unfold room. cbn in E.
  case_bool_decide as Hroom; cbn in E.
  - injection E as <- <- <- <-. cbn. split_and!; [done | set_solver | done | done | done | by rewrite app_nil_r |].
    exists (S (next (hp s))). split; [done |]. split; [apply deref_pair | apply residue_pair].
  - injection E as <- <- <- <-. cbn. split_and!; [done | set_solver | done | done | done | done | done |].
    apply residue_dropped.
Qed.

End Turn.

Section Sending.
Context `{CryptoLib}.
Notation code := (prog (S := store) (P := loop) (Q := query) (R := answer)) (only parsing).

(** The frames among some calls, with their streams. *)
Definition writes (l : list query) : list (nat * bytes) :=
  omap (λ q, match q with QWrite st f => Some (st, f) | _ => None end) l.

(** What may be written for [data] on stream [i]: its sealing, under the key
    the open stream's cipher has at some moment, with a 12-byte nonce. *)
Definition sealed_only (i : nat) (data : bytes) (q : query) : Prop :=
  match q with
  | QWrite st f => ∃ s es k nonce, encs s !! i = Some es ∧ es_closed es = false
                     ∧ aead (es_cipher es) = Some k ∧ length nonce = NonceSize
                     ∧ f = nonce ++ aead_Seal k nonce data []
  | _ => True
  end.

Lemma encrypt_section_ok i ctx rnd data s f :
  (encrypt_section i ctx rnd data s).1 = Ok f →
  ∃ es k nonce, encs s !! i = Some es ∧ es_closed es = false ∧ aead (es_cipher es) = Some k
                ∧ length nonce = NonceSize ∧ f = nonce ++ aead_Seal k nonce data [].
Proof.
  unfold encrypt_section, st_get, mbind, ST_bind, mret, ST_ret.
  destruct (encs s !! i) as [es|] eqn:Hi; [| done]. destruct (es_closed es) eqn:Hc; [done |].
  destruct ctx; [done |]. unfold Cipher_Encrypt, encryptWithNonceLocked.
  destruct rnd as [e|nonce]; [done |]. destruct (Crypto.closed (es_cipher es)); [done |].
  destruct (negb _) eqn:Hn; [done |]. destruct (aead (es_cipher es)) as [k|] eqn:Hk; [| done].
  intros [= <-]. exists es, k, nonce. split_and!; try done. apply negb_false_iff, Nat.eqb_eq in Hn. done.
Qed.

Lemma write_frame_asks (P : query → Prop) st f :
  (∀ q, match q with QWrite st' f' => st' = st ∧ f' = f → P q | _ => P q end) → asks P (write_frame st f : code _).
Proof.
  intros HP. unfold write_frame.
  pose proof (HP QCtxErr) as H1; pose proof (HP QDeadline) as H2; pose proof (HP (QWrite st f)) as H3;
    pose proof (HP (QFlush st)) as H4; cbn in *.
  cbn. split; [done |]. intros [e|]; [done |]. cbn. split; [done |]. intros d.
  apply asks_bind; [destruct d as [t|]; [exact (conj (HP (QSetWriteDeadline st (Some t))) (λ _, I)) | done] |]. intros _.
  cbn. split; [by apply H3 |]. intros w. apply asks_bind; [by destruct w |]. intros r.
  apply asks_bind; [destruct d; [exact (conj (HP (QSetWriteDeadline st None)) (λ _, I)) | done] | done].
Qed.

(** One send, by itself. *)
Lemma es_SendCtx_runs (ans : ∀ q, answer q) s i es k nonce data :
  live s i es k → ans QCtxErr = None → ans QRand = Ok nonce → length nonce = NonceSize →
  (∀ st f, ans (QWrite st f) = None) → (∀ st, ans (QFlush st) = None) →
  let o := run ans (es_SendCtx i data : code _) s in
  value o = None ∧ final o = s ∧ spawned o = [] ∧ writes (calls o) = [(es_stream es, nonce ++ aead_Seal k nonce data [])].
Proof.
  intros [Hi Ho _ Hk Hc _] Hctx Hr Hn Hw Hf. cbv zeta. destruct (run ans (es_SendCtx i data) s) as [v sF sp cl] eqn:E.
  stream_unfold E. rewrite Hctx in E. cbn in E. rewrite Hctx, Hr in E. cbn in E.
  unfold Cipher_Encrypt, encryptWithNonceLocked in E.
  stream_with E ltac:(rewrite ?Hi, ?Ho, ?Hc, ?Hn, ?Hk, ?Hctx in E).
  destruct (ans QDeadline); stream_with E ltac:(rewrite ?Hw, ?Hf in E); injection E as <- <- <- <-; by split_and!.
Qed.
(** Every frame a send on a stream can ever write, whatever the other
    goroutines do to the store between its sections and whatever the
    environment answers, is sealed. *)
Lemma es_SendCtx_sealed i data : asks (sealed_only i data) (es_SendCtx i data : code _).
Proof.
  unfold es_SendCtx. cbn. split; [done |]. intros [e|]; [done |]. cbn. split; [done |]. intros ctx. split; [done |].
  intros rnd s. destruct (encrypt_section i ctx rnd data s).1 as [e|f] eqn:Hs; [done |]. intros s'.
  apply encrypt_section_ok in Hs as (es & k & nonce & Hs).
  change (asks (sealed_only i data) (write_frame (enc_gets i es_stream s').1 f)). apply write_frame_asks.
  intros [| | | | | | | | |]; try done. intros [-> ->]. exists s, es, k, nonce. exact Hs.
Qed.
End Sending.

(** A message from one end to the other: a send on a live stream writes one
    frame, and when the read loop of a live stream with the same key gets this
    frame, and there is room for it, it delivers the very data, under the
    name and the peer of its stream. *)
Theorem stream_delivers `{CryptoLaws} (ansA ansB : ∀ q, answer q) sA i esA sB j esB k nonce data :
  live sA i esA k → live sB j esB k → ansA QCtxErr = None → ansA QRand = Ok nonce → length nonce = NonceSize →
  (∀ st f, ansA (QWrite st f) = None) → (∀ st, ansA (QFlush st) = None) →
  room (incoming sB) = true →
  (es_maxMessageSize esB <= 0 ∨ Z.of_nat (NonceSize + length data + TagSize) <= es_maxMessageSize esB)%Z →
  let oA := run ansA (es_SendCtx i data) sA in
  value oA = None ∧ ∃ frame, writes (calls oA) = [(es_stream esA, frame)]
  ∧ (ansB (QNext (es_stream esB)) = NextMsg frame →
     let oB := run ansB (es_readLoop j) sB in
     spawned oB = [LEncrypted j]
     ∧ ∃ r, Chan.buf (incoming (final oB))
            = Chan.buf (incoming sB) ++ [{| im_PeerID := es_peerID esB; im_StreamName := es_name esB;
                                            im_Data := r; im_Timestamp := clock sB |}]
            ∧ deref (hp (final oB)) r = data).
Proof.
  intros HA HB Hctx Hr Hn Hw Hf Hroom Hfit. cbv zeta.
  destruct (es_SendCtx_runs ansA sA i esA k nonce data HA Hctx Hr Hn Hw Hf) as (H1 & _ & _ & H2).
  split; [exact H1 |]. exists (nonce ++ aead_Seal k nonce data []). split; [exact H2 |]. intros Hq.
  destruct (readLoop_turn ansB sB j esB k _ HB Hq) as (H3 & _ & _ & _ & _ & _ & H6). split; [exact H3 |].
  destruct HB as [_ _ _ Hk Hc _].
  destruct (Cipher_roundtrip (es_cipher esB) nonce data [] k Hk Hc Hn) as (ct & _ & -> & Hlen & Hd).
  unfold frame_spec in H6. rewrite Hlen, Hd, Hroom in H6.
  replace ((0 <? es_maxMessageSize esB)%Z && (es_maxMessageSize esB <? Z.of_nat (NonceSize + length data + TagSize))%Z)
    with false in H6.
  2: { symmetry. apply andb_false_iff. destruct Hfit; [left | right]; apply Z.ltb_ge; lia. }
  destruct H6 as (r & -> & Hd6 & _). by exists r.
Qed.

(** C35. A frame that is too long or fails the authentication (tampered with, or
    under another key) is dropped: nothing is delivered, the report for it is
    made, the stream stays as it was and the loop goes on with the next frame;
    no buffer keeps bytes of the frame. *)
Theorem bad_frames_skipped `{CryptoLib} (ans : ∀ q, answer q) s i es k frame :
  live s i es k → ans (QNext (es_stream es)) = NextMsg frame →
  (0 < es_maxMessageSize es < Z.of_nat (length frame))%Z ∨ is_ok (Cipher_Decrypt (es_cipher es) frame []) = false →
  let o := run ans (es_readLoop i) s in
  spawned o = [LEncrypted i] ∧ live (final o) i es k ∧ incoming (final o) = incoming s
  ∧ no_residue (hp s) (hp (final o)) []
  ∧ ∃ r, reports (final o) = reports s ++ option_list r
         ∧ (is_Some (es_onDecryptionError es) → is_Some (es_onOversizedMessage es) → is_Some r).
Proof.
  intros Hl Hq Hbad. cbv zeta.
  destruct (readLoop_turn ans s i es k frame Hl Hq) as (H1 & _ & H2 & _ & H3 & H4 & H5).
  assert (∃ r, frame_spec es (room (incoming s)) frame = (None, r)
               ∧ (is_Some (es_onDecryptionError es) → is_Some (es_onOversizedMessage es) → is_Some r)) as (r & Hs & Hr).
  { unfold frame_spec. destruct (_ && _) eqn:Hsz.
    - eexists. split; [done |]. intros _ [cb ->]. by eexists.
    - destruct Hbad as [Hbad | Hbad].
      { go_bool. destruct Hsz; go_bool; lia. }
      destruct (Cipher_Decrypt (es_cipher es) frame []); [| done].
      eexists. split; [done |]. intros [cb ->] _. by eexists. }
  rewrite Hs in H4, H5. cbn [fst snd] in H4, H5. destruct H5 as [H5 H6].
  split; [done |]. split; [| split; [done | split; [done | by exists r]]].
  destruct Hl as [L1 L2 L3 L4 L5 L6]. split; try done; [by rewrite H2 | by rewrite H3 | by rewrite H5].
Qed.


Section Closing.
Context `{CryptoLib}.
Notation code := (prog (S := store) (P := loop) (Q := query) (R := answer)) (only parsing).

(** A stream that is closed and cancelled does nothing any more. *)
Lemma closed_stream_inert (ans : ∀ q, answer q) s i es :
  encs s !! i = Some es → es_closed es = true → es_cancelled es = true →
  run ans (es_Close i : code _) s = {| value := es_closeErr es; final := s; spawned := []; calls := [] |}
  ∧ run ans (es_readLoop i : code _) s = {| value := tt; final := s; spawned := []; calls := [] |}
  ∧ ∀ data, value (run ans (es_SendCtx i data : code _) s) ≠ None ∧ writes (calls (run ans (es_SendCtx i data : code _) s)) = [].
Proof.
  intros Hi Ho Hca. split_and!.
  - destruct (run ans (es_Close i) s) as [v sF sp cl] eqn:E. unfold es_Close in E. stream_unfold E.
    stream_with E ltac:(rewrite ?Hi, ?Ho in E). by injection E as <- <- <- <-.
  - destruct (run ans (es_readLoop i) s) as [v sF sp cl] eqn:E. unfold es_readLoop in E. stream_unfold E.
    stream_with E ltac:(rewrite ?Hi, ?Hca, ?orb_true_r in E). injection E as <- <- <- <-. f_equal.
    destruct s; cbn in *. unfold set_encs; cbn. f_equal. rewrite <- (insert_id _ _ _ Hi) at 1.
    rewrite alter_insert_eq, Ho. by apply insert_id.
  - intros data. destruct (run ans (es_SendCtx i data) s) as [v sF sp cl] eqn:E. stream_unfold E.
    destruct (ans QCtxErr) as [e|]; cbn in E; [by injection E as <- <- <- <- |].
    stream_with E ltac:(rewrite ?Hi, ?Ho in E). by injection E as <- <- <- <-.
Qed.
End Closing.

(** Closing a live stream: the connection below is closed once, with its
    error kept and returned; the cipher's copy of the key is zeroed and no
    other buffer is touched; the read loop ends, every later send fails
    without writing, and closing again returns the same error without
    calling anything. *)
Theorem Close_releases `{CryptoLib} (ans ans' : ∀ q, answer q) s i es k :
  live s i es k →
  let o := run ans (es_Close i) s in
  value o = ans (QClose (es_stream es)) ∧ calls o = [QClose (es_stream es)] ∧ spawned o = []
  ∧ (∀ r, key (es_cipher es) = Some r → zeroed (deref (hp (final o)) r))
  ∧ (∀ r, key (es_cipher es) ≠ Some r → deref (hp (final o)) r = deref (hp s) r)
  ∧ run ans' (es_Close i) (final o) = {| value := value o; final := final o; spawned := []; calls := [] |}
  ∧ run ans' (es_readLoop i) (final o) = {| value := tt; final := final o; spawned := []; calls := [] |}
  ∧ ∀ data, value (run ans' (es_SendCtx i data) (final o)) ≠ None ∧ writes (calls (run ans' (es_SendCtx i data) (final o))) = [].
Proof.
  intros [Hi Ho [Hb Hca] Hk Hc Hch]. cbv zeta.
  destruct (run ans (es_Close i) s) as [v sF sp cl] eqn:E. unfold es_Close in E. stream_unfold E.
  rewrite Hi, Ho in E. cbn in E. unfold Cipher_Close, mbind, ST_bind, mret, ST_ret in E. rewrite Hc in E.
  assert (∀ h r, key (es_cipher es) = Some r → zeroed (deref (SecureZero r h).2 r)) as Hz.
  { intros h r _. unfold SecureZero. rewrite deref_write_eq by done. apply memclr_zeroed. }
  destruct (key (es_cipher es)) as [r|] eqn:Hkey; cbn in E;
    stream_with E ltac:(rewrite ?Hi in E); injection E as <- <- <- <-; cbn [value final spawned calls].
  all: match goal with |- context[run _ (es_Close _) ?s1] =>
    destruct (closed_stream_inert ans' s1 i (es_set_err true (ans (QClose (es_stream es))) (es_cancel (es_close
      {| aead := None; key := None; Crypto.closed := true |} es)))) as (H1 & H2 & H3);
    [by cbn; rewrite !lookup_alter_eq, Hi | done | done |] end.
  all: split; [done |]; split; [done |]; split; [done |]; split; [| split; [| split; [exact H1 | split; [exact H2 | exact H3]]]].
  all: intros q Hq; cbn; simplify_eq; try done.
  - by apply (Hz (hp s)).
  - apply (deref_write_ne memclrFunc r q (hp s)). congruence.
Qed.

(** When the peer ends the stream the read loop marks it closed, and after
    that [Close] has nothing to do: the cipher's copy of the key is never
    zeroed, the stream's context never cancelled and the stream below never
    closed. *)
Theorem eof_keeps_key `{CryptoLib} (ans ans' : ∀ q, answer q) s i es k :
  live s i es k → ans (QNext (es_stream es)) = NextEOF →
  let s1 := final (run ans (es_readLoop i) s) in
  run ans' (es_Close i) s1 = {| value := None; final := s1; spawned := []; calls := [] |}
  ∧ hp s1 = hp s
  ∧ ∃ es', encs s1 !! i = Some es' ∧ es_closed es' = true ∧ es_cancelled es' = false ∧ es_cipher es' = es_cipher es.
Proof.
  intros [Hi Ho [Hb Hca] Hk Hc Hch] Hq. cbv zeta.
  destruct (run ans (es_readLoop i) s) as [v s1 sp cl] eqn:E. unfold es_readLoop in E. stream_unfold E.
  stream_with E ltac:(rewrite ?Hi, ?Hb, ?Hca, ?Hq in E). injection E as <- <- <- <-. cbn [final].
  split; [| split; [done |]].
  - match goal with |- run _ _ ?s1 = _ => destruct (run ans' (es_Close i) s1) as [v2 s2 sp2 cl2] eqn:E2 end.
    unfold es_Close in E2. stream_unfold E2. rewrite lookup_alter_eq, Hi in E2. cbn in E2. rewrite Ho in E2. cbn in E2.
    by injection E2 as <- <- <- <-.
  - cbn. rewrite lookup_alter_eq, Hi. cbn. rewrite Ho. eexists. by split_and!.
Qed.

(** ** Witnesses, in the concrete instance of [Crypto] *)

Module StreamWitness.
#[local] Existing Instance Toy.toy.
#[local] Existing Instance Toy.toy_laws.

Definition key32 : bytes := replicate 32 7%Z.
Definition nonce12 : bytes := replicate 12 1%Z.
Definition es0 : EncryptedStream :=
  {| es_name := "chat"; es_peerID := "Qm1"; es_stream := 5; es_sharedKey := 0;
     es_cipher := {| aead := Some key32; key := Some 0; Crypto.closed := false |}; es_onDecryptionError := Some 0;
     es_onOversizedMessage := Some 1; es_onMessageDropped := Some 2; es_maxMessageSize := 100; es_cancelled := false;
     es_closed := false; es_closeErr := None |}.
Definition s0 : store :=
  {| hp := (alloc key32 empty_heap).2; encs := {[0 := es0]}; uncs := ∅; next_obj := 1; incoming := Chan.make 4;
     reports := []; base_done := false; clock := 9%Z |}.

(** A caller that waits, a network that works and has [r] to read. *)
Definition calm (r : next_result) (q : query) : answer q :=
  match q with
  | QCtxErr | QDeadline | QWrite _ _ | QFlush _ | QClose _ => None
  | QRand => Ok nonce12
  | QSelect => true
  | QNewStream _ _ => Ok 5
  | QNext _ => r
  | QSetWriteDeadline _ _ => tt
  end.

Lemma live0 : live s0 0 es0 key32.
Proof. by split. Qed.

Definition sealed : bytes := nonce12 ++ aead_Seal key32 nonce12 [104%Z; 105%Z] [].

Lemma stream_delivers_witness :
  writes (calls (run (calm NextEOF) (es_SendCtx 0 [104%Z; 105%Z]) s0)) = [(5, sealed)]
  ∧ ∃ r, im_Data <$> Chan.buf (incoming (final (run (calm (NextMsg sealed)) (es_readLoop 0) s0))) = [r]
         ∧ deref (hp (final (run (calm (NextMsg sealed)) (es_readLoop 0) s0))) r = [104%Z; 105%Z].
Proof.
  destruct (stream_delivers (calm NextEOF) (calm (NextMsg sealed)) s0 0 es0 s0 0 es0 key32 nonce12 [104%Z; 105%Z]
    live0 live0 eq_refl eq_refl eq_refl (λ _ _, eq_refl) (λ _, eq_refl) eq_refl ltac:(right; vm_compute; discriminate))
    as (_ & f & Hf & Hd).
  assert (writes (calls (run (calm NextEOF) (es_SendCtx 0 [104%Z; 105%Z]) s0)) = [(5, sealed)]) as Hw by reflexivity.
  split; [exact Hw |]. rewrite Hw in Hf. injection Hf as <-. destruct (Hd eq_refl) as (_ & r & Hr & Hdata).
  exists r. split; [by rewrite Hr | exact Hdata].
Defined.

Lemma bad_frames_skipped_witness :
  ∃ r, reports (final (run (calm (NextMsg [1%Z])) (es_readLoop 0) s0)) = [r]
       ∧ incoming (final (run (calm (NextMsg [1%Z])) (es_readLoop 0) s0)) = Chan.make 4.
Proof.
  destruct (bad_frames_skipped (calm (NextMsg [1%Z])) s0 0 es0 key32 [1%Z] live0 eq_refl ltac:(right; reflexivity))
    as (_ & _ & Hi & _ & r & Hr & Hs).
  destruct (Hs ltac:(by eexists) ltac:(by eexists)) as [x ->]. exists x. split; [exact Hr | exact Hi].
Defined.

Lemma Close_releases_witness :
  deref (hp (final (run (calm NextEOF) (es_Close 0) s0))) 0 = replicate 32 0%Z
  ∧ calls (run (calm NextEOF) (es_Close 0) (final (run (calm NextEOF) (es_Close 0) s0))) = [].
Proof.
  destruct (Close_releases (calm NextEOF) (calm NextEOF) s0 0 es0 key32 live0) as (_ & _ & _ & _ & _ & H & _).
  rewrite H. split; vm_compute; reflexivity.
Defined.

Lemma eof_keeps_key_witness :
  deref (hp (final (run (calm NextEOF) (es_Close 0) (final (run (calm NextEOF) (es_readLoop 0) s0))))) 0 = key32.
Proof.
  destruct (eof_keeps_key (calm NextEOF) (calm NextEOF) s0 0 es0 key32 live0 eq_refl) as (H & Hh & _).
  rewrite H. cbn [final]. rewrite Hh. reflexivity.
Defined.
End StreamWitness.
