(* ===== verification/StreamManager.v ===== *)
(** * The stream manager ([pkg/streams/manager.go])

    It keeps, per peer, the streams by name, the names that are allowed and
    the shared key.  Every method is code over the manager's state, cut where
    it gives its lock back or calls the network.  A method that calls the
    network while it holds the lock ([CloseStreams], [Shutdown], the loser of
    a race to open a stream) is cut there too: other methods may run in
    between here and not in the code, so that what holds of every interleaving
    holds of the code's. *)

From S2P Require Import Prelude Errors Heap Dispatcher Proc Crypto CryptoModule Streams.

Record Manager := {
  crypto : Module_;
  streams : gmap string (gmap string nat);
  unencryptedStreams : gmap string (gmap string nat);
  allowedStreams : gmap string (gmap string bool);
  sharedKeys : gmap string ref;
  onDecryptionError : option nat;
  onOversizedMessage : option nat;
  onMessageDropped : option nat;
  maxMessageSize : Z;
  sto : store;
}.

Definition set_sto (s : store) (m : Manager) : Manager :=
  {| crypto := crypto m; streams := streams m; unencryptedStreams := unencryptedStreams m;
     allowedStreams := allowedStreams m; sharedKeys := sharedKeys m; onDecryptionError := onDecryptionError m;
     onOversizedMessage := onOversizedMessage m; onMessageDropped := onMessageDropped m;
     maxMessageSize := maxMessageSize m; sto := s |}.
Definition set_streams (f : gmap string (gmap string nat) → gmap string (gmap string nat)) (m : Manager) : Manager :=
  {| crypto := crypto m; streams := f (streams m); unencryptedStreams := unencryptedStreams m;
     allowedStreams := allowedStreams m; sharedKeys := sharedKeys m; onDecryptionError := onDecryptionError m;
     onOversizedMessage := onOversizedMessage m; onMessageDropped := onMessageDropped m;
     maxMessageSize := maxMessageSize m; sto := sto m |}.
Definition set_unencrypted (f : gmap string (gmap string nat) → gmap string (gmap string nat)) (m : Manager) : Manager :=
  {| crypto := crypto m; streams := streams m; unencryptedStreams := f (unencryptedStreams m);
     allowedStreams := allowedStreams m; sharedKeys := sharedKeys m; onDecryptionError := onDecryptionError m;
     onOversizedMessage := onOversizedMessage m; onMessageDropped := onMessageDropped m;
     maxMessageSize := maxMessageSize m; sto := sto m |}.
Definition set_allowed (f : gmap string (gmap string bool) → gmap string (gmap string bool)) (m : Manager) : Manager :=
  {| crypto := crypto m; streams := streams m; unencryptedStreams := unencryptedStreams m;
     allowedStreams := f (allowedStreams m); sharedKeys := sharedKeys m; onDecryptionError := onDecryptionError m;
     onOversizedMessage := onOversizedMessage m; onMessageDropped := onMessageDropped m;
     maxMessageSize := maxMessageSize m; sto := sto m |}.
Definition set_sharedKeys (f : gmap string ref → gmap string ref) (m : Manager) : Manager :=
  {| crypto := crypto m; streams := streams m; unencryptedStreams := unencryptedStreams m;
     allowedStreams := allowedStreams m; sharedKeys := f (sharedKeys m); onDecryptionError := onDecryptionError m;
     onOversizedMessage := onOversizedMessage m; onMessageDropped := onMessageDropped m;
     maxMessageSize := maxMessageSize m; sto := sto m |}.
Definition set_config (d o dr : option nat) (size : Z) (m : Manager) : Manager :=
  {| crypto := crypto m; streams := streams m; unencryptedStreams := unencryptedStreams m;
     allowedStreams := allowedStreams m; sharedKeys := sharedKeys m; onDecryptionError := d;
     onOversizedMessage := o; onMessageDropped := dr; maxMessageSize := size; sto := sto m |}.

Definition on_store {X} (f : ST store X) : ST Manager X := λ m, let (x, s) := f (sto m) in (x, set_sto s m).

(** A step of the crypto module, whose buffers are in the same heap. *)
Definition on_module {X} (f : ST state X) : ST Manager X := λ m,
  let (x, c) := f {| modl := crypto m; CryptoModule.hp := Streams.hp (sto m) |} in
  (x, {| crypto := modl c; streams := streams m; unencryptedStreams := unencryptedStreams m;
         allowedStreams := allowedStreams m; sharedKeys := sharedKeys m; onDecryptionError := onDecryptionError m;
         onOversizedMessage := onOversizedMessage m; onMessageDropped := onMessageDropped m;
         maxMessageSize := maxMessageSize m; sto := set_hp (CryptoModule.hp c) (sto m) |}).

(** The goroutines: the streams' loops and the calls of the manager's users. *)
Inductive proc :=
| PLoop (l : loop)
| PEstablish (p : string) (pub : option bytes) (names : list string)
| PSend (p name : string) (data : bytes)
| PCloseHandshake (p : string)
| PIncomingHandshake (p : string) (stream : nat)
| PIncoming (p name : string) (stream : nat)
| PCloseStreams (p : string)
| PShutdown.

Section Manager.
Context `{CryptoLib}.
Notation code := (prog (S := Manager) (P := proc) (Q := query) (R := answer)) (only parsing).
Notation stream_code := (prog (S := store) (P := loop) (Q := query) (R := answer)) (only parsing).

Definition lift {X} (m : stream_code X) : code X := embed sto set_sto PLoop m.

Definition NewManager (cryptoModule : Module_) (s : store) : Manager :=
  {| crypto := cryptoModule; streams := ∅; unencryptedStreams := ∅; allowedStreams := ∅; sharedKeys := ∅;
     onDecryptionError := None; onOversizedMessage := None; onMessageDropped := None; maxMessageSize := 0; sto := s |}.

Definition SetDecryptionErrorCallback (callback : option nat) : ST Manager unit := st_modify (λ m,
  set_config callback (onOversizedMessage m) (onMessageDropped m) (maxMessageSize m) m).
Definition SetOversizedMessageCallback (callback : option nat) : ST Manager unit := st_modify (λ m,
  set_config (onDecryptionError m) callback (onMessageDropped m) (maxMessageSize m) m).
Definition SetMessageDroppedCallback (callback : option nat) : ST Manager unit := st_modify (λ m,
  set_config (onDecryptionError m) (onOversizedMessage m) callback (maxMessageSize m) m).
Definition SetMaxMessageSize (size : Z) : ST Manager unit := st_modify (λ m,
  set_config (onDecryptionError m) (onOversizedMessage m) (onMessageDropped m) size m).

(** An entry of a two-level map; a missing peer has none. *)
Definition entry {A} (mm : gmap string (gmap string A)) (p name : string) : option A := mm !! p ≫= (.!! name).

Definition allowed (m : Manager) (p name : string) : bool := default false (entry (allowedStreams m) p name).

(** [if _, ok := mm[p]; !ok { mm[p] = make(...) }] *)
Definition ensure {A} (p : string) (mm : gmap string (gmap string A)) : gmap string (gmap string A) :=
  match mm !! p with Some _ => mm | None => <[p := ∅]> mm end.
Definition put {A} (p name : string) (x : A) (mm : gmap string (gmap string A)) : gmap string (gmap string A) :=
  alter <[name := x]> p mm.

(** ** Establishing *)

(** [crypto.DeriveSharedKey], section by section. *)
Definition derive (peerPubKey : option bytes) : code (result error ref) :=
  match ValidateEd25519PublicKey peerPubKey with
  | Some e => mret (Err (Errorf "invalid remote public key: %w" (Some e)))
  | None =>
      match Ed25519PublicToX25519 (default [] peerPubKey) with
      | Err e => mret (Err (Errorf "failed to convert remote public key: %w" (Some e)))
      | Ok x =>
          p1 ← atomic (on_module (derive_step (PStart x)));
          p2 ← atomic (on_module (derive_step p1));
          p3 ← atomic (on_module (derive_step p2));
          p4 ← atomic (on_module (derive_step p3));
          mret match p4 with PDone _ r => r | _ => Err (Errorf "unreachable" None) end
      end
  end.

Definition EstablishStreams (p : string) (peerPubKey : option bytes) (streamNames : list string) : code (option error) :=
  if (length streamNames =? 0) then mret (Some (Errorf "no stream names provided" None))
  else
    k ← derive peerPubKey;
    match k with
    | Err e => mret (Some (Errorf "failed to derive shared key: %w" (Some e)))
    | Ok sharedKey =>
        atomic (
          _ ← st_modify (set_sharedKeys <[p := sharedKey]>);
          _ ← st_modify (set_streams (ensure p));
          _ ← st_modify (set_allowed (ensure p));
          _ ← st_modify (set_allowed (λ mm, foldl (λ mm name, put p name true mm) mm streamNames));
          mret None)
    end.

(** ** Opening *)

Definition find_encrypted (p name : string) : ST Manager (option (nat * bool)) :=
  st_gets (λ m, i ← entry (streams m) p name; es ← encs (sto m) !! i; Some (i, es_closed es)).
Definition find_unencrypted (p name : string) : ST Manager (option (nat * bool)) :=
  st_gets (λ m, i ← entry (unencryptedStreams m) p name; us ← uncs (sto m) !! i; Some (i, us_closed us)).

Definition config_of (m : Manager) : EncryptedStreamConfig :=
  {| OnDecryptionError := onDecryptionError m; OnOversizedMessage := onOversizedMessage m;
     OnMessageDropped := onMessageDropped m; MaxMessageSize := maxMessageSize m |}.

(** The first section of [openStreamLazilyCtx]: an open stream, or the
    key and the configuration for a new one. *)
Definition open_enter (ctx : option error) (p name : string)
    : ST Manager (result error (nat + (ref * EncryptedStreamConfig))) :=
  f ← find_encrypted p name;
  match f with
  | Some (i, false) => mret (Ok (inl i))
  | _ =>
      m ← st_get;
      if negb (allowed m p name)
      then mret (Err (Errorf "stream %q not allowed for peer %s (call EstablishStreams first)" None))
      else match sharedKeys m !! p with
           | None => mret (Err (Errorf "no shared key for peer %s (call EstablishStreams first)" None))
           | Some sharedKey =>
               match ctx with
               | Some e => mret (Err e)
               | None => mret (Ok (inr (sharedKey, config_of m)))
               end
           end
  end.

(** The last section: the stream is stored, unless another one is open. *)
Definition open_store (p name : string) (i : nat) : ST Manager (option nat) :=
  f ← find_encrypted p name;
  match f with
  | Some (j, false) => mret (Some j)
  | _ => _ ← st_modify (set_streams (ensure p)); _ ← st_modify (set_streams (put p name i)); mret None
  end.

Definition openStreamLazilyCtx (p name : string) : code (result error nat) :=
  e ← ask QCtxErr;
  match e with
  | Some e => mret (Err e)
  | None =>
      ctx ← ask QCtxErr;
      r ← atomic (open_enter ctx p name);
      match r with
      | Err e => mret (Err e)
      | Ok (inl i) => mret (Ok i)
      | Ok (inr (sharedKey, cfg)) =>
          raw ← ask (QNewStream p name);
          match raw with
          | Err e => mret (Err (Errorf "failed to open stream %q: %w" (Some e)))
          | Ok rawStream =>
              s ← lift (NewEncryptedStream name p rawStream sharedKey cfg);
              match s with
              | Err e => _ ← ask (QClose rawStream);
                         mret (Err (Errorf "failed to create encrypted stream %q: %w" (Some e)))
              | Ok i =>
                  other ← atomic (open_store p name i);
                  match other with
                  | Some j => _ ← lift (es_Close i); mret (Ok j)
                  | None => mret (Ok i)
                  end
              end
          end
      end
  end.

Definition open_unencrypted_enter (ctx : option error) (p name : string) : ST Manager (result error (nat + option nat)) :=
  f ← find_unencrypted p name;
  match f with
  | Some (i, false) => mret (Ok (inl i))
  | _ => match ctx with
         | Some e => mret (Err e)
         | None => m ← st_get; mret (Ok (inr (onMessageDropped m)))
         end
  end.

Definition open_unencrypted_store (p name : string) (i : nat) : ST Manager (option nat) :=
  f ← find_unencrypted p name;
  match f with
  | Some (j, false) => mret (Some j)
  | _ => _ ← st_modify (set_unencrypted (ensure p)); _ ← st_modify (set_unencrypted (put p name i)); mret None
  end.

Definition openUnencryptedStreamLazilyCtx (p name : string) : code (result error nat) :=
  e ← ask QCtxErr;
  match e with
  | Some e => mret (Err e)
  | None =>
      ctx ← ask QCtxErr;
      r ← atomic (open_unencrypted_enter ctx p name);
      match r with
      | Err e => mret (Err e)
      | Ok (inl i) => mret (Ok i)
      | Ok (inr callback) =>
          raw ← ask (QNewStream p name);
          match raw with
          | Err e => mret (Err (Errorf "failed to open stream %q: %w" (Some e)))
          | Ok rawStream =>
              i ← lift (NewUnencryptedStream name p rawStream);
              _ ← atomic (on_store (SetOnMessageDropped i callback));
              other ← atomic (open_unencrypted_store p name i);
              match other with
              | Some j => _ ← lift (us_Close i); mret (Ok j)
              | None => mret (Ok i)
              end
          end
      end
  end.

(** ** Sending *)

Definition sendUnencryptedCtx (p name : string) (data : bytes) : code (option error) :=
  e ← ask QCtxErr;
  match e with
  | Some e => mret (Some e)
  | None =>
      f ← atomic (find_unencrypted p name);
      match f with
      | Some (i, false) => lift (us_SendCtx i data)
      | _ =>
          r ← openUnencryptedStreamLazilyCtx p name;
          match r with
          | Err e => mret (Some e)
          | Ok i => lift (us_SendCtx i data)
          end
      end
  end.

Definition SendCtx (p name : string) (data : bytes) : code (option error) :=
  e ← ask QCtxErr;
  match e with
  | Some e => mret (Some e)
  | None =>
      if String.eqb name HandshakeStreamName then sendUnencryptedCtx p name data
      else
        f ← atomic (find_encrypted p name);
        match f with
        | Some (i, false) => lift (es_SendCtx i data)
        | _ =>
            r ← openStreamLazilyCtx p name;
            match r with
            | Err e => mret (Some e)
            | Ok i => lift (es_SendCtx i data)
            end
        end
  end.

(** [Send] passes [context.Background()], which is never done. *)
Definition Send := SendCtx.

(** ** Incoming streams and the handshake stream *)

Definition OpenHandshakeStream (p : string) : ST Manager (option error) :=
  _ ← st_modify (set_unencrypted (ensure p)); mret None.

(** The stream of the entry is closed, whatever the outcome. *)
Definition CloseHandshakeStream (p : string) : code (option error) :=
  f ← atomic (st_gets (λ m, entry (unencryptedStreams m) p HandshakeStreamName));
  match f with
  | None => mret None
  | Some i =>
      err ← lift (us_Close i);
      _ ← atomic (st_modify (set_unencrypted (alter (delete HandshakeStreamName) p)));
      mret err
  end.

Definition handshake_section (p : string) (stream : nat) : ST Manager (option nat) :=
  _ ← st_modify (set_unencrypted (ensure p));
  f ← find_unencrypted p HandshakeStreamName;
  match f with
  | Some (_, false) => mret None
  | _ =>
      i ← on_store (new_unencrypted HandshakeStreamName p stream);
      m ← st_get;
      _ ← on_store (SetOnMessageDropped i (onMessageDropped m));
      _ ← st_modify (set_unencrypted (put p HandshakeStreamName i));
      mret (Some i)
  end.

(** The read loop is started inside the section in the code; it starts with
    the section's end here, and has nothing to do with the manager's state. *)
Definition HandleIncomingHandshakeStream (p : string) (stream : nat) : code (option error) :=
  r ← atomic (handshake_section p stream);
  match r with
  | None => mret (Some (Errorf "handshake stream already exists for peer %s" None))
  | Some i => _ ← go (PLoop (LUnencrypted i)); mret None
  end.

Definition incoming_section (p name : string) (stream : nat) : ST Manager (result error nat) :=
  m ← st_get;
  if negb (allowed m p name)
  then mret (Err (Errorf "stream %q not allowed for peer %s (call EstablishStreams first)" None))
  else match sharedKeys m !! p with
       | None => mret (Err (Errorf "no shared key for peer %s (call EstablishStreams first)" None))
       | Some sharedKey =>
           _ ← st_modify (set_streams (ensure p));
           f ← find_encrypted p name;
           match f with
           | Some (_, false) => mret (Err (Errorf "stream %q already exists for peer %s" None))
           | _ =>
               r ← on_store (new_encrypted name p stream sharedKey (config_of m));
               match r with
               | Err e => mret (Err (Errorf "failed to create encrypted stream: %w" (Some e)))
               | Ok i => _ ← st_modify (set_streams (put p name i)); mret (Ok i)
               end
           end
       end.

Definition HandleIncomingStream (p name : string) (stream : nat) : code (option error) :=
  r ← atomic (incoming_section p name stream);
  match r with
  | Err e => mret (Some e)
  | Ok i => _ ← go (PLoop (LEncrypted i)); mret None
  end.

(** ** Closing *)

(** A loop over streams that closes each one and keeps the last error. *)
Fixpoint close_each (close : nat → code (option error)) (l : list nat) (lastErr : option error) : code (option error) :=
  match l with
  | [] => mret lastErr
  | i :: l => err ← close i; close_each close l match err with Some e => Some e | None => lastErr end
  end.

Definition values (mm : gmap string (gmap string nat)) (p : string) : list nat :=
  match mm !! p with Some m => (map_to_list m).*2 | None => [] end.

Definition zero_key (p : string) : ST Manager unit :=
  m ← st_get;
  _ ← match sharedKeys m !! p with
      | Some key => on_store (on_heap (SecureZero key))
      | None => mret tt
      end;
  st_modify (set_sharedKeys (delete p)).

Definition CloseStreams (p : string) : code (option error) :=
  l ← atomic (st_gets (λ m, values (streams m) p));
  e1 ← close_each (λ i, lift (es_Close i)) l None;
  lu ← atomic (_ ← st_modify (set_streams (delete p)); st_gets (λ m, values (unencryptedStreams m) p));
  e2 ← close_each (λ i, lift (us_Close i)) lu e1;
  _ ← atomic (
    _ ← st_modify (set_unencrypted (delete p));
    _ ← st_modify (set_allowed (delete p));
    zero_key p);
  mret e2.

Definition all_values (mm : gmap string (gmap string nat)) : list nat :=
  (map_to_list mm).*2 ≫= λ m, (map_to_list m).*2.

Definition Shutdown : code unit :=
  _ ← atomic (on_store (st_modify set_base_done));
  l ← atomic (st_gets (λ m, all_values (streams m)));
  _ ← close_each (λ i, lift (es_Close i)) l None;
  lu ← atomic (st_gets (λ m, all_values (unencryptedStreams m)));
  _ ← close_each (λ i, lift (us_Close i)) lu None;
  atomic (
    m ← st_get;
    _ ← on_store (on_heap (SecureZeroMultiple (map_to_list (sharedKeys m)).*2));
    _ ← st_modify (set_streams (λ _, ∅));
    _ ← st_modify (set_unencrypted (λ _, ∅));
    _ ← st_modify (set_allowed (λ _, ∅));
    st_modify (set_sharedKeys (λ _, ∅))).

(** ** Queries *)

Definition GetStream (p name : string) (m : Manager) : option nat := entry (streams m) p name.

Definition HasStreams (p : string) (m : Manager) : bool :=
  match streams m !! p with Some ps => 0 <? size ps | None => false end.

Definition ListStreams (p : string) (m : Manager) : list string :=
  match streams m !! p with Some ps => (map_to_list ps).*1 | None => [] end.

(** ** All goroutines *)

Definition discard {X} (m : code X) : code unit := _ ← m; mret tt.

Definition body (q : proc) : code unit :=
  match q with
  | PLoop l => lift (loop_body l)
  | PEstablish p pub names => discard (EstablishStreams p pub names)
  | PSend p name data => discard (SendCtx p name data)
  | PCloseHandshake p => discard (CloseHandshakeStream p)
  | PIncomingHandshake p stream => discard (HandleIncomingHandshakeStream p stream)
  | PIncoming p name stream => discard (HandleIncomingStream p name stream)
  | PCloseStreams p => discard (CloseStreams p)
  | PShutdown => Shutdown
  end.

(** Anybody may call any method (the loops are only started by the streams),
    the environment answers what it likes, moves the clock, takes messages
    from the channel, and uses the crypto module's other methods. *)
Definition api (m : Manager) (q : proc) : Prop := match q with PLoop _ => False | _ => True end.
Definition answers (m : Manager) (q : query) (a : answer q) : Prop := True.
End Manager.
