(* ===== verification/SecureChannel.v ===== *)
(** * From key derivation to delivery

    The methods of the stream manager, each run by itself, and a message that
    goes all the way: two nodes establish their streams from each other's
    public key, one sends, the other accepts the stream and delivers. *)

From S2P Require Import Prelude Errors Heap Dispatcher Proc Crypto CryptoModule Streams StreamBehaviour StreamManager.

Section Channel.
Context `{CryptoLib}.
Notation code := (prog (S := Manager) (P := proc) (Q := query) (R := answer)) (only parsing).
Notation stream_code := (prog (S := store) (P := loop) (Q := query) (R := answer)) (only parsing).

(** ** The parts of a run *)

Lemma run_lift {X} (ans : ∀ q, answer q) (c : stream_code X) m :
  run ans (lift c) m
  = let o := run ans c (sto m) in
    {| value := value o; final := set_sto (final o) m; spawned := PLoop <$> spawned o; calls := calls o |}.
Proof. apply (run_embed sto set_sto PLoop); [done.. | by intros []]. Qed.

Lemma asks_lift {X} (P : query → Prop) (c : stream_code X) : asks P c → asks P (lift c : code X).
Proof. apply asks_embed. Qed.

(** What a node's crypto module leaves in the manager. *)
Definition with_module (c : state) (m : Manager) : Manager :=
  {| crypto := modl c; streams := streams m; unencryptedStreams := unencryptedStreams m;
     allowedStreams := allowedStreams m; sharedKeys := sharedKeys m; onDecryptionError := onDecryptionError m;
     onOversizedMessage := onOversizedMessage m; onMessageDropped := onMessageDropped m;
     maxMessageSize := maxMessageSize m; sto := set_hp (CryptoModule.hp c) (sto m) |}.

Lemma on_module_with {X} (f : ST state X) c m :
  on_module f (with_module c m) = let (x, c') := f c in (x, with_module c' m).
Proof.
  unfold on_module, with_module; cbn. destruct c as [cm ch]; cbn. by destruct (f _).
Qed.

Lemma on_module_start {X} (f : ST state X) m :
  on_module f m = let (x, c') := f {| modl := crypto m; CryptoModule.hp := Streams.hp (sto m) |} in (x, with_module c' m).
Proof. done. Qed.

(** The sections of [derive] make up the call of the crypto module. *)
Lemma derive_run (ans : ∀ q, answer q) pub x m :
  ValidateEd25519PublicKey (Some pub) = None → Ed25519PublicToX25519 pub = Ok x →
  run ans (derive (Some pub) : code _) m
  = let (r, c) := DeriveSharedKeyFromX25519 x {| modl := crypto m; CryptoModule.hp := Streams.hp (sto m) |} in
    {| value := r; final := with_module c m; spawned := []; calls := [] |}.
Proof.
  intros Hv Hx. unfold derive. rewrite Hv. cbn [default from_option id]. rewrite Hx.
  unfold DeriveSharedKeyFromX25519, atomic, mbind, prog_bind, ST_bind, mret, ST_ret, prog_ret.
  cbn [bind run]. rewrite on_module_start. destruct (derive_step (PStart x) _) as [p1 c1].
  cbn [run]. rewrite on_module_with. destruct (derive_step p1 c1) as [p2 c2].
  cbn [run]. rewrite on_module_with. destruct (derive_step p2 c2) as [p3 c3].
  cbn [run]. rewrite on_module_with. by destruct (derive_step p3 c3) as [p4 c4].
Qed.

(** Every given name is allowed afterwards. *)
Lemma allowed_fold p names mm name :
  is_Some (mm !! p) →
  entry (foldl (λ mm n, put p n true mm) mm names) p name
  = if bool_decide (name ∈ names) then Some true else entry mm p name.
Proof.
  revert mm. induction names as [|n names IH]; intros mm [x Hp]; cbn [foldl]; [done |].
  rewrite IH by (unfold put; rewrite lookup_alter_eq, Hp; by eexists).
  unfold entry, put. rewrite lookup_alter_eq, Hp. cbn. rewrite lookup_insert.
  repeat case_bool_decide; repeat case_decide; set_solver.
Qed.

Lemma ensure_some {A} p (mm : gmap string (gmap string A)) : is_Some (ensure p mm !! p).
Proof. unfold ensure. destruct (mm !! p) eqn:E; [by eexists |]. rewrite lookup_insert_eq. by eexists. Qed.

Lemma entry_ensure {A} p q name (mm : gmap string (gmap string A)) : entry (ensure p mm) q name = entry mm q name.
Proof.
  unfold entry, ensure. destruct (mm !! p) eqn:E; [done |].
  rewrite lookup_insert. case_decide; subst; [| done]. by rewrite E.
Qed.

Lemma entry_put {A} p name (x : A) mm : is_Some (mm !! p) → entry (put p name x mm) p name = Some x.
Proof. intros [y Hp]. unfold entry, put. rewrite lookup_alter_eq, Hp. cbn. by rewrite lookup_insert_eq. Qed.

Lemma entry_None_find p name m : entry (streams m) p name = None → find_encrypted p name m = (None, m).
Proof. intros E. unfold find_encrypted, st_gets. by rewrite E. Qed.

(** A new stream object, ready for use. *)
Lemma new_encrypted_runs name p raw k cfg s :
  length (deref (Streams.hp s) k) = KeySize → base_done s = false → Chan.is_closed (incoming s) = false →
  ∃ es s', new_encrypted name p raw k cfg s = (Ok (next_obj s), s')
    ∧ live s' (next_obj s) es (deref (Streams.hp s) k) ∧ es_name es = name ∧ es_peerID es = p ∧ es_stream es = raw
    ∧ es_maxMessageSize es = MaxMessageSize cfg ∧ incoming s' = incoming s ∧ clock s' = clock s.
Proof.
  intros Hl Hb Hc. unfold new_encrypted, on_heap, read, NewCipher, mbind, ST_bind, mret, ST_ret, st_gets, st_modify.
  cbn. rewrite Hl. cbn. eexists _, _. split; [reflexivity |].
  split; [split; cbn; [by rewrite lookup_insert_eq | done..] | by split_and!].
Qed.

(** The first section of opening a stream that is allowed and not there. *)
Lemma open_enter_new p name k m :
  entry (streams m) p name = None → allowed m p name = true → sharedKeys m !! p = Some k →
  open_enter None p name m = (Ok (inr (k, config_of m)), m).
Proof.
  intros He Ha Hk. unfold open_enter, mbind, ST_bind, mret, ST_ret, st_get. rewrite (entry_None_find _ _ _ He).
  by rewrite Ha, Hk.
Qed.

(** The last section, when nobody else has opened the stream. *)
Lemma open_store_new p name i m :
  entry (streams m) p name = None →
  open_store p name i m = (None, set_streams (put p name i) (set_streams (ensure p) m)).
Proof.
  intros He. unfold open_store, mbind, ST_bind, mret, ST_ret, st_modify. by rewrite (entry_None_find _ _ _ He).
Qed.

(** Streams can be used with a peer: a key, and the allowed names. *)
Record established (m : Manager) (p name : string) (kb : bytes) : Prop := {
  e_key : ∃ k, sharedKeys m !! p = Some k ∧ deref (Streams.hp (sto m)) k = kb;
  e_len : length kb = KeySize;
  e_allowed : allowed m p name = true;
  e_live : base_done (sto m) = false ∧ Chan.is_closed (incoming (sto m)) = false;
}.
End Channel.

#[local] Arguments find_encrypted : simpl never.
#[local] Arguments open_enter : simpl never.
#[local] Arguments open_store : simpl never.
#[local] Arguments new_encrypted : simpl never.
#[local] Arguments incoming_section : simpl never.
#[local] Arguments es_SendCtx : simpl never.
#[local] Arguments es_readLoop : simpl never.

Section Establish.
Context `{CryptoLaws}.
Notation code := (prog (S := Manager) (P := proc) (Q := query) (R := answer)) (only parsing).

(** [EstablishStreams] by itself, when the module can derive a key. *)
Lemma establish_run (ans : ∀ q, answer q) p pub x names m X kb :
  names ≠ [] → ValidateEd25519PublicKey (Some pub) = None → Ed25519PublicToX25519 pub = Ok x →
  length X = X25519KeySize → module_ok X {| modl := crypto m; CryptoModule.hp := Streams.hp (sto m) |} →
  mod_closed (crypto m) = false → length x = X25519KeySize → shared_key X x [] = Some kb →
  base_done (sto m) = false → Chan.is_closed (incoming (sto m)) = false →
  let o := run ans (EstablishStreams p (Some pub) names) m in
  value o = None ∧ spawned o = [] ∧ calls o = []
  ∧ (∀ name, name ∈ names → established (final o) p name kb)
  ∧ (∀ name, entry (streams (final o)) p name = entry (streams m) p name) ∧ config_of (final o) = config_of m
  ∧ incoming (sto (final o)) = incoming (sto m) ∧ clock (sto (final o)) = clock (sto m).
Proof.
  intros Hn Hv Hx HX Hok Hc Hxl Hk Hb Hch. cbv zeta. unfold EstablishStreams.
  destruct (length names =? 0) eqn:E0; [apply Nat.eqb_eq in E0; by destruct names |].
  change (run ans _ m) with (run ans (bind (λ k, match k with
    | Err e => mret (Some (Errorf "failed to derive shared key: %w" (Some e)))
    | Ok sharedKey => atomic (_ ← st_modify (set_sharedKeys <[p := sharedKey]>);
        _ ← st_modify (set_streams (ensure p)); _ ← st_modify (set_allowed (ensure p));
        _ ← st_modify (set_allowed (λ mm, foldl (λ mm name, put p name true mm) mm names)); mret None) end)
    (derive (Some pub))) m).
  rewrite (run_bind ans (derive (Some pub)) _ m), (derive_run ans pub x m Hv Hx).
  pose proof (derive_runs X _ x HX Hok Hc Hxl) as Hd. rewrite Hk in Hd.
  destruct (DeriveSharedKeyFromX25519 x _) as [r c]. destruct Hd as (_ & _ & kr & cr & -> & Hd & _).
  cbn [value final spawned calls app]. unfold st_modify, mbind, ST_bind, mret, ST_ret. cbn.
  split; [done |]. split; [done |]. split; [done |]. split_and!; try done.
  - intros name Hin. split; cbn; [exists kr; by rewrite lookup_insert_eq | by eapply shared_key_length | | done].
    unfold allowed; cbn. rewrite allowed_fold by apply ensure_some. by rewrite bool_decide_true.
  - intros name. apply entry_ensure.
Qed.

(** Sending on an established stream that is not open: it is opened, and one
    sealed frame is written. *)
Lemma send_run (ans : ∀ q, answer q) p name kb raw nonce data m :
  established m p name kb → entry (streams m) p name = None → name ≠ HandshakeStreamName →
  ans QCtxErr = None → ans (QNewStream p name) = Ok raw → ans QRand = Ok nonce → length nonce = NonceSize →
  (∀ st f, ans (QWrite st f) = None) → (∀ st, ans (QFlush st) = None) →
  let o := run ans (SendCtx p name data) m in
  value o = None ∧ writes (calls o) = [(raw, nonce ++ aead_Seal kb nonce data [])]
  ∧ spawned o = [PLoop (LEncrypted (next_obj (sto m)))]
  ∧ entry (streams (final o)) p name = Some (next_obj (sto m)).
Proof.
  intros [(k & Hk & Hd) Hl Ha [Hb Hc]] He Hh Hctx Hq Hr Hn Hw Hf. cbv zeta.
  rewrite <- Hd in Hl. destruct (new_encrypted_runs name p raw k (config_of m) (sto m) Hl Hb Hc)
    as (es & s' & Hnew & Hlive & _ & _ & Hes & _). rewrite Hd in Hlive.
  destruct (run ans (SendCtx p name data) m) as [v mF sp cl] eqn:E.
  unfold SendCtx, openStreamLazilyCtx, NewEncryptedStream, lift in E.
  unfold atomic, ask, go, mbind, prog_bind, mret, prog_ret in E. cbn in E. rewrite Hctx in E. cbn in E.
  apply String.eqb_neq in Hh. rewrite Hh in E. cbn in E. rewrite (entry_None_find _ _ _ He) in E. cbn in E.
  rewrite Hctx in E. cbn in E. rewrite Hctx in E.
  rewrite (open_enter_new _ _ _ _ He Ha Hk) in E. cbn in E.
  rewrite Hq in E. cbn in E. rewrite Hnew in E. cbn in E.
  rewrite open_store_new in E by done. cbn in E.
  change (embed sto set_sto PLoop) with (lift (X := option error)) in E. rewrite run_lift in E. cbn [sto set_streams set_sto] in E.
  destruct (es_SendCtx_runs ans s' _ es kb nonce data Hlive Hctx Hr Hn Hw Hf) as (H1 & H2 & H3 & H4).
  injection E as <- <- <- <-. cbn [value final spawned calls].
  split; [exact H1 |]. split; [exact (eq_trans H4 ltac:(by rewrite Hes)) |].
  split; [exact (f_equal (λ l, PLoop (LEncrypted (next_obj (sto m))) :: (PLoop <$> l)) H3) |].
  apply entry_put. apply ensure_some.
Qed.

(** Accepting a stream of an established peer: it is stored and its read loop
    started. *)
Lemma accept_run (ans : ∀ q, answer q) p name kb raw m :
  established m p name kb → entry (streams m) p name = None →
  let o := run ans (HandleIncomingStream p name raw) m in
  value o = None ∧ spawned o = [PLoop (LEncrypted (next_obj (sto m)))] ∧ calls o = []
  ∧ ∃ es, live (sto (final o)) (next_obj (sto m)) es kb ∧ es_name es = name ∧ es_peerID es = p ∧ es_stream es = raw
          ∧ es_maxMessageSize es = maxMessageSize m
          ∧ incoming (sto (final o)) = incoming (sto m) ∧ clock (sto (final o)) = clock (sto m).
Proof.
  intros [(k & Hk & Hd) Hl Ha [Hb Hc]] He. cbv zeta. rewrite <- Hd in Hl.
  destruct (new_encrypted_runs name p raw k (config_of m) (sto m) Hl Hb Hc)
    as (es & s' & Hnew & Hlive & Hn & Hp & Hs & Hm & Hi & Ht). rewrite Hd in Hlive.
  assert (incoming_section p name raw m
          = (Ok (next_obj (sto m)), set_streams (put p name (next_obj (sto m))) (set_sto s' (set_streams (ensure p) m)))) as Hsec.
  { unfold incoming_section, mbind, ST_bind, mret, ST_ret, st_get, st_modify. rewrite Ha, Hk. cbn [negb].
    rewrite entry_None_find by (cbn; by rewrite entry_ensure). unfold on_store. cbn [sto set_streams].
    change (config_of (set_streams (ensure p) m)) with (config_of m). by rewrite Hnew. }
  unfold HandleIncomingStream, atomic, go, mbind, prog_bind, mret, prog_ret. cbn [bind run]. rewrite Hsec.
  cbn [bind run value final spawned calls]. split_and!; [done.. |]. exists es. by split_and!.
Qed.

(** When no key can be derived nothing is established. *)
Lemma establish_fails (ans : ∀ q, answer q) p pub x names m X :
  ValidateEd25519PublicKey (Some pub) = None → Ed25519PublicToX25519 pub = Ok x →
  length X = X25519KeySize → module_ok X {| modl := crypto m; CryptoModule.hp := Streams.hp (sto m) |} →
  mod_closed (crypto m) = false → length x = X25519KeySize → shared_key X x [] = None →
  value (run ans (EstablishStreams p (Some pub) names) m) ≠ None.
Proof.
  intros Hv Hx HX Hok Hc Hxl Hk. unfold EstablishStreams.
  destruct (length names =? 0); [done |].
  unfold mbind, prog_bind. rewrite (run_bind ans (derive (Some pub)) _ m), (derive_run ans pub x m Hv Hx).
  pose proof (derive_runs X _ x HX Hok Hc Hxl) as Hd. rewrite Hk in Hd.
  destruct (DeriveSharedKeyFromX25519 x _) as [[e|r] c]; [done |]. by destruct Hd as (_ & _ & Hr & _).
Qed.
End Establish.

(** A manager of a node that has not used streams with [p] yet. *)
Record ready (m : Manager) (mod_ : Module_) (h : heap) (p : string) : Prop := {
  r_module : crypto m = mod_;
  r_heap : Streams.hp (sto m) = h;
  r_streams : streams m !! p = None;
  r_live : base_done (sto m) = false ∧ Chan.is_closed (incoming (sto m)) = false;
}.

(** C3. The secure channel, end to end.  Two nodes that establish the streams
    [names] with each other, each from the other's public key, either both
    fail (no key can be agreed) or both succeed.  Then a message that the first
    sends on one of the streams is written as one frame, the second accepts
    the stream, and its read loop, given the frame, delivers to the
    application the very bytes, from the right peer on the right stream. *)
Theorem secure_channel `{CryptoLaws} seedA hA pA modA hA' seedB hB pB modB hB' MA MB idA idB
    (ansA ansB ansL : ∀ q, answer q) names name nonce data rawA rawB :
  new_node seedA hA pA modA hA' → new_node seedB hB pB modB hB' → ready MA modA hA' idB → ready MB modB hB' idA →
  name ∈ names → name ≠ HandshakeStreamName →
  ansA QCtxErr = None → ansA (QNewStream idB name) = Ok rawA → ansA QRand = Ok nonce → length nonce = NonceSize →
  (∀ st f, ansA (QWrite st f) = None) → (∀ st, ansA (QFlush st) = None) →
  room (incoming (sto MB)) = true →
  (maxMessageSize MB <= 0 ∨ Z.of_nat (NonceSize + length data + TagSize) <= maxMessageSize MB)%Z →
  let a1 := run ansA (EstablishStreams idB (Some (ed25519Public modB)) names) MA in
  let b1 := run ansB (EstablishStreams idA (Some (ed25519Public modA)) names) MB in
  (value a1 ≠ None ∧ value b1 ≠ None)
  ∨ (value a1 = None ∧ value b1 = None
     ∧ let a2 := run ansA (SendCtx idB name data) (final a1) in
       let b2 := run ansB (HandleIncomingStream idA name rawB) (final b1) in
       value a2 = None ∧ value b2 = None
       ∧ ∃ frame j, writes (calls a2) = [(rawA, frame)] ∧ spawned b2 = [PLoop (LEncrypted j)]
         ∧ (ansL (QNext rawB) = NextMsg frame →
            let b3 := run ansL (body (PLoop (LEncrypted j))) (final b2) in
            spawned b3 = [PLoop (LEncrypted j)]
            ∧ ∃ r, Chan.buf (incoming (sto (final b3)))
                   = Chan.buf (incoming (sto MB)) ++ [{| im_PeerID := idA; im_StreamName := name; im_Data := r;
                                                         im_Timestamp := clock (sto MB) |}]
                   ∧ deref (Streams.hp (sto (final b3))) r = data)).
Proof.
  intros HA HB [CA EA SA [BA KA]] [CB EB SB [BB KB]] Hin Hh Hctx Hq Hr Hn Hw Hf Hroom Hfit. cbv zeta.
  destruct (new_node_runs _ _ _ _ _ HA) as (IA & HcA & LA & VA & XA & PA).
  destruct (new_node_runs _ _ _ _ _ HB) as (IB & HcB & LB & VB & XB & PB).
  rewrite <- CA, <- EA in IA. rewrite <- CB, <- EB in IB. rewrite <- CA in HcA. rewrite <- CB in HcB.
  pose proof (shared_key_sym _ _ _ _ PA PB) as Hsym. pose proof (x25519_of_seed_length seedA) as LXA.
  pose proof (x25519_of_seed_length seedB) as LXB.
  destruct (shared_key (x25519_of_seed seedA) (x25519Public modB) []) as [kb|] eqn:Ek; symmetry in Hsym.
  2: { left. split; [eapply (establish_fails _ _ _ _ _ _ _ VB XB LXA IA HcA LB Ek)
                     | eapply (establish_fails _ _ _ _ _ _ _ VA XA LXB IB HcB LA Hsym)]. }
  right. assert (names ≠ []) as Hne by (by intros ->; apply elem_of_nil in Hin).
  destruct (establish_run ansA idB _ _ names MA _ kb Hne VB XB LXA IA HcA LB Ek BA KA) as (A1 & _ & _ & A2 & A3 & _).
  destruct (establish_run ansB idA _ _ names MB _ kb Hne VA XA LXB IB HcB LA Hsym BB KB)
    as (B1 & _ & _ & B2 & B3 & B4 & B5 & B6).
  split; [exact A1 |]. split; [exact B1 |].
  destruct (send_run ansA idB name kb rawA nonce data _ (A2 name Hin)) as (A4 & A5 & _ & _); try done.
  { rewrite A3. unfold entry. by rewrite SA. }
  destruct (accept_run ansB idA name kb rawB _ (B2 name Hin)) as (B7 & B8 & _ & es & B9 & B10 & B11 & B12 & B13 & B14 & B15).
  { rewrite B3. unfold entry. by rewrite SB. }
  split; [exact A4 |]. split; [exact B7 |]. eexists _, _. split; [exact A5 |]. split; [exact B8 |]. intros HqL.
  cbn [body loop_body]. rewrite run_lift. cbn [value final spawned calls sto set_sto]. rewrite <- B12 in HqL.
  destruct (readLoop_turn ansL _ _ es kb _ B9 HqL) as (T1 & _ & _ & _ & _ & _ & T2).
  split; [by rewrite T1 |].
  destruct B9 as [_ _ _ Hk Hc _].
  destruct (Cipher_roundtrip (es_cipher es) nonce data [] kb Hk Hc Hn) as (ct & _ & -> & Hlen & Hd).
  assert (maxMessageSize (final (run ansB (EstablishStreams idA (Some (ed25519Public modA)) names) MB)) = maxMessageSize MB) as Hmm
    by by apply (f_equal MaxMessageSize) in B4.
  unfold frame_spec in T2. rewrite Hlen, Hd, B14, B5, Hroom, B13, Hmm in T2.
  replace ((0 <? maxMessageSize MB)%Z && (maxMessageSize MB <? Z.of_nat (NonceSize + length data + TagSize))%Z)
    with false in T2.
  2: { symmetry. apply andb_false_iff. destruct Hfit; [left | right]; apply Z.ltb_ge; lia. }
  cbn [fst] in T2. destruct T2 as (r & -> & T3 & _). exists r. rewrite B10, B11, B15, B6. by split.
Qed.

(** ** Witness: two nodes of the concrete instance of [Crypto] *)

Module ChannelWitness.
Import CryptoModule.Witness.
#[local] Existing Instance Toy.toy.
#[local] Existing Instance Toy.toy_laws.

Definition manager_of (n : Z) : Manager :=
  NewManager (mod_of n) {| hp := (made n).2; encs := ∅; uncs := ∅; next_obj := 0; incoming := Chan.make 4; reports := [];
                           base_done := false; clock := 9%Z |}.

Lemma ready_of n p : ready (manager_of n) (mod_of n) (made n).2 p.
Proof. by split. Qed.

Definition calm := StreamWitness.calm.
Definition hi : bytes := [104%Z; 105%Z].
Definition pub (n : Z) : option bytes := Some (ed25519Public (mod_of n)).

(** Both nodes after [EstablishStreams]. *)
Definition node_a : Manager := final (run (calm NextEOF) (EstablishStreams "QmB" (pub 16) ["chat"]) (manager_of 9)).
Definition node_b : Manager := final (run (calm NextEOF) (EstablishStreams "QmA" (pub 9) ["chat"]) (manager_of 16)).

Definition sent : list (nat * bytes) := writes (calls (run (calm NextEOF) (SendCtx "QmB" "chat" hi) node_a)).
Definition frame : bytes := StreamWitness.nonce12 ++ hi ++ replicate TagSize 0%Z.

Lemma frame_sent : sent = [(5, frame)].
Proof. vm_compute. reflexivity. Qed.

Lemma established_here : value (run (calm NextEOF) (EstablishStreams "QmB" (pub 16) ["chat"]) (manager_of 9)) = None.
Proof. vm_compute. reflexivity. Qed.

Lemma secure_channel_witness :
  ∃ j r m, m = final (run (calm (NextMsg frame)) (body (PLoop (LEncrypted j)))
                        (final (run (calm NextEOF) (HandleIncomingStream "QmA" "chat" 5) node_b)))
           ∧ Chan.buf (incoming (sto m)) = [{| im_PeerID := "QmA"; im_StreamName := "chat"; im_Data := r; im_Timestamp := 9%Z |}]
           ∧ deref (Streams.hp (sto m)) r = hi.
Proof.
  pose proof (secure_channel _ _ _ _ _ _ _ _ _ _ (manager_of 9) (manager_of 16) "QmA" "QmB" (calm NextEOF) (calm NextEOF)
    (calm (NextMsg frame)) ["chat"] "chat" StreamWitness.nonce12 hi 5 5 node_9 node_16 (ready_of 9 "QmB") (ready_of 16 "QmA")
    ltac:(set_solver) ltac:(discriminate) eq_refl eq_refl eq_refl eq_refl (λ _ _, eq_refl) (λ _, eq_refl) eq_refl
    ltac:(left; vm_compute; discriminate)) as Hw.
  destruct Hw as [[Hno _]|(_ & _ & _ & _ & f & j & Hf & _ & Hd)]; [by destruct (Hno established_here) |].
  pose proof frame_sent as Hs. unfold sent, node_a in Hs. unfold pub in Hs. rewrite Hs in Hf. injection Hf as <-.
  destruct (Hd eq_refl) as (_ & r & Hb & Hr).
  exists j, r. eexists. split; [reflexivity |]. split; [exact Hb | exact Hr].
Defined.
End ChannelWitness.
