(* ===== verification/StreamSafety.v ===== *)
(** * What the stream manager never does

    Data never leaves unsealed except on the handshake stream, nothing is
    opened or accepted for a peer without an established key, and closing a
    peer's streams forgets all of it; with one interleaving where the key is
    forgotten too early. *)

From S2P Require Import Prelude Errors Heap Dispatcher Proc Crypto CryptoModule Streams StreamBehaviour StreamManager SecureChannel.

(** What a piece of code may ask for, by its structure. *)
Ltac asks_auto HP :=
  repeat first
    [ exact I
    | solve [auto]
    | apply asks_lift
    | match goal with
      | |- asks _ (mbind _ _) => apply asks_bind; [| intros ?]
      | |- asks _ (atomic _) => intros ?; exact I
      | |- asks _ (ask ?q) => split; [exact (HP q) | intros ?; exact I]
      | |- asks _ (go _) => exact I
      | |- asks _ (mret _) => exact I
      | |- asks _ (match ?x with _ => _ end) => destruct x
      end ].

Section Asks.
Context `{CryptoLib}.
Notation code := (prog (S := Manager) (P := proc) (Q := query) (R := answer)) (only parsing).
Notation stream_code := (prog (S := store) (P := loop) (Q := query) (R := answer)) (only parsing).
Context (P : query → Prop) (HP : ∀ q, match q with QWrite _ _ => True | _ => P q end).

Lemma es_Close_asks i : asks P (es_Close i : stream_code _).
Proof using HP. unfold es_Close. asks_auto HP. Qed.

Lemma NewEncryptedStream_asks name p raw k cfg : asks P (NewEncryptedStream name p raw k cfg : stream_code _).
Proof using HP. unfold NewEncryptedStream. asks_auto HP. Qed.

(** Opening a stream writes nothing. *)
Lemma openStreamLazilyCtx_asks p name : asks P (openStreamLazilyCtx p name : code _).
Proof using HP.
  pose proof es_Close_asks. pose proof NewEncryptedStream_asks. unfold openStreamLazilyCtx. asks_auto HP; auto.
Qed.
End Asks.


#[local] Arguments find_encrypted : simpl never.
#[local] Arguments open_enter : simpl never.
#[local] Arguments open_store : simpl never.
#[local] Arguments new_encrypted : simpl never.
#[local] Arguments incoming_section : simpl never.
#[local] Arguments SecureZero : simpl never.

(** No open stream to be found, and no right to open one. *)
Record refusing `{CryptoLib} (p name : string) (m : Manager) : Prop := {
  rf_none : match (find_encrypted p name m).1 with Some (_, false) => False | _ => True end;
  rf_key : allowed m p name = false ∨ sharedKeys m !! p = None;
}.

Section Refused.
Context `{CryptoLib}.
Notation code := (prog (S := Manager) (P := proc) (Q := query) (R := answer)) (only parsing).

Lemma find_encrypted_pure p name m : find_encrypted p name m = ((find_encrypted p name m).1, m).
Proof. done. Qed.

Lemma refusing_enter ctx p name m : refusing p name m → ∃ e, open_enter ctx p name m = (Err e, m).
Proof.
  intros [Hf Href]. unfold open_enter, mbind, ST_bind, mret, ST_ret, st_get. rewrite find_encrypted_pure.
  destruct (find_encrypted p name m).1 as [[j []]|]; try done; cbn [negb];
    (destruct Href as [Ha|Hk]; [rewrite Ha | rewrite Hk; destruct (allowed m p name)]; by eexists).
Qed.

Lemma refusing_send (ans : ∀ q, answer q) p name data m :
  name ≠ HandshakeStreamName → refusing p name m →
  let o := run ans (SendCtx p name data : code _) m in
  value o ≠ None ∧ final o = m ∧ spawned o = [] ∧ Forall (eq QCtxErr) (calls o).
Proof.
  intros Hh Hr. cbv zeta. apply String.eqb_neq in Hh. destruct (refusing_enter (ans QCtxErr) p name m Hr) as (e1 & He1).
  destruct (run ans (SendCtx p name data) m) as [v mF sp cl] eqn:E.
  unfold SendCtx, openStreamLazilyCtx, atomic, ask, mbind, prog_bind, mret, prog_ret in E. cbn in E.
  assert (∀ l : list query, l = [QCtxErr] ∨ l = [QCtxErr; QCtxErr; QCtxErr] → Forall (eq QCtxErr) l) as Hl
    by (intros l [-> | ->]; by repeat constructor).
  destruct (ans QCtxErr) as [e|] eqn:Hc; cbn in E; [injection E as <- <- <- <-; split_and!; by auto |].
  rewrite Hh in E. cbn in E. rewrite find_encrypted_pure in E. destruct Hr as [Hf _].
  destruct (find_encrypted p name m).1 as [[j []]|]; try done; cbn in E; rewrite Hc in E; cbn in E;
    rewrite ?Hc, He1 in E; injection E as <- <- <- <-; split_and!; by auto.
Qed.

Lemma keyless_incoming (ans : ∀ q, answer q) p name raw m :
  allowed m p name = false ∨ sharedKeys m !! p = None →
  ∃ e, run ans (HandleIncomingStream p name raw : code _) m = {| value := Some e; final := m; spawned := []; calls := [] |}.
Proof.
  intros Href.
  assert (∃ e, incoming_section p name raw m = (Err e, m)) as (e & He).
  { unfold incoming_section, mbind, ST_bind, mret, ST_ret, st_get.
    destruct Href as [Ha|Hk]; [rewrite Ha | rewrite Hk; destruct (allowed m p name)]; by eexists. }
  exists e. unfold HandleIncomingStream, atomic, ask, go, mbind, prog_bind, mret, prog_ret. cbn. by rewrite He.
Qed.

Lemma refusing_incoming (ans : ∀ q, answer q) p name raw m :
  refusing p name m →
  ∃ e, run ans (HandleIncomingStream p name raw : code _) m = {| value := Some e; final := m; spawned := []; calls := [] |}.
Proof. intros [_ Href]. by apply keyless_incoming. Qed.
End Refused.

(** A peer whose streams are not established: neither a send nor an incoming
    stream gets anywhere.  Both fail, nothing changes, no stream is opened and
    no goroutine started; the only call is the check of the caller's context. *)
Theorem unestablished_refused `{CryptoLib} (ans : ∀ q, answer q) p name data raw m :
  name ≠ HandshakeStreamName →
  (∀ i es, entry (streams m) p name = Some i → encs (sto m) !! i = Some es → es_closed es = true) →
  allowed m p name = false ∨ sharedKeys m !! p = None →
  let o := run ans (SendCtx p name data) m in
  let o' := run ans (HandleIncomingStream p name raw) m in
  (value o ≠ None ∧ final o = m ∧ spawned o = [] ∧ Forall (eq QCtxErr) (calls o))
  ∧ (value o' ≠ None ∧ final o' = m ∧ spawned o' = [] ∧ calls o' = []).
Proof.
  intros Hh Hold Href. cbv zeta.
  assert (refusing p name m) as Hr.
  { split; [| done]. unfold find_encrypted, st_gets; cbn. destruct (entry (streams m) p name) as [i|] eqn:E; [| done].
    cbn. destruct (encs (sto m) !! i) as [es|] eqn:Ei; [| done]. cbn. by rewrite (Hold i es). }
  split; [by apply refusing_send |].
  destruct (refusing_incoming ans p name raw m Hr) as (e & ->). by split_and!.
Qed.

(** ** Closing *)

(** From [s] to [s']: the encrypted streams [l] and the unencrypted streams
    [lu] are closed, the others as they were, and every buffer is as it was or
    zeroed. *)
Record closing (l lu : list nat) (s s' : store) : Prop := {
  cl_encs : ∀ j, j ∉ l → encs s' !! j = encs s !! j;
  cl_enc_closed : ∀ j es, j ∈ l → encs s' !! j = Some es → es_closed es = true;
  cl_uncs : ∀ j, j ∉ lu → uncs s' !! j = uncs s !! j;
  cl_unc_closed : ∀ j us, j ∈ lu → uncs s' !! j = Some us → us_closed us = true;
  cl_heap : ∀ r, deref (hp s') r = deref (hp s) r ∨ deref (hp s') r = memclrFunc (deref (hp s) r);
  cl_rest : incoming s' = incoming s ∧ base_done s' = base_done s ∧ clock s' = clock s;
}.

Lemma memclr_twice b : memclrFunc (memclrFunc b) = memclrFunc b.
Proof. rewrite !memclr_zero. by rewrite length_replicate. Qed.

Lemma closing_refl s : closing [] [] s s.
Proof. split; set_solver. Qed.

Lemma closing_trans l1 lu1 l2 lu2 s1 s2 s3 :
  closing l1 lu1 s1 s2 → closing l2 lu2 s2 s3 → closing (l1 ++ l2) (lu1 ++ lu2) s1 s3.
Proof.
  intros [A1 A2 A3 A4 A5 A6] [B1 B2 B3 B4 B5 B6]. split.
  - intros j Hj. rewrite B1, A1 by set_solver. done.
  - intros j es Hj He. destruct (decide (j ∈ l2)) as [Hin|Hin]; [by eapply B2 |].
    rewrite B1 in He by done. apply (A2 j); [clear -Hj Hin; set_solver | done].
  - intros j Hj. rewrite B3, A3 by set_solver. done.
  - intros j us Hj He. destruct (decide (j ∈ lu2)) as [Hin|Hin]; [by eapply B4 |].
    rewrite B3 in He by done. apply (A4 j); [clear -Hj Hin; set_solver | done].
  - intros r. destruct (B5 r) as [-> | ->]; [apply A5 |]. right. destruct (A5 r) as [-> | ->]; [done |].
    apply memclr_twice.
  - destruct B6 as (-> & -> & ->). exact A6.
Qed.

Section Closing.
Context `{CryptoLib}.
Notation code := (prog (S := Manager) (P := proc) (Q := query) (R := answer)) (only parsing).
Notation stream_code := (prog (S := store) (P := loop) (Q := query) (R := answer)) (only parsing).

Lemma SecureZero_heap r q h :
  deref (SecureZero r h).2 q = deref h q ∨ deref (SecureZero r h).2 q = memclrFunc (deref h q).
Proof. rewrite deref_SecureZero. case_decide; [right | left]; by subst. Qed.

Lemma es_Close_closing (ans : ∀ q, answer q) i s :
  let o := run ans (es_Close i : stream_code _) s in spawned o = [] ∧ closing [i] [] s (final o).
Proof.
  cbv zeta. destruct (run ans (es_Close i) s) as [v sF sp cl] eqn:E. unfold es_Close in E. stream_unfold E.
  destruct (encs s !! i) as [es|] eqn:Hi; cbn in E.
  2: { injection E as <- <- <- <-. split; [done |]. split; try set_solver;
      intros j es Hj; apply list_elem_of_singleton in Hj as ->; by rewrite Hi. }
  destruct (es_closed es) eqn:Ho; cbn in E.
  { injection E as <- <- <- <-. split; [done |]. split; try set_solver;
      intros j es' Hj; apply list_elem_of_singleton in Hj as ->; rewrite Hi; by intros [= <-]. }
  destruct (Cipher_Close (es_cipher es) (hp s)) as [c h] eqn:Ec. cbn in E.
  assert (∀ r, deref h r = deref (hp s) r ∨ deref h r = memclrFunc (deref (hp s) r)) as Hh.
  { intros r. unfold Cipher_Close, mbind, ST_bind, mret, ST_ret in Ec.
    destruct (Crypto.closed _); [injection Ec as <- <-; by left |].
    destruct (key _) as [k|]; [| injection Ec as <- <-; by left].
    pose proof (SecureZero_heap k r (hp s)) as Hz. destruct (SecureZero k (hp s)); injection Ec as <- <-. exact Hz. }
  injection E as <- <- <- <-. split; [done |]. split; cbn; try done.
  - intros j Hj. by rewrite !lookup_alter_ne by set_solver.
  - intros j es' Hj. apply list_elem_of_singleton in Hj as ->. rewrite !lookup_alter_eq, Hi. by intros [= <-].
  - set_solver.
Qed.

Lemma us_Close_closing (ans : ∀ q, answer q) i s :
  let o := run ans (us_Close i : stream_code _) s in spawned o = [] ∧ closing [] [i] s (final o).
Proof.
  cbv zeta. destruct (run ans (us_Close i) s) as [v sF sp cl] eqn:E. unfold us_Close in E. stream_unfold E.
  destruct (uncs s !! i) as [us|] eqn:Hi; cbn in E.
  2: { injection E as <- <- <- <-. split; [done |]. split; try set_solver;
      intros j us Hj; apply list_elem_of_singleton in Hj as ->; by rewrite Hi. }
  destruct (us_closed us) eqn:Ho; cbn in E.
  { injection E as <- <- <- <-. split; [done |]. split; try set_solver;
      intros j us' Hj; apply list_elem_of_singleton in Hj as ->; rewrite Hi; by intros [= <-]. }
  injection E as <- <- <- <-. split; [done |]. split; cbn; try set_solver.
  - intros j Hj. by rewrite !lookup_alter_ne by set_solver.
  - intros j us' Hj. apply list_elem_of_singleton in Hj as ->. rewrite !lookup_alter_eq, Hi. by intros [= <-].
Qed.

(** A loop that closes: [f i] is what the [i]-th turn closes. *)
Lemma close_each_run (ans : ∀ q, answer q) (close : nat → stream_code (option error)) (f g : nat → list nat) l err m :
  (∀ i s, let o := run ans (close i) s in spawned o = [] ∧ closing (f i) (g i) s (final o)) →
  let o := run ans (close_each (λ i, lift (close i)) l err : code _) m in
  spawned o = [] ∧ ∃ s', final o = set_sto s' m ∧ closing (l ≫= f) (l ≫= g) (sto m) s'.
Proof.
  intros Hc. cbv zeta. revert err m. induction l as [|i l IH]; intros err m; cbn [close_each].
  - split; [done |]. exists (sto m). split; [by destruct m | apply closing_refl].
  - unfold mbind, prog_bind. rewrite run_bind. rewrite run_lift. cbn [value final spawned].
    destruct (Hc i (sto m)) as [H1 H2].
    match goal with |- context[close_each _ l ?e] => destruct (IH e (set_sto (final (run ans (close i) (sto m))) m))
      as (H3 & s' & H4 & H5) end.
    rewrite H1, H3. split; [done |]. exists s'. rewrite H4. split; [done |]. cbn [mbind list_bind].
    apply (closing_trans _ _ _ _ _ _ _ H2 H5).
Qed.

Lemma values_bind {A} (l : list A) : l ≫= (λ i, [i]) = l.
Proof. induction l as [|x l IH]; [done |]. cbn. by rewrite <- IH at 2. Qed.

Lemma values_nil {A B} (l : list A) : l ≫= (λ _, []) = ([] : list B).
Proof. by induction l. Qed.

(** The last section of [CloseStreams]. *)
Definition forget (p : string) : ST Manager unit :=
  _ ← st_modify (set_unencrypted (delete p)); _ ← st_modify (set_allowed (delete p)); zero_key p.

(** The three sections and the two loops of [CloseStreams]. *)
Lemma CloseStreams_parts (ans : ∀ q, answer q) p m :
  let o := run ans (CloseStreams p : code _) m in
  spawned o = []
  ∧ ∃ s2, closing (values (streams m) p) (values (unencryptedStreams m) p) (sto m) s2
          ∧ final o = (forget p (set_streams (delete p) (set_sto s2 m))).2.
Proof.
  cbv zeta. unfold CloseStreams. unfold mbind, prog_bind. cbn [atomic bind run st_gets].
  destruct (close_each_run ans es_Close (λ i, [i]) (λ _, []) (values (streams m) p) None m) as (H1 & s1 & H2 & H3).
  { intros i s. apply es_Close_closing. }
  rewrite values_bind, values_nil in H3.
  rewrite run_bind_final, run_bind_spawned, H1, H2. cbn [atomic bind run app].
  set (m1 := set_streams (delete p) (set_sto s1 m)).
  match goal with |- context[ST_bind ?T ?X ?Y ?f ?g (set_sto s1 m)] =>
    change (ST_bind T X Y f g (set_sto s1 m)) with (values (unencryptedStreams m) p, m1) end.
  match goal with |- context[close_each _ _ ?e] =>
    destruct (close_each_run ans us_Close (λ _, []) (λ i, [i]) (values (unencryptedStreams m) p) e m1) as (H4 & s2 & H5 & H6);
    [intros i s; apply us_Close_closing |] end.
  rewrite values_bind, values_nil in H6. rewrite run_bind_final, run_bind_spawned, H4, H5.
  change (set_sto s2 m1) with (set_streams (delete p) (set_sto s2 m)). cbn [bind run].
  match goal with |- context[ST_bind ?T ?X ?Y ?f ?g (set_streams (delete p) (set_sto s2 m))] =>
    change (ST_bind T X Y f g (set_streams (delete p) (set_sto s2 m)))
      with (forget p (set_streams (delete p) (set_sto s2 m))) end.
  split; [by destruct (forget p _) |]. exists s2. split; [| by destruct (forget p _)]. pose proof (closing_trans _ _ _ _ _ _ _ H3 H6) as Ht. by rewrite app_nil_r in Ht.
Qed.

Lemma CloseStreams_run (ans : ∀ q, answer q) p m :
  let m' := final (run ans (CloseStreams p : code _) m) in
  spawned (run ans (CloseStreams p : code _) m) = []
  ∧ streams m' = delete p (streams m) ∧ unencryptedStreams m' = delete p (unencryptedStreams m)
  ∧ allowedStreams m' = delete p (allowedStreams m) ∧ sharedKeys m' = delete p (sharedKeys m)
  ∧ closing (values (streams m) p) (values (unencryptedStreams m) p) (sto m) (sto m')
  ∧ ∀ k, sharedKeys m !! p = Some k → deref (Streams.hp (sto m')) k = memclrFunc (deref (Streams.hp (sto m)) k).
Proof.
  cbv zeta. destruct (CloseStreams_parts ans p m) as (H1 & s2 & H2 & H3). rewrite H3. split; [exact H1 |].
  unfold forget, zero_key, st_get, st_modify, on_store, on_heap, mbind, ST_bind, mret, ST_ret.
  cbn [sharedKeys set_allowed set_unencrypted set_streams set_sto].
  destruct (sharedKeys m !! p) as [k|] eqn:Hk; cbn.
  - pose proof (λ r, SecureZero_heap k r (Streams.hp s2)) as Hh.
    assert (deref (SecureZero k (Streams.hp s2)).2 k = memclrFunc (deref (Streams.hp (sto m)) k)) as Hz.
    { rewrite deref_SecureZero, decide_True by done.
      destruct (cl_heap _ _ _ _ H2 k) as [-> | ->]; [done | apply memclr_twice]. }
    destruct (SecureZero k (Streams.hp s2)) as [[] h]. cbn in *. split_and!; try done.
    + destruct H2 as [C1 C2 C3 C4 C5 C6]. split; try done. cbn. intros r.
      destruct (Hh r) as [-> | ->]; [apply C5 |].
      right. destruct (C5 r) as [-> | ->]; [done | apply memclr_twice].
    + by intros ? [= <-].
  - by split_and!.
Qed.
Lemma elem_of_all_values (mm : gmap string (gmap string nat)) p name i :
  entry mm p name = Some i → i ∈ all_values mm.
Proof.
  unfold entry. intros Hi. destruct (mm !! p) as [ps|] eqn:Hp; [| done]. cbn in Hi. unfold all_values.
  apply list_elem_of_bind. exists ps. split.
  - apply list_elem_of_fmap. exists (name, i). split; [done |]. by apply elem_of_map_to_list.
  - apply list_elem_of_fmap. exists (p, ps). split; [done |]. by apply elem_of_map_to_list.
Qed.

(** [Shutdown] by itself: every stream of the tables is closed, every shared
    key is zero, the tables are empty. *)
Lemma Shutdown_run (ans : ∀ q, answer q) m :
  let o := run ans (Shutdown : code _) m in
  spawned o = [] ∧ streams (final o) = ∅ ∧ unencryptedStreams (final o) = ∅ ∧ allowedStreams (final o) = ∅
  ∧ sharedKeys (final o) = ∅ ∧ crypto (final o) = crypto m ∧ base_done (sto (final o)) = true
  ∧ (∀ p k, sharedKeys m !! p = Some k → zeroed (deref (Streams.hp (sto (final o))) k))
  ∧ ∀ p name i es, entry (streams m) p name = Some i → encs (sto (final o)) !! i = Some es → es_closed es = true.
Proof.
  set (m0 := set_sto (set_base_done (sto m)) m). unfold Shutdown. rewrite run_seq, run_section. cbv zeta. cbn [value final spawned calls app].
  change ((on_store (st_modify set_base_done) m).2) with m0. rewrite run_seq, run_section. cbv zeta. cbn [value final spawned calls app].
  change ((st_gets (λ m, all_values (streams m)) m0).1) with (all_values (streams m)).
  change ((st_gets (λ m, all_values (streams m)) m0).2) with m0.
  destruct (close_each_run ans es_Close (λ i, [i]) (λ _, []) (all_values (streams m)) None m0) as (H1 & s1 & H2 & H3).
  { intros i s. apply es_Close_closing. }
  rewrite values_bind, values_nil in H3. rewrite run_seq. cbv zeta. rewrite H1, H2. rewrite run_seq, run_section. cbv zeta.
  cbn [value final spawned calls app]. unfold st_gets. cbn [fst snd].
  destruct (close_each_run ans us_Close (λ _, []) (λ i, [i]) (all_values (unencryptedStreams (set_sto s1 m0))) None (set_sto s1 m0))
    as (H4 & s2 & H5 & H6); [intros i s; apply us_Close_closing |].
  rewrite values_bind, values_nil in H6. rewrite run_seq. cbv zeta. rewrite H4, H5. rewrite run_section.
  cbn [value final spawned calls app].
  unfold st_get, st_modify, on_store, on_heap, mbind, ST_bind, mret, ST_ret. cbn.
  destruct (SecureZeroMultiple_deref (map_to_list (sharedKeys m)).*2 (Streams.hp s2)) as (_ & _ & Hz).
  destruct (SecureZeroMultiple _ (Streams.hp s2)) as [[] h] eqn:Eh. cbn in *.
  pose proof (closing_trans _ _ _ _ _ _ _ H3 H6) as [_ C2 _ _ _ (_ & C6 & _)].
  split_and!; try done.
  - intros p k Hk. destruct (Hz k) as [Hin _]. apply Hin. apply list_elem_of_fmap. exists (p, k). split; [done |].
    by apply elem_of_map_to_list.
  - intros p name i es Hi He. apply (C2 i es); [| done]. rewrite app_nil_r. by eapply elem_of_all_values.
Qed.
End Closing.

(** Closing the streams of a peer forgets the peer: all four tables lose it
    (and nothing else), its streams are closed and no others, the shared key's
    buffer is zeroed and every other buffer is as it was or zeroed; no
    goroutine is started.  Afterwards a send to the peer fails without opening
    or writing anything, and an incoming stream is refused. *)
Theorem CloseStreams_forgets `{CryptoLib} (ans ans' : ∀ q, answer q) p m :
  let m' := final (run ans (CloseStreams p) m) in
  spawned (run ans (CloseStreams p) m) = []
  ∧ streams m' = delete p (streams m) ∧ unencryptedStreams m' = delete p (unencryptedStreams m)
  ∧ allowedStreams m' = delete p (allowedStreams m) ∧ sharedKeys m' = delete p (sharedKeys m)
  ∧ closing (values (streams m) p) (values (unencryptedStreams m) p) (sto m) (sto m')
  ∧ (∀ k, sharedKeys m !! p = Some k → zeroed (deref (Streams.hp (sto m')) k))
  ∧ (∀ name data, name ≠ HandshakeStreamName →
       let o := run ans' (SendCtx p name data) m' in
       value o ≠ None ∧ final o = m' ∧ spawned o = [] ∧ Forall (eq QCtxErr) (calls o))
  ∧ ∀ name raw, value (run ans' (HandleIncomingStream p name raw) m') ≠ None.
Proof.
  destruct (CloseStreams_run ans p m) as (H1 & H2 & H3 & H4 & H5 & H6 & H7). cbv zeta in *.
  set (m' := final (run ans (CloseStreams p) m)) in *.
  assert (∀ name, refusing p name m') as Hr.
  { intros name. split; [| left; unfold allowed, entry; by rewrite H4, lookup_delete_eq].
    rewrite entry_None_find; [done |]. unfold entry. by rewrite H2, lookup_delete_eq. }
  split_and!; try done.
  - intros k Hk. rewrite (H7 k Hk). apply memclr_zeroed.
  - intros name data Hh. by apply refusing_send.
  - intros name raw. by destruct (refusing_incoming ans' p name raw m' (Hr name)) as (e & ->).
Qed.

(** ** A key forgotten too early *)

#[local] Arguments CloseStreams : simpl never.
#[local] Arguments encrypt_section : simpl never.
#[local] Arguments write_frame : simpl never.
#[local] Arguments replicate : simpl never.

Section Race.
Context `{CryptoLib} (env : Manager → Manager → Prop) (ans : ∀ q, answer q).
Notation world := (system (S := Manager) (P := proc) (Q := query) (R := answer)) (only parsing).
Notation steps := (rtc (Proc.step body api answers env)) (only parsing).

(** One more turn of goroutine [i]. *)
Lemma take_turn i (s : world) (G : world → Prop) :
  (∃ s', steps (turn body ans s i) s' ∧ G s') → ∃ s', steps s s' ∧ G s'.
Proof.
  intros (s' & Hr & Hg). exists s'. split; [| done]. etrans; [| exact Hr].
  by apply (turns_reachable body api answers env ans [i] s).
Qed.

(** Another goroutine has its turns up to the end of [g]. *)
Lemma take_run {A} sh gs i (g : prog A) k (G : world → Prop) :
  gs !! i = Some (bind k g) →
  (∃ s', steps {| shared := final (run ans g sh);
                  gos := <[i := k (value (run ans g sh))]> gs ++ (body <$> spawned (run ans g sh)) |} s' ∧ G s') →
  ∃ s', steps {| shared := sh; gos := gs |} s' ∧ G s'.
Proof.
  intros Hi (s' & Hr & Hg). exists s'. split; [| done]. etrans; [| exact Hr].
  apply (run_in_a_row body api answers env ans g k sh gs i); [by apply asks_any | exact Hi].
Qed.
End Race.

(** [openStreamLazilyCtx] keeps a reference to the shared key while it opens
    the stream without the lock.  When the peer's streams are closed meanwhile
    the key is zeroed in place, and the send goes on: its next call writes the
    data sealed under the all-zero key. *)
Theorem close_race_zero_key `{CryptoLib} env (ans : ∀ q, answer q) p name kb raw nonce data m :
  established m p name kb → entry (streams m) p name = None → name ≠ HandshakeStreamName →
  ans QCtxErr = None → ans QDeadline = None → ans (QNewStream p name) = Ok raw → ans QRand = Ok nonce →
  length nonce = NonceSize →
  ∃ s, rtc (Proc.step body api answers env) {| shared := m; gos := [body (PSend p name data); body (PCloseStreams p)] |} s
       ∧ ∃ k, gos s !! 0 = Some (Ask (QWrite raw (nonce ++ aead_Seal (replicate KeySize 0%Z) nonce data [])) k).
Proof.
  intros [(k & Hk & Hd) Hl Ha [Hb Hc]] He Hh Hctx Hdl Hq Hr Hn. apply String.eqb_neq in Hh.
  do 5 (apply (take_turn env ans 0); unfold turn; cbn; rewrite ?Hctx; cbn; rewrite ?Hh; cbn;
    rewrite ?(entry_None_find _ _ _ He); cbn).
  rewrite (open_enter_new _ _ _ _ He Ha Hk). cbn.
  eapply (take_run env ans _ _ 1 (CloseStreams p)); [reflexivity |].
  destruct (CloseStreams_run ans p m) as (R1 & R2 & _ & _ & _ & [_ _ _ _ _ (R3 & R4 & _)] & R5).
  rewrite R1. set (m1 := final (run ans (CloseStreams p) m)) in *. clearbody m1. cbn.
  specialize (R5 k Hk). rewrite Hd, memclr_zero, Hl in R5. rewrite <- R4 in Hb. rewrite <- R3 in Hc.
  assert (entry (streams m1) p name = None) as He1 by (unfold entry; by rewrite R2, lookup_delete_eq).
  destruct (new_encrypted_runs name p raw k (config_of m) (sto m1)) as (es & s' & Hnew & [Hi Ho _ Hkey Hci _] & _ & _ & Hes & _);
    [by rewrite R5, length_replicate | done.. |]. rewrite R5 in Hkey.
  apply (take_turn env ans 0); unfold turn; cbn. rewrite Hq. cbn.
  apply (take_turn env ans 0); unfold turn; cbn. rewrite Hnew. cbn.
  apply (take_turn env ans 0); unfold turn; cbn.
  apply (take_turn env ans 0); unfold turn; cbn. rewrite open_store_new by done. cbn.
  assert (encrypt_section (next_obj (sto m1)) None (Ok nonce) data s'
             = (Ok (nonce ++ aead_Seal (replicate KeySize 0%Z) nonce data []), s')) as Hes1.
  { unfold encrypt_section, st_get, mbind, ST_bind, mret, ST_ret. rewrite Hi, Ho.
    unfold Cipher_Encrypt, encryptWithNonceLocked. by rewrite Hci, Hn, Hkey. }
  do 3 (apply (take_turn env ans 0); unfold turn; cbn; rewrite ?Hctx, ?Hr; cbn).
  apply (take_turn env ans 0); unfold turn; cbn. rewrite Hes1. cbn.
  apply (take_turn env ans 0); unfold turn; cbn. unfold enc_gets, st_gets. rewrite Hi, Hes. cbn.
  unfold write_frame, ask, mbind, prog_bind; cbn.
  do 2 (apply (take_turn env ans 0); unfold turn; cbn; rewrite ?Hctx, ?Hdl; cbn).
  eexists. split; [apply rtc_refl |]. cbn. by eexists.
Qed.

(** ** Witnesses: the nodes of [SecureChannel] *)

Module SafetyWitness.
Import ChannelWitness.
#[local] Existing Instance Toy.toy.
#[local] Existing Instance Toy.toy_laws.


Lemma unestablished_refused_witness :
  value (run (calm NextEOF) (SendCtx "QmB" "chat" hi) (manager_of 9)) ≠ None
  ∧ value (run (calm NextEOF) (HandleIncomingStream "QmB" "chat" 5) (manager_of 9)) ≠ None.
Proof.
  destruct (unestablished_refused (calm NextEOF) "QmB" "chat" hi 5 (manager_of 9) ltac:(discriminate)
    ltac:(intros i es [=]) (or_introl eq_refl)) as [[H1 _] [H2 _]].
  by split.
Defined.

Lemma CloseStreams_forgets_witness :
  ∃ k, sharedKeys node_a !! "QmB" = Some k
       ∧ zeroed (deref (Streams.hp (sto (final (run (calm NextEOF) (CloseStreams "QmB") node_a)))) k).
Proof.
  destruct (CloseStreams_forgets (calm NextEOF) (calm NextEOF) "QmB" node_a) as (_ & _ & _ & _ & _ & _ & H & _).
  destruct (sharedKeys node_a !! "QmB") as [k|] eqn:E; [| by vm_compute in E]. exists k. split; [done | by apply H].
Defined.

Lemma node_a_established : ∃ kb, established node_a "QmB" "chat" kb.
Proof.
  eexists. split; [eexists; split; [vm_compute; reflexivity | reflexivity] | | | ].
  - vm_compute. reflexivity.
  - vm_compute. reflexivity.
  - split; vm_compute; reflexivity.
Qed.

Lemma close_race_zero_key_witness :
  ∃ s, rtc (Proc.step body api answers (λ _ _, False))
         {| shared := node_a; gos := [body (PSend "QmB" "chat" hi); body (PCloseStreams "QmB")] |} s
       ∧ ∃ k, gos s !! 0 = Some (Ask (QWrite 5 (StreamWitness.nonce12
                ++ aead_Seal (replicate KeySize 0%Z) StreamWitness.nonce12 hi [])) k).
Proof.
  destruct node_a_established as [kb He].
  exact (close_race_zero_key (λ _ _, False) (calm NextEOF) "QmB" "chat" kb 5 StreamWitness.nonce12 hi node_a He
    ltac:(vm_compute; reflexivity) ltac:(discriminate) eq_refl eq_refl eq_refl eq_refl eq_refl).
Defined.
End SafetyWitness.
