(* ===== verification/StreamInvariant.v ===== *)
(** * The streams in every interleaving

    What always holds of the stream manager's tables, its stream objects and
    the messages it delivers, whatever its goroutines, its users and the
    network do in between. *)

From S2P Require Import Prelude Errors Heap Dispatcher Proc RelyGuarantee Crypto CryptoModule Streams StreamBehaviour StreamManager SecureChannel.

(** ** The stream objects *)

(** Where a message came from: an encrypted stream of its peer and name, or an
    unencrypted stream of its peer, which is a handshake stream. *)
Definition provenance (s : store) (msg : IncomingMessage) : Prop :=
  (∃ i es, encs s !! i = Some es ∧ es_peerID es = im_PeerID msg ∧ es_name es = im_StreamName msg)
  ∨ (im_StreamName msg = HandshakeStreamName ∧ ∃ i us, uncs s !! i = Some us ∧ us_peerID us = im_PeerID msg).

Record store_ok (s : store) : Prop := {
  ok_fresh : ∀ i, next_obj s ≤ i → encs s !! i = None ∧ uncs s !! i = None;
  ok_names : ∀ i us, uncs s !! i = Some us → us_name us = HandshakeStreamName;
  ok_msgs : Forall (provenance s) (Chan.buf (incoming s));
}.

(** Objects stay, with their name, their peer and their stream. *)
Definition same_enc (es es' : EncryptedStream) : Prop :=
  es_name es' = es_name es ∧ es_peerID es' = es_peerID es ∧ es_stream es' = es_stream es.
Definition same_unc (us us' : UnencryptedStream) : Prop :=
  us_name us' = us_name us ∧ us_peerID us' = us_peerID us ∧ us_stream us' = us_stream us.

Record grows (s s' : store) : Prop := {
  gr_encs : ∀ i es, encs s !! i = Some es → ∃ es', encs s' !! i = Some es' ∧ same_enc es es';
  gr_uncs : ∀ i us, uncs s !! i = Some us → ∃ us', uncs s' !! i = Some us' ∧ same_unc us us';
}.

#[export] Instance grows_preorder : PreOrder grows.
Proof.
  split.
  - intros s. split; intros i x Hx; exists x; (split; [done | by split_and!]).
  - intros s1 s2 s3 [A1 A2] [B1 B2]. split.
    + intros i es Hi. destruct (A1 i es Hi) as (es2 & H2 & (?&?&?)). destruct (B1 i es2 H2) as (es3 & H3 & (?&?&?)).
      exists es3. split; [done |]. split_and!; congruence.
    + intros i us Hi. destruct (A2 i us Hi) as (us2 & H2 & (?&?&?)). destruct (B2 i us2 H2) as (us3 & H3 & (?&?&?)).
      exists us3. split; [done |]. split_and!; congruence.
Qed.

Lemma provenance_grows s s' msg : grows s s' → provenance s msg → provenance s' msg.
Proof.
  intros [G1 G2] [(i & es & Hi & Hp & Hn)|(Hh & i & us & Hi & Hp)].
  - left. destruct (G1 i es Hi) as (es' & Hi' & (?&?&?)). exists i, es'. split_and!; congruence.
  - right. split; [done |]. destruct (G2 i us Hi) as (us' & Hi' & (?&?&?)). exists i, us'. split_and!; congruence.
Qed.

(** What a loop needs: its object. *)
Definition loop_start (l : loop) (s : store) : Prop :=
  match l with LEncrypted i => is_Some (encs s !! i) | LUnencrypted i => is_Some (uncs s !! i) end.

Lemma loop_start_fact l : fact grows (loop_start l).
Proof.
  intros s s' [G1 G2] Hs. destruct l as [i|i]; destruct Hs as [x Hx].
  - destruct (G1 i x Hx) as (y & Hy & _). by eexists.
  - destruct (G2 i x Hx) as (y & Hy & _). by eexists.
Qed.

Notation tidy := (keeps store_ok grows).

(** A section that leaves the objects and the channel alone. *)
Definition untouched (s s' : store) : Prop :=
  encs s' = encs s ∧ uncs s' = uncs s ∧ next_obj s' = next_obj s ∧ incoming s' = incoming s.

Lemma untouched_tidy s s' : untouched s s' → tidy s s'.
Proof.
  intros (He & Hu & Hn & Hc) [O1 O2 O3].
  assert (grows s s') as G by (split; rewrite ?He, ?Hu; eauto using (conj eq_refl (conj eq_refl eq_refl)); intros i x Hx;
    exists x; (split; [done |]); by split_and!).
  split; [| exact G]. split; rewrite ?He, ?Hu, ?Hn, ?Hc; try done.
  eapply Forall_impl; [exact O3 |]. intros msg. by apply provenance_grows.
Qed.

Lemma tidy_trans s1 s2 s3 : tidy s1 s2 → tidy s2 s3 → tidy s1 s3.
Proof. intros H1 H2 Ho. destruct (H1 Ho) as [Ho2 G1]. destruct (H2 Ho2) as [Ho3 G2]. split; [done | by trans s2]. Qed.

Lemma enc_upd_tidy i f s : (∀ es, same_enc es (f es)) → tidy s (enc_upd i f s).2.
Proof.
  intros Hf [O1 O2 O3]. cbn.
  assert (grows s (set_encs (alter f i) s)) as G.
  { split; cbn; [| by eauto using (conj eq_refl (conj eq_refl eq_refl)); intros j x Hx; exists x; split; [done | by split_and!]].
    intros j es Hj. destruct (decide (j = i)) as [->|Hne].
    - rewrite lookup_alter_eq, Hj. eexists. split; [done | apply Hf].
    - rewrite lookup_alter_ne by done. exists es. split; [done | by split_and!]. }
  split; [| exact G]. split; cbn; try done.
  - intros j Hj. destruct (O1 j Hj) as [H1 H2]. split; [| done].
    destruct (decide (j = i)) as [->|Hne]; [by rewrite lookup_alter_eq, H1 | by rewrite lookup_alter_ne].
  - eapply Forall_impl; [exact O3 |]. intros msg. by apply provenance_grows.
Qed.

Lemma unc_upd_tidy i f s : (∀ us, same_unc us (f us)) → tidy s (unc_upd i f s).2.
Proof.
  intros Hf [O1 O2 O3]. cbn.
  assert (grows s (set_uncs (alter f i) s)) as G.
  { split; cbn; [intros j x Hx; exists x; split; [done | by split_and!] |].
    intros j us Hj. destruct (decide (j = i)) as [->|Hne].
    - rewrite lookup_alter_eq, Hj. eexists. split; [done | apply Hf].
    - rewrite lookup_alter_ne by done. exists us. split; [done | by split_and!]. }
  split; [| exact G]. split; cbn; try done.
  - intros j Hj. destruct (O1 j Hj) as [H1 H2]. split; [done |].
    destruct (decide (j = i)) as [->|Hne]; [by rewrite lookup_alter_eq, H2 | by rewrite lookup_alter_ne].
  - intros j us. destruct (decide (j = i)) as [->|Hne]; [| rewrite lookup_alter_ne by done; apply O2].
    rewrite lookup_alter_eq. destruct (uncs s !! i) as [us0|] eqn:E; [| done]. intros [= <-].
    destruct (Hf us0) as (-> & _). by eapply O2.
  - eapply Forall_impl; [exact O3 |]. intros msg. by apply provenance_grows.
Qed.

(** A message of an existing object is delivered. *)
Lemma deliver_tidy s msg n b c :
  provenance s msg → Chan.try_send msg (incoming s) = Some (b, c) → n = set_incoming c s → tidy s n.
Proof.
  intros Hp Hc -> [O1 O2 O3].
  assert (grows s (set_incoming c s)) as G
    by (split; cbn; intros i x Hx; exists x; (split; [done |]); by split_and!).
  split; [| exact G]. split; cbn; try done.
  unfold Chan.try_send in Hc. destruct (Chan.is_closed _); [done |].
  assert (Forall (provenance s) (Chan.buf c)) as Hall.
  { case_decide; injection Hc as <- <-; cbn; [| done]. apply Forall_app. by split; [| constructor]. }
  eapply Forall_impl; [exact Hall |]. intros m. by apply provenance_grows.
Qed.

(** ** The streams' code *)

Section Streams.
Context `{CryptoLib}.
Notation code := (prog (S := store) (P := loop) (Q := query) (R := answer)) (only parsing).

Lemma on_heap_tidy {X} (f : ST heap X) s : tidy s (on_heap f s).2.
Proof. unfold on_heap. destruct (f (hp s)). by apply untouched_tidy. Qed.

Lemma oversized_tidy i r s : tidy s (oversized i r s).2.
Proof.
  unfold oversized, st_get, st_modify, mbind, ST_bind, mret, ST_ret. destruct (encs s !! i); [| by apply untouched_tidy].
  destruct (_ && _); [| by apply untouched_tidy]. unfold on_heap; cbn. by apply untouched_tidy.
Qed.

Lemma decrypt_tidy i r s : tidy s (decrypt_section i r s).2.
Proof.
  unfold decrypt_section, st_get, mbind, ST_bind, mret, ST_ret. destruct (encs s !! i); [| by apply untouched_tidy].
  destruct (Cipher_Decrypt _ _ _); [by apply untouched_tidy |]. unfold on_heap; cbn. by apply untouched_tidy.
Qed.

Lemma report_tidy i e s : tidy s (report_decryption i e s).2.
Proof. by apply untouched_tidy. Qed.

Lemma encrypt_tidy i c r d s : tidy s (encrypt_section i c r d s).2.
Proof.
  unfold encrypt_section, st_get, mbind, ST_bind, mret, ST_ret. destruct (encs s !! i) as [es|]; [| by apply untouched_tidy].
  destruct (es_closed es); [by apply untouched_tidy |]. destruct c; [by apply untouched_tidy |].
  destruct (Cipher_Encrypt _ _ _ _); by apply untouched_tidy.
Qed.

Lemma es_markClosed_tidy i e s : tidy s (es_markClosed i e s).2.
Proof. apply enc_upd_tidy. intros es. destruct (es_closed es); by split_and!. Qed.

Lemma us_markClosed_tidy i e s : tidy s (us_markClosed i e s).2.
Proof. apply unc_upd_tidy. intros us. destruct (us_closed us); by split_and!. Qed.

Lemma es_deliver_tidy i r pick s : tidy s (es_deliver i r pick s).2.
Proof.
  unfold es_deliver, st_get, st_modify, mbind, ST_bind, mret, ST_ret.
  destruct (encs s !! i) as [es|] eqn:Hi; [| by apply untouched_tidy].
  set (msg := {| im_PeerID := es_peerID es; im_StreamName := es_name es; im_Data := r; im_Timestamp := clock s |}).
  assert (provenance s msg) as Hp by (left; by exists i, es).
  destruct (Chan.try_send msg (incoming s)) as [[[] c]|] eqn:Hc.
  - destruct (negb _ || pick); [by eapply deliver_tidy |]. unfold on_heap; cbn. by apply untouched_tidy.
  - unfold on_heap; cbn. destruct (_ || _); by apply untouched_tidy.
  - unfold on_heap; cbn. destruct (_ || _); by apply untouched_tidy.
Qed.

Lemma us_deliver_tidy i r pick s : tidy s (us_deliver i r pick s).2.
Proof.
  unfold us_deliver, st_get, st_modify, mbind, ST_bind, mret, ST_ret.
  destruct (uncs s !! i) as [us|] eqn:Hi; [| by apply untouched_tidy].
  set (msg := {| im_PeerID := us_peerID us; im_StreamName := us_name us; im_Data := r; im_Timestamp := clock s |}).
  destruct (Chan.try_send msg (incoming s)) as [[[] c]|] eqn:Hc.
  - destruct (negb _ || pick); [| by apply untouched_tidy]. intros Ho. eapply (deliver_tidy s msg); [| exact Hc | done | done].
    right. split; [by eapply ok_names | by exists i, us].
  - destruct (_ || _); by apply untouched_tidy.
  - destruct (_ || _); by apply untouched_tidy.
Qed.

Lemma es_close_begin_tidy i s : tidy s (es_close_begin i s).2.
Proof.
  unfold es_close_begin, st_get, mbind, ST_bind, mret, ST_ret. destruct (encs s !! i) as [es|]; [| by apply untouched_tidy].
  destruct (es_closed es); [by apply untouched_tidy |].
  destruct (on_heap (Cipher_Close (es_cipher es)) s) as [c s1] eqn:E.
  eapply tidy_trans; [| by apply enc_upd_tidy]. apply (f_equal snd) in E; cbn in E. rewrite <- E. apply on_heap_tidy.
Qed.

Lemma us_close_begin_tidy i s : tidy s (us_close_begin i s).2.
Proof.
  unfold us_close_begin, st_get, mbind, ST_bind, mret, ST_ret. destruct (uncs s !! i) as [us|]; [| by apply untouched_tidy].
  destruct (us_closed us); [by apply untouched_tidy |]. by apply unc_upd_tidy.
Qed.

Lemma gets_tidy {X} (f : store → X) s : tidy s (st_gets f s).2.
Proof. by apply untouched_tidy. Qed.

#[local] Hint Resolve on_heap_tidy oversized_tidy decrypt_tidy report_tidy encrypt_tidy es_markClosed_tidy us_markClosed_tidy
  es_deliver_tidy us_deliver_tidy es_close_begin_tidy us_close_begin_tidy gets_tidy : tidy.
#[local] Hint Extern 3 (tidy _ (enc_gets _ _ _).2) => apply gets_tidy : tidy.
#[local] Hint Extern 3 (tidy _ (unc_gets _ _ _).2) => apply gets_tidy : tidy.
#[local] Hint Extern 3 (tidy _ (enc_done _ _).2) => apply gets_tidy : tidy.
#[local] Hint Extern 3 (tidy _ (unc_done _ _).2) => apply gets_tidy : tidy.
#[local] Hint Extern 3 (tidy _ (enc_upd _ _ _).2) => apply enc_upd_tidy; intros []; by split_and! : tidy.
#[local] Hint Extern 3 (tidy _ (unc_upd _ _ _).2) => apply unc_upd_tidy; intros []; by split_and! : tidy.

(** The structure of a piece of code, for [respects] and [starts]. *)
Ltac by_structure :=
  repeat first
    [ exact I
    | match goal with
      | |- respects _ (mbind _ _) => apply respects_bind; [| intros ?]
      | |- starts _ (mbind _ _) => apply starts_bind; [| intros ?]
      | |- respects _ (atomic _) => split; [intros ?; solve [auto with tidy] | intros ?; exact I]
      | |- starts _ (atomic _) => intros ?; exact I
      | |- respects _ (ask _) => intros ?; exact I
      | |- starts _ (ask _) => intros ?; exact I
      | |- respects _ (go _) => exact I
      | |- starts _ (go _) => split; [solve [auto] | exact I]
      | |- respects _ (match ?x with _ => _ end) => destruct x
      | |- starts _ (match ?x with _ => _ end) => destruct x
      end ].

Lemma write_frame_quiet st f : respects tidy (write_frame st f : code _) ∧ starts (λ _, False) (write_frame st f : code _).
Proof. unfold write_frame. split; by_structure. Qed.

Lemma es_SendCtx_quiet i d : respects tidy (es_SendCtx i d : code _) ∧ starts (λ _, False) (es_SendCtx i d : code _).
Proof. unfold es_SendCtx. split; by_structure; apply write_frame_quiet. Qed.

Lemma us_SendCtx_quiet i d : respects tidy (us_SendCtx i d : code _) ∧ starts (λ _, False) (us_SendCtx i d : code _).
Proof. unfold us_SendCtx. split; by_structure; apply write_frame_quiet. Qed.

Lemma es_Close_quiet i : respects tidy (es_Close i : code _) ∧ starts (λ _, False) (es_Close i : code _).
Proof. unfold es_Close. split; by_structure. Qed.

Lemma us_Close_quiet i : respects tidy (us_Close i : code _) ∧ starts (λ _, False) (us_Close i : code _).
Proof. unfold us_Close. split; by_structure. Qed.

Lemma loop_quiet l : respects tidy (loop_body l : code _) ∧ starts (eq l) (loop_body l : code _).
Proof. destruct l; cbn [loop_body]; unfold es_readLoop, us_readLoop; split; by_structure. Qed.
End Streams.

(** ** The manager *)

Record tables_ok (m : Manager) : Prop := {
  tb_store : store_ok (sto m);
  tb_enc : ∀ p n i, entry (streams m) p n = Some i →
             ∃ es, encs (sto m) !! i = Some es ∧ es_name es = n ∧ es_peerID es = p;
  tb_unc : ∀ p n i, entry (unencryptedStreams m) p n = Some i →
             ∃ us, uncs (sto m) !! i = Some us ∧ us_name us = n ∧ us_peerID us = p;
}.

Definition mgrows (m m' : Manager) : Prop := grows (sto m) (sto m').

#[export] Instance mgrows_preorder : PreOrder mgrows.
Proof. split; [by intros m; red | intros m1 m2 m3 H1 H2; red; by trans (sto m2)]. Qed.

Definition may_start (q : proc) (m : Manager) : Prop :=
  match q with PLoop l => loop_start l (sto m) | _ => True end.

Lemma starting_fact q : fact mgrows (may_start q).
Proof. intros m m' Hg. destruct q; cbn; try done. by apply loop_start_fact. Qed.

Notation mtidy := (keeps tables_ok mgrows).

(** Objects that the tables name are there. *)
Definition has_enc (p n : string) (i : nat) (m : Manager) : Prop :=
  ∃ es, encs (sto m) !! i = Some es ∧ es_name es = n ∧ es_peerID es = p.
Definition has_unc (p n : string) (i : nat) (m : Manager) : Prop :=
  ∃ us, uncs (sto m) !! i = Some us ∧ us_name us = n ∧ us_peerID us = p.

Lemma has_enc_fact p n i : fact mgrows (has_enc p n i).
Proof.
  intros m m' [G1 _] (es & Hi & Hn & Hp). destruct (G1 i es Hi) as (es' & Hi' & (?&?&?)).
  exists es'. split_and!; congruence.
Qed.
Lemma has_unc_fact p n i : fact mgrows (has_unc p n i).
Proof.
  intros m m' [_ G2] (us & Hi & Hn & Hp). destruct (G2 i us Hi) as (us' & Hi' & (?&?&?)).
  exists us'. split_and!; congruence.
Qed.

(** The store changes, the tables lose entries at most. *)
Lemma shrink_mtidy m m' :
  (store_ok (sto m) → store_ok (sto m') ∧ grows (sto m) (sto m')) →
  (∀ p n i, entry (streams m') p n = Some i → entry (streams m) p n = Some i) →
  (∀ p n i, entry (unencryptedStreams m') p n = Some i → entry (unencryptedStreams m) p n = Some i) → mtidy m m'.
Proof.
  intros Ht He Hu [O1 O2 O3]. destruct (Ht O1) as [O1' G]. split; [| exact G]. split; [done | |].
  - intros p n i Hi. apply (has_enc_fact p n i m m' G). by apply O2, He.
  - intros p n i Hi. apply (has_unc_fact p n i m m' G). by apply O3, Hu.
Qed.

Lemma store_mtidy m s : tidy (sto m) s → mtidy m (set_sto s m).
Proof. intros Ht. by apply shrink_mtidy. Qed.

Lemma mtidy_trans m1 m2 m3 : mtidy m1 m2 → mtidy m2 m3 → mtidy m1 m3.
Proof. intros H1 H2 Ho. destruct (H1 Ho) as [Ho2 G1]. destruct (H2 Ho2) as [Ho3 G2]. split; [done | by trans m2]. Qed.

Lemma entry_delete {A} p q n (mm : gmap string (gmap string A)) i :
  entry (delete p mm) q n = Some i → entry mm q n = Some i.
Proof. unfold entry. rewrite lookup_delete. by case_decide. Qed.

Lemma filed_ensure {A} p q n (mm : gmap string (gmap string A)) : entry (ensure p mm) q n = entry mm q n.
Proof.
  unfold entry, ensure. destruct (mm !! p) eqn:E; [done |].
  rewrite lookup_insert. case_decide; subst; [| done]. by rewrite E.
Qed.

Lemma filed_put {A} p q n n' (x : A) mm i :
  entry (put p n x mm) q n' = Some i → (q = p ∧ n' = n ∧ i = x) ∨ entry mm q n' = Some i.
Proof.
  unfold entry, put. destruct (decide (q = p)) as [->|Hne]; [| rewrite lookup_alter_ne by done; by right].
  rewrite lookup_alter_eq. destruct (mm !! p) as [ps|]; [| done]. cbn. rewrite lookup_insert.
  case_decide; subst; [intros [= ->]; by left | by right].
Qed.

Lemma put_enc_mtidy p n i m :
  has_enc p n i m → mtidy m (set_streams (put p n i) m).
Proof.
  intros Hh [O1 O2 O3]. split; [| by red]. split; [done | | done].
  intros q n' j Hj. cbn in Hj. destruct (filed_put _ _ _ _ _ _ _ Hj) as [(-> & -> & ->)|Hj']; [done | by apply O2].
Qed.

Lemma put_unc_mtidy p n i m :
  has_unc p n i m → mtidy m (set_unencrypted (put p n i) m).
Proof.
  intros Hh [O1 O2 O3]. split; [| by red]. split; [done | done |].
  intros q n' j Hj. cbn in Hj. destruct (filed_put _ _ _ _ _ _ _ Hj) as [(-> & -> & ->)|Hj']; [done | by apply O3].
Qed.

Section Manager.
Context `{CryptoLib}.
Notation code := (prog (S := Manager) (P := proc) (Q := query) (R := answer)) (only parsing).
Notation mholds := (holds answers tables_ok mgrows may_start) (only parsing).

(** *** Sections *)

Lemma same_mtidy m m' :
  untouched (sto m) (sto m') → streams m' = streams m → unencryptedStreams m' = unencryptedStreams m → mtidy m m'.
Proof. intros Hu Hs Hn. apply shrink_mtidy; [by apply untouched_tidy | by rewrite Hs | by rewrite Hn]. Qed.

Lemma mgets_mtidy {X} (f : Manager → X) m : mtidy m (st_gets f m).2.
Proof. by apply same_mtidy. Qed.

Lemma on_module_mtidy {X} (f : ST state X) m : mtidy m (on_module f m).2.
Proof. unfold on_module. destruct (f _). by apply same_mtidy. Qed.

Lemma on_store_mtidy {X} (f : ST store X) m : tidy (sto m) (f (sto m)).2 → mtidy m (on_store f m).2.
Proof. intros Hf. unfold on_store. destruct (f (sto m)) as [x s]. by apply store_mtidy. Qed.

Lemma open_enter_same ctx p n m : (open_enter ctx p n m).2 = m.
Proof.
  unfold open_enter, mbind, ST_bind, mret, ST_ret, st_get. cbn [find_encrypted st_gets].
  destruct (entry (streams m) p n ≫= _) as [[i []]|]; cbn; try done;
    destruct (allowed m p n); cbn; try done; destruct (sharedKeys m !! p); cbn; try done; by destruct ctx.
Qed.

Lemma open_enter_mtidy ctx p n m : mtidy m (open_enter ctx p n m).2.
Proof. rewrite open_enter_same. by apply same_mtidy. Qed.

Lemma open_unencrypted_enter_mtidy ctx p n m : mtidy m (open_unencrypted_enter ctx p n m).2.
Proof.
  unfold open_unencrypted_enter, mbind, ST_bind, mret, ST_ret, st_get. cbn [find_unencrypted st_gets].
  destruct (entry _ p n ≫= _) as [[i []]|]; try (by apply same_mtidy); destruct ctx; by apply same_mtidy.
Qed.

Lemma open_store_mtidy p n i m : has_enc p n i m → mtidy m (open_store p n i m).2.
Proof.
  intros Hh. unfold open_store, st_modify, mbind, ST_bind, mret, ST_ret. cbn [find_encrypted st_gets].
  assert (mtidy m (set_streams (put p n i) (set_streams (ensure p) m))) as Hp.
  { eapply mtidy_trans; [| by apply put_enc_mtidy].
    apply shrink_mtidy; [by intros ?; split | intros q n' j; cbn; by rewrite filed_ensure | done]. }
  by destruct (entry _ p n ≫= _) as [[j []]|]; try (by apply same_mtidy).
Qed.

Lemma open_unencrypted_store_mtidy p n i m : has_unc p n i m → mtidy m (open_unencrypted_store p n i m).2.
Proof.
  intros Hh. unfold open_unencrypted_store, st_modify, mbind, ST_bind, mret, ST_ret. cbn [find_unencrypted st_gets].
  assert (mtidy m (set_unencrypted (put p n i) (set_unencrypted (ensure p) m))) as Hp.
  { eapply mtidy_trans; [| by apply put_unc_mtidy].
    apply shrink_mtidy; [by intros ?; split | done | intros q n' j; cbn; by rewrite filed_ensure]. }
  by destruct (entry _ p n ≫= _) as [[j []]|]; try (by apply same_mtidy).
Qed.

(** New objects. *)
Lemma new_encrypted_tidy n p raw k cfg s :
  let r := new_encrypted n p raw k cfg s in
  tidy s r.2 ∧ ∀ i, r.1 = Ok i → ∃ es, encs r.2 !! i = Some es ∧ es_name es = n ∧ es_peerID es = p.
Proof.
  unfold new_encrypted, on_heap, read, mbind, ST_bind, mret, ST_ret, st_gets, st_modify. cbn.
  destruct (NewCipher _ _) as [[e|c] h]; cbn; [split; [by apply untouched_tidy | done] |].
  split.
  - intros [O1 O2 O3].
    match goal with |- store_ok ?x ∧ _ => assert (grows s x) as G end.
    { split; cbn; [| intros j us Hj; exists us; split; [done | by split_and!]].
      intros j es Hj. rewrite lookup_insert_ne; [exists es; split; [done | by split_and!] |].
      intros <-. destruct (O1 (next_obj s) (Nat.le_refl _)). congruence. }
    split; [| exact G]. split; cbn; try done.
    + intros j Hj. rewrite lookup_insert_ne by lia. apply O1. lia.
    + eapply Forall_impl; [exact O3 |]. intros msg. by apply provenance_grows.
  - intros i [= <-]. rewrite lookup_insert_eq. eexists. by split_and!.
Qed.

Lemma new_unencrypted_tidy p raw s :
  let r := new_unencrypted HandshakeStreamName p raw s in
  tidy s r.2 ∧ ∃ us, uncs r.2 !! r.1 = Some us ∧ us_name us = HandshakeStreamName ∧ us_peerID us = p.
Proof.
  unfold new_unencrypted, mbind, ST_bind, mret, ST_ret, st_gets, st_modify. cbn. split.
  - intros [O1 O2 O3].
    match goal with |- store_ok ?x ∧ _ => assert (grows s x) as G end.
    { split; cbn; [intros j es Hj; exists es; split; [done | by split_and!] |].
      intros j us Hj. rewrite lookup_insert_ne; [exists us; split; [done | by split_and!] |].
      intros <-. destruct (O1 (next_obj s) (Nat.le_refl _)). congruence. }
    split; [| exact G]. split; cbn; try done.
    + intros j Hj. rewrite lookup_insert_ne by lia. apply O1. lia.
    + intros j us. rewrite lookup_insert. case_decide; [by intros [= <-] | by apply O2].
    + eapply Forall_impl; [exact O3 |]. intros msg. by apply provenance_grows.
  - rewrite lookup_insert_eq. eexists. by split_and!.
Qed.

(** *** Code of the streams, in the manager *)

Lemma lift_quiet {X} (c : prog (S := store) (P := loop) (Q := query) (R := answer) X) :
  respects tidy c ∧ starts (λ _, False) c → respects mtidy (lift c) ∧ starts (λ _, False) (lift c).
Proof.
  intros [H1 H2]. split.
  - eapply respects_embed; [| exact H1]. intros m s Ht. by apply store_mtidy.
  - eapply starts_embed; [| exact H2]. done.
Qed.

Lemma quiet_starts {X} (c : code X) ok : starts (λ _, False) c → starts ok c.
Proof. by apply starts_weaken. Qed.

Lemma NewEncryptedStream_holds n p raw k cfg m :
  mholds (lift (NewEncryptedStream n p raw k cfg) : code _) (λ r m', ∀ i, r = Ok i → has_enc p n i m') m.
Proof.
  cbn. intros m1 _ Ho. destruct (new_encrypted_tidy n p raw k cfg (sto m1)) as [H1 H2].
  destruct (new_encrypted n p raw k cfg (sto m1)) as [r s]; cbn in *.
  destruct (store_mtidy m1 s H1 Ho) as [H3 H4]. split; [done |]. split; [done |].
  destruct r as [e|i]; cbn; [done |]. destruct (H2 i eq_refl) as (es & Hi & Hn & Hp).
  split; [by eexists |]. intros j [= <-]. by exists es.
Qed.

Lemma NewUnencryptedStream_holds p raw m :
  mholds (lift (NewUnencryptedStream HandshakeStreamName p raw) : code _) (λ i m', has_unc p HandshakeStreamName i m') m.
Proof.
  cbn. intros m1 _ Ho. destruct (new_unencrypted_tidy p raw (sto m1)) as [H1 H2].
  destruct (new_unencrypted HandshakeStreamName p raw (sto m1)) as [i s]; cbn in *.
  destruct (store_mtidy m1 s H1 Ho) as [H3 H4]. split; [done |]. split; [done |].
  destruct H2 as (us & Hi & Hn & Hp). split; [by eexists |]. by exists us.
Qed.

(** A section that keeps the tables, in code that goes on. *)
Lemma holds_section {X} (f : ST Manager X) (k : X → code unit) m post :
  (∀ m, mtidy m (f m).2) → (∀ x m', mgrows m m' → mholds (k x) post m') → mholds (bind k (atomic f)) post m.
Proof.
  intros Hf Hk. cbn. intros m1 H1 H2. destruct (Hf m1 H2) as [H3 H4]. split; [done |]. split; [done |].
  apply Hk. by trans m1.
Qed.

Lemma quiet_holds {X} (c : code X) m : respects mtidy c ∧ starts (λ _, False) c → mholds c (λ _ _, True) m.
Proof.
  intros [H1 H2]. eapply holds_weaken; [| apply (holds_respects answers tables_ok mgrows may_start starting_fact); [exact H1 |]].
  - done.
  - by apply quiet_starts.
Qed.

(** Quiet code, and then more. *)
Lemma quiet_then {X Y} (c : code X) (f : X → code Y) post m :
  respects mtidy c ∧ starts (λ _, False) c → (∀ x m', mgrows m m' → mholds (f x) post m') → mholds (bind f c) post m.
Proof.
  intros [H1 H2]. apply (holds_then answers tables_ok mgrows may_start starting_fact); [exact H1 |]. by apply quiet_starts.
Qed.

Lemma openStreamLazilyCtx_holds p n m : mholds (openStreamLazilyCtx p n : code _) (λ _ _, True) m.
Proof.
  unfold openStreamLazilyCtx. apply quiet_then; [done |]. intros [e|] m1 _; [done |].
  apply quiet_then; [done |]. intros ctx m2 _.
  apply quiet_then; [split; [split; [intros ?; apply open_enter_mtidy | done] | intros ?; exact I] |].
  intros [e|[i|[k cfg]]] m3 _; [done.. |].
  apply quiet_then; [done |]. intros [e|raw] m4 _; [done |].
  apply holds_bind. eapply holds_weaken; [| apply NewEncryptedStream_holds]. intros [e|i] m5 Hi; cbn beta iota in Hi.
  - apply quiet_then; [done |]. intros _ m6 _. done.
  - specialize (Hi i eq_refl). apply holds_bind, holds_atomic. intros m6 H6 Ho.
    destruct (open_store_mtidy p n i m6 (has_enc_fact p n i _ _ H6 Hi) Ho) as [H7 H8]. split; [done |]. split; [done |].
    destruct (open_store p n i m6).1 as [j|]; [| done].
    apply quiet_then; [apply lift_quiet, es_Close_quiet | done].
Qed.

Lemma SetOnMessageDropped_mtidy i cb m : mtidy m (on_store (SetOnMessageDropped i cb) m).2.
Proof. apply on_store_mtidy. unfold SetOnMessageDropped. apply unc_upd_tidy. by intros []. Qed.

Lemma openUnencrypted_holds p m :
  mholds (openUnencryptedStreamLazilyCtx p HandshakeStreamName : code _) (λ _ _, True) m.
Proof.
  unfold openUnencryptedStreamLazilyCtx. apply quiet_then; [done |]. intros [e|] m1 _; [done |].
  apply quiet_then; [done |]. intros ctx m2 _.
  apply quiet_then; [split; [split; [intros ?; apply open_unencrypted_enter_mtidy | done] | intros ?; exact I] |].
  intros [e|[i|cb]] m3 _; [done.. |].
  apply quiet_then; [done |]. intros [e|raw] m4 _; [done |].
  apply holds_bind. eapply holds_weaken; [| apply NewUnencryptedStream_holds]. intros i m5 Hi.
  apply quiet_then; [split; [split; [intros ?; apply SetOnMessageDropped_mtidy | done] | intros ?; exact I] |]. intros _ m6 H6.
  apply holds_bind, holds_atomic. intros m7 H7 Ho.
  destruct (open_unencrypted_store_mtidy p HandshakeStreamName i m7
    (has_unc_fact p _ i _ _ H7 (has_unc_fact p _ i _ _ H6 Hi)) Ho) as [H8 H9]. split; [done |]. split; [done |].
  destruct (open_unencrypted_store p HandshakeStreamName i m7).1 as [j|]; [| done].
  apply quiet_then; [apply lift_quiet, us_Close_quiet | done].
Qed.

Lemma quiet_find p n :
  respects mtidy (atomic (find_encrypted p n) : code _) ∧ starts (λ _, False) (atomic (find_encrypted p n) : code _).
Proof. split; [split; [intros ?; by apply same_mtidy | done] | intros ?; exact I]. Qed.

Lemma quiet_find_unencrypted p n :
  respects mtidy (atomic (find_unencrypted p n) : code _) ∧ starts (λ _, False) (atomic (find_unencrypted p n) : code _).
Proof. split; [split; [intros ?; by apply same_mtidy | done] | intros ?; exact I]. Qed.

Lemma SendCtx_holds p n d m : mholds (SendCtx p n d : code _) (λ _ _, True) m.
Proof.
  unfold SendCtx. apply quiet_then; [done |]. intros [e|] m1 _; [done |].
  destruct (String.eqb_spec n HandshakeStreamName) as [->|Hn].
  - unfold sendUnencryptedCtx. apply quiet_then; [done |]. intros [e|] m2 _; [done |].
    apply quiet_then; [apply quiet_find_unencrypted |]. intros f m3 _.
    assert (mholds (r ← openUnencryptedStreamLazilyCtx p HandshakeStreamName;
                    match r with Err e => mret (Some e) | Ok i => lift (us_SendCtx i d) end : code _) (λ _ _, True) m3) as Hopen.
    { apply holds_bind. eapply holds_weaken; [| apply openUnencrypted_holds]. intros [e|i] m4 _; [done |].
      apply quiet_holds, lift_quiet, us_SendCtx_quiet. }
    destruct f as [[i []]|]; [exact Hopen | apply quiet_holds, lift_quiet, us_SendCtx_quiet | exact Hopen].
  - apply quiet_then; [apply quiet_find |]. intros f m3 _.
    assert (mholds (r ← openStreamLazilyCtx p n;
                    match r with Err e => mret (Some e) | Ok i => lift (es_SendCtx i d) end : code _) (λ _ _, True) m3) as Hopen.
    { apply holds_bind. eapply holds_weaken; [| apply openStreamLazilyCtx_holds]. intros [e|i] m4 _; [done |].
      apply quiet_holds, lift_quiet, es_SendCtx_quiet. }
    destruct f as [[i []]|]; [exact Hopen | apply quiet_holds, lift_quiet, es_SendCtx_quiet | exact Hopen].
Qed.

(** An incoming stream: the section makes the object and enters it. *)
Lemma incoming_section_ok p n raw m :
  mtidy m (incoming_section p n raw m).2
  ∧ ∀ i, (incoming_section p n raw m).1 = Ok i → is_Some (encs (sto (incoming_section p n raw m).2) !! i).
Proof.
  unfold incoming_section, st_modify, st_get, mbind, ST_bind, mret, ST_ret.
  destruct (negb (allowed m p n)); [split; [by apply same_mtidy | done] |].
  destruct (sharedKeys m !! p) as [k|]; [| split; [by apply same_mtidy | done]].
  set (m1 := set_streams (ensure p) m).
  assert (mtidy m m1) as H1 by (apply shrink_mtidy; [by intros ?; split | intros q n' j; cbn; by rewrite filed_ensure | done]).
  cbn [find_encrypted st_gets]. destruct (entry (streams m1) p n ≫= _) as [[j []]|]; try (by split; [exact H1 |]).
  all: unfold on_store; destruct (new_encrypted_tidy n p raw k (config_of m) (sto m1)) as [H2 H3];
    destruct (new_encrypted n p raw k (config_of m) (sto m1)) as [[e|i] s]; cbn in H2, H3 |- *;
    (split; [| intros j' Hj]; [| simplify_eq]); try done.
  all: try (eapply mtidy_trans; [exact H1 | by apply store_mtidy]).
  all: try (destruct (H3 j' eq_refl) as (es & Hi & _); by eexists).
  all: eapply mtidy_trans; [exact H1 |]; eapply (mtidy_trans _ (set_sto s m1)); [by apply store_mtidy |];
    apply put_enc_mtidy, H3; done.
Qed.

Lemma HandleIncomingStream_holds p n raw m : mholds (HandleIncomingStream p n raw : code _) (λ _ _, True) m.
Proof.
  unfold HandleIncomingStream. apply holds_bind, holds_atomic. intros m1 H1 Ho.
  destruct (incoming_section_ok p n raw m1) as [Ht Hi]. destruct (Ht Ho) as [H2 H3]. split; [done |]. split; [done |].
  destruct (incoming_section p n raw m1).1 as [e|i]; [done |]. cbn. split; [by apply Hi | done].
Qed.

Lemma handshake_section_ok p raw m :
  mtidy m (handshake_section p raw m).2
  ∧ ∀ i, (handshake_section p raw m).1 = Some i → is_Some (uncs (sto (handshake_section p raw m).2) !! i).
Proof.
  unfold handshake_section, st_modify, st_get, mbind, ST_bind, mret, ST_ret.
  set (m1 := set_unencrypted (ensure p) m).
  assert (mtidy m m1) as H1 by (apply shrink_mtidy; [by intros ?; split | done | intros q n' j; cbn; by rewrite filed_ensure]).
  assert (let r := (on_store (new_unencrypted HandshakeStreamName p raw) m1) in
    let m2 := (on_store (SetOnMessageDropped r.1 (onMessageDropped r.2)) r.2).2 in
    mtidy m (set_unencrypted (put p HandshakeStreamName r.1) m2)
    ∧ is_Some (uncs (sto (set_unencrypted (put p HandshakeStreamName r.1) m2)) !! r.1)) as Hnew.
  { cbv zeta. change (on_store (new_unencrypted HandshakeStreamName p raw) m1)
      with (let (x, s) := new_unencrypted HandshakeStreamName p raw (sto m1) in (x, set_sto s m1)).
    destruct (new_unencrypted_tidy p raw (sto m1)) as [H2 (us & Hus & Hn & Hp)].
    destruct (new_unencrypted HandshakeStreamName p raw (sto m1)) as [i s]; cbn in H2, Hus. cbn [fst snd].
    set (m2 := set_sto s m1). pose proof (SetOnMessageDropped_mtidy i (onMessageDropped m2) m2) as H3.
    assert (has_unc p HandshakeStreamName i (on_store (SetOnMessageDropped i (onMessageDropped m2)) m2).2) as Hh.
    { cbn. unfold has_unc; cbn. rewrite lookup_alter_eq, Hus. cbn. by eexists. }
    split.
    - eapply mtidy_trans; [exact H1 |]. eapply mtidy_trans; [by apply store_mtidy |].
      eapply mtidy_trans; [exact H3 |]. by apply put_unc_mtidy.
    - destruct Hh as (us' & Hus' & _). by eexists. }
  cbn [find_unencrypted st_gets].
  destruct (entry (unencryptedStreams m1) p HandshakeStreamName ≫= _) as [[j []]|].
  2: { by split. }
  all: match goal with |- context[on_store (new_unencrypted _ _ _) ?x] => change x with m1 end.
  all: cbv zeta in Hnew.
  all: destruct (on_store (new_unencrypted HandshakeStreamName p raw) m1) as [i m2]; cbn [fst snd] in *.
  all: destruct (on_store (SetOnMessageDropped i (onMessageDropped m2)) m2) as [x m3]; cbn [fst snd] in *.
  all: destruct Hnew as [H2 H3]; split; [exact H2 | by intros ? [= <-]].
Qed.

Lemma HandleIncomingHandshake_holds p raw m : mholds (HandleIncomingHandshakeStream p raw : code _) (λ _ _, True) m.
Proof.
  unfold HandleIncomingHandshakeStream. apply holds_bind, holds_atomic. intros m1 H1 Ho.
  destruct (handshake_section_ok p raw m1) as [Ht Hi]. destruct (Ht Ho) as [H2 H3]. split; [done |]. split; [done |].
  destruct (handshake_section p raw m1).1 as [i|]; [| done]. cbn. split; [by apply Hi | done].
Qed.

Lemma close_each_quiet (close : nat → code (option error)) l e :
  (∀ i, respects mtidy (close i) ∧ starts (λ _, False) (close i)) →
  respects mtidy (close_each close l e) ∧ starts (λ _, False) (close_each close l e).
Proof.
  intros Hc. revert e. induction l as [|i l IH]; intros e; [done |]. cbn [close_each]. destruct (Hc i) as [H1 H2]. split.
  - apply respects_bind; [done |]. intros x. apply IH.
  - apply starts_bind; [done |]. intros x. apply IH.
Qed.

Lemma quiet_seq {X Y} (c : code X) (f : X → code Y) :
  respects mtidy c ∧ starts (λ _, False) c → (∀ x, respects mtidy (f x) ∧ starts (λ _, False) (f x)) →
  respects mtidy (bind f c) ∧ starts (λ _, False) (bind f c).
Proof.
  intros [H1 H2] Hf. split; [apply respects_bind; [done | apply Hf] | apply starts_bind; [done | apply Hf]].
Qed.

Lemma quiet_section {X} (f : ST Manager X) :
  (∀ m, mtidy m (f m).2) → respects mtidy (atomic f : code X) ∧ starts (λ _, False) (atomic f : code X).
Proof. intros Hf. split; [split; [done | done] | intros ?; exact I]. Qed.

Lemma zero_key_shape p m :
  ∃ h, zero_key p m = (tt, set_sharedKeys (delete p) (set_sto (set_hp h (sto m)) m)).
Proof.
  unfold zero_key, st_get, st_modify, on_store, on_heap, mbind, ST_bind, mret, ST_ret.
  destruct (sharedKeys m !! p) as [k|]; [by eexists | exists (Streams.hp (sto m))]. by destruct m as [????????? []].
Qed.

Lemma CloseStreams_quiet p : respects mtidy (CloseStreams p : code _) ∧ starts (λ _, False) (CloseStreams p : code _).
Proof.
  unfold CloseStreams. apply quiet_seq; [apply quiet_section, mgets_mtidy |]. intros l.
  apply quiet_seq; [apply close_each_quiet; intros i; apply lift_quiet, es_Close_quiet |]. intros e1.
  apply quiet_seq.
  { apply quiet_section. intros m. apply shrink_mtidy; [by intros ?; split | intros q n i; apply entry_delete | done]. }
  intros lu. apply quiet_seq; [apply close_each_quiet; intros i; apply lift_quiet, us_Close_quiet |]. intros e2.
  apply quiet_seq; [| done]. apply quiet_section. intros m. unfold st_modify, mbind, ST_bind.
  destruct (zero_key_shape p (set_allowed (delete p) (set_unencrypted (delete p) m))) as [h ->]. cbn [snd].
  apply shrink_mtidy; [by apply untouched_tidy | done | intros q n i; apply entry_delete].
Qed.

Lemma CloseHandshake_quiet p :
  respects mtidy (CloseHandshakeStream p : code _) ∧ starts (λ _, False) (CloseHandshakeStream p : code _).
Proof.
  unfold CloseHandshakeStream. apply quiet_seq; [apply quiet_section, mgets_mtidy |]. intros [i|]; [| done].
  apply quiet_seq; [apply lift_quiet, us_Close_quiet |]. intros e.
  apply quiet_seq; [| done]. apply quiet_section. intros m. apply shrink_mtidy; [by intros ?; split | done |].
  intros q n j. cbn. unfold entry. destruct (decide (q = p)) as [->|Hne]; [| by rewrite lookup_alter_ne].
  rewrite lookup_alter_eq. destruct (unencryptedStreams m !! p) as [ps|]; [| done]. cbn. rewrite lookup_delete.
  by case_decide.
Qed.

Lemma entry_empty {A} p n : entry (∅ : gmap string (gmap string A)) p n = None.
Proof. unfold entry. by rewrite lookup_empty. Qed.

Lemma Shutdown_quiet : respects mtidy (Shutdown : code _) ∧ starts (λ _, False) (Shutdown : code _).
Proof.
  unfold Shutdown. apply quiet_seq; [apply quiet_section; intros m; apply on_store_mtidy; by apply untouched_tidy |]. intros _.
  apply quiet_seq; [apply quiet_section, mgets_mtidy |]. intros l.
  apply quiet_seq; [apply close_each_quiet; intros i; apply lift_quiet, es_Close_quiet |]. intros _.
  apply quiet_seq; [apply quiet_section, mgets_mtidy |]. intros lu.
  apply quiet_seq; [apply close_each_quiet; intros i; apply lift_quiet, us_Close_quiet |]. intros _.
  apply quiet_section. intros m. unfold st_get, st_modify, on_store, on_heap, mbind, ST_bind.
  destruct (SecureZeroMultiple _ _) as [x h]. cbn.
  apply shrink_mtidy; [by apply untouched_tidy | intros q n i; cbn; by rewrite entry_empty ..].
Qed.

Lemma derive_quiet pub : respects mtidy (derive pub : code _) ∧ starts (λ _, False) (derive pub : code _).
Proof.
  unfold derive. destruct (ValidateEd25519PublicKey pub); [done |]. destruct (Ed25519PublicToX25519 _); [done |].
  do 4 (apply quiet_seq; [apply quiet_section; intros m; apply on_module_mtidy |]; intros ?). done.
Qed.

Lemma EstablishStreams_quiet p pub names :
  respects mtidy (EstablishStreams p pub names : code _) ∧ starts (λ _, False) (EstablishStreams p pub names : code _).
Proof.
  unfold EstablishStreams. destruct (length names =? 0); [done |].
  apply quiet_seq; [apply derive_quiet |]. intros [e|k]; [done |]. apply quiet_section. intros m.
  unfold st_modify, mbind, ST_bind, mret, ST_ret. cbn [snd].
  apply shrink_mtidy; [by intros ?; split | intros q n i | done].
  cbn [streams set_allowed set_streams set_sharedKeys]. by rewrite filed_ensure.
Qed.

Lemma loop_holds l m : loop_start l (sto m) → mholds (lift (loop_body l) : code _) (λ _ _, True) m.
Proof.
  intros Hs. destruct (loop_quiet l) as [H1 H2].
  eapply holds_weaken; [| apply (holds_respects answers tables_ok mgrows may_start starting_fact)]; [done | |].
  - eapply respects_embed; [| exact H1]. intros m1 s Ht. by apply store_mtidy.
  - eapply starts_embed; [| exact H2]. by intros ? <-.
Qed.

Lemma bodies_hold q m : may_start q m → mholds (body q : code _) (λ _ _, True) m.
Proof.
  intros Hs. destruct q; cbn [body]; [by apply loop_holds | ..]; unfold discard.
  all: try (apply holds_bind; eapply holds_weaken; [intros ? ? _; exact I |]).
  - apply quiet_holds, EstablishStreams_quiet.
  - apply SendCtx_holds.
  - apply quiet_holds, CloseHandshake_quiet.
  - apply HandleIncomingHandshake_holds.
  - apply HandleIncomingStream_holds.
  - apply quiet_holds, CloseStreams_quiet.
  - apply quiet_holds, Shutdown_quiet.
Qed.
End Manager.

(** What happens to the manager's state by itself: time passes, the crypto
    module's other methods run (on its own fields and the buffers), the node
    takes a message from the channel, cancels the context, calls the setters. *)
Inductive env : Manager → Manager → Prop :=
| env_clock m t : (clock (sto m) <= t)%Z →
    env m (set_sto {| hp := hp (sto m); encs := encs (sto m); uncs := uncs (sto m); next_obj := next_obj (sto m);
                      incoming := incoming (sto m); reports := reports (sto m); base_done := base_done (sto m);
                      clock := t |} m)
| env_module m (f : ST state unit) : env m (on_module f m).2
| env_receive m v c : Chan.try_recv (incoming (sto m)) = (Chan.Value v, c) →
    env m (set_sto (set_incoming c (sto m)) m)
| env_done m : env m (set_sto (set_base_done (sto m)) m)
| env_config m d o dr size : env m (set_config d o dr size m).

Lemma env_keeps m m' : tables_ok m → env m m' → tables_ok m' ∧ mgrows m m'.
Proof.
  intros Ho He. destruct He as [m t _|m f|m v c Hc|m|m d o dr size].
  - by apply same_mtidy.
  - by apply on_module_mtidy.
  - apply store_mtidy; [| done]. intros [O1 O2 O3].
    assert (grows (sto m) (set_incoming c (sto m))) as G
      by (split; cbn; intros i x Hx; exists x; (split; [done |]); by split_and!).
    split; [| exact G]. split; cbn; try done. unfold Chan.try_recv in Hc.
    destruct (Chan.buf (incoming (sto m))) as [|v' rest] eqn:Eb; [by destruct (Chan.is_closed _) |].
    injection Hc as <- <-. cbn. apply Forall_cons in O3 as [_ O3]. eapply Forall_impl; [exact O3 |].
    intros msg. by apply provenance_grows.
  - apply store_mtidy; [| done]. by apply untouched_tidy.
  - by apply same_mtidy.
Qed.

Lemma tables_hold `{CryptoLib} c s0 s :
  encs s0 = ∅ → uncs s0 = ∅ → Chan.buf (incoming s0) = [] →
  rtc (Proc.step body api answers env) {| shared := NewManager c s0; gos := [] |} s → tables_ok (shared s).
Proof.
  intros He Hu Hb Hr.
  eapply (execution_good answers tables_ok mgrows may_start starting_fact body api env bodies_hold); [| | exact Hr |].
  - intros m1 q _. by destruct q.
  - apply env_keeps.
  - split; [| constructor]. cbn. split; cbn; [| intros p n i; by rewrite entry_empty ..].
    split; rewrite ?He, ?Hu, ?Hb; [done | intros i us; by rewrite lookup_empty | constructor].
Qed.

(** In every interleaving of the manager's methods, its streams' loops, the
    crypto module and the network: the tables are well typed (the stream filed
    under a peer and a name belongs to that peer and has that name); every
    message waiting for the application comes from a stream of the very peer
    it names; and one that does not name the handshake stream comes from an
    encrypted stream of that name: nothing unauthenticated is delivered as
    anything but handshake data. *)
Theorem streams_well_typed `{CryptoLib} c s0 m gs :
  encs s0 = ∅ → uncs s0 = ∅ → Chan.buf (incoming s0) = [] →
  rtc (Proc.step body api answers env) {| shared := NewManager c s0; gos := [] |} {| shared := m; gos := gs |} →
  (∀ p n i, entry (streams m) p n = Some i → ∃ es, encs (sto m) !! i = Some es ∧ es_name es = n ∧ es_peerID es = p)
  ∧ (∀ p n i, entry (unencryptedStreams m) p n = Some i →
       n = HandshakeStreamName ∧ ∃ us, uncs (sto m) !! i = Some us ∧ us_peerID us = p)
  ∧ ∀ msg, msg ∈ Chan.buf (incoming (sto m)) →
      (im_StreamName msg = HandshakeStreamName ∧ ∃ i us, uncs (sto m) !! i = Some us ∧ us_peerID us = im_PeerID msg)
      ∨ ∃ i es, encs (sto m) !! i = Some es ∧ es_peerID es = im_PeerID msg ∧ es_name es = im_StreamName msg.
Proof.
  intros He Hu Hb Hr. destruct (tables_hold c s0 _ He Hu Hb Hr) as [[O1 O2 O3] T2 T3].
  cbn in *. split; [exact T2 |]. split.
  - intros p n i Hi. destruct (T3 p n i Hi) as (us & Hus & Hn & Hp). split; [rewrite <- Hn; by eapply O2 | by exists us].
  - intros msg Hm. rewrite Forall_forall in O3. destruct (O3 msg Hm) as [(i & es & ?)|[Hh Hx]]; [right; by exists i, es | by left].
Qed.

(** ** Witness: a node that establishes a stream and sends *)

Module InvariantWitness.
Import ChannelWitness.
#[local] Existing Instance Toy.toy.

Definition node_sent : Manager := final (run (calm NextEOF) (body (PSend "QmB" "chat" hi)) node_a).

Lemma node_sent_reachable :
  ∃ gs, rtc (Proc.step body api answers env) {| shared := manager_of 9; gos := [] |} {| shared := node_sent; gos := gs |}.
Proof.
  destruct (call_in_a_row body api answers env (calm NextEOF) (PEstablish "QmB" (pub 16) ["chat"]) (manager_of 9) [])
    as [gs Hr]; [by apply asks_any | done |].
  destruct (call_in_a_row body api answers env (calm NextEOF) (PSend "QmB" "chat" hi) node_a gs) as [gs' Hr'];
    [by apply asks_any | done |].
  assert (final (run (calm NextEOF) (body (PEstablish "QmB" (pub 16) ["chat"])) (manager_of 9)) = node_a) as E.
  { unfold node_a. cbn [body]. unfold discard, mbind, prog_bind. rewrite run_bind_final.
    generalize (run (calm NextEOF) (EstablishStreams "QmB" (pub 16) ["chat"]) (manager_of 9)). by intros []. }
  rewrite E in Hr. exists gs'. by etrans.
Qed.

Lemma streams_well_typed_witness :
  ∃ es, encs (sto node_sent) !! 0 = Some es ∧ es_name es = "chat"%string ∧ es_peerID es = "QmB"%string.
Proof.
  destruct node_sent_reachable as [gs Hr].
  destruct (streams_well_typed (CryptoModule.Witness.mod_of 9) (sto (manager_of 9)) node_sent gs eq_refl eq_refl eq_refl Hr) as (H1 & _).
  apply (H1 "QmB"%string "chat"%string 0). vm_compute. reflexivity.
Defined.
End InvariantWitness.
