(* ===== verification/ConnManager.v ===== *)
(** * The connection manager ([pkg/connection/manager.go])

    The shared state is what [m.mu] and the connections' own mutexes protect;
    connections and reconnection states are objects with an address, since
    goroutines keep pointers to them across unlocks.  Each method is a [prog]
    whose atomic sections are the code's critical sections.  The contexts are
    flags: [m.ctx] is [mgr_done], a reconnection's is [rs_cancelled], a
    handshake timeout's is the timer's [t_cancelled]; the latter two are also
    done when [m.ctx] is.  The context goroutine of [ConnectCtx] only decides
    what [host.Connect] returns, which is an answer of the environment. *)

From S2P Require Import Prelude Errors Interfaces ConnState Backoff Heap Crypto Dispatcher Peer Proc.

(** [connection.Event] is modelled in [Dispatcher]. *)
Notation Event := Dispatcher.Event (only parsing).

Record ManagerConfig := {
  HandshakeTimeout : duration;
  ReconnectBaseDelay : duration;
  ReconnectMaxDelay : duration;
  ReconnectMaxAttempts : Z;
  FailedHandshakeCooldown : duration;
}.

Section ConnManager.
Context {B A : Type} `{PeerBook B A}.

Record Manager := {
  addressBook : B;
  config : ManagerConfig;
  has_events : bool;                     (** [events] is not nil *)
  emitted : list Event;                  (** what [EmitEvent] has been given *)
  connections : gmap string nat;
  reconnecting : gmap string nat;
  mgr_done : bool;
  conns : gmap nat PeerConnection;       (** the objects *)
  rstates : gmap nat ReconnectState;
  next_obj : nat;
  mrt : runtime;
}.

(** ** State access *)

Definition set_connections (f : gmap string nat → gmap string nat) : ST Manager unit := st_modify (λ m,
  {| addressBook := addressBook m; config := config m; has_events := has_events m; emitted := emitted m;
     connections := f (connections m); reconnecting := reconnecting m; mgr_done := mgr_done m; conns := conns m;
     rstates := rstates m; next_obj := next_obj m; mrt := mrt m |}).
Definition set_reconnecting (f : gmap string nat → gmap string nat) : ST Manager unit := st_modify (λ m,
  {| addressBook := addressBook m; config := config m; has_events := has_events m; emitted := emitted m;
     connections := connections m; reconnecting := f (reconnecting m); mgr_done := mgr_done m; conns := conns m;
     rstates := rstates m; next_obj := next_obj m; mrt := mrt m |}).
Definition set_rstates (f : gmap nat ReconnectState → gmap nat ReconnectState) : ST Manager unit := st_modify (λ m,
  {| addressBook := addressBook m; config := config m; has_events := has_events m; emitted := emitted m;
     connections := connections m; reconnecting := reconnecting m; mgr_done := mgr_done m; conns := conns m;
     rstates := f (rstates m); next_obj := next_obj m; mrt := mrt m |}).
Definition set_conns (f : gmap nat PeerConnection → gmap nat PeerConnection) : ST Manager unit := st_modify (λ m,
  {| addressBook := addressBook m; config := config m; has_events := has_events m; emitted := emitted m;
     connections := connections m; reconnecting := reconnecting m; mgr_done := mgr_done m; conns := f (conns m);
     rstates := rstates m; next_obj := next_obj m; mrt := mrt m |}).
Definition set_rt (f : runtime → runtime) : ST Manager unit := st_modify (λ m,
  {| addressBook := addressBook m; config := config m; has_events := has_events m; emitted := emitted m;
     connections := connections m; reconnecting := reconnecting m; mgr_done := mgr_done m; conns := conns m;
     rstates := rstates m; next_obj := next_obj m; mrt := f (mrt m) |}).
Definition set_book (f : B → B) : ST Manager unit := st_modify (λ m,
  {| addressBook := f (addressBook m); config := config m; has_events := has_events m; emitted := emitted m;
     connections := connections m; reconnecting := reconnecting m; mgr_done := mgr_done m; conns := conns m;
     rstates := rstates m; next_obj := next_obj m; mrt := mrt m |}).
Definition set_done : ST Manager unit := st_modify (λ m,
  {| addressBook := addressBook m; config := config m; has_events := has_events m; emitted := emitted m;
     connections := connections m; reconnecting := reconnecting m; mgr_done := true; conns := conns m;
     rstates := rstates m; next_obj := next_obj m; mrt := mrt m |}).
Definition add_event (e : Event) : ST Manager unit := st_modify (λ m,
  {| addressBook := addressBook m; config := config m; has_events := has_events m; emitted := emitted m ++ [e];
     connections := connections m; reconnecting := reconnecting m; mgr_done := mgr_done m; conns := conns m;
     rstates := rstates m; next_obj := next_obj m; mrt := mrt m |}).
Definition fresh : ST Manager nat := λ m, (next_obj m,
  {| addressBook := addressBook m; config := config m; has_events := has_events m; emitted := emitted m;
     connections := connections m; reconnecting := reconnecting m; mgr_done := mgr_done m; conns := conns m;
     rstates := rstates m; next_obj := S (next_obj m); mrt := mrt m |}).

Definition find_conn (p : string) : ST Manager (option nat) := st_gets (λ m, connections m !! p).
Definition clock_now : ST Manager time := st_gets (λ m, clock (mrt m)).

(** A method call on the connection at an address; the addresses the code
    holds are always those of existing objects. *)
Definition with_conn {X} `{Inhabited X} (c : nat) (f : ST cell X) : ST Manager X := λ m,
  match conns m !! c with
  | None => (inhabitant, m)
  | Some p =>
      let (x, cl) := f {| pc := p; rt := mrt m |} in
      (x, (set_rt (λ _, rt cl) (set_conns (<[c := pc cl]>) m).2).2)
  end.

#[local] Instance ConnectionState_inhabited : Inhabited ConnectionState := populate StateDisconnected.

(** [&PeerConnection{...}] and its entry in the map. *)
Definition new_conn (p : string) : ST Manager nat :=
  now ← clock_now; c ← fresh;
  _ ← set_conns (<[c := NewPeerConnection p now]>);
  _ ← set_connections (<[p := c]>);
  mret c.

Definition get_or_create (p : string) : ST Manager nat :=
  e ← find_conn p;
  match e with Some c => mret c | None => new_conn p end.

(** [reconnState.Cancel()] *)
Definition cancel_reconnect (r : nat) : ST Manager unit := set_rstates (alter (λ s,
  {| Attempts := Attempts s; NextAttempt := NextAttempt s; CurrentDelay := CurrentDelay s; rs_cancelled := true |}) r).

(** ** The environment's calls and the goroutines *)

Inductive context := CtxManager | CtxReconnect (r : nat).

Inductive query :=
| QCtxErr                                           (** the caller's context: [ctx.Err()] *)
| QConnect (p : string) (addrs : list A)            (** [host.Connect] *)
| QDisconnect (p : string)                          (** [host.Disconnect] *)
| QSleep (d : duration) (ctx : context)             (** timer elapsed, or context done *)
| QJitter.                                          (** the random source *)

Definition answer (q : query) : Type :=
  match q with
  | QCtxErr | QConnect _ _ | QDisconnect _ => option error
  | QSleep _ _ => bool
  | QJitter => duration → duration
  end.

Inductive proc :=
| PConnectCtx (p : string)
| PDisconnectCtx (p : string)
| PCancelReconnection (p : string)
| PTimer (t : nat)                                  (** a handshake timer's callback *)
| PReconnectionLoop (p : string) (r : nat)
| PAfterCooldown (p : string) (cooldown : duration)
| POnDisconnect (p : string) (err : option error)
| PShutdown
| PSetSharedKey (p : string) (key : bytes)
| PMarkEstablished (p : string)
| PRegisterIncoming (p : string)
| PAutoConnect (p : string)
| PCancelHandshakeTimeout (p : string).

Notation code := (prog (S := Manager) (P := proc) (Q := query) (R := answer)) (only parsing).

Definition context_done (m : Manager) (ctx : context) : bool :=
  mgr_done m || match ctx with
                | CtxManager => false
                | CtxReconnect r => match rstates m !! r with Some s => rs_cancelled s | None => false end
                end.

(** What the environment may answer in a state. *)
Definition answers (m : Manager) (q : query) : answer q → Prop :=
  match q with
  | QSleep d ctx => λ elapsed, elapsed = false → context_done m ctx = true
  | QJitter => jitter_ok
  | _ => λ _, True
  end.

(** ** Methods *)

Definition emitEvent (p : string) (st : ConnectionState) (err : option error) : code unit :=
  atomic (
    has ← st_gets has_events;
    if (has : bool) then
      now ← clock_now;
      add_event {| Dispatcher.PeerID := p; Dispatcher.State := st; Dispatcher.Error := err; Dispatcher.Timestamp := now |}
    else mret tt).

(** [context.WithCancel] and [time.AfterFunc]; the caller holds [m.mu]. *)
Definition setupHandshakeTimeout (c : nat) : ST Manager unit :=
  cfg ← st_gets config;
  m ← st_get;
  let t := next_timer (mrt m) in
  let peer := match conns m !! c with Some p => PeerID p | None => ""%string end in
  _ ← set_rt (λ r, {| keys := keys r;
                      timers := <[t := {| t_peer := peer; t_deadline := (clock r + HandshakeTimeout cfg)%Z;
                                          t_stopped := false; t_cancelled := false; t_fired := false |}]> (timers r);
                      next_timer := S t; clock := clock r |});
  with_conn c (upd (set_timer (Some t) (Some t))).

Definition startReconnection (p : string) : code unit :=
  bl ← atomic (st_gets (λ m, pb_IsBlacklisted (addressBook m) p));
  if (bl : bool) then mret tt
  else
    started ← atomic (
      m ← st_get;
      match reconnecting m !! p with
      | Some _ => mret None
      | None =>
          match connections m !! p with
          | None => mret None
          | Some c =>
              r ← fresh;
              _ ← set_rstates (<[r := NewReconnectState]>);
              _ ← set_reconnecting (<[p := r]>);
              _ ← with_conn c (upd (set_reconnect (Some r)));
              _ ← with_conn c (TransitionTo StateReconnecting);
              mret (Some r)
          end
      end);
    match started with
    | None => mret tt
    | Some r => _ ← emitEvent p StateReconnecting None; go (PReconnectionLoop p r)
    end.

Definition handleConnectFailure (p : string) (err : error) : code unit :=
  _ ← atomic (
    e ← find_conn p;
    match e with
    | None => mret tt
    | Some c => _ ← with_conn c (SetError (Some err)); _ ← with_conn c (TransitionTo StateDisconnected); mret tt
    end);
  _ ← emitEvent p StateDisconnected (Some err);
  startReconnection p.

(** The first critical section of [ConnectCtx]. *)
Definition connect_enter (p : string) : ST Manager (result error (nat * list A)) :=
  m ← st_get;
  if pb_IsBlacklisted (addressBook m) p then mret (Err (Errorf "peer %s is blacklisted" None))
  else
    refusal ← match connections m !! p with
              | None => mret None
              | Some c =>
                  state ← with_conn c GetState;
                  if IsActive state then mret (Some (Errorf "already connected to peer %s (state: %s)" None))
                  else if bool_decide (state = StateCooldown) then
                    cooling ← with_conn c IsInCooldown;
                    if (cooling : bool) then mret (Some (Errorf "peer %s is in cooldown for %v" None)) else mret None
                  else mret None
              end;
    match refusal with
    | Some e => mret (Err e)
    | None =>
        match pb_GetPeer (addressBook m) p with
        | Err e => mret (Err (Errorf "peer %s not in address book: %w" (Some e)))
        | Ok addrs =>
            c ← get_or_create p;
            _ ← with_conn c (SetIsOutbound true);
            err ← with_conn c (TransitionTo StateConnecting);
            match err with
            | Some e => mret (Err (Errorf "cannot transition to connecting: %w" (Some e)))
            | None => mret (Ok (c, addrs))
            end
        end
    end.

(** The second one, after [host.Connect] has succeeded. *)
Definition connect_finish (c : nat) : ST Manager (option error) :=
  err ← with_conn c (TransitionTo StateConnected);
  match err with
  | Some e => mret (Some (Errorf "cannot transition to connected: %w" (Some e)))
  | None => _ ← setupHandshakeTimeout c; mret None
  end.

Definition update_last_seen (p : string) : ST Manager unit :=
  now ← clock_now; set_book (pb_UpdateLastSeen now p).

Definition ConnectCtx (p : string) : code (option error) :=
  done ← ask QCtxErr;
  match done with
  | Some e => mret (Some e)
  | None =>
      r ← atomic (connect_enter p);
      match r with
      | Err e => mret (Some e)
      | Ok (c, addrs) =>
          _ ← emitEvent p StateConnecting None;
          err ← ask (QConnect p addrs);
          match err with
          | Some err =>
              _ ← handleConnectFailure p err;
              mret (Some (Errorf "failed to connect to peer %s: %w" (Some err)))
          | None =>
              e ← atomic (connect_finish c);
              match e with
              | Some e => mret (Some e)
              | None =>
                  _ ← emitEvent p StateConnected None;
                  _ ← atomic (update_last_seen p);
                  mret None
              end
          end
      end
  end.

(** [context.Background()] is never done, which the environment may answer. *)
Definition Connect (p : string) : code (option error) := ConnectCtx p.

Definition DisconnectCtx (p : string) : code (option error) :=
  done ← ask QCtxErr;
  match done with
  | Some e => mret (Some e)
  | None =>
      conn ← atomic (
        m ← st_get;
        match connections m !! p with
        | None => mret None
        | Some c =>
            _ ← match reconnecting m !! p with
                | Some r => _ ← cancel_reconnect r; set_reconnecting (delete p)
                | None => mret tt
                end;
            mret (Some c)
        end);
      match conn with
      | None => mret (Some (Errorf "not connected to peer %s" None))
      | Some c =>
          done ← ask QCtxErr;
          match done with
          | Some e => mret (Some e)
          | None =>
              _ ← atomic (with_conn c Cleanup);
              _ ← ask (QDisconnect p);
              _ ← atomic (with_conn c (TransitionTo StateDisconnected));
              _ ← emitEvent p StateDisconnected None;
              mret None
          end
      end
  end.

Definition Disconnect (p : string) : code (option error) := DisconnectCtx p.

Definition GetState (p : string) : ST Manager ConnectionState :=
  e ← find_conn p;
  match e with Some c => with_conn c Peer.GetState | None => mret StateDisconnected end.

Definition IsConnecting (m : Manager) (p : string) : bool := bool_decide ((GetState p m).1 = StateConnecting).

Definition CancelReconnection (p : string) : code (option error) :=
  atomic (
    m ← st_get;
    match reconnecting m !! p with
    | None => mret (Some (Errorf "peer %s is not reconnecting" None))
    | Some r =>
        _ ← cancel_reconnect r;
        _ ← set_reconnecting (delete p);
        _ ← match connections m !! p with
            | Some c => with_conn c (TransitionTo StateDisconnected)
            | None => mret None
            end;
        mret None
    end).

Definition scheduleReconnectAfterCooldown (p : string) (cooldown : duration) : code unit :=
  go (PAfterCooldown p cooldown).

(** The goroutine it starts. *)
Definition after_cooldown (p : string) (cooldown : duration) : code unit :=
  elapsed ← ask (QSleep cooldown CtxManager);
  if (elapsed : bool) then
    again ← atomic (
      e ← find_conn p;
      match e with
      | None => mret false
      | Some c =>
          st ← with_conn c Peer.GetState;
          if bool_decide (st = StateCooldown)
          then _ ← with_conn c (TransitionTo StateDisconnected); mret true
          else mret false
      end);
    if (again : bool) then _ ← emitEvent p StateDisconnected None; startReconnection p
    else mret tt
  else mret tt.

Definition handleHandshakeTimeout (p : string) : code unit :=
  owned ← atomic (
    m ← st_get;
    match connections m !! p with
    | None => mret None
    | Some c =>
        st ← with_conn c Peer.GetState;
        if negb (bool_decide (st = StateConnected)) then mret None
        else
          err ← with_conn c (StartCooldown (FailedHandshakeCooldown (config m)));
          match err with
          | Some _ => mret None
          | None => mret (Some (c, FailedHandshakeCooldown (config m)))
          end
    end);
  match owned with
  | None => mret tt
  | Some (c, cooldown) =>
      _ ← atomic (with_conn c CancelHandshakeTimeout);
      _ ← ask (QDisconnect p);
      _ ← emitEvent p StateCooldown (Some (Errorf "handshake timeout" None));
      scheduleReconnectAfterCooldown p cooldown
  end.

(** The runtime starts a timer's callback when its time has come, unless it
    was stopped; each timer fires once. *)
Definition fire (t : nat) : ST Manager bool :=
  m ← st_get;
  match timers (mrt m) !! t with
  | None => mret false
  | Some x =>
      if t_stopped x || t_fired x || (clock (mrt m) <? t_deadline x)%Z then mret false
      else
        _ ← set_rt (λ r, {| keys := keys r;
                            timers := <[t := {| t_peer := t_peer x; t_deadline := t_deadline x; t_stopped := t_stopped x;
                                                t_cancelled := t_cancelled x; t_fired := true |}]> (timers r);
                            next_timer := next_timer r; clock := clock r |});
        mret true
  end.

(** The callback of [setupHandshakeTimeout]: it looks at its own context and
    then acts on its peer. *)
Definition timer_callback (t : nat) : code unit :=
  due ← atomic (fire t);
  if (due : bool) then
    go_on ← atomic (
      m ← st_get;
      mret (match timers (mrt m) !! t with
            | Some x => if t_cancelled x || mgr_done m then None else Some (t_peer x)
            | None => None
            end));
    match go_on with
    | None => mret tt
    | Some p => handleHandshakeTimeout p
    end
  else mret tt.

Definition attemptReconnect (p : string) : code (option error) :=
  r ← atomic (st_gets (λ m, pb_GetPeer (addressBook m) p));
  match r with
  | Err e => mret (Some (Errorf "peer not in address book: %w" (Some e)))
  | Ok addrs =>
      err ← ask (QConnect p addrs);
      match err with
      | Some e => mret (Some e)
      | None =>
          _ ← atomic (
            e ← find_conn p;
            match e with
            | None => mret tt
            | Some c =>
                _ ← with_conn c (TransitionTo StateConnected);
                setupHandshakeTimeout c
            end);
          _ ← emitEvent p StateConnected None;
          _ ← atomic (update_last_seen p);
          mret None
      end
  end.

Definition handleReconnectionExhausted (p : string) : code unit :=
  _ ← atomic (
    _ ← set_reconnecting (delete p);
    e ← find_conn p;
    match e with
    | None => mret tt
    | Some c =>
        _ ← with_conn c (TransitionTo StateDisconnected);
        with_conn c (SetError (Some (Errorf "reconnection attempts exhausted" None)))
    end);
  emitEvent p StateDisconnected (Some (Errorf "max reconnection attempts reached" None)).

Definition handleReconnectionCancelled (p : string) : code unit :=
  _ ← atomic (
    _ ← set_reconnecting (delete p);
    e ← find_conn p;
    match e with
    | None => mret tt
    | Some c => _ ← with_conn c (TransitionTo StateDisconnected); mret tt
    end);
  emitEvent p StateDisconnected None.

(** One round of the loop; the goroutine goes on as a new [PReconnectionLoop].
    The reconnection state is only touched by this goroutine. *)
Definition reconnectionLoop (p : string) (r : nat) : code unit :=
  retry ← atomic (m ← st_get;
    mret (match rstates m !! r with
          | Some s => ShouldRetry (Attempts s) (ReconnectMaxAttempts (config m))
          | None => false
          end));
  if negb retry then handleReconnectionExhausted p
  else
    jitter ← ask QJitter;
    d ← atomic (m ← st_get;
      let bc := NewBackoffCalculator (ReconnectBaseDelay (config m)) (ReconnectMaxDelay (config m)) in
      let s := match rstates m !! r with Some s => s | None => NewReconnectState end in
      let s' := ScheduleNext bc jitter (clock (mrt m)) s in
      _ ← set_rstates (<[r := s']>);
      mret (CurrentDelay s'));
    elapsed ← ask (QSleep d (CtxReconnect r));
    if negb elapsed then mret tt
    else
      bl ← atomic (st_gets (λ m, pb_IsBlacklisted (addressBook m) p));
      if (bl : bool) then handleReconnectionCancelled p
      else
        err ← attemptReconnect p;
        match err with
        | None => atomic (set_reconnecting (delete p))
        | Some _ => go (PReconnectionLoop p r)
        end.

Definition OnDisconnect (p : string) (err : option error) : code unit :=
  found ← atomic (
    e ← find_conn p;
    match e with
    | None => mret false
    | Some c =>
        _ ← with_conn c Cleanup;
        _ ← with_conn c (TransitionTo StateDisconnected);
        _ ← with_conn c (SetError err);
        mret true
    end);
  if (found : bool) then _ ← emitEvent p StateDisconnected err; startReconnection p
  else mret tt.

Fixpoint for_all {X} (l : list X) (f : X → ST Manager unit) : ST Manager unit :=
  match l with
  | [] => mret tt
  | x :: l => _ ← f x; for_all l f
  end.

Definition Shutdown : code unit :=
  _ ← atomic set_done;
  atomic (
    m ← st_get;
    _ ← for_all ((map_to_list (connections m)).*2) (λ c, with_conn c Cleanup);
    _ ← for_all ((map_to_list (reconnecting m)).*2) cancel_reconnect;
    _ ← set_connections (λ _, ∅);
    set_reconnecting (λ _, ∅)).

Definition GetSharedKey (p : string) : ST Manager (option ref) :=
  e ← find_conn p;
  match e with Some c => with_conn c Peer.GetSharedKey | None => mret None end.

Definition GetConnection (p : string) : ST Manager (option nat) := find_conn p.
Definition GetOrCreateConnection (p : string) : ST Manager nat := get_or_create p.

Definition SetSharedKey (p : string) (key : bytes) : code (option error) :=
  c ← atomic (GetOrCreateConnection p);
  _ ← atomic (with_conn c (Peer.SetSharedKey key));
  mret None.

Definition MarkEstablished (p : string) : code (option error) :=
  r ← atomic (
    e ← find_conn p;
    match e with
    | None => mret (Some (Errorf "peer %s not connected" None))
    | Some c => _ ← with_conn c CancelHandshakeTimeout; with_conn c (TransitionTo StateEstablished)
    end);
  match r with
  | Some err => mret (Some err)
  | None => _ ← emitEvent p StateEstablished None; mret None
  end.

Definition RegisterIncomingConnection (p : string) : code (option error) :=
  shouldEmit ← atomic (
    c ← get_or_create p;
    _ ← with_conn c (SetIsOutbound false);
    st ← with_conn c Peer.GetState;
    if bool_decide (st = StateDisconnected) then
      _ ← with_conn c (TransitionTo StateConnecting);
      _ ← with_conn c (TransitionTo StateConnected);
      _ ← setupHandshakeTimeout c;
      mret true
    else mret false);
  _ ← (if (shouldEmit : bool) then emitEvent p StateConnected None else mret tt);
  mret None.

Definition AutoConnect (p : string) : code unit :=
  st ← atomic (GetState p);
  if IsActive st then mret tt else go (PConnectCtx p).

Definition Manager_CancelHandshakeTimeout (p : string) : code (option error) :=
  atomic (
    e ← find_conn p;
    match e with
    | None => mret (Some (Errorf "peer %s not connected" None))
    | Some c => _ ← with_conn c CancelHandshakeTimeout; mret None
    end).

Definition IsOutbound (p : string) : ST Manager (result error bool) :=
  e ← find_conn p;
  match e with
  | None => mret (Err (Errorf "peer %s not connected" None))
  | Some c => b ← with_conn c GetIsOutbound; mret (Ok b)
  end.

Definition discard {X} (m : code X) : code unit := _ ← m; mret tt.

Definition body (p : proc) : code unit :=
  match p with
  | PConnectCtx p => discard (ConnectCtx p)
  | PDisconnectCtx p => discard (DisconnectCtx p)
  | PCancelReconnection p => discard (CancelReconnection p)
  | PTimer t => timer_callback t
  | PReconnectionLoop p r => reconnectionLoop p r
  | PAfterCooldown p d => after_cooldown p d
  | POnDisconnect p err => OnDisconnect p err
  | PShutdown => Shutdown
  | PSetSharedKey p k => discard (SetSharedKey p k)
  | PMarkEstablished p => discard (MarkEstablished p)
  | PRegisterIncoming p => discard (RegisterIncomingConnection p)
  | PAutoConnect p => AutoConnect p
  | PCancelHandshakeTimeout p => discard (Manager_CancelHandshakeTimeout p)
  end.

(** The application and the runtime may start any method or timer callback,
    but not the goroutines the manager starts for itself. *)
Definition api (m : Manager) (p : proc) : Prop :=
  match p with PReconnectionLoop _ _ | PAfterCooldown _ _ => False | _ => True end.

(** By themselves the clock advances, the address book changes, and the
    context the manager was made with is cancelled. *)
Definition env (m m' : Manager) : Prop :=
  (∃ u, (clock (mrt m) <= u)%Z
        ∧ m' = (set_rt (λ r, {| keys := keys r; timers := timers r; next_timer := next_timer r; clock := u |}) m).2)
  ∨ (∃ b, m' = (set_book (λ _, b) m).2)
  ∨ m' = (set_done m).2.

Definition mstep := step (R := answer) body api answers env.

Definition NewManager (b : B) (cfg : ManagerConfig) (ev : bool) (now : time) : Manager :=
  {| addressBook := b; config := cfg; has_events := ev; emitted := []; connections := ∅; reconnecting := ∅;
     mgr_done := false; conns := ∅; rstates := ∅; next_obj := 0;
     mrt := {| keys := empty_heap; timers := ∅; next_timer := 0; clock := now |} |}.
End ConnManager.

(** Checks a fact about a concrete state. *)
Ltac concrete := vm_compute; first [ reflexivity | discriminate | split; discriminate | split; reflexivity ].

(** ** A concrete environment, for witnesses

    Blacklisted peers are listed, every other peer has one address. *)

Module Concrete.
Definition book : PeerBook (list string) string := {|
  pb_IsBlacklisted b p := existsb (String.eqb p) b;
  pb_GetPeer b p := Ok ["/ip4/10.0.0.1/tcp/4001"];
  pb_UpdateLastSeen now p b := b |}.
#[export] Existing Instance book.

Definition cfg : ManagerConfig :=
  {| HandshakeTimeout := 50; ReconnectBaseDelay := 1; ReconnectMaxDelay := 8; ReconnectMaxAttempts := 3;
     FailedHandshakeCooldown := 500 |}%Z.

(** A network that refuses every connection, and one that lets all through. *)
Definition refuse (q : query (A := string)) : answer q :=
  match q with
  | QCtxErr => None | QConnect _ _ => Some ErrNodeNotStarted | QDisconnect _ => None | QSleep _ _ => true | QJitter => λ _, 0%Z
  end.
Definition accept (q : query (A := string)) : answer q :=
  match q with
  | QCtxErr => None | QConnect _ _ => None | QDisconnect _ => None | QSleep _ _ => true | QJitter => λ _, 0%Z
  end.

Definition at_clock (u : time) (m : Manager (B := list string)) : Manager :=
  (set_rt (λ r, {| keys := keys r; timers := timers r; next_timer := next_timer r; clock := u |}) m).2.
Definition state_of (m : Manager (B := list string)) : ConnectionState := (GetState "Qm1" m).1.
Definition m0 : Manager := NewManager ["Qm9"] cfg true 1000%Z.
Definition pc_of (m : Manager (B := list string)) (c : nat) : PeerConnection := default (NewPeerConnection "" 0%Z) (conns m !! c).
Definition timer_of (m : Manager (B := list string)) (t : nat) : Timer :=
  default {| t_peer := ""; t_deadline := 0; t_stopped := true; t_cancelled := true; t_fired := true |}%Z (timers (mrt m) !! t).
End Concrete.
