(* ===== verification/ConnInvariant.v ===== *)
(** * The connection manager under every interleaving

    Invariants of all executions of [ConnManager.mstep]: any number of
    concurrent calls, timer callbacks, reconnection goroutines, any answers of
    the network, any change of the clock and of the address book. *)

From S2P Require Import Prelude Errors Interfaces ConnState Backoff Heap Crypto Dispatcher Peer Proc ConnManager.

Section Invariant.
Context {B A : Type} `{PeerBook B A}.
Notation Manager := (Manager (B := B)).
Notation code := (prog (S := Manager) (P := proc) (Q := query (A := A)) (R := answer)) (only parsing).

(** ** The invariant and what a step may change *)

(** The maps point to objects: a peer's connection is that peer's, and only
    peers with a connection are being reconnected. *)
Record wf (m : Manager) : Prop := {
  wf_objects : ∀ c, is_Some (conns m !! c) → c < next_obj m;
  wf_connections : ∀ p c, connections m !! p = Some c → ∃ pc, conns m !! c = Some pc ∧ PeerID pc = p;
  wf_reconnecting : ∀ p r, reconnecting m !! p = Some r → is_Some (connections m !! p) ∧ is_Some (rstates m !! r);
}.

(** Objects stay, keep their peer, and move along the state machine. *)
Definition evolves (m m' : Manager) : Prop :=
  ∀ c pc, conns m !! c = Some pc →
    ∃ pc', conns m' !! c = Some pc' ∧ PeerID pc' = PeerID pc ∧ rtc edge (State pc) (State pc').

Definition T (m m' : Manager) : Prop := wf m → wf m' ∧ evolves m m'.

#[export] Instance T_refl : Reflexive T.
Proof. intros m Hm. split; [done |]. intros c pc Hc. eauto using rtc_refl. Qed.

#[export] Instance T_trans : Transitive T.
Proof.
  intros m1 m2 m3 H12 H23 Hm. destruct (H12 Hm) as [Hm2 E12], (H23 Hm2) as [Hm3 E23]. split; [done |].
  intros c pc Hc. destruct (E12 c pc Hc) as (pc2 & Hc2 & Hp2 & Hs2), (E23 c pc2 Hc2) as (pc3 & Hc3 & Hp3 & Hs3).
  exists pc3. split_and!; [done | congruence | by etrans].
Qed.

(** An action respects [T] in every state. *)
Definition ok {X} (f : ST Manager X) : Prop := ∀ m, T m (f m).2.

Lemma ok_ret {X} (x : X) : ok (mret x).
Proof. intros m. apply T_refl. Qed.

Lemma ok_gets {X} (f : Manager → X) : ok (st_gets f).
Proof. intros m. apply T_refl. Qed.

Lemma ok_get : ok st_get.
Proof. intros m. apply T_refl. Qed.

Lemma ok_bind {X Y} (f : ST Manager X) (k : X → ST Manager Y) : ok f → (∀ x, ok (k x)) → ok (f ≫= k).
Proof.
  intros Hf Hk m. unfold mbind, ST_bind. specialize (Hf m). destruct (f m) as [x m1]. etrans; [exact Hf | apply Hk].
Qed.

(** A method of [Peer] keeps the peer and follows the state machine. *)
Definition cell_ok {X} (f : ST cell X) : Prop :=
  ∀ cl, PeerID (pc (f cl).2) = PeerID (pc cl) ∧ rtc edge (State (pc cl)) (State (pc (f cl).2)).

Lemma ok_with_conn {X} `{Inhabited X} c (f : ST cell X) : cell_ok f → ok (with_conn c f).
Proof.
  intros Hf m Hm. unfold with_conn. destruct (conns m !! c) as [p|] eqn:Hc; [| by apply T_refl].
  specialize (Hf {| pc := p; rt := mrt m |}). destruct (f _) as [x cl]; cbn in *. destruct Hf as [Hp Hs]. split.
  - split; cbn.
    + intros c' [pc' Hc']. apply lookup_insert_Some in Hc' as [[<- _]|[_ Hc']]; by eapply (wf_objects m Hm).
    + intros q c' Hq. destruct (wf_connections m Hm q c' Hq) as (pc' & Hpc' & Hq').
      destruct (decide (c = c')) as [<- | Hne].
      * exists (pc cl). rewrite lookup_insert_eq. split; [done |]. rewrite Hp. simplify_eq. done.
      * exists pc'. by rewrite lookup_insert_ne.
    + apply (wf_reconnecting m Hm).
  - intros c' pc' Hc'. cbn. destruct (decide (c = c')) as [<- | Hne].
    + simplify_eq. exists (pc cl). by rewrite lookup_insert_eq.
    + exists pc'. rewrite lookup_insert_ne by done. by split_and!.
Qed.

Lemma cell_ok_gets {X} (f : cell → X) : cell_ok (st_gets f).
Proof. intros cl. by split. Qed.

(** A field update that keeps peer and state. *)
Lemma cell_ok_upd f : (∀ p, PeerID (f p) = PeerID p ∧ State (f p) = State p) → cell_ok (upd f).
Proof. intros Hf cl. cbn. destruct (Hf (pc cl)) as [-> ->]. by split. Qed.

Lemma cell_ok_TransitionTo s : cell_ok (TransitionTo s).
Proof.
  intros cl. destruct (decide (edge (State (pc cl)) s)) as [E | E].
  - rewrite TransitionTo_ok by done. split; [done |]. by apply rtc_once.
  - destruct (TransitionTo_err s cl E) as [e ->]. by split.
Qed.

Lemma cell_ok_StartCooldown d : cell_ok (StartCooldown d).
Proof.
  intros cl. split.
  - unfold StartCooldown. cell_unfold. by destruct (ValidateTransition _ _).
  - destruct (StartCooldown_state_step d cl) as [-> | E]; [done | by apply rtc_once].
Qed.

Lemma cell_ok_Cleanup : cell_ok Cleanup.
Proof. intros cl. by rewrite Cleanup_pc. Qed.

Lemma cell_ok_CancelHandshakeTimeout : cell_ok CancelHandshakeTimeout.
Proof. intros cl. by rewrite CancelHandshakeTimeout_pc. Qed.

Lemma cell_ok_SetSharedKey k : cell_ok (Peer.SetSharedKey k).
Proof. intros cl. by split. Qed.

(** Changes of the other fields. *)
Lemma ok_same f :
  (∀ m, conns (f m) = conns m ∧ connections (f m) = connections m ∧ reconnecting (f m) = reconnecting m
        ∧ dom (rstates (f m)) = dom (rstates m) ∧ next_obj m ≤ next_obj (f m)) →
  ok (st_modify f).
Proof.
  intros Hf m Hm. destruct (Hf m) as (Hc & Hcs & Hr & Hd & Hn). cbn. split.
  - split.
    + rewrite Hc. intros c Hx. apply (wf_objects m Hm) in Hx. lia.
    + rewrite Hc, Hcs. apply Hm.
    + rewrite Hcs, Hr. intros p r Hp. destruct (wf_reconnecting m Hm p r Hp) as [? Hs]. split; [done |].
      apply elem_of_dom. rewrite Hd. by apply elem_of_dom.
  - intros c pc Hx. exists pc. rewrite Hc. by split_and!.
Qed.

Lemma ok_set_rt f : ok (set_rt f).
Proof. by apply ok_same. Qed.
Lemma ok_set_book f : ok (set_book f).
Proof. by apply ok_same. Qed.
Lemma ok_set_done : ok set_done.
Proof. by apply ok_same. Qed.
Lemma ok_add_event e : ok (add_event e).
Proof. by apply ok_same. Qed.
Lemma ok_cancel_reconnect r : ok (cancel_reconnect r).
Proof. apply ok_same. intros m. cbn. by rewrite dom_alter_L. Qed.

(** Dropping entries of the maps. *)
Lemma ok_set_reconnecting f : (∀ x k v, f x !! k = Some v → x !! k = Some v) → ok (set_reconnecting f).
Proof.
  intros Hf m Hm. split; [| intros c pc Hc; exists pc; by split_and!]. split; cbn; [apply Hm | apply Hm |].
  intros p r Hp. by apply (wf_reconnecting m Hm), Hf.
Qed.

Lemma ok_delete_reconnecting p : ok (set_reconnecting (delete p)).
Proof. apply ok_set_reconnecting. intros x k v Hk. by apply lookup_delete_Some in Hk as [_ ?]. Qed.

Lemma ok_set_rstate r s : ok (set_rstates <[r := s]>).
Proof.
  intros m Hm. split; [| intros c pc Hc; exists pc; by split_and!]. split; cbn; [apply Hm | apply Hm |].
  intros p r' Hp. destruct (wf_reconnecting m Hm p r' Hp) as [? Hs]. split; [done |].
  rewrite lookup_insert. by case_decide.
Qed.

(** A new connection object and its map entry. *)
Lemma ok_new_conn p : ok (new_conn p).
Proof.
  intros m Hm. unfold new_conn, fresh, set_conns, set_connections, clock_now, st_gets, st_modify, mbind, ST_bind, mret, ST_ret; cbn.
  assert (conns m !! next_obj m = None) as Hfresh.
  { apply eq_None_not_Some. intros Hx%(wf_objects m Hm). lia. }
  split.
  - split; cbn.
    + intros c [pc Hc]. apply lookup_insert_Some in Hc as [[<- _]|[_ Hc]]; [lia |].
      pose proof (wf_objects m Hm c (mk_is_Some _ _ Hc)). lia.
    + intros q c Hq. apply lookup_insert_Some in Hq as [[<- <-]|[_ Hq]].
      * eexists. by rewrite lookup_insert_eq.
      * destruct (wf_connections m Hm q c Hq) as (pc & Hpc & Hpq). exists pc. split; [| done].
        rewrite lookup_insert_ne; [done |]. intros <-. congruence.
    + intros q r Hq. destruct (wf_reconnecting m Hm q r Hq) as [Hc Hr]. split; [| done].
      rewrite lookup_insert. by case_decide.
  - intros c pc Hc. exists pc. cbn. rewrite lookup_insert_ne by congruence. by split_and!.
Qed.
End Invariant.

Create HintDb manager.
#[export] Hint Resolve ok_ret ok_gets ok_get ok_with_conn ok_set_rt ok_set_book ok_set_done ok_add_event
  ok_cancel_reconnect ok_delete_reconnecting ok_set_rstate ok_new_conn cell_ok_gets cell_ok_TransitionTo
  cell_ok_StartCooldown cell_ok_Cleanup cell_ok_CancelHandshakeTimeout cell_ok_SetSharedKey : manager.

(** Runs an action on a state. *)
Ltac st_unfold :=
  unfold fresh, set_conns, set_connections, set_reconnecting, set_rstates, set_rt, set_book, find_conn, clock_now,
    st_get, st_gets, st_modify, mbind, ST_bind, mret, ST_ret.

(** Splits an action into its parts. *)
Ltac ok_tac :=
  intros; repeat first
    [ progress eauto with manager
    | apply ok_bind; intros
    | apply ok_with_conn
    | apply cell_ok_upd; intros; by split
    | case_match ].

Section Sections.
Context {B A : Type} `{PeerBook B A}.
Notation Manager := (Manager (B := B)).
Notation code := (prog (S := Manager) (P := proc) (Q := query (A := A)) (R := answer)) (only parsing).
Notation T := (T (B := B)).

Lemma ok_get_or_create p : ok (get_or_create p : ST Manager nat).
Proof. unfold get_or_create, find_conn. ok_tac. Qed.

Lemma ok_setupHandshakeTimeout c : ok (setupHandshakeTimeout c : ST Manager unit).
Proof. unfold setupHandshakeTimeout. ok_tac. Qed.

Lemma ok_connect_enter p : ok (connect_enter p : ST Manager (result error (nat * list A))).
Proof.
  unfold connect_enter. pose proof ok_get_or_create. ok_tac.
  all: try (unfold SetIsOutbound; ok_tac).
Qed.

(** A peer is only marked as reconnecting when it has a connection. *)
Lemma ok_register_reconnect p c :
  ∀ m : Manager, connections m !! p = Some c →
  T m ((r ← fresh; _ ← set_rstates <[r := NewReconnectState]>; _ ← set_reconnecting <[p := r]>; mret r) m).2.
Proof.
  intros m Hc Hm. st_unfold. cbn. split; [| intros c' pc Hc'; exists pc; by split_and!]. split; cbn.
  - intros c' Hc'. apply (wf_objects m Hm) in Hc'. lia.
  - apply Hm.
  - intros q r Hq. apply lookup_insert_Some in Hq as [[<- <-]|[_ Hq]].
    + split; [by eexists |]. rewrite lookup_insert_eq. by eexists.
    + destruct (wf_reconnecting m Hm q r Hq) as [? Hr]. split; [done |]. rewrite lookup_insert. by case_decide.
Qed.

(** Emptying both maps at once keeps the invariant. *)
Lemma ok_drop_all : ok (_ ← set_connections (λ _, ∅); set_reconnecting (λ _, ∅) : ST Manager unit).
Proof.
  intros m Hm. st_unfold. cbn. split; [| intros c pc Hc; exists pc; by split_and!]. split; cbn.
  - apply Hm.
  - intros p c. by rewrite lookup_empty.
  - intros p r. by rewrite lookup_empty.
Qed.

Lemma ok_for_all {X} (l : list X) (f : X → ST Manager unit) : (∀ x, ok (f x)) → ok (for_all l f).
Proof. intros Hf. induction l as [|x l IH]; cbn; ok_tac. Qed.

Lemma ok_update_last_seen p : ok (update_last_seen p : ST Manager unit).
Proof. unfold update_last_seen, clock_now. ok_tac. Qed.

Lemma respects_atomic {X} (f : ST Manager X) : ok f → respects T (atomic f : code X).
Proof. intros Hf. split; [exact Hf |]. done. Qed.

Lemma respects_emitEvent p st err : respects T (emitEvent p st err : code unit).
Proof. apply respects_atomic. unfold clock_now. ok_tac. Qed.
End Sections.

#[export] Hint Resolve ok_get_or_create ok_setupHandshakeTimeout ok_connect_enter ok_update_last_seen : manager.
#[export] Hint Resolve respects_emitEvent : manager.

(** Splits a method into its sections. *)
Ltac code_tac :=
  intros; repeat first
    [ exact I
    | progress eauto with manager
    | apply respects_bind; intros
    | apply respects_atomic; unfold find_conn, clock_now; ok_tac
    | match goal with |- respects _ (ask _) => done | |- respects _ (go _) => done | |- respects _ (mret _) => done end
    | case_match ].

Section Bodies.
Context {B A : Type} `{PeerBook B A}.
Notation Manager := (Manager (B := B)).
Notation code := (prog (S := Manager) (P := proc) (Q := query (A := A)) (R := answer)) (only parsing).
Notation T := (T (B := B)).

Lemma respects_startReconnection p : respects T (startReconnection p : code unit).
Proof.
  unfold startReconnection. apply respects_bind; [code_tac |]. intros [|]; [done |].
  apply respects_bind; [| code_tac].
  apply respects_atomic. intros m.
  unfold mbind at 1, ST_bind at 1, st_get at 1.
  destruct (reconnecting m !! p) as [r|] eqn:Hr; [by apply T_refl |].
  destruct (connections m !! p) as [c|] eqn:Hc; [| by apply T_refl].
  pose proof (ok_register_reconnect p c m Hc) as H1.
  assert (∀ r, ok (_ ← with_conn c (upd (set_reconnect (Some r))); _ ← with_conn c (TransitionTo StateReconnecting); mret (Some r) : ST Manager _)) as H2
    by ok_tac.
  etrans; [exact H1 |].
  specialize (H2 (next_obj m) ((r ← fresh; _ ← set_rstates <[r := NewReconnectState]>; _ ← set_reconnecting <[p := r]>; mret r) m).2).
  exact H2.
Qed.

Lemma respects_handleConnectFailure p e : respects T (handleConnectFailure p e : code unit).
Proof.
  unfold handleConnectFailure. apply respects_bind; [code_tac; unfold SetError; ok_tac |]. intros _.
  apply respects_bind; [code_tac |]. intros _. apply respects_startReconnection.
Qed.
End Bodies.

#[export] Hint Resolve respects_startReconnection respects_handleConnectFailure : manager.

Section AllBodies.
Context {B A : Type} `{PeerBook B A}.
Notation Manager := (Manager (B := B)).
Notation code := (prog (S := Manager) (P := proc) (Q := query (A := A)) (R := answer)) (only parsing).
Notation T := (T (B := B)).

Lemma respects_ConnectCtx p : respects T (ConnectCtx p : code _).
Proof. unfold ConnectCtx, connect_finish. code_tac. Qed.

Lemma respects_DisconnectCtx p : respects T (DisconnectCtx p : code _).
Proof. unfold DisconnectCtx. code_tac. Qed.

Lemma respects_CancelReconnection p : respects T (CancelReconnection p : code _).
Proof. unfold CancelReconnection. code_tac. Qed.

Lemma respects_handleHandshakeTimeout p : respects T (handleHandshakeTimeout p : code _).
Proof. unfold handleHandshakeTimeout, scheduleReconnectAfterCooldown. code_tac. Qed.

Lemma respects_timer_callback t : respects T (timer_callback t : code _).
Proof. unfold timer_callback, fire. pose proof respects_handleHandshakeTimeout. code_tac. Qed.

Lemma respects_after_cooldown p d : respects T (after_cooldown p d : code _).
Proof. unfold after_cooldown. code_tac. Qed.

Lemma respects_reconnectionLoop p r : respects T (reconnectionLoop p r : code _).
Proof.
  unfold reconnectionLoop, handleReconnectionExhausted, handleReconnectionCancelled, attemptReconnect, SetError. code_tac.
Qed.

Lemma respects_OnDisconnect p e : respects T (OnDisconnect p e : code _).
Proof. unfold OnDisconnect, SetError. code_tac. Qed.

Lemma respects_Shutdown : respects T (Shutdown : code _).
Proof.
  unfold Shutdown. apply respects_bind; [code_tac |]. intros _. apply respects_atomic.
  apply ok_bind; [apply ok_get |]. intros m.
  apply ok_bind; [apply ok_for_all; ok_tac |]. intros _.
  apply ok_bind; [apply ok_for_all; ok_tac |]. intros _. apply ok_drop_all.
Qed.

Lemma respects_SetSharedKey p k : respects T (SetSharedKey p k : code _).
Proof. unfold SetSharedKey, GetOrCreateConnection. code_tac. Qed.

Lemma respects_MarkEstablished p : respects T (MarkEstablished p : code _).
Proof. unfold MarkEstablished. code_tac. Qed.

Lemma respects_RegisterIncoming p : respects T (RegisterIncomingConnection p : code _).
Proof. unfold RegisterIncomingConnection, SetIsOutbound. code_tac. Qed.

Lemma respects_AutoConnect p : respects T (AutoConnect p : code _).
Proof. unfold AutoConnect, GetState. code_tac. Qed.

Lemma respects_CancelTimeout p : respects T (Manager_CancelHandshakeTimeout p : code _).
Proof. unfold Manager_CancelHandshakeTimeout. code_tac. Qed.

Lemma respects_discard {X} (m : code X) : respects T m → respects T (discard m).
Proof. intros Hm. unfold discard. by apply respects_bind. Qed.

Lemma respects_body p : respects T (body p : code unit).
Proof.
  destruct p; cbn [body]; try apply respects_discard;
    eauto using respects_ConnectCtx, respects_DisconnectCtx, respects_CancelReconnection, respects_timer_callback,
      respects_reconnectionLoop, respects_after_cooldown, respects_OnDisconnect, respects_Shutdown, respects_SetSharedKey,
      respects_MarkEstablished, respects_RegisterIncoming, respects_AutoConnect, respects_CancelTimeout.
Qed.

Lemma env_respects (m m' : Manager) : env m m' → T m m'.
Proof. intros [(u & _ & ->) | [(b & ->) | ->]]; [apply ok_set_rt | apply ok_set_book | apply ok_set_done]. Qed.

Notation system := (system (S := Manager) (P := proc) (Q := query (A := A)) (R := answer)) (only parsing).

(** A manager that has just been made, with no goroutine. *)
Definition initial (b : B) (cfg : ManagerConfig) (ev : bool) (now : time) : system :=
  {| shared := NewManager b cfg ev now; gos := [] |}.

Lemma wf_initial (b : B) cfg ev now : wf (NewManager b cfg ev now).
Proof.
  split; cbn.
  - intros c [? Hc]. by rewrite lookup_empty in Hc.
  - intros p c. by rewrite lookup_empty.
  - intros p r. by rewrite lookup_empty.
Qed.

Lemma mstep_respects (s s' : system) :
  rtc mstep s s' → all_respect T s → T (shared s) (shared s') ∧ all_respect T s'.
Proof. apply execution_respects; [apply respects_body | apply env_respects | apply _ | apply _]. Qed.
End AllBodies.

(** Consistency of the manager's maps in every interleaving: each entry of
    [connections] is an object of that very peer, and only a peer with a
    connection is being reconnected, by an existing reconnection state. *)
Theorem manager_consistent {B A : Type} `{PeerBook B A} (b : B) cfg ev now s :
  rtc mstep (initial b cfg ev now) s →
  (∀ p c, connections (shared s) !! p = Some c → ∃ pc, conns (shared s) !! c = Some pc ∧ PeerID pc = p)
  ∧ ∀ p r, reconnecting (shared s) !! p = Some r →
      is_Some (connections (shared s) !! p) ∧ is_Some (rstates (shared s) !! r).
Proof.
  intros Hr. destruct (mstep_respects _ _ Hr) as [Ht _]; [constructor |].
  destruct (Ht (wf_initial b cfg ev now)) as [Hw _]. split; apply Hw.
Qed.


(** ** Witnesses: a peer connects to us *)

Module InvariantWitness.
Import Concrete.
Definition concrete_system : Type := system (S := Manager (B := list string)) (P := proc) (Q := query (A := string)) (R := answer).
Notation start := (initial (A := string) ["Qm9"] cfg true 1000%Z).

Lemma called : mstep start {| shared := m0; gos := [body (PRegisterIncoming "Qm1")] |}.
Proof. exact (step_call body api answers env start (PRegisterIncoming "Qm1") I). Qed.

Lemma registered :
  ∃ s, mstep {| shared := m0; gos := [body (PRegisterIncoming "Qm1")] |} s
       ∧ connections (shared s) !! "Qm1" = Some 0 ∧ conns (shared s) !! 0 = Some (pc_of (shared s) 0)
       ∧ State (pc_of (shared s) 0) = StateConnected.
Proof.
  eexists. split.
  - eapply (step_atomic body api answers env {| shared := m0; gos := [body (PRegisterIncoming "Qm1")] |} 0). reflexivity.
  - split; [|split]; vm_compute; reflexivity.
Qed.

Lemma manager_consistent_witness :
  ∃ s, connections (shared s) !! "Qm1" = Some 0 ∧ rtc mstep start s
       ∧ ∃ pc, conns (shared s) !! 0 = Some pc ∧ PeerID pc = "Qm1".
Proof.
  destruct registered as (s & Hs & Hc & _). exists s. split; [exact Hc |].
  assert (Hr : rtc mstep start s) by (eapply rtc_l; [exact called | by apply rtc_once]).
  split; [exact Hr |]. exact (proj1 (manager_consistent _ _ _ _ _ Hr) "Qm1" 0 Hc).
Defined.

End InvariantWitness.
