(* ===== verification/ConnTimers.v ===== *)
(** * Handshake timers of the connection manager

    Becoming Connected and arming the handshake timer are one step: no
    interleaving shows a connection that has just become Connected without a
    timer that will fire.  And what the timer does when it fires. *)

From S2P Require Import Prelude Errors Interfaces ConnState Backoff Heap Crypto Dispatcher Peer Proc ConnManager ConnInvariant.

Section Quiet.
Context {B A : Type} `{PeerBook B A}.
Notation Manager := (Manager (B := B)).
Notation code := (prog (S := Manager) (P := proc) (Q := query (A := A)) (R := answer)) (only parsing).

(** No connection becomes Connected. *)
Definition still (m m' : Manager) : Prop :=
  ∀ c pc', conns m' !! c = Some pc' → State pc' = StateConnected →
    ∃ pc, conns m !! c = Some pc ∧ State pc = StateConnected.

Definition quiet {X} (f : ST Manager X) : Prop := ∀ m, still m (f m).2.

(** The timer of a connection that will fire after the handshake timeout. *)
Definition timer_armed (m : Manager) (p : PeerConnection) (started : time) : Prop :=
  ∃ t x, HandshakeTimer p = Some t ∧ HandshakeCancel p = Some t ∧ timers (mrt m) !! t = Some x
         ∧ armed (timers (mrt m)) t ∧ t_peer x = PeerID p
         ∧ t_deadline x = (started + HandshakeTimeout (config m))%Z.

(** A step after which every newly Connected connection has its timer. *)
Definition arms (m m' : Manager) : Prop :=
  ∀ c pc', conns m' !! c = Some pc' → State pc' = StateConnected →
    (∃ pc, conns m !! c = Some pc ∧ State pc = StateConnected) ∨ timer_armed m' pc' (clock (mrt m')).

#[export] Instance arms_refl : Reflexive arms.
Proof. intros m c pc Hc Hs. left. eauto. Qed.

Lemma still_arms m m' : still m m' → arms m m'.
Proof. intros Hs c pc Hc Hst. left. eauto. Qed.

Lemma quiet_same {X} (f : ST Manager X) : (∀ m, conns (f m).2 = conns m) → quiet f.
Proof. intros Hf m c pc. rewrite Hf. eauto. Qed.

Lemma quiet_ret {X} (x : X) : quiet (mret x).
Proof. by apply quiet_same. Qed.
Lemma quiet_gets {X} (f : Manager → X) : quiet (st_gets f).
Proof. by apply quiet_same. Qed.
Lemma quiet_get : quiet st_get.
Proof. by apply quiet_same. Qed.

Lemma quiet_bind {X Y} (f : ST Manager X) (k : X → ST Manager Y) : quiet f → (∀ x, quiet (k x)) → quiet (f ≫= k).
Proof.
  intros Hf Hk m c pc'. unfold mbind, ST_bind. specialize (Hf m). destruct (f m) as [x m1]. intros Hc Hs.
  destruct (Hk x m1 c pc' Hc Hs) as (pc1 & Hc1 & Hs1). exact (Hf c pc1 Hc1 Hs1).
Qed.

Definition cell_quiet {X} (f : ST cell X) : Prop :=
  ∀ cl, State (pc (f cl).2) = StateConnected → State (pc cl) = StateConnected.

Lemma quiet_with_conn {X} `{Inhabited X} c (f : ST cell X) : cell_quiet f → quiet (with_conn c f).
Proof.
  intros Hf m c' pc'. unfold with_conn. destruct (conns m !! c) as [p|] eqn:Hc; [| by eauto].
  specialize (Hf {| pc := p; rt := mrt m |}). destruct (f _) as [x cl]; cbn in *. intros Hc' Hs.
  apply lookup_insert_Some in Hc' as [[<- <-]|[_ Hc']]; eauto.
Qed.

Lemma cell_quiet_gets {X} (f : cell → X) : cell_quiet (st_gets f).
Proof. by intros cl. Qed.
Lemma cell_quiet_upd f : (∀ p, State (f p) = State p) → cell_quiet (upd f).
Proof. intros Hf cl. cbn. by rewrite Hf. Qed.

Lemma cell_quiet_TransitionTo s : s ≠ StateConnected → cell_quiet (TransitionTo s).
Proof.
  intros Hs cl. destruct (decide (edge (State (pc cl)) s)) as [E | E].
  - by rewrite TransitionTo_ok.
  - destruct (TransitionTo_err s cl E) as [e ->]. done.
Qed.

Lemma cell_quiet_StartCooldown d : cell_quiet (StartCooldown d).
Proof. intros cl. unfold StartCooldown. cell_unfold. by destruct (ValidateTransition _ _). Qed.
Lemma cell_quiet_Cleanup : cell_quiet Cleanup.
Proof. intros cl. by rewrite Cleanup_pc. Qed.
Lemma cell_quiet_CancelHandshakeTimeout : cell_quiet CancelHandshakeTimeout.
Proof. intros cl. by rewrite CancelHandshakeTimeout_pc. Qed.
Lemma cell_quiet_SetSharedKey k : cell_quiet (Peer.SetSharedKey k).
Proof. by intros cl. Qed.

Lemma quiet_set_reconnecting f : quiet (set_reconnecting f).
Proof. by apply quiet_same. Qed.
Lemma quiet_set_connections f : quiet (set_connections f).
Proof. by apply quiet_same. Qed.
Lemma quiet_set_rstates f : quiet (set_rstates f).
Proof. by apply quiet_same. Qed.
Lemma quiet_set_rt f : quiet (set_rt f).
Proof. by apply quiet_same. Qed.
Lemma quiet_set_book f : quiet (set_book f).
Proof. by apply quiet_same. Qed.
Lemma quiet_set_done : quiet set_done.
Proof. by apply quiet_same. Qed.
Lemma quiet_add_event e : quiet (add_event e).
Proof. by apply quiet_same. Qed.
Lemma quiet_cancel_reconnect r : quiet (cancel_reconnect r).
Proof. by apply quiet_same. Qed.
Lemma quiet_fresh : quiet fresh.
Proof. by apply quiet_same. Qed.

Lemma quiet_new_conn p : quiet (new_conn p).
Proof.
  intros m c pc'. unfold new_conn. st_unfold. cbn. intros Hc Hs.
  apply lookup_insert_Some in Hc as [[<- <-]|[_ Hc]]; [done | by eauto].
Qed.

Lemma quiet_for_all {X} (l : list X) (f : X → ST Manager unit) : (∀ x, quiet (f x)) → quiet (for_all l f).
Proof. intros Hf. induction l as [|x l IH]; cbn; [apply quiet_ret |]. apply quiet_bind; auto. Qed.

Lemma quiet_atomic {X} (f : ST Manager X) : quiet f → respects arms (atomic f : code X).
Proof. intros Hf. split; [| done]. intros m. apply still_arms, Hf. Qed.
End Quiet.

Create HintDb timers.
#[export] Hint Resolve quiet_ret quiet_gets quiet_get quiet_with_conn quiet_set_reconnecting quiet_set_connections
  quiet_set_rstates quiet_set_rt quiet_set_book quiet_set_done quiet_add_event quiet_cancel_reconnect quiet_fresh
  quiet_new_conn quiet_for_all cell_quiet_gets cell_quiet_StartCooldown cell_quiet_Cleanup
  cell_quiet_CancelHandshakeTimeout cell_quiet_SetSharedKey : timers.

Ltac quiet_tac :=
  intros; repeat first
    [ progress eauto with timers
    | apply cell_quiet_TransitionTo; discriminate
    | apply quiet_bind; intros
    | apply quiet_with_conn
    | apply cell_quiet_upd; intros; reflexivity
    | case_match ].

Ltac quiet_code :=
  intros; repeat first
    [ exact I
    | progress eauto with timers
    | apply respects_bind; intros
    | apply quiet_atomic; unfold find_conn, clock_now, SetError, SetIsOutbound; quiet_tac
    | match goal with |- respects _ (ask _) => done | |- respects _ (go _) => done | |- respects _ (mret _) => done end
    | case_match ].

Section Arms.
Context {B A : Type} `{PeerBook B A}.
Notation Manager := (Manager (B := B)).
Notation code := (prog (S := Manager) (P := proc) (Q := query (A := A)) (R := answer)) (only parsing).

Lemma quiet_get_or_create p : quiet (get_or_create p : ST Manager nat).
Proof. unfold get_or_create, find_conn. quiet_tac. Qed.

Lemma quiet_connect_enter p : quiet (connect_enter p : ST Manager (result error (nat * list A))).
Proof. unfold connect_enter, SetIsOutbound. pose proof quiet_get_or_create. quiet_tac. Qed.

(** [setupHandshakeTimeout] arms the connection's timer and keeps every state. *)
Lemma setup_arms c (m : Manager) :
  let m' := (setupHandshakeTimeout c m).2 in
  clock (mrt m') = clock (mrt m) ∧
  ∀ c' pc', conns m' !! c' = Some pc' →
    ∃ pc, conns m !! c' = Some pc ∧ State pc' = State pc ∧ (c' = c → timer_armed m' pc' (clock (mrt m'))).
Proof.
  cbv zeta. unfold setupHandshakeTimeout, with_conn. st_unfold. cbn.
  destruct (conns m !! c) as [p|] eqn:Hc; cbn; (split; [done |]); intros c' pc' Hc'.
  - apply lookup_insert_Some in Hc' as [[<- <-]|[Hne Hc']].
    + exists p. split_and!; [done | done |]. intros _. unfold timer_armed, armed. cbn.
      eexists _, _. rewrite lookup_insert_eq. split_and!; [done.. | by eexists | done | done].
    + exists pc'. split_and!; [done | done |]. by intros ->.
  - exists pc'. split_and!; [done | done |]. intros ->. congruence.
Qed.

(** The sections that make a connection Connected, then arm its timer. *)
Lemma arms_to_connected {X} c (f : ST Manager X) (m : Manager) :
  (∀ c' pc', c' ≠ c → conns (f m).2 !! c' = Some pc' → State pc' = StateConnected →
     ∃ pc, conns m !! c' = Some pc ∧ State pc = StateConnected) →
  arms m (setupHandshakeTimeout c (f m).2).2.
Proof.
  intros Hf c' pc' Hc' Hs. destruct (setup_arms c (f m).2) as [_ Hset]. cbv zeta in Hset.
  destruct (Hset c' pc' Hc') as (pc & Hpc & Hst & Harm). destruct (decide (c' = c)) as [-> | Hne]; [right; auto |].
  left. apply (Hf c' pc Hne Hpc). congruence.
Qed.

(** Any action on one connection leaves the others as they are. *)
Lemma with_conn_others {X} `{Inhabited X} c (f : ST cell X) (m : Manager) c' :
  c' ≠ c → conns (with_conn c f m).2 !! c' = conns m !! c'.
Proof.
  intros Hne. unfold with_conn. destruct (conns m !! c); [| done]. destruct (f _). cbn.
  by rewrite lookup_insert_ne.
Qed.

Lemma connect_finish_arms c : ∀ m : Manager, arms m (connect_finish c m).2.
Proof.
  intros m. unfold connect_finish, mbind, ST_bind.
  pose proof (λ c', with_conn_others c (TransitionTo StateConnected) m c') as Hoth.
  destruct (with_conn c (TransitionTo StateConnected) m) as [[e|] m1] eqn:E.
  - (* the transition was refused: nothing changed *)
    cbn. unfold with_conn in E. destruct (conns m !! c) as [p|] eqn:Hc; [| by inversion E].
    destruct (decide (edge (State p) StateConnected)) as [Ed | Ed].
    + rewrite (TransitionTo_ok _ {| pc := p; rt := mrt m |} Ed) in E. discriminate.
    + destruct (TransitionTo_err _ {| pc := p; rt := mrt m |} Ed) as [e' E']. rewrite E' in E. cbn in E. simplify_eq.
      apply still_arms. intros c' pc'. cbn. intros Hc' Hs.
      apply lookup_insert_Some in Hc' as [[<- <-]|[_ Hc']]; eauto.
  - pose proof (arms_to_connected c (λ m, (tt, m1)) m) as Ha. cbn in Ha.
    destruct (setupHandshakeTimeout c m1) as [u m2] eqn:E2. cbn in *. apply Ha.
    intros c' pc' Hne Hc' Hs. rewrite Hoth in Hc' by done. eauto.
Qed.

Lemma still_arms_trans (m1 m2 m3 : Manager) : still m1 m2 → arms m2 m3 → arms m1 m3.
Proof.
  intros H12 H23 c pc Hc Hs. destruct (H23 c pc Hc Hs) as [(pc2 & Hc2 & Hs2) | Ha]; [left | by right]. by eapply H12.
Qed.

Definition arming {X} (f : ST Manager X) : Prop := ∀ m, arms m (f m).2.

Lemma arming_bind_quiet {X Y} (f : ST Manager X) (k : X → ST Manager Y) :
  quiet f → (∀ x, arming (k x)) → arming (f ≫= k).
Proof.
  intros Hf Hk m. unfold mbind, ST_bind. specialize (Hf m). destruct (f m) as [x m1].
  eapply still_arms_trans; [exact Hf | apply Hk].
Qed.

Lemma arming_quiet {X} (f : ST Manager X) : quiet f → arming f.
Proof. intros Hf m. apply still_arms, Hf. Qed.

(** The pair of statements that three methods share. *)
Lemma arming_connected {X} c (x : X) :
  arming (_ ← with_conn c (TransitionTo StateConnected); _ ← setupHandshakeTimeout c; mret x).
Proof.
  intros m. unfold mbind, ST_bind, mret, ST_ret.
  pose proof (λ c', with_conn_others c (TransitionTo StateConnected) m c') as Hoth.
  pose proof (arms_to_connected c (with_conn c (TransitionTo StateConnected)) m) as Ha.
  destruct (with_conn c (TransitionTo StateConnected) m) as [e m1]. cbn in *.
  destruct (setupHandshakeTimeout c m1) as [u m2]. cbn in *. apply Ha.
  intros c' pc' Hne Hc' Hs. rewrite Hoth in Hc' by done. eauto.
Qed.

Lemma respects_arming {X} (f : ST Manager X) : arming f → respects arms (atomic f : code X).
Proof. intros Hf. split; [exact Hf |]. done. Qed.

Lemma attempt_section p :
  arming (e ← find_conn p;
          match e with
          | None => mret tt
          | Some c => _ ← with_conn c (TransitionTo StateConnected); setupHandshakeTimeout c
          end : ST Manager unit).
Proof.
  apply arming_bind_quiet; [unfold find_conn; quiet_tac |]. intros [c|]; [| apply arming_quiet; quiet_tac].
  intros m. pose proof (arming_connected c tt m) as Ha. revert Ha. unfold mbind, ST_bind, mret, ST_ret.
  destruct (with_conn _ _ _) as [e m1]. by destruct (setupHandshakeTimeout c m1) as [[] m2].
Qed.

Lemma respects_emit p st err : respects arms (emitEvent p st err : code unit).
Proof. apply quiet_atomic. unfold clock_now. quiet_tac. Qed.
End Arms.

#[export] Hint Resolve quiet_get_or_create quiet_connect_enter respects_emit : timers.

Section ArmsBodies.
Context {B A : Type} `{PeerBook B A}.
Notation Manager := (Manager (B := B)).
Notation code := (prog (S := Manager) (P := proc) (Q := query (A := A)) (R := answer)) (only parsing).

Lemma arms_startReconnection p : respects arms (startReconnection p : code unit).
Proof. unfold startReconnection. quiet_code. Qed.

Lemma arms_handleConnectFailure p e : respects arms (handleConnectFailure p e : code unit).
Proof. unfold handleConnectFailure. pose proof arms_startReconnection. quiet_code. Qed.

Lemma arms_ConnectCtx p : respects arms (ConnectCtx p : code _).
Proof.
  unfold ConnectCtx, update_last_seen. pose proof arms_handleConnectFailure.
  apply respects_bind; [done |]. intros [e|]; [done |].
  apply respects_bind; [quiet_code |]. intros [e|[c addrs]]; [done |].
  apply respects_bind; [quiet_code |]. intros _. apply respects_bind; [done |]. intros [e|]; [quiet_code |].
  apply respects_bind; [apply respects_arming; intros m; apply connect_finish_arms | quiet_code].
Qed.

Lemma arms_reconnectionLoop p r : respects arms (reconnectionLoop p r : code _).
Proof.
  unfold reconnectionLoop, handleReconnectionExhausted, handleReconnectionCancelled.
  assert (respects arms (attemptReconnect p : code _)) as Hatt.
  { unfold attemptReconnect, update_last_seen.
    apply respects_bind; [quiet_code |]. intros [e|addrs]; [done |].
    apply respects_bind; [done |]. intros [e|]; [done |].
    apply respects_bind; [apply respects_arming, attempt_section | quiet_code]. }
  quiet_code.
Qed.

Lemma arms_RegisterIncoming p : respects arms (RegisterIncomingConnection p : code _).
Proof.
  unfold RegisterIncomingConnection. apply respects_bind; [| quiet_code].
  apply respects_arming. apply arming_bind_quiet; [quiet_tac |]. intros c.
  apply arming_bind_quiet; [unfold SetIsOutbound; quiet_tac |]. intros _.
  apply arming_bind_quiet; [quiet_tac |]. intros st. case_bool_decide; [| apply arming_quiet; quiet_tac].
  apply arming_bind_quiet; [quiet_tac |]. intros _. apply arming_connected.
Qed.

Lemma arms_body p : respects arms (body p : code unit).
Proof.
  pose proof arms_startReconnection. pose proof arms_ConnectCtx. pose proof arms_reconnectionLoop. pose proof arms_RegisterIncoming.
  destruct p; cbn [body]; unfold discard, DisconnectCtx, CancelReconnection, timer_callback, fire, handleHandshakeTimeout,
    scheduleReconnectAfterCooldown, after_cooldown, OnDisconnect, Shutdown, SetSharedKey, GetOrCreateConnection,
    MarkEstablished, AutoConnect, GetState, Manager_CancelHandshakeTimeout; quiet_code.
Qed.

Lemma env_arms (m m' : Manager) : env m m' → arms m m'.
Proof. intros [(u & _ & ->) | [(b & ->) | ->]]; intros c pc Hc Hs; left; eauto. Qed.
End ArmsBodies.

(** C14. In every interleaving, a step that makes a connection Connected arms its
    handshake timer in the same step, for the configured timeout from now. *)
Theorem connected_arms_timer {B A : Type} `{PeerBook B A} (b : B) cfg ev now s s' c pc' :
  rtc mstep (initial b cfg ev now) s → mstep s s' →
  conns (shared s') !! c = Some pc' → State pc' = StateConnected →
  (∀ pc, conns (shared s) !! c = Some pc → State pc ≠ StateConnected) →
  timer_armed (shared s') pc' (clock (mrt (shared s'))).
Proof.
  intros Hr Hs Hc Hst Hnew.
  assert (all_respect arms s) as Ha.
  { clear Hs Hc Hst Hnew. remember (initial b cfg ev now) as s0 eqn:E.
    assert (all_respect arms s0) as H0 by (subst; constructor). clear E.
    induction Hr as [|s1 s2 s3 H12 _ IH]; [done |]. apply IH.
    exact (proj2 (step_respects body api answers env arms arms_body env_arms _ _ H12 H0)). }
  destruct (step_respects body api answers env arms arms_body env_arms _ _ Hs Ha) as [Hstep _].
  destruct (Hstep c pc' Hc Hst) as [(pc & Hpc & Hcon) | Harm]; [by apply Hnew in Hpc | done].
Qed.

(** ** Witness *)

Module TimersWitness.
Import Concrete InvariantWitness.

Lemma connected_arms_timer_witness :
  ∃ s : concrete_system, State (pc_of (shared s) 0) = StateConnected
       ∧ timer_armed (shared s) (pc_of (shared s) 0) (clock (mrt (shared s))).
Proof.
  destruct registered as (s & Hs & _ & Hc & Hst). exists s. split; [exact Hst |].
  apply (connected_arms_timer ["Qm9"] cfg true 1000%Z _ s 0 _ (rtc_once _ _ called) Hs Hc Hst).
  intros pc Hpc. vm_compute in Hpc. discriminate.
Defined.
End TimersWitness.
