(* ===== verification/ConnBehaviour.v ===== *)
(** * What the connection manager's methods do

    Each method run to its end by itself, on the answers of the environment
    that a function [ans] gives: the calls it makes, the goroutines it starts,
    the events it emits and the state it leaves. *)

From S2P Require Import Prelude Errors Interfaces ConnState Backoff Heap Crypto Dispatcher Peer Proc ConnManager ConnInvariant ConnTimers.

Section Behaviour.
Context {B A : Type} `{PeerBook B A}.
Notation Manager := (Manager (B := B)).
Notation code := (prog (S := Manager) (P := proc) (Q := query (A := A)) (R := answer)) (only parsing).
Notation Ans := (∀ q : query (A := A), answer q) (only parsing).

Definition event (m : Manager) (p : string) (st : ConnectionState) (err : option error) : Dispatcher.Event :=
  {| Dispatcher.PeerID := p; Dispatcher.State := st; Dispatcher.Error := err; Dispatcher.Timestamp := clock (mrt m) |}.

(** ** Running a method in pieces *)

(** A method of the connection object, when the object is there. *)
Lemma with_conn_runs {X} `{Inhabited X} c (f : ST cell X) (m : Manager) p :
  conns m !! c = Some p →
  with_conn c f m = (let (x, cl) := f {| pc := p; rt := mrt m |} in
                     (x, (set_rt (λ _, rt cl) (set_conns (<[c := pc cl]>) m).2).2)).
Proof. intros Hc. unfold with_conn. by rewrite Hc. Qed.

(** [emitEvent] appends one event, when there is an emitter. *)
Definition add_if (b : bool) (l : list Dispatcher.Event) (e : Dispatcher.Event) := if b then l ++ [e] else l.

Lemma run_emitEvent (ans : Ans) p st err (s : Manager) :
  let o := run ans (emitEvent p st err : code unit) s in
  spawned o = [] ∧ calls o = [] ∧ emitted (final o) = add_if (has_events s) (emitted s) (event s p st err)
  ∧ conns (final o) = conns s ∧ connections (final o) = connections s ∧ reconnecting (final o) = reconnecting s
  ∧ rstates (final o) = rstates s ∧ mrt (final o) = mrt s ∧ config (final o) = config s
  ∧ addressBook (final o) = addressBook s ∧ mgr_done (final o) = mgr_done s ∧ has_events (final o) = has_events s.
Proof.
  unfold emitEvent. cbv zeta. rewrite run_section. cbn [spawned calls final].
  unfold add_if, add_event. st_unfold. cbn. destruct (has_events s) eqn:E; cbn; by rewrite ?E.
Qed.
End Behaviour.

(** Symbolic execution of a run named [E], one rewriting hypothesis at a time. *)
Ltac exec_step E :=
  unfold emitEvent, with_conn, Peer.GetState, TransitionTo, StartCooldown, CancelHandshakeTimeout, SetIsOutbound, SetError,
    IsInCooldown in E;
  unfold find_conn, clock_now, set_rt, set_conns, set_connections, set_reconnecting, set_rstates, set_book, fresh,
    set_done, add_event, cancel_reconnect, get_pc, Now, upd, upd_timer in E;
  unfold st_get, st_gets, st_modify, atomic, ask, go, mbind, ST_bind, mret, ST_ret, prog_bind, prog_ret in E; cbn in E;
  rewrite ?lookup_insert_eq in E; cbn in E.

(** Decides tests on state constants. *)
Ltac is_state s :=
  lazymatch s with
  | StateDisconnected => idtac | StateConnecting => idtac | StateConnected => idtac
  | StateEstablished => idtac | StateReconnecting => idtac | StateCooldown => idtac
  end.
Ltac states_in E :=
  repeat match type of E with
  | context[bool_decide (?a = ?b)] =>
      is_state a; is_state b; let v := eval vm_compute in (bool_decide (a = b)) in change (bool_decide (a = b)) with v in E
  | context[ValidateTransition ?a ?b] =>
      is_state a; is_state b; let v := eval vm_compute in (ValidateTransition a b) in change (ValidateTransition a b) with v in E
  | context[IsActive ?a] =>
      is_state a; let v := eval vm_compute in (IsActive a) in change (IsActive a) with v in E
  end.

(** Rewrites with the facts that [t] rewrites with, as long as it helps. *)
Ltac exec_with E t :=
  repeat (progress (t; states_in E; rewrite ?lookup_insert_eq, ?insert_insert_eq in E; cbn in E)).

(** C15. When a handshake timer of a peer fires while the peer's connection waits
    for the handshake: the connection enters its cooldown, is disconnected, its timer
    is gone, and the reconnection after the cooldown is scheduled; until the
    cooldown ends a new connection attempt is refused. *)
Theorem handshake_timeout_enforced {B A : Type} `{PeerBook B A} (ans : ∀ q : query (A := A), answer q) (m : Manager (B := B)) p c pc t x :
  connections m !! p = Some c → conns m !! c = Some pc → State pc = StateConnected →
  timers (mrt m) !! t = Some x → armed (timers (mrt m)) t → t_peer x = p → (t_deadline x <= clock (mrt m))%Z →
  mgr_done m = false →
  let cooldown := FailedHandshakeCooldown (config m) in
  let o := run ans (timer_callback t) m in
  calls o = [QDisconnect p] ∧ spawned o = [PAfterCooldown p cooldown]
  ∧ (∃ pc', conns (final o) !! c = Some pc' ∧ State pc' = StateCooldown ∧ HandshakeTimer pc' = None
            ∧ CooldownUntil pc' = (clock (mrt m) + cooldown)%Z)
  ∧ emitted (final o) = add_if (has_events m) (emitted m) (event m p StateCooldown (Some (Errorf "handshake timeout" None))).
Proof.
  intros Hp Hc Hs Hx (x' & Hx' & Hst & Hca & Hfi) Hpeer Hdl Hd. rewrite Hx in Hx'. injection Hx' as <-. cbv zeta.
  destruct (run ans (timer_callback t) m) as [v mF sp cl] eqn:E. unfold timer_callback, fire in E. exec_step E.
  rewrite Hx in E. cbn in E. rewrite Hst, Hfi in E. cbn in E.
  replace (clock (mrt m) <? t_deadline x)%Z with false in E by (symmetry; apply Z.ltb_ge; lia). exec_step E.
  rewrite Hca, Hd in E. cbn in E. unfold handleHandshakeTimeout, scheduleReconnectAfterCooldown in E. exec_step E.
  exec_with E ltac:(rewrite ?Hpeer, ?Hp, ?Hc, ?Hs in E).
  destruct (HandshakeTimer pc), (HandshakeCancel pc), (has_events m) eqn:He; cbn in E; injection E as <- <- <- <-; cbn; rewrite ?He;
    (split; [done |]); (split; [done |]); (split; [| done]); rewrite lookup_insert_eq; eauto.
Qed.

(** A peer a connection attempt may start from: unknown so far, or with an
    idle connection. *)
Definition idle {B : Type} (m : Manager (B := B)) (p : string) : Prop :=
  (connections m !! p = None ∧ conns m !! next_obj m = None)
  ∨ ∃ c pc, connections m !! p = Some c ∧ conns m !! c = Some pc ∧ PeerID pc = p
            ∧ (State pc = StateDisconnected ∨ State pc = StateReconnecting).

Ltac connect_unfold E := unfold ConnectCtx, connect_enter, connect_finish, get_or_create, new_conn, setupHandshakeTimeout,
  update_last_seen, handleConnectFailure, startReconnection in E.

(** A blacklisted peer is refused before anything is sent. *)
Lemma connect_blacklisted {B A : Type} `{PeerBook B A} (ans : ∀ q : query (A := A), answer q) (m : Manager (B := B)) p :
  pb_IsBlacklisted (addressBook m) p = true →
  is_Some (value (run ans (ConnectCtx p) m)) ∧ calls (run ans (ConnectCtx p) m) = [QCtxErr]
  ∧ spawned (run ans (ConnectCtx p) m) = [].
Proof.
  intros Hb. destruct (run ans (ConnectCtx p) m) as [v mF sp cl] eqn:E. connect_unfold E. exec_step E.
  destruct (ans QCtxErr) as [e|]; cbn in E; rewrite ?Hb in E; cbn in E; injection E as <- <- <- <-; cbn;
    (split; [by eexists | done]).
Qed.

(** The book a successful attempt leaves. *)
Lemma connect_book {B A : Type} `{PeerBook B A} (ans : ∀ q : query (A := A), answer q) (m : Manager (B := B)) p addrs :
  idle m p → pb_IsBlacklisted (addressBook m) p = false → pb_GetPeer (addressBook m) p = Ok addrs →
  ans QCtxErr = None → ans (QConnect p addrs) = None →
  addressBook (final (run ans (ConnectCtx p) m)) = pb_UpdateLastSeen (clock (mrt m)) p (addressBook m).
Proof.
  intros Hidle Hb Hg Hctx Hans. destruct (run ans (ConnectCtx p) m) as [v mF sp cl] eqn:E. connect_unfold E. exec_step E.
  rewrite Hctx in E. cbn in E. rewrite Hb in E.
  destruct (has_events m) eqn:Hev; destruct Hidle as [[Hp Hf] | (c & pc & Hp & Hc & Hid & [Hs | Hs])].
  all: try (exec_with E ltac:(rewrite ?Hp, ?Hf, ?Hg, ?Hans, ?Hev in E); by injection E as <- <- <- <-).
  all: exec_with E ltac:(rewrite ?Hp, ?Hc, ?Hs, ?Hid, ?Hg, ?Hans, ?Hev in E); by injection E as <- <- <- <-.
Qed.

(** C33. A connection attempt that the network lets through: exactly one
    [host.Connect] with the peer's addresses, the connection is Connected and
    outbound, its handshake timer is armed, and Connecting and Connected are
    emitted in this order. *)
Theorem connect_succeeds {B A : Type} `{PeerBook B A} (ans : ∀ q : query (A := A), answer q) (m : Manager (B := B)) p addrs :
  idle m p → pb_IsBlacklisted (addressBook m) p = false → pb_GetPeer (addressBook m) p = Ok addrs →
  ans QCtxErr = None → ans (QConnect p addrs) = None → has_events m = true →
  let o := run ans (ConnectCtx p) m in
  value o = None ∧ calls o = [QCtxErr; QConnect p addrs] ∧ spawned o = []
  ∧ (∃ c pc', connections (final o) !! p = Some c ∧ conns (final o) !! c = Some pc'
       ∧ State pc' = StateConnected ∧ Peer.IsOutbound pc' = true ∧ timer_armed (final o) pc' (clock (mrt m)))
  ∧ emitted (final o) = emitted m ++ [event m p StateConnecting None; event m p StateConnected None]
  ∧ addressBook (final o) = pb_UpdateLastSeen (clock (mrt m)) p (addressBook m).
Proof.
  intros Hidle Hb Hg Hctx Hans Hev. cbv zeta.
  destruct (run ans (ConnectCtx p) m) as [v mF sp cl] eqn:E. connect_unfold E. exec_step E.
  rewrite Hctx in E. cbn in E. rewrite Hb in E.
  destruct Hidle as [[Hp Hf] | (c & pc & Hp & Hc & Hid & Hs)].
  - exec_with E ltac:(rewrite ?Hp, ?Hf, ?Hg, ?Hans, ?Hev in E). injection E as <- <- <- <-. cbn.
    split_and!; [done.. | | by rewrite <- app_assoc | done].
    eexists _, _. rewrite !lookup_insert_eq. split_and!; [done.. |]. unfold timer_armed, armed. cbn.
    eexists _, _. rewrite lookup_insert_eq. split_and!; [done.. | by eexists | done | done].
  - destruct Hs as [Hs | Hs];
      exec_with E ltac:(rewrite ?Hp, ?Hc, ?Hs, ?Hid, ?Hg, ?Hans, ?Hev in E); injection E as <- <- <- <-; cbn;
      (split_and!; [done.. | | by rewrite <- app_assoc | done]);
      eexists c, _; rewrite !lookup_insert_eq; (split_and!; [done.. |]); unfold timer_armed, armed; cbn;
      eexists _, _; rewrite lookup_insert_eq; (split_and!; [done.. | by eexists | done | done]).
Qed.

(** A connection attempt that the network refuses: the error is returned and
    kept, Connecting, Disconnected and Reconnecting are emitted, and one
    reconnection goroutine is started for the peer, which is now marked as
    reconnecting. *)
Theorem connect_fails {B A : Type} `{PeerBook B A} (ans : ∀ q : query (A := A), answer q) (m : Manager (B := B)) p addrs err :
  idle m p → pb_IsBlacklisted (addressBook m) p = false → pb_GetPeer (addressBook m) p = Ok addrs →
  ans QCtxErr = None → ans (QConnect p addrs) = Some err → has_events m = true → reconnecting m !! p = None →
  let o := run ans (ConnectCtx p) m in
  is_Some (value o) ∧ calls o = [QCtxErr; QConnect p addrs]
  ∧ (∃ r, spawned o = [PReconnectionLoop p r] ∧ reconnecting (final o) !! p = Some r
          ∧ rstates (final o) !! r = Some NewReconnectState)
  ∧ (∃ c pc', connections (final o) !! p = Some c ∧ conns (final o) !! c = Some pc'
       ∧ State pc' = StateReconnecting ∧ LastError pc' = Some err)
  ∧ emitted (final o)
    = emitted m ++ [event m p StateConnecting None; event m p StateDisconnected (Some err); event m p StateReconnecting None].
Proof.
  intros Hidle Hb Hg Hctx Hans Hev Hre. cbv zeta.
  destruct (run ans (ConnectCtx p) m) as [v mF sp cl] eqn:E. connect_unfold E. exec_step E.
  rewrite Hctx in E. cbn in E. rewrite Hb in E.
  destruct Hidle as [[Hp Hf] | (c & pc & Hp & Hc & Hid & [Hs | Hs])];
    [ exec_with E ltac:(rewrite ?Hp, ?Hf, ?Hg, ?Hans, ?Hev, ?Hb, ?Hre in E)
    | exec_with E ltac:(rewrite ?Hp, ?Hc, ?Hs, ?Hid, ?Hg, ?Hans, ?Hev, ?Hb, ?Hre in E) .. ];
    injection E as <- <- <- <-; cbn; rewrite ?lookup_insert_eq;
    (split; [by eexists |]); (split; [done |]);
    (split; [eexists; split; [done |]; split; [done | by rewrite lookup_insert_eq] |]);
    (split; [| by rewrite <- !app_assoc]); eexists _, _; (split; [done || exact Hp |]);
    rewrite lookup_insert_eq; by split_and!.
Qed.

(** The states in which [ConnectCtx] refuses before it does anything. *)
Definition refused {B A : Type} `{PeerBook B A} (ans : ∀ q : query (A := A), answer q) (m : Manager (B := B)) (p : string) : Prop :=
  is_Some (ans QCtxErr)
  ∨ pb_IsBlacklisted (addressBook m) p = true
  ∨ (∃ c pc, connections m !! p = Some c ∧ conns m !! c = Some pc
       ∧ (IsActive (State pc) = true
          ∨ State pc = StateCooldown ∧ (clock (mrt m) < CooldownUntil pc)%Z))
  ∨ (is_ok (pb_GetPeer (addressBook m) p) = false ∧ connections m !! p = None).

(** The refusals of [ConnectCtx]: a done context, a blacklisted peer, an
    active connection, a peer in cooldown, a peer the address book does not
    know.  Nothing is sent, started or emitted and no connection changes. *)
Theorem connect_refused {B A : Type} `{PeerBook B A} (ans : ∀ q : query (A := A), answer q) (m : Manager (B := B)) p :
  refused ans m p →
  let o := run ans (ConnectCtx p) m in
  is_Some (value o) ∧ calls o = [QCtxErr] ∧ spawned o = [] ∧ emitted (final o) = emitted m
  ∧ conns (final o) = conns m ∧ connections (final o) = connections m.
Proof.
  unfold refused. intros Hr. cbv zeta. destruct (run ans (ConnectCtx p) m) as [v mF sp cl] eqn:E. connect_unfold E. exec_step E.
  destruct (ans QCtxErr) as [e|] eqn:Hctx; cbn in E.
  { injection E as <- <- <- <-. cbn. split_and!; try done; by eexists. }
  destruct Hr as [[? ?] | [Hb | Hr]]; [done | |].
  { exec_with E ltac:(rewrite ?Hb in E). injection E as <- <- <- <-. cbn. split_and!; try done; by eexists. }
  destruct (pb_IsBlacklisted (addressBook m) p); cbn in E.
  { injection E as <- <- <- <-. cbn. split_and!; try done; by eexists. }
  destruct Hr as [(c & pc & Hp & Hc & Hs) | [Hg Hp]].
  - rewrite Hp in E. cbn in E. rewrite Hc in E. cbn in E. rewrite (insert_id _ _ _ Hc) in E.
    destruct (IsActive (State pc)) eqn:Ha; cbn in E.
    { injection E as <- <- <- <-. cbn. split_and!; try done; by eexists. }
    destruct Hs as [? | [Hs Hcd]]; [done |]. rewrite Hs in E. rewrite bool_decide_true in E by done. cbn in E.
    rewrite Hc in E. cbn in E. rewrite Hs in E. rewrite bool_decide_true in E by done. cbn in E.
    unfold GoTime.Before in E. replace (clock (mrt m) <? CooldownUntil pc)%Z with true in E by (symmetry; by apply Z.ltb_lt).
    cbn in E. rewrite (insert_id _ _ _ Hc) in E. injection E as <- <- <- <-. cbn. split_and!; try done; by eexists.
  - rewrite Hp in E. cbn in E. destruct (pb_GetPeer (addressBook m) p) as [e|?]; [| done]. cbn in E.
    injection E as <- <- <- <-. cbn. split_and!; try done; by eexists.
Qed.

(** Completing the handshake in time: the connection becomes Established, and
    its handshake timer, whenever its callback runs, no longer does anything. *)
Theorem established_not_timed_out {B A : Type} `{PeerBook B A} (ans : ∀ q : query (A := A), answer q) (m : Manager (B := B)) p c pc t :
  connections m !! p = Some c → conns m !! c = Some pc → State pc = StateConnected →
  HandshakeTimer pc = Some t → HandshakeCancel pc = Some t →
  let o := run ans (MarkEstablished p) m in
  value o = None
  ∧ (∃ pc', conns (final o) !! c = Some pc' ∧ State pc' = StateEstablished ∧ HandshakeTimer pc' = None)
  ∧ emitted (final o) = add_if (has_events m) (emitted m) (event m p StateEstablished None)
  ∧ run ans (timer_callback t) (final o) = {| value := tt; final := final o; spawned := []; calls := [] |}.
Proof.
  intros Hp Hc Hs Ht Hct. cbv zeta. destruct (run ans (MarkEstablished p) m) as [v mF sp cl] eqn:E.
  unfold MarkEstablished in E. exec_step E. exec_with E ltac:(rewrite ?Hp, ?Hc, ?Hs, ?Ht, ?Hct in E).
  assert (∃ m', {| value := v; final := mF; spawned := sp; calls := cl |} = {| value := None; final := m'; spawned := []; calls := [] |}
          ∧ conns m' = <[c := set_state StateEstablished (clock (mrt m)) (set_timer None None pc)]> (conns m)
          ∧ emitted m' = add_if (has_events m) (emitted m) (event m p StateEstablished None)
          ∧ timers (mrt m') = alter cancel_timeout t (alter stop_timer t (timers (mrt m)))) as (m' & E' & Hcs & Hem & Htm).
  { rewrite <- E. destruct (has_events m) eqn:Hev; cbn; eexists; rewrite ?Hev; by split_and!. }
  injection E' as -> -> -> ->. cbn [value final spawned calls]. split; [done |]. split.
  { eexists. rewrite Hcs, lookup_insert_eq. by split_and!. }
  split; [done |]. unfold timer_callback, fire, st_get, atomic, mbind, ST_bind, mret, ST_ret, prog_bind, prog_ret. cbn.
  rewrite Htm, !lookup_alter_eq. by destruct (timers (mrt m) !! t).
Qed.

(** ** Witnesses *)

Module BehaviourWitness.
Import Concrete.

(** The peer has connected to us and the handshake timeout has passed. *)
Definition waiting : Manager (B := list string) := at_clock 1050%Z (final (run accept (RegisterIncomingConnection "Qm1") m0)).

Lemma handshake_timeout_enforced_witness :
  let o := run accept (timer_callback 0) waiting in
  calls o = [QDisconnect "Qm1"] ∧ spawned o = [PAfterCooldown "Qm1" 500%Z].
Proof.
  assert (armed (timers (mrt waiting)) 0) as Ha by (exists (timer_of waiting 0); split_and!; concrete).
  destruct (handshake_timeout_enforced accept waiting "Qm1" 0 (pc_of waiting 0) 0 (timer_of waiting 0)) as (H1 & H2 & _);
    [concrete | concrete | concrete | concrete | exact Ha | concrete | concrete | concrete |].
  split; [exact H1 | exact H2].
Defined.

Lemma connect_succeeds_witness :
  let o := run accept (ConnectCtx "Qm1") m0 in
  value o = None ∧ emitted (final o) = [event m0 "Qm1" StateConnecting None; event m0 "Qm1" StateConnected None].
Proof.
  destruct (connect_succeeds accept m0 "Qm1" ["/ip4/10.0.0.1/tcp/4001"]) as (H1 & _ & _ & _ & H5 & _);
    [left; split; concrete | concrete .. |].
  split; [exact H1 | exact H5].
Defined.

Lemma connect_fails_witness :
  let o := run refuse (ConnectCtx "Qm1") m0 in
  is_Some (value o) ∧ ∃ r, spawned o = [PReconnectionLoop "Qm1" r].
Proof.
  destruct (connect_fails refuse m0 "Qm1" ["/ip4/10.0.0.1/tcp/4001"] ErrNodeNotStarted) as (H1 & _ & (r & H3 & _) & _);
    [left; split; concrete | concrete .. |].
  split; [exact H1 | exists r; exact H3].
Defined.

Lemma connect_refused_witness :
  let o := run accept (ConnectCtx "Qm9") m0 in is_Some (value o) ∧ calls o = [QCtxErr].
Proof.
  destruct (connect_refused accept m0 "Qm9") as (H1 & H2 & _); [right; left; concrete |]. split; [exact H1 | exact H2].
Defined.

Lemma established_not_timed_out_witness :
  let o := run accept (MarkEstablished "Qm1") waiting in
  value o = None ∧ run accept (timer_callback 0) (final o) = {| value := tt; final := final o; spawned := []; calls := [] |}.
Proof.
  destruct (established_not_timed_out accept waiting "Qm1" 0 (pc_of waiting 0) 0) as (H1 & _ & _ & H4); [concrete .. |].
  split; [exact H1 | exact H4].
Defined.
End BehaviourWitness.
