(* ===== verification/ConnRecovery.v ===== *)
(** * Incoming connections, reconnection and shutdown

    The rest of the connection manager's behaviour: what an incoming
    connection does, how many attempts a reconnection makes, what shutting
    down leaves, and where recovery falls short of its comments. *)

From S2P Require Import Prelude Errors Interfaces ConnState Backoff Heap Crypto Dispatcher Peer Proc ConnManager ConnInvariant ConnTimers ConnBehaviour.

(** A peer that may connect to us: without a connection, or with one that is
    Disconnected. *)
Definition may_connect {B : Type} (m : Manager (B := B)) (p : string) : Prop :=
  (connections m !! p = None ∧ conns m !! next_obj m = None)
  ∨ (∃ c pc, connections m !! p = Some c ∧ conns m !! c = Some pc ∧ PeerID pc = p ∧ State pc = StateDisconnected).

(** An incoming connection from an idle or unknown peer becomes Connected,
    inbound, with its handshake timer armed, and one event is emitted. *)
Theorem incoming_registered {B A : Type} `{PeerBook B A} (ans : ∀ q : query (A := A), answer q) (m : Manager (B := B)) p :
  may_connect m p →
  let o := run ans (RegisterIncomingConnection p) m in
  (∃ c pc', connections (final o) !! p = Some c ∧ conns (final o) !! c = Some pc'
     ∧ State pc' = StateConnected ∧ Peer.IsOutbound pc' = false ∧ timer_armed (final o) pc' (clock (mrt m)))
  ∧ emitted (final o) = add_if (has_events m) (emitted m) (event m p StateConnected None)
  ∧ value o = None ∧ calls o = [] ∧ spawned o = [].
Proof.
  intros Hp. cbv zeta. destruct (run ans (RegisterIncomingConnection p) m) as [v mF sp cl] eqn:E.
  unfold RegisterIncomingConnection, get_or_create, new_conn, setupHandshakeTimeout in E. exec_step E.
  destruct Hp as [[Hp Hf] | (c & pc & Hp & Hc & Hid & Hs)];
    [ exec_with E ltac:(rewrite ?Hp, ?Hf in E) | exec_with E ltac:(rewrite ?Hp, ?Hc, ?Hs, ?Hid in E) ];
    destruct (has_events m) eqn:Hev; cbn in E; injection E as <- <- <- <-; cbn; rewrite ?Hev;
    (split; [| by split_and!]); eexists _, _; (split; [exact Hp || by rewrite lookup_insert_eq |]);
    rewrite lookup_insert_eq; (split_and!; [done.. |]); unfold timer_armed, armed; cbn;
    eexists _, _; rewrite lookup_insert_eq; (split_and!; [done.. | by eexists | done | done]).
Qed.

(** In any other state an incoming connection is silently not registered: the
    call reports success, the connection is marked inbound and nothing else
    happens. *)
Theorem incoming_ignored {B A : Type} `{PeerBook B A} (ans : ∀ q : query (A := A), answer q) (m : Manager (B := B)) p c pc :
  connections m !! p = Some c → conns m !! c = Some pc → State pc ≠ StateDisconnected →
  let o := run ans (RegisterIncomingConnection p) m in
  value o = None ∧ spawned o = [] ∧ emitted (final o) = emitted m
  ∧ conns (final o) = <[c := set_outbound false pc]> (conns m) ∧ timers (mrt (final o)) = timers (mrt m).
Proof.
  intros Hp Hc Hs. cbv zeta. destruct (run ans (RegisterIncomingConnection p) m) as [v mF sp cl] eqn:E.
  unfold RegisterIncomingConnection, get_or_create in E. exec_step E.
  exec_with E ltac:(rewrite ?Hp, ?Hc, ?(bool_decide_false _ Hs) in E). injection E as <- <- <- <-. by split_and!.
Qed.

(** After the cooldown has expired [ConnectCtx] lets the peer pass, says its
    comment, but the state machine has no edge from Cooldown to Connecting:
    the attempt fails without calling the network. *)
Theorem expired_cooldown_refused {B A : Type} `{PeerBook B A} (ans : ∀ q : query (A := A), answer q) (m : Manager (B := B)) p c pc addrs :
  connections m !! p = Some c → conns m !! c = Some pc → State pc = StateCooldown →
  (CooldownUntil pc <= clock (mrt m))%Z →
  pb_IsBlacklisted (addressBook m) p = false → pb_GetPeer (addressBook m) p = Ok addrs → ans QCtxErr = None →
  let o := run ans (ConnectCtx p) m in
  is_Some (value o) ∧ calls o = [QCtxErr] ∧ spawned o = []
  ∧ ∃ pc', conns (final o) !! c = Some pc' ∧ State pc' = StateCooldown.
Proof.
  intros Hp Hc Hs Hcd Hb Hg Hctx. cbv zeta. destruct (run ans (ConnectCtx p) m) as [v mF sp cl] eqn:E.
  connect_unfold E. exec_step E. rewrite Hctx in E. cbn in E. rewrite Hb in E.
  assert (GoTime.Before (clock (mrt m)) (CooldownUntil pc) = false) as Hbf by by apply Z.ltb_ge.
  exec_with E ltac:(rewrite ?Hp, ?Hc, ?Hs, ?Hg, ?Hbf in E). injection E as <- <- <- <-. cbn.
  split; [by eexists |]. split_and!; [done | done |]. rewrite lookup_insert_eq. by eexists.
Qed.

(** A reconnection attempt that the network lets through reports Connected,
    but the connection stays Reconnecting (there is no edge to Connected), so
    that its handshake can neither complete nor time out. *)
Theorem reconnect_stays_reconnecting {B A : Type} `{PeerBook B A} (ans : ∀ q : query (A := A), answer q) (m : Manager (B := B)) p c pc addrs :
  connections m !! p = Some c → conns m !! c = Some pc → State pc = StateReconnecting →
  pb_GetPeer (addressBook m) p = Ok addrs → ans (QConnect p addrs) = None → has_events m = true →
  let o := run ans (attemptReconnect p) m in
  value o = None ∧ emitted (final o) = emitted m ++ [event m p StateConnected None]
  ∧ (∃ pc', conns (final o) !! c = Some pc' ∧ State pc' = StateReconnecting)
  ∧ is_Some (value (run ans (MarkEstablished p) (final o)))
  ∧ spawned (run ans (handleHandshakeTimeout p) (final o)) = [].
Proof.
  intros Hp Hc Hs Hg Hans Hev. cbv zeta. destruct (run ans (attemptReconnect p) m) as [v mF sp cl] eqn:E.
  unfold attemptReconnect, update_last_seen, setupHandshakeTimeout in E. exec_step E.
  exec_with E ltac:(rewrite ?Hp, ?Hc, ?Hs, ?Hg, ?Hans, ?Hev in E). injection E as <- <- <- <-.
  split; [done |]. split; [done |]. cbn [final]. split; [cbn; rewrite lookup_insert_eq; by eexists |].
  match goal with |- is_Some (value (run ans (MarkEstablished p) ?m')) ∧ _ => set (mF := m') end.
  assert (connections mF !! p = Some c) as Hp' by exact Hp.
  assert (∃ pc', conns mF !! c = Some pc' ∧ State pc' = StateReconnecting) as (pc' & Hc' & Hs').
  { eexists. split; [cbn; by rewrite lookup_insert_eq | done]. }
  clearbody mF. split.
  - destruct (run ans (MarkEstablished p) mF) as [v mG sp cl] eqn:E. unfold MarkEstablished in E. exec_step E.
    exec_with E ltac:(rewrite ?Hp', ?Hc', ?Hs' in E).
    destruct (HandshakeTimer pc'), (HandshakeCancel pc'); exec_with E ltac:(rewrite ?Hs' in E);
      injection E as <- <- <- <-; by eexists.
  - destruct (run ans (handleHandshakeTimeout p) mF) as [v mG sp cl] eqn:E. unfold handleHandshakeTimeout in E. exec_step E.
    exec_with E ltac:(rewrite ?Hp', ?Hc', ?Hs' in E). by injection E as <- <- <- <-.
Qed.

(** ** Reconnection gives up *)

Section Reconnection.
Context {B A : Type} `{PeerBook B A}.
Notation Manager := (Manager (B := B)).

(** The rounds of one reconnection goroutine, each continued by the goroutine
    the round starts for itself. *)
Fixpoint reconnect_rounds (fuel : nat) (ans : ∀ q : query (A := A), answer q) (p : string) (r : nat) (m : Manager)
    : option (Manager * list (query (A := A))) :=
  match fuel with
  | O => None
  | S fuel =>
      let o := run ans (reconnectionLoop p r) m in
      match spawned o with
      | [] => Some (final o, calls o)
      | _ => '(m', cs) ← reconnect_rounds fuel ans p r (final o); Some (m', calls o ++ cs)
      end
  end.

Definition is_connect (q : query (A := A)) : bool := match q with QConnect _ _ => true | _ => false end.

(** A round in which the network refuses. *)
Lemma failed_round (ans : ∀ q : query (A := A), answer q) (m : Manager) p r s addrs e :
  rstates m !! r = Some s → ShouldRetry (Attempts s) (ReconnectMaxAttempts (config m)) = true →
  pb_IsBlacklisted (addressBook m) p = false → pb_GetPeer (addressBook m) p = Ok addrs →
  ans (QConnect p addrs) = Some e → (∀ d ctx, ans (QSleep d ctx) = true) →
  let bc := NewBackoffCalculator (ReconnectBaseDelay (config m)) (ReconnectMaxDelay (config m)) in
  let s' := ScheduleNext bc (ans QJitter) (clock (mrt m)) s in
  run ans (reconnectionLoop p r) m
  = {| value := tt; final := (set_rstates <[r := s']> m).2; spawned := [PReconnectionLoop p r];
       calls := [QJitter; QSleep (CurrentDelay s') (CtxReconnect r); QConnect p addrs] |}.
Proof.
  intros Hr Hs Hb Hg Hans Hsl. cbv zeta. destruct (run ans (reconnectionLoop p r) m) as [v mF sp cl] eqn:E.
  unfold reconnectionLoop, attemptReconnect in E. exec_step E.
  rewrite Hr, Hs in E. cbn in E. rewrite Hr in E. cbn in E. rewrite Hsl in E. cbn in E. rewrite Hb in E. cbn in E.
  rewrite Hg in E. cbn in E. rewrite Hans in E. cbn in E. by injection E as <- <- <- <-.
Qed.

(** The round that gives up. *)
Lemma exhausted_round (ans : ∀ q : query (A := A), answer q) (m : Manager) p r s c pc :
  rstates m !! r = Some s → ShouldRetry (Attempts s) (ReconnectMaxAttempts (config m)) = false →
  connections m !! p = Some c → conns m !! c = Some pc → State pc = StateReconnecting → has_events m = true →
  let o := run ans (reconnectionLoop p r) m in
  spawned o = [] ∧ calls o = [] ∧ reconnecting (final o) !! p = None
  ∧ (∃ pc', conns (final o) !! c = Some pc' ∧ State pc' = StateDisconnected)
  ∧ emitted (final o) = emitted m ++ [event m p StateDisconnected (Some (Errorf "max reconnection attempts reached" None))].
Proof.
  intros Hr Hs Hp Hc Hst Hev. cbv zeta. destruct (run ans (reconnectionLoop p r) m) as [v mF sp cl] eqn:E.
  unfold reconnectionLoop, handleReconnectionExhausted in E. exec_step E.
  exec_with E ltac:(rewrite ?Hr, ?Hs, ?Hp, ?Hc, ?Hst, ?Hev in E). injection E as <- <- <- <-. cbn.
  rewrite lookup_delete_eq, lookup_insert_eq. split_and!; try done. by eexists.
Qed.
End Reconnection.

(** C29. With [max] attempts configured and a network that refuses every one, a
    reconnection makes exactly [max] connection attempts and then ends: the
    peer is no longer reconnecting, its connection is Disconnected, and the
    exhaustion is emitted. *)
Theorem reconnection_gives_up {B A : Type} `{PeerBook B A} (ans : ∀ q : query (A := A), answer q) p r addrs e (n : nat) :
  ∀ (m : Manager (B := B)) s c pc,
  rstates m !! r = Some s → (0 <= Attempts s)%Z → (Attempts s + Z.of_nat n = ReconnectMaxAttempts (config m))%Z →
  (0 < ReconnectMaxAttempts (config m) < 2 ^ 63)%Z →
  pb_IsBlacklisted (addressBook m) p = false → pb_GetPeer (addressBook m) p = Ok addrs →
  ans (QConnect p addrs) = Some e → (∀ d ctx, ans (QSleep d ctx) = true) →
  connections m !! p = Some c → conns m !! c = Some pc → State pc = StateReconnecting → has_events m = true →
  ∃ mF cs, reconnect_rounds (S n) ans p r m = Some (mF, cs)
    ∧ length (List.filter is_connect cs) = n
    ∧ reconnecting mF !! p = None
    ∧ (∃ pc', conns mF !! c = Some pc' ∧ State pc' = StateDisconnected)
    ∧ emitted mF = emitted m ++ [event m p StateDisconnected (Some (Errorf "max reconnection attempts reached" None))].
Proof.
  induction n as [|n IH]; intros m s c pc Hr H0 Hn Hmax Hb Hg Hans Hsl Hp Hc Hst Hev.
  - assert (ShouldRetry (Attempts s) (ReconnectMaxAttempts (config m)) = false) as Hs.
    { unfold ShouldRetry. replace (_ =? 0)%Z with false by (symmetry; apply Z.eqb_neq; lia). apply Z.ltb_ge. lia. }
    destruct (exhausted_round ans m p r s c pc Hr Hs Hp Hc Hst Hev) as (Hsp & Hca & Hre & Hpc & Hem).
    cbn [reconnect_rounds]. rewrite Hsp. eexists _, _. split; [done |]. rewrite Hca. by split_and!.
  - assert (ShouldRetry (Attempts s) (ReconnectMaxAttempts (config m)) = true) as Hs.
    { unfold ShouldRetry. replace (_ =? 0)%Z with false by (symmetry; apply Z.eqb_neq; lia). apply Z.ltb_lt. lia. }
    pose proof (failed_round ans m p r s addrs e Hr Hs Hb Hg Hans Hsl) as Hrun. cbv zeta in Hrun.
    set (s' := ScheduleNext _ _ _ s) in Hrun. remember (S n) as k eqn:Ek.
    cbn [reconnect_rounds]. rewrite Hrun. cbn [spawned final calls].
    assert (Attempts s' = Attempts s + 1)%Z as Ha.
    { unfold s', ScheduleNext; cbn. apply wrap64_id. unfold in_int64, minInt64, maxInt64. lia. }
    clearbody s'. destruct (IH (set_rstates <[r := s']> m).2 s' c pc) as (mF & cs & Hrec & Hlen & Hre & Hpc & Hem); try done.
    { cbn. by rewrite lookup_insert_eq. } { lia. } { cbn. lia. }
    subst k. rewrite Hrec. cbn. eexists _, _. split; [done |]. cbn. rewrite Hlen. by split_and!.
Qed.

(** ** Shutting down *)

Section ShutdownLemmas.
Context {B : Type}.
Notation Manager := (Manager (B := B)).

Lemma for_all_cleanup (l : list nat) (m : Manager) :
  let m' := (for_all l (λ c, with_conn c Cleanup) m).2 in
  connections m' = connections m ∧ reconnecting m' = reconnecting m ∧ rstates m' = rstates m ∧ mgr_done m' = mgr_done m
  ∧ ∀ c pc, conns m !! c = Some pc →
      ∃ pc', conns m' !! c = Some pc' ∧ State pc' = State pc
             ∧ (c ∈ l → HandshakeTimer pc' = None ∧ SharedKey pc' = None)
             ∧ (HandshakeTimer pc = None → HandshakeTimer pc' = None) ∧ (SharedKey pc = None → SharedKey pc' = None).
Proof.
  cbv zeta. revert m. induction l as [|x l IH]; intros m.
  { split_and!; try done. intros c pc Hc. exists pc. split_and!; try done. by intros ?%elem_of_nil. }
  cbn [for_all]. unfold mbind, ST_bind.
  assert (∃ m1, with_conn x Cleanup m = (tt, m1) ∧ connections m1 = connections m ∧ reconnecting m1 = reconnecting m
          ∧ rstates m1 = rstates m ∧ mgr_done m1 = mgr_done m
          ∧ ∀ c pc, conns m !! c = Some pc → ∃ pc1, conns m1 !! c = Some pc1 ∧ State pc1 = State pc
              ∧ (c = x → HandshakeTimer pc1 = None ∧ SharedKey pc1 = None)
              ∧ (HandshakeTimer pc = None → HandshakeTimer pc1 = None) ∧ (SharedKey pc = None → SharedKey pc1 = None)) as (m1 & E & Hcs & Hre & Hrs & Hd & H1).
  { unfold with_conn. destruct (conns m !! x) as [p|] eqn:Hx; cycle 1.
    - exists m. split_and!; try done. intros c pc Hc. exists pc. split_and!; try done. intros ->. congruence.
    - pose proof (Cleanup_pc {| pc := p; rt := mrt m |}) as Hcl. destruct (Cleanup _) as [[] cl]. cbn in Hcl.
      eexists. split_and!; try done. intros c pc Hc. cbn. destruct (decide (c = x)) as [-> | Hne].
      + rewrite lookup_insert_eq. simplify_eq. eexists. split; [done |]. rewrite Hcl. by split_and!.
      + rewrite lookup_insert_ne by done. exists pc. by split_and!. }
  rewrite E. destruct (IH m1) as (Hcs' & Hre' & Hrs' & Hd' & H2).
  split_and!; try congruence. intros c pc Hc.
  destruct (H1 c pc Hc) as (pc1 & Hc1 & Hs1 & Hx1 & Ht1 & Hk1), (H2 c pc1 Hc1) as (pc2 & Hc2 & Hs2 & Hx2 & Ht2 & Hk2).
  exists pc2. split_and!; try done; try congruence; try (intros; auto; fail).
  intros [->|Hin]%elem_of_cons; [destruct (Hx1 eq_refl); auto | auto].
Qed.

Lemma for_all_cancel (l : list nat) (m : Manager) :
  let m' := (for_all l cancel_reconnect m).2 in
  connections m' = connections m ∧ reconnecting m' = reconnecting m ∧ conns m' = conns m ∧ mgr_done m' = mgr_done m
  ∧ ∀ r s, rstates m !! r = Some s →
      ∃ s', rstates m' !! r = Some s' ∧ (r ∈ l → rs_cancelled s' = true) ∧ (rs_cancelled s = true → rs_cancelled s' = true).
Proof.
  cbv zeta. revert m. induction l as [|x l IH]; intros m.
  { split_and!; try done. intros r s Hr. exists s. split_and!; try done. by intros ?%elem_of_nil. }
  cbn [for_all]. unfold mbind, ST_bind. destruct (cancel_reconnect x m) as [[] m1] eqn:E.
  assert (m1 = (cancel_reconnect x m).2) as -> by by rewrite E. clear E.
  destruct (IH (cancel_reconnect x m).2) as (Hcs' & Hre' & Hc' & Hd' & H2). split_and!; try done.
  intros r s Hr.
  assert (∃ s1, rstates (cancel_reconnect x m).2 !! r = Some s1 ∧ (r = x → rs_cancelled s1 = true) ∧ (rs_cancelled s = true → rs_cancelled s1 = true)) as (s1 & Hs1 & Hx1 & Hk1).
  { cbn. rewrite lookup_alter. case_decide as Hrx; [subst; rewrite Hr; cbn; eexists; by split_and! | exists s; by split_and!]. }
  destruct (H2 r s1 Hs1) as (s2 & Hs2 & Hx2 & Hk2). exists s2. split_and!; [done | | auto].
  intros [->|Hin]%elem_of_cons; auto.
Qed.
End ShutdownLemmas.

(** A connection that holds nothing any more. *)
Definition released (pc : PeerConnection) : Prop := HandshakeTimer pc = None ∧ SharedKey pc = None.

(** Shutting the manager down empties both maps, cancels every reconnection,
    takes the timer and the key from every connection, and makes every timer
    callback and every waiting goroutine of the manager end. *)
Theorem shutdown_stops {B A : Type} `{PeerBook B A} (ans : ∀ q : query (A := A), answer q) (m : Manager (B := B)) :
  let o := run ans Shutdown m in
  connections (final o) = ∅ ∧ reconnecting (final o) = ∅ ∧ mgr_done (final o) = true ∧ calls o = [] ∧ spawned o = []
  ∧ (∀ p c pc, connections m !! p = Some c → conns m !! c = Some pc →
       ∃ pc', conns (final o) !! c = Some pc' ∧ released pc')
  ∧ (∀ p r s, reconnecting m !! p = Some r → rstates m !! r = Some s →
       ∃ s', rstates (final o) !! r = Some s' ∧ rs_cancelled s' = true)
  ∧ ∀ ctx, context_done (final o) ctx = true.
Proof.
  cbv zeta. destruct (run ans Shutdown m) as [v mF sp cl] eqn:E.
  unfold Shutdown, set_done, st_modify, st_get, atomic, mbind, ST_bind, mret, ST_ret, prog_bind, prog_ret in E. cbn in E.
  match type of E with context[for_all ?l (λ c, with_conn c Cleanup) ?m0] =>
    pose proof (for_all_cleanup l m0) as H1; cbv zeta in H1;
    destruct (for_all l (λ c, with_conn c Cleanup) m0) as [u1 m1] end.
  cbn in H1. destruct H1 as (Hcs1 & Hre1 & Hrs1 & Hd1 & Hcl).
  match type of E with context[for_all ?l cancel_reconnect ?m0] =>
    pose proof (for_all_cancel l m0) as H2; cbv zeta in H2;
    destruct (for_all l cancel_reconnect m0) as [u2 m2] end.
  cbn in H2. destruct H2 as (Hcs2 & Hre2 & Hc2 & Hd2 & Hca).
  cbn in E. injection E as <- <- <- <-. cbn.
  assert (mgr_done m2 = true) as Hdone by congruence. rewrite Hdone.
  split_and!; try done.
  - intros p c pc Hp Hc. destruct (Hcl c pc Hc) as (pc' & Hpc & _ & Hin & _).
    exists pc'. rewrite Hc2. split; [done |]. apply Hin. apply list_elem_of_fmap. exists (p, c). split; [done |].
    by apply elem_of_map_to_list.
  - intros p r s Hp Hr. rewrite <- Hrs1 in Hr. destruct (Hca r s) as (s' & Hs' & Hin & _); [by rewrite <- Hr |].
    exists s'. split; [done |]. apply Hin. apply list_elem_of_fmap. exists (p, r). split; [done |].
    by apply elem_of_map_to_list.
Qed.

(** A reconnection goroutine that succeeds removes the peer's entry whoever
    made it: when the reconnection was cancelled and started again meanwhile,
    the newer goroutine goes on without an entry, and can no longer be
    cancelled. *)
Theorem finished_loop_drops_newer {B A : Type} `{PeerBook B A} (ans : ∀ q : query (A := A), answer q) (m : Manager (B := B)) p r r' s s' addrs :
  r ≠ r' → rstates m !! r = Some s → reconnecting m !! p = Some r' → rstates m !! r' = Some s' → rs_cancelled s' = false →
  ShouldRetry (Attempts s) (ReconnectMaxAttempts (config m)) = true → (∀ d ctx, ans (QSleep d ctx) = true) →
  pb_IsBlacklisted (addressBook m) p = false → pb_GetPeer (addressBook m) p = Ok addrs → ans (QConnect p addrs) = None →
  let o := run ans (reconnectionLoop p r) m in
  reconnecting (final o) !! p = None ∧ rstates (final o) !! r' = Some s'
  ∧ is_Some (value (run ans (CancelReconnection p) (final o))).
Proof.
  intros Hne Hr Hre Hr' Hca Hs Hsl Hb Hg Hans. cbv zeta.
  destruct (run ans (reconnectionLoop p r) m) as [v mF sp cl] eqn:E.
  assert (reconnecting mF = delete p (reconnecting m) ∧ rstates mF !! r' = Some s') as [Hre' Hrs'].
  { unfold reconnectionLoop, attemptReconnect, update_last_seen, setupHandshakeTimeout in E. exec_step E.
    rewrite Hr, Hs in E. cbn in E. rewrite Hr in E. cbn in E. rewrite Hsl in E. cbn in E. rewrite Hb in E. cbn in E.
    rewrite Hg in E. cbn in E. rewrite Hans in E. cbn in E.
    assert (rstates mF !! r' = <[r := ScheduleNext (NewBackoffCalculator (ReconnectBaseDelay (config m)) (ReconnectMaxDelay (config m))) (ans QJitter) (clock (mrt m)) s]> (rstates m) !! r' → rstates mF !! r' = Some s') as Hgoal.
    { intros ->. by rewrite lookup_insert_ne. }
    destruct (connections m !! p) as [c|] eqn:Hp; [destruct (conns m !! c) as [pc|] eqn:Hc; [destruct (ValidateTransition (State pc) StateConnected) eqn:Hv |] |];
      destruct (has_events m) eqn:Hev;
      exec_with E ltac:(rewrite ?Hp, ?Hc, ?Hev, ?Hv in E); injection E as <- <- <- <-; cbn in Hgoal |- *; auto. }
  cbn [final]. rewrite Hre', lookup_delete_eq. split; [done |]. split; [done |].
  destruct (run ans (CancelReconnection p) mF) as [v2 m2 sp2 cl2] eqn:E2. unfold CancelReconnection in E2. exec_step E2.
  rewrite Hre', lookup_delete_eq in E2. cbn in E2. injection E2 as <- <- <- <-. by eexists.
Qed.

(** ** A stale timer

    A concrete execution: a reconnection that reached the network armed a
    timer (at 1000, for 50); the reconnection was cancelled; the peer connects
    to us at 1040, with its own timer.  At 1050 the old timer ends the new
    handshake, 40 time units before its timeout. *)

Module Stale.
Import Concrete.

(** The connection attempt fails, and the reconnection's first attempt reaches the peer. *)
Definition m1 : Manager (B := list string) := final (run refuse (ConnectCtx "Qm1") m0).
Definition m2 : Manager (B := list string) := final (run accept (attemptReconnect "Qm1") m1).
Definition m3 : Manager (B := list string) := final (run accept (CancelReconnection "Qm1") m2).
(** The peer connects to us 40 later. *)
Definition m4 : Manager (B := list string) := final (run accept (RegisterIncomingConnection "Qm1") (at_clock 1040%Z m3)).
Definition m5 : Manager (B := list string) := final (run accept (timer_callback 0) (at_clock 1050%Z m4)).
End Stale.

(** The old timer survives the cancelled reconnection and ends the new
    connection's handshake after 10 of its 50 time units. *)
Theorem stale_timer_ends_new_handshake :
  Concrete.state_of Stale.m2 = StateReconnecting ∧ Concrete.state_of Stale.m3 = StateDisconnected
  ∧ Concrete.state_of Stale.m4 = StateConnected
  ∧ (t_deadline <$> timers (mrt Stale.m4) !! 1) = Some 1090%Z
  ∧ Concrete.state_of Stale.m5 = StateCooldown ∧ clock (mrt Stale.m5) = 1050%Z.
Proof. by vm_compute. Qed.

(** ** Witnesses *)

Module RecoveryWitness.
Import Concrete.

Lemma incoming_registered_witness :
  let o := run accept (RegisterIncomingConnection "Qm1") m0 in
  value o = None ∧ emitted (final o) = [event m0 "Qm1" StateConnected None].
Proof.
  destruct (incoming_registered accept m0 "Qm1") as (_ & H2 & H3 & _); [left; split; concrete |]. split; [exact H3 | exact H2].
Defined.

Lemma incoming_ignored_witness :
  let o := run accept (RegisterIncomingConnection "Qm1") Stale.m2 in
  value o = None ∧ emitted (final o) = emitted Stale.m2.
Proof.
  destruct (incoming_ignored accept Stale.m2 "Qm1" 0 (pc_of Stale.m2 0)) as (H1 & _ & H3 & _); [concrete .. |].
  split; [exact H1 | exact H3].
Defined.

Lemma expired_cooldown_refused_witness :
  let m := at_clock 2000%Z Stale.m5 in
  let o := run accept (ConnectCtx "Qm1") m in is_Some (value o) ∧ calls o = [QCtxErr].
Proof.
  destruct (expired_cooldown_refused accept (at_clock 2000%Z Stale.m5) "Qm1" 0 (pc_of Stale.m5 0) ["/ip4/10.0.0.1/tcp/4001"])
    as (H1 & H2 & _); [concrete .. |].
  split; [exact H1 | exact H2].
Defined.

Lemma reconnect_stays_reconnecting_witness :
  let o := run accept (attemptReconnect "Qm1") Stale.m1 in
  value o = None ∧ is_Some (value (run accept (MarkEstablished "Qm1") (final o))).
Proof.
  destruct (reconnect_stays_reconnecting accept Stale.m1 "Qm1" 0 (pc_of Stale.m1 0) ["/ip4/10.0.0.1/tcp/4001"])
    as (H1 & _ & _ & H4 & _); [concrete .. |].
  split; [exact H1 | exact H4].
Defined.

Lemma reconnection_gives_up_witness :
  ∃ mF cs, reconnect_rounds 4 refuse "Qm1" 1 Stale.m1 = Some (mF, cs)
           ∧ length (List.filter is_connect cs) = 3 ∧ reconnecting mF !! "Qm1" = None.
Proof.
  destruct (reconnection_gives_up refuse "Qm1" 1 ["/ip4/10.0.0.1/tcp/4001"] ErrNodeNotStarted 3 Stale.m1 NewReconnectState 0 (pc_of Stale.m1 0))
    as (mF & cs & H1 & H2 & H3 & _); [concrete | concrete | concrete | concrete | concrete | concrete | concrete | done | concrete .. |].
  exists mF, cs. split; [exact H1 | split; [exact H2 | exact H3]].
Defined.

Lemma shutdown_stops_witness :
  ∃ pc', conns (final (run accept Shutdown Stale.m4)) !! 0 = Some pc' ∧ HandshakeTimer pc' = None.
Proof.
  destruct (shutdown_stops accept Stale.m4) as (_ & _ & _ & _ & _ & H6 & _).
  destruct (H6 "Qm1" 0 (pc_of Stale.m4 0)) as (pc' & H7 & [H8 _]); [concrete | concrete |]. exists pc'. split; [exact H7 | exact H8].
Defined.

(** Two reconnections of one peer: the first one is in its attempt when it is
    cancelled and a second one is started. *)
Definition two_loops : Manager (B := list string) :=
  (set_rstates <[7 := NewReconnectState]> ((set_reconnecting <["Qm1" := 7]> Stale.m1).2)).2.

Lemma finished_loop_drops_newer_witness :
  let o := run accept (reconnectionLoop "Qm1" 1) two_loops in
  reconnecting (final o) !! "Qm1" = None ∧ rstates (final o) !! 7 = Some NewReconnectState.
Proof.
  destruct (finished_loop_drops_newer accept two_loops "Qm1" 1 7 NewReconnectState NewReconnectState ["/ip4/10.0.0.1/tcp/4001"])
    as (H1 & H2 & _); [done | concrete | concrete | concrete | concrete | concrete | done | concrete .. |].
  split; [exact H1 | exact H2].
Defined.
End RecoveryWitness.
