(* ===== verification/System.v ===== *)
(** * Components together

    Properties of the address book, the gater and the connection manager as
    the node wires them ([node.go]): the manager and the gater are clients of
    the [PeerBook] interface, the address book implements it. *)

From S2P Require Import Prelude Errors Interfaces Storage AddressBook ConnState Backoff Heap Crypto Dispatcher Peer Proc.
From S2P Require Import Gater ConnManager ConnInvariant ConnTimers ConnBehaviour ConnRecovery.

Section Blacklisting.
Context {B A : Type} `{PeerBook B A}.
Notation Manager := (ConnManager.Manager (B := B)).

(** No goroutine of the manager dials a blacklisted peer. *)
Lemma loop_no_dial (ans : ∀ q : query (A := A), answer q) (m : Manager) p r :
  pb_IsBlacklisted (addressBook m) p = true →
  let o := run ans (reconnectionLoop p r) m in List.filter is_connect (calls o) = [] ∧ spawned o = [].
Proof.
  intros Hb. cbv zeta. destruct (run ans (reconnectionLoop p r) m) as [v mF sp cl] eqn:E.
  unfold reconnectionLoop, handleReconnectionExhausted, handleReconnectionCancelled in E. exec_step E.
  destruct (rstates m !! r) as [s|] eqn:Hr; cbn in E;
    [destruct (ShouldRetry (Attempts s) (ReconnectMaxAttempts (config m))); cbn in E |].
  - rewrite Hr in E. cbn in E. destruct (ans (QSleep _ _)); cbn in E; [| by injection E as <- <- <- <-].
    rewrite Hb in E. cbn in E.
    destruct (connections m !! p) as [c|] eqn:Hp; cbn in E;
      [destruct (conns m !! c) as [pc|] eqn:Hc; cbn in E; [destruct (ValidateTransition _ _) eqn:Hv; cbn in E |] |];
      destruct (has_events m) eqn:Hev; cbn in E; by injection E as <- <- <- <-.
  - destruct (connections m !! p) as [c|] eqn:Hp; cbn in E;
      [destruct (conns m !! c) as [pc|] eqn:Hc; cbn in E;
        [destruct (ValidateTransition _ _) eqn:Hv; cbn in E; rewrite ?lookup_insert_eq in E; cbn in E | rewrite ?Hc in E; cbn in E] |];
      destruct (has_events m) eqn:Hev; cbn in E; by injection E as <- <- <- <-.
  - destruct (connections m !! p) as [c|] eqn:Hp; cbn in E;
      [destruct (conns m !! c) as [pc|] eqn:Hc; cbn in E;
        [destruct (ValidateTransition _ _) eqn:Hv; cbn in E; rewrite ?lookup_insert_eq in E; cbn in E | rewrite ?Hc in E; cbn in E] |];
      destruct (has_events m) eqn:Hev; cbn in E; by injection E as <- <- <- <-.
Qed.

Lemma startReconnection_blacklisted (ans : ∀ q : query (A := A), answer q) (m : Manager) p :
  pb_IsBlacklisted (addressBook m) p = true →
  run ans (startReconnection p) m = {| value := tt; final := m; spawned := []; calls := [] |}.
Proof.
  intros Hb. destruct (run ans (startReconnection p) m) as [v mF sp cl] eqn:E. unfold startReconnection in E. exec_step E.
  rewrite Hb in E. cbn in E. by injection E as <- <- <- <-.
Qed.
End Blacklisting.

(** An outcome of the manager's code that dialled nobody and started nothing. *)
Definition silent {S A X : Type} (o : outcome (S := S) (P := proc) (Q := query (A := A)) X) : Prop :=
  List.filter is_connect (calls o) = [] ∧ spawned o = [].

(** A successful [BlacklistPeer] shows. *)
Lemma BlacklistPeer_blacklists `{Libp2p} o now p w :
  (BlacklistPeer o now p w).1 = None → pb_IsBlacklisted (A := Multiaddr) (BlacklistPeer o now p w).2 p = true.
Proof.
  unfold pb_IsBlacklisted; cbn. rewrite IsBlacklisted_eq. unfold BlacklistPeer. book_unfold.
  destruct (peers (book w) !! peer_String p) as [e|] eqn:He; [| done]. intros _.
  match goal with |- context[saveLocked o ?w'] => rewrite (proj2 (saveLocked_book o w')) end. cbn. by rewrite lookup_insert_eq.
Qed.

(** C18. Blacklisting a peer isolates it at every level.  Once [BlacklistPeer] has
    returned without error, a manager and a gater that use the book refuse
    the peer: a connection attempt fails without touching the network, a
    reconnection that is waiting ends without dialling and no new one starts,
    and libp2p is told to refuse the peer in every direction. *)
Theorem blacklisting_isolates `{Libp2pLaws} o now p w ans (m : ConnManager.Manager (B := world)) r {M : Type} (isConnecting : M → string → bool) (g : ConnectionGater) (dir : Direction) :
  (BlacklistPeer o now p w).1 = None → addressBook m = (BlacklistPeer o now p w).2 →
  is_Some (value (run ans (ConnectCtx p) m))
  ∧ silent (run ans (ConnectCtx p) m)
  ∧ silent (run ans (reconnectionLoop p r) m)
  ∧ silent (run ans (startReconnection p) m)
  ∧ InterceptPeerDial (A := Multiaddr) (addressBook m) p = false
  ∧ InterceptSecured (A := Multiaddr) isConnecting g (addressBook m) dir p = false.
Proof.
  intros Hok Hm.
  assert (pb_IsBlacklisted (addressBook m) p = true) as Hb by (rewrite Hm; by apply BlacklistPeer_blacklists).
  destruct (connect_blacklisted ans m p Hb) as (H1 & H2 & H3).
  split; [done |]. split; [by split; rewrite ?H2, ?H3 |]. split; [apply (loop_no_dial ans m p r Hb) |].
  split; [by rewrite (startReconnection_blacklisted ans m p Hb) |].
  unfold InterceptPeerDial, InterceptSecured. by rewrite Hb.
Qed.

(** The only thing a connection does to the address book is to note the time:
    no peer is blacklisted, unblacklisted or given other addresses. *)
Theorem connecting_keeps_book {B A : Type} `{PeerBookLaws B A} (ans : ∀ q : query (A := A), answer q) (m : ConnManager.Manager (B := B)) p addrs q :
  idle m p → pb_IsBlacklisted (addressBook m) p = false → pb_GetPeer (addressBook m) p = Ok addrs →
  ans QCtxErr = None → ans (QConnect p addrs) = None →
  let b' := addressBook (final (run ans (ConnectCtx p) m)) in
  pb_IsBlacklisted b' q = pb_IsBlacklisted (addressBook m) q ∧ pb_GetPeer b' q = pb_GetPeer (addressBook m) q.
Proof.
  intros Hi Hb Hg Hc Ha. cbv zeta. rewrite (connect_book ans m p addrs Hi Hb Hg Hc Ha).
  split; [apply pb_seen_blacklist | apply pb_seen_addrs].
Qed.

(** ** Witnesses *)

Module SystemWitness.
#[local] Existing Instance plain_libp2p.
#[local] Existing Instance plain_libp2p_laws.
Import AddressBook.Witness.

Definition one_known : world := run_all [(OAdd 5%Z "Qm1" ["/ip4/10.0.0.1/tcp/4001" : Multiaddr] None, io_ok)] fresh.
Definition blacklisted : world := (BlacklistPeer io_ok 7%Z "Qm1" one_known).2.
Definition yes (q : query (A := Multiaddr)) : answer q :=
  match q with
  | QCtxErr => None | QConnect _ _ => None | QDisconnect _ => None | QSleep _ _ => true | QJitter => λ _, 0%Z
  end.
Definition node_cfg : ManagerConfig := Concrete.cfg.

Lemma blacklisting_isolates_witness :
  (BlacklistPeer io_ok 7%Z "Qm1" one_known).1 = None
  ∧ is_Some (value (run yes (ConnectCtx "Qm1") (NewManager blacklisted node_cfg true 1000%Z))).
Proof.
  assert (Hok : (BlacklistPeer io_ok 7%Z "Qm1" one_known).1 = None) by (vm_compute; reflexivity).
  split; [exact Hok |].
  exact (proj1 (blacklisting_isolates io_ok 7%Z "Qm1" one_known yes (NewManager blacklisted node_cfg true 1000%Z) 0
                  (λ (m : unit) q, true) NewConnectionGater DirInbound Hok eq_refl)).
Defined.

Lemma connecting_keeps_book_witness :
  let m := NewManager one_known node_cfg true 1000%Z in
  pb_GetPeer (A := Multiaddr) (addressBook (final (run yes (ConnectCtx "Qm1") m))) "Qm1" = Ok ["/ip4/10.0.0.1/tcp/4001"].
Proof.
  cbv zeta.
  destruct (connecting_keeps_book yes (NewManager one_known node_cfg true 1000%Z) "Qm1" ["/ip4/10.0.0.1/tcp/4001"] "Qm1")
    as [_ H2]; [left; split; reflexivity | vm_compute; reflexivity .. |].
  refine (eq_trans H2 _). vm_compute. reflexivity.
Defined.
End SystemWitness.
