(* ===== verification/Node.v ===== *)
(** * The node ([node.go], [health.go])

    The node owns the other components; its methods are code over the state of
    all of them.  A component's method runs on its part of the state ([cm] for
    the connection manager, [sm] for the stream manager, [hb] for the event
    subscriptions), with its own sections, calls and goroutines.

    The manager calls [EmitEvent] while it runs; the dispatcher only meets
    somebody else when [forwardEvents] receives or [Stop] closes it.  [sync]
    gives it, at these moments, the events emitted since the last one.

    [Start] and [Stop] hold [startMu] to their end; here the lock is given back
    between their sections, which allows more interleavings than the code has.
    Logging and metrics leave no trace in the state. *)

From S2P Require Import Prelude Errors ConnState Config Validation Version Flow Dispatcher Interfaces Storage AddressBook Heap Crypto CryptoModule Peer Proc Compose Subscriptions Stats Streams StreamManager ConnManager.

(** What a protocol identifier is served by: the handler of handshake streams,
    or the one of encrypted streams of a name. *)
Inductive handler := HHandshake | HStream (name : string).

Section Node.
Context `{Libp2p} `{CryptoLib} `{Unicode}.

Record Node := {
  config : Config.Config;
  conn : ConnManager.Manager (B := world);        (** [connections], and the address book *)
  strm : StreamManager.Manager;                   (** [streamManager], and the crypto module *)
  eventDispatch : Dispatcher.Dispatcher;
  dispatched : nat;                               (** the events of [conn] it has been given *)
  hub : Subscriptions.hub;                        (** [events], [eventSubs]; its [stopped] is [n.ctx] *)
  messages : Chan.chan IncomingMessage;
  trackers : gmap nat PeerStatsTracker;           (** the objects *)
  next_tracker : nat;
  peerStats : gmap string nat;
  flowControllers : gmap string Controller;
  handlers : gmap string handler;                 (** the host's stream handlers *)
  started : bool;
}.

(** ** State access *)

Definition set_conn (c : ConnManager.Manager) (n : Node) : Node :=
  {| config := config n; conn := c; strm := strm n; eventDispatch := eventDispatch n; dispatched := dispatched n; hub := hub n;
     messages := messages n; trackers := trackers n; next_tracker := next_tracker n; peerStats := peerStats n;
     flowControllers := flowControllers n; handlers := handlers n; started := started n |}.
Definition set_strm (m : StreamManager.Manager) (n : Node) : Node :=
  {| config := config n; conn := conn n; strm := m; eventDispatch := eventDispatch n; dispatched := dispatched n; hub := hub n;
     messages := messages n; trackers := trackers n; next_tracker := next_tracker n; peerStats := peerStats n;
     flowControllers := flowControllers n; handlers := handlers n; started := started n |}.
Definition set_dispatch (d : Dispatcher.Dispatcher) (k : nat) (n : Node) : Node :=
  {| config := config n; conn := conn n; strm := strm n; eventDispatch := d; dispatched := k; hub := hub n;
     messages := messages n; trackers := trackers n; next_tracker := next_tracker n; peerStats := peerStats n;
     flowControllers := flowControllers n; handlers := handlers n; started := started n |}.
Definition set_hub (h : Subscriptions.hub) (n : Node) : Node :=
  {| config := config n; conn := conn n; strm := strm n; eventDispatch := eventDispatch n; dispatched := dispatched n; hub := h;
     messages := messages n; trackers := trackers n; next_tracker := next_tracker n; peerStats := peerStats n;
     flowControllers := flowControllers n; handlers := handlers n; started := started n |}.
Definition set_messages (c : Chan.chan IncomingMessage) (n : Node) : Node :=
  {| config := config n; conn := conn n; strm := strm n; eventDispatch := eventDispatch n; dispatched := dispatched n; hub := hub n;
     messages := c; trackers := trackers n; next_tracker := next_tracker n; peerStats := peerStats n;
     flowControllers := flowControllers n; handlers := handlers n; started := started n |}.
Definition set_stats (ts : gmap nat PeerStatsTracker) (k : nat) (ps : gmap string nat) (n : Node) : Node :=
  {| config := config n; conn := conn n; strm := strm n; eventDispatch := eventDispatch n; dispatched := dispatched n; hub := hub n;
     messages := messages n; trackers := ts; next_tracker := k; peerStats := ps;
     flowControllers := flowControllers n; handlers := handlers n; started := started n |}.
Definition set_flows (fs : gmap string Controller) (n : Node) : Node :=
  {| config := config n; conn := conn n; strm := strm n; eventDispatch := eventDispatch n; dispatched := dispatched n; hub := hub n;
     messages := messages n; trackers := trackers n; next_tracker := next_tracker n; peerStats := peerStats n;
     flowControllers := fs; handlers := handlers n; started := started n |}.
Definition set_handlers (hs : gmap string handler) (n : Node) : Node :=
  {| config := config n; conn := conn n; strm := strm n; eventDispatch := eventDispatch n; dispatched := dispatched n; hub := hub n;
     messages := messages n; trackers := trackers n; next_tracker := next_tracker n; peerStats := peerStats n;
     flowControllers := flowControllers n; handlers := hs; started := started n |}.
Definition set_started (b : bool) (n : Node) : Node :=
  {| config := config n; conn := conn n; strm := strm n; eventDispatch := eventDispatch n; dispatched := dispatched n; hub := hub n;
     messages := messages n; trackers := trackers n; next_tracker := next_tracker n; peerStats := peerStats n;
     flowControllers := flowControllers n; handlers := handlers n; started := b |}.

(** [n.ctx.Err() != nil] *)
Definition ctx_done (n : Node) : bool := stopped (hub n).

(** ** The environment and the goroutines *)

Inductive query :=
| QConn (q : ConnManager.query (A := Multiaddr))
| QStrm (q : Streams.query)
| QHub (q : Subscriptions.query)
| QIO                                    (** the system calls of one method of the address book *)
| QWait (name : string) (waitCh : nat)   (** [select]: the caller's context, or the channel closed *)
| QPick                                  (** which ready case a [select] takes *)
| QReset (stream : nat)                  (** [stream.Reset] *)
| QHostClose.                            (** [host.Close] *)

Definition answer (q : query) : Type :=
  match q with
  | QConn q => ConnManager.answer q
  | QStrm q => Streams.answer q
  | QHub q => Subscriptions.answer q
  | QIO => io_op → option error
  | QWait _ _ | QReset _ | QHostClose => option error
  | QPick => bool
  end.

Inductive proc :=
| PConn (q : ConnManager.proc)
| PStrm (q : StreamManager.proc)
| PHub (q : Subscriptions.proc)
| PStart
| PStop
| PAddPeer (p : string) (addrs : list Multiaddr) (metadata : option (gmap string string))
| PRemovePeer (p : string)
| PBlacklistPeer (p : string)
| PUnblacklistPeer (p : string)
| PConnect (p : string)
| PDisconnect (p : string)
| PCancelReconnection (p : string)
| PPrepareStreams (p : string) (pub : option bytes) (names : list string)
| PFinalizeHandshake (p : string)
| PCompleteHandshake (p : string) (pub : option bytes) (names : list string)
| PEstablishEncryptedStreams (p : string) (pub : option bytes) (names : list string)
| PSend (p name : string) (data : bytes)
| PSendAcquire (p name : string) (data : bytes)     (** a sender that was blocked *)
| PHandler (protoID remote : string) (stream : nat) (** the host serves a stream *)
| PForwardMessages
| PForwardEvents
| PCleanupStats
| PBookTick.                                        (** one turn of the address book's [flushLoop] *)

Notation code := (prog (S := Node) (P := proc) (Q := query) (R := answer)) (only parsing).

Definition cm {X} (m : prog (S := ConnManager.Manager) (P := ConnManager.proc) (Q := ConnManager.query (A := Multiaddr)) (R := ConnManager.answer) X) : code X :=
  lifted conn set_conn PConn QConn (λ q (a : answer (QConn q)), a) m.
Definition sm {X} (m : prog (S := StreamManager.Manager) (P := StreamManager.proc) (Q := Streams.query) (R := Streams.answer) X) : code X :=
  lifted strm set_strm PStrm QStrm (λ q (a : answer (QStrm q)), a) m.
Definition hb {X} (m : prog (S := Subscriptions.hub) (P := Subscriptions.proc) (Q := Subscriptions.query) (R := Subscriptions.answer) X) : code X :=
  lifted hub set_hub PHub QHub (λ q (a : answer (QHub q)), a) m.

(** One section of a component. *)
Definition on_conn {X} (f : ST ConnManager.Manager X) : ST Node X := λ n, let (x, c) := f (conn n) in (x, set_conn c n).
Definition on_strm {X} (f : ST StreamManager.Manager X) : ST Node X := λ n, let (x, m) := f (strm n) in (x, set_strm m n).

(** A method of the address book: a change of the manager's book. *)
Definition on_book {X} (f : ST world X) : ST Node X := λ n,
  let (x, w) := f (addressBook (conn n)) in (x, set_conn (ConnManager.set_book (λ _, w) (conn n)).2 n).

Definition now : ST Node time := st_gets (λ n, Peer.clock (mrt (conn n))).

(** The guard of most methods. *)
Definition is_started : code bool := atomic (st_gets started).

(** ** New *)

(** The caller's key is the slice [key]; [host] is the outcome of
    [protocol.NewHost]. *)
Definition New (c : Config.Config) (key : ref) (o : io_op → option error) (d : disk) (host : option error) (u : time)
    : ST heap (result error Node) :=
  match checked_config c with
  | Err e => mret (Err e)
  | Ok cfg =>
      cryptoModule ← NewModule (match PrivateKey cfg with Some _ => Some key | None => None end);
      match cryptoModule with
      | Err e => mret (Err (Errorf "failed to create crypto module: %w" (Some e)))
      | Ok cryptoModule =>
          match AddressBook.New o (AddressBookPath cfg) d with
          | Err e => mret (Err (Errorf "failed to create address book: %w" (Some e)))
          | Ok addrBook =>
              match host with
              | Some e => mret (Err (Errorf "failed to create libp2p host: %w" (Some e)))
              | None =>
                  h ← st_get;
                  let sto0 := {| Streams.hp := h; encs := ∅; uncs := ∅; Streams.next_obj := 0;
                                 incoming := Chan.make (Z.to_nat (MessageBufferSize cfg)); reports := [];
                                 base_done := false; Streams.clock := u |} in
                  let m0 := StreamManager.NewManager cryptoModule sto0 in
                  let m1 := (SetDecryptionErrorCallback (Some 0) m0).2 in
                  let m2 := (SetMessageDroppedCallback (Some 1) m1).2 in
                  let cc := {| ConnManager.HandshakeTimeout := Config.HandshakeTimeout cfg;
                               ConnManager.ReconnectBaseDelay := Config.ReconnectBaseDelay cfg;
                               ConnManager.ReconnectMaxDelay := Config.ReconnectMaxDelay cfg;
                               ConnManager.ReconnectMaxAttempts := Config.ReconnectMaxAttempts cfg;
                               ConnManager.FailedHandshakeCooldown := Config.FailedHandshakeCooldown cfg |} in
                  mret (Ok {|
                    config := cfg; conn := ConnManager.NewManager addrBook cc true u; strm := m2;
                    eventDispatch := NewDispatcher (Z.to_nat (Config.EventBufferSize cfg)); dispatched := 0;
                    hub := new_hub (Z.to_nat (Config.EventBufferSize cfg));
                    messages := Chan.make (Z.to_nat (MessageBufferSize cfg));
                    trackers := ∅; next_tracker := 0; peerStats := ∅; flowControllers := ∅; handlers := ∅; started := false |})
              end
          end
      end
  end.

(** The goroutines it starts, but for the one that ticks. *)
Definition new_goroutines : list proc := [PForwardMessages; PForwardEvents].

(** ** Start and Stop *)

Definition register (protoID : string) (h : handler) : ST Node unit := st_modify (λ n, set_handlers (<[protoID := h]> (handlers n)) n).

Definition registerHandshakeStreamHandler : ST Node unit := register (StreamProtocolID HandshakeStreamName) HHandshake.

(** A loop over entries of the address book. *)
Fixpoint auto_connect (l : list PeerEntry) : code unit :=
  match l with
  | [] => mret tt
  | e :: l => _ ← cm (AutoConnect (Storage.PeerID e)); auto_connect l
  end.

Definition autoConnectToPeers : code unit :=
  peers ← atomic (st_gets (λ n, (ListPeers (addressBook (conn n))).1));
  auto_connect peers.

Definition Start : code (option error) :=
  ok ← atomic (
    n ← st_get;
    if started n then mret false
    else _ ← registerHandshakeStreamHandler; _ ← st_modify (set_started true); mret true);
  if (ok : bool) then _ ← autoConnectToPeers; mret None else mret (Some ErrNodeAlreadyStarted).

(** [n.cancel()]: the contexts of the manager and of the streams derive from
    the node's. *)
Definition cancel : ST Node unit :=
  _ ← st_modify (λ n, set_hub (set_stopped (hub n)) n);
  _ ← on_conn ConnManager.set_done;
  on_strm (on_store (st_modify set_base_done)).

(** The emitted events, given to the dispatcher one by one. *)
Fixpoint emit_all (l : list Event) (d : Dispatcher.Dispatcher) : option Dispatcher.Dispatcher :=
  match l with
  | [] => Some d
  | e :: l => match EmitEvent e d with Some d => emit_all l d | None => None end
  end.

Definition panics : ST Node unit := st_modify (λ n, set_hub (panic (hub n)) n).

Definition sync : ST Node unit :=
  n ← st_get;
  match emit_all (drop (dispatched n) (emitted (conn n))) (eventDispatch n) with
  | None => panics
  | Some d => st_modify (set_dispatch d (length (emitted (conn n))))
  end.

Definition close_dispatch : ST Node unit :=
  _ ← sync;
  n ← st_get;
  match Dispatcher.Close (eventDispatch n) with
  | None => panics
  | Some d => st_modify (set_dispatch d (dispatched n))
  end.

Definition Stop : code (option error) :=
  st ← is_started;
  if negb st then mret (Some ErrNodeNotStarted)
  else
    _ ← atomic cancel;
    _ ← cm ConnManager.Shutdown;
    _ ← sm StreamManager.Shutdown;
    _ ← atomic close_dispatch;
    err ← ask QHostClose;
    match err with
    | Some e => mret (Some (Errorf "failed to close host: %w" (Some e)))
    | None =>
        _ ← atomic (on_strm (on_module Module_Close));
        _ ← atomic (st_modify (set_started false));
        mret None
    end.

(** ** Peers *)

Definition PublicKey : ST Node ref := on_strm (on_module Ed25519PublicKey).
Definition Version (n : Node) : ProtocolVersion := CurrentVersion.

Definition AddPeer (p : string) (addrs : list Multiaddr) (metadata : option (gmap string string)) : code (option error) :=
  cfg ← atomic (st_gets config);
  match ValidateMetadataSize metadata (MaxMetadataSize cfg) with
  | Some e => mret (Some e)
  | None =>
      o ← ask QIO;
      err ← atomic (t ← now; on_book (AddressBook.AddPeer o t p addrs metadata));
      match err with
      | Some e => mret (Some e)
      | None =>
          st ← is_started;
          _ ← (if (st : bool) then cm (AutoConnect p) else mret tt);
          mret None
      end
  end.

Definition RemovePeer (p : string) : code (option error) :=
  o ← ask QIO; atomic (on_book (AddressBook.RemovePeer o p)).

Definition BlacklistPeer (p : string) : code (option error) :=
  o ← ask QIO;
  err ← atomic (t ← now; on_book (AddressBook.BlacklistPeer o t p));
  match err with
  | Some e => mret (Some e)
  | None =>
      st ← atomic (on_conn (ConnManager.GetState p));
      _ ← (if IsActive st then _ ← cm (ConnManager.Disconnect p); mret tt else mret tt);
      mret None
  end.

Definition UnblacklistPeer (p : string) : code (option error) :=
  o ← ask QIO; atomic (t ← now; on_book (AddressBook.UnblacklistPeer o t p)).

Definition GetPeer (p : string) (n : Node) : result error PeerEntry := (AddressBook.GetPeer p (addressBook (conn n))).1.
Definition ListPeers (n : Node) : list PeerEntry := (AddressBook.ListPeers (addressBook (conn n))).1.

(** ** Connections *)

Definition ConnectCtx (p : string) : code (option error) :=
  st ← is_started;
  if negb st then mret (Some ErrNodeNotStarted) else cm (ConnManager.ConnectCtx p).
Definition Connect (p : string) : code (option error) := ConnectCtx p.

Definition cleanupPeerResources (p : string) : code unit :=
  _ ← sm (CloseStreams p);
  r ← atomic (st_gets (GetPeer p));
  match r with
  | Err _ => mret tt
  | Ok entry => atomic (on_strm (on_module (RemovePeerKeyByEd25519 (Storage.PublicKey entry))))
  end.

Definition DisconnectCtx (p : string) : code (option error) :=
  _ ← cleanupPeerResources p; cm (ConnManager.DisconnectCtx p).
Definition Disconnect (p : string) : code (option error) := DisconnectCtx p.

Definition ConnectionState (p : string) (n : Node) : Public.ConnectionState := to_public (ConnManager.GetState p (conn n)).1.
Definition IsOutbound (p : string) (n : Node) : result error bool := (ConnManager.IsOutbound p (conn n)).1.
Definition CancelReconnection (p : string) : code (option error) := cm (ConnManager.CancelReconnection p).

(** ** Handshakes *)

Fixpoint register_all (names : list string) : ST Node unit :=
  match names with
  | [] => mret tt
  | name :: names => _ ← register (StreamProtocolID name) (HStream name); register_all names
  end.

Definition registerIncomingStreamHandlers (names : list string) : ST Node unit := register_all names.

(** The steps [PrepareStreams] and [EstablishEncryptedStreams] share: derive,
    keep the key, register, establish, note the public key. *)
Definition establish (p : string) (pub : option bytes) (names : list string) : code (option error) :=
  r ← sm (derive pub);
  match r with
  | Err e => mret (Some (Errorf "failed to derive shared key: %w" (Some e)))
  | Ok sharedKey =>
      key ← atomic (st_gets (λ n, deref (Streams.hp (sto (strm n))) sharedKey));
      err ← cm (ConnManager.SetSharedKey p key);
      match err with
      | Some e => mret (Some (Errorf "failed to store shared key: %w" (Some e)))
      | None =>
          _ ← atomic (registerIncomingStreamHandlers names);
          err ← sm (EstablishStreams p pub names);
          match err with
          | Some e => mret (Some e)
          | None =>
              o ← ask QIO;
              _ ← atomic (t ← now; on_book (UpdatePublicKey o t p (default [] pub)));
              mret None
          end
      end
  end.

Definition PrepareStreams (p : string) (pub : option bytes) (names : list string) : code (option error) :=
  st ← is_started;
  if negb st then mret (Some ErrNodeNotStarted)
  else
    cfg ← atomic (st_gets config);
    match ValidateStreamNames names (MaxStreamNameLength cfg) with
    | Some e => mret (Some e)
    | None => establish p pub names
    end.

Definition FinalizeHandshake (p : string) : code (option error) :=
  st ← is_started;
  if negb st then mret (Some ErrNodeNotStarted)
  else
    err ← cm (Manager_CancelHandshakeTimeout p);
    match err with
    | Some e => mret (Some (Errorf "failed to cancel handshake timeout: %w" (Some e)))
    | None =>
        _ ← sm (CloseHandshakeStream p);
        err ← cm (MarkEstablished p);
        match err with
        | Some e => mret (Some (Errorf "failed to mark connection as established: %w" (Some e)))
        | None => mret None
        end
    end.

Definition CompleteHandshake (p : string) (pub : option bytes) (names : list string) : code (option error) :=
  err ← PrepareStreams p pub names;
  match err with Some e => mret (Some e) | None => FinalizeHandshake p end.

Definition EstablishEncryptedStreams (p : string) (pub : option bytes) (names : list string) : code (option error) :=
  st ← is_started;
  if negb st then mret (Some ErrNodeNotStarted)
  else
    cfg ← atomic (st_gets config);
    match ValidateStreamNames names (MaxStreamNameLength cfg) with
    | Some e => mret (Some e)
    | None =>
        currentState ← atomic (on_conn (ConnManager.GetState p));
        _ ← (if bool_decide (currentState = StateDisconnected)
             then _ ← cm (RegisterIncomingConnection p); mret tt else mret tt);
        establish p pub names
    end.

(** The two handlers. *)
Definition handle_handshake (remote : string) (stream : nat) : code unit :=
  _ ← cm (RegisterIncomingConnection remote);
  err ← sm (HandleIncomingHandshakeStream remote stream);
  match err with Some _ => _ ← ask (QReset stream); mret tt | None => mret tt end.
Definition handle_stream (name remote : string) (stream : nat) : code unit :=
  err ← sm (HandleIncomingStream remote name stream);
  match err with Some _ => _ ← ask (QReset stream); mret tt | None => mret tt end.

(** The host serves an incoming stream by the handler of its protocol. *)
Definition serve (protoID remote : string) (stream : nat) : code unit :=
  h ← atomic (st_gets (λ n, handlers n !! protoID));
  match h with
  | None => mret tt
  | Some HHandshake => handle_handshake remote stream
  | Some (HStream name) => handle_stream name remote stream
  end.

(** ** Statistics *)

(** The tracker's callback only logs. *)
Definition getOrCreatePeerStats (p : string) : ST Node nat :=
  n ← st_get;
  match peerStats n !! p with
  | Some t => mret t
  | None =>
      let t := next_tracker n in
      _ ← st_modify (set_stats (<[t := NewPeerStatsTracker p true]> (trackers n)) (S t) (<[p := t]> (peerStats n)));
      mret t
  end.

Definition on_tracker (t : nat) (f : PeerStatsTracker → PeerStatsTracker) : ST Node unit := st_modify (λ n,
  set_stats (alter f t (trackers n)) (next_tracker n) (peerStats n) n).

(** Whether the peer's connection is established, and outbound. *)
Definition connection_info (p : string) (n : Node) : bool * bool :=
  match connections (conn n) !! p ≫= (conns (conn n) !!.) with
  | None => (false, false)
  | Some pc => (bool_decide (Peer.State pc = StateEstablished), Peer.IsOutbound pc)
  end.

Definition tracker_of (p : string) (n : Node) : option PeerStatsTracker := peerStats n !! p ≫= (trackers n !!.).

Definition PeerStatistics (p : string) (n : Node) : option PeerStats :=
  let (connected, isOutbound) := connection_info p n in
  Snapshot (Peer.clock (mrt (conn n))) p connected isOutbound <$> tracker_of p n.

(** The conversion of a negative count is guarded. *)
Definition MessagesSent (p : string) (n : Node) : Z :=
  match tracker_of p n with
  | None => 0
  | Some t => if (t_messagesSent t <? 0)%Z then 0 else t_messagesSent t
  end.

Definition AllPeerStatistics (n : Node) : gmap string PeerStats :=
  map_imap (λ p _, PeerStatistics p n) (peerStats n).

Definition staleThreshold : duration := 24 * GoTime.Hour.

Definition stays (n : Node) (p : string) (t : nat) : bool :=
  let u := Peer.clock (mrt (conn n)) in
  (connection_info p n).1
  || match trackers n !! t with
     | Some x => negb (staleThreshold <? GoTime.Sub u (LastActivity u x))%Z
     | None => true
     end.

(** One tick of [cleanupStalePeerStats]. *)
Definition cleanupStalePeerStats : ST Node unit := st_modify (λ n,
  set_stats (trackers n) (next_tracker n) (filter (λ x, stays n x.1 x.2 = true) (peerStats n)) n).

(** ** Sending *)

Definition getOrCreateFlowController (name : string) : code unit :=
  fc ← atomic (st_gets (λ n, flowControllers n !! name));
  match fc with
  | Some _ => mret tt
  | None => atomic (st_modify (λ n,
      match flowControllers n !! name with
      | Some _ => n
      | None => set_flows (<[name := SetBlockedCallback true (NewController (Config.HighWatermark (config n)) (Config.LowWatermark (config n)))]>
                             (flowControllers n)) n
      end))
  end.

Definition acquire (name : string) : ST Node acquire_result := λ n,
  match flowControllers n !! name with
  | None => (AcquireClosed, n)
  | Some fc => let (r, fc) := Acquire_locked fc in (r, set_flows (<[name := fc]> (flowControllers n)) n)
  end.

Definition release (name : string) : ST Node unit := st_modify (λ n,
  match flowControllers n !! name with
  | None => n
  | Some fc => match Release fc with
               | None => (panics n).2
               | Some fc => set_flows (<[name := fc]> (flowControllers n)) n
               end
  end).

Definition backpressure (p name : string) (e : error) : error :=
  match e with
  | ErrSentinel "context.DeadlineExceeded" | ErrSentinel "context.Canceled" =>
      GlueError ErrCodeBackpressure "send blocked by backpressure" p name (Some e) true ""
  | _ => e
  end.

(** The send itself, and what is recorded of it. *)
Definition send_now (p name : string) (data : bytes) : code (option error) :=
  err ← sm (StreamManager.SendCtx p name data);
  match err with
  | Some e => mret (Some e)
  | None =>
      t ← atomic (getOrCreatePeerStats p);
      _ ← atomic (u ← now; on_tracker t (λ x, (RecordMessageSent u name (Z.of_nat (length data)) x).2));
      mret None
  end.

(** A send returns, or its goroutine is blocked and goes on as another one. *)
Inductive sent := Returned (err : option error) | Blocked.

(** One round of [Acquire]'s loop and, when it gets through, the rest. *)
Definition send_acquire (p name : string) (data : bytes) : code sent :=
  r ← atomic (acquire name);
  match r with
  | AcquireClosed => mret (Returned (Some (backpressure p name context_Canceled)))
  | AcquireOk _ =>
      err ← send_now p name data;
      _ ← atomic (release name);
      mret (Returned err)
  | AcquireWait ch =>
      err ← ask (QWait name ch);
      match err with
      | Some e => mret (Returned (Some (backpressure p name e)))
      | None => _ ← go (PSendAcquire p name data); mret Blocked
      end
  end.

Definition SendCtx (p name : string) (data : bytes) : code sent :=
  st ← is_started;
  if negb st then mret (Returned (Some ErrNodeNotStarted))
  else
    cfg ← atomic (st_gets config);
    match ValidateStreamName name (MaxStreamNameLength cfg) with
    | Some e => mret (Returned (Some e))
    | None =>
        if (0 <? Config.MaxMessageSize cfg)%Z && (Config.MaxMessageSize cfg <? Z.of_nat (length data))%Z
        then mret (Returned (Some (GlueError ErrCodeMessageTooLarge "message size %d exceeds maximum %d" p name None false "")))
        else if negb (DisableBackpressure cfg)
        then _ ← getOrCreateFlowController name; send_acquire p name data
        else err ← send_now p name data; mret (Returned err)
    end.
Definition Send (p name : string) (data : bytes) : code sent := SendCtx p name data.

(** ** Receiving *)

Inductive turn (A : Type) := TStop | TAgain | TGot (x : A).
#[global] Arguments TStop {A}.
#[global] Arguments TAgain {A}.
#[global] Arguments TGot {A} x.

(** [select { case <-n.ctx.Done(): ... case x, ok := <-ch: ... }], with the
    channel's new contents; nothing ready is a turn without effect. *)
Definition select {A} (done pick : bool) (c : Chan.chan A) : turn A * Chan.chan A :=
  match Chan.try_recv c with
  | (Chan.WouldBlock, _) => (if done then TStop else TAgain, c)
  | (Chan.ClosedDrained, _) => (TStop, c)
  | (Chan.Value x, c') => if done && pick then (TStop, c) else (TGot x, c')
  end.

Definition take_message (pick : bool) : ST Node (turn IncomingMessage) := λ n,
  let s := sto (strm n) in
  let (r, c) := select (ctx_done n) pick (incoming s) in
  (r, set_strm (set_sto (set_incoming c s) (strm n)) n).

Definition deliver (msg : IncomingMessage) : ST Node unit := st_modify (λ n,
  match Chan.try_send msg (messages n) with
  | None => (panics n).2
  | Some (_, c) => set_messages c n
  end).

Definition close_messages : ST Node unit := st_modify (λ n,
  match Chan.close (messages n) with None => (panics n).2 | Some c => set_messages c n end).

Definition record_received (t : nat) (msg : IncomingMessage) : ST Node unit :=
  u ← now;
  n ← st_get;
  on_tracker t (λ x, (RecordMessageReceived u (im_StreamName msg) (Z.of_nat (length (deref (Streams.hp (sto (strm n))) (im_Data msg)))) x).2).

Definition forwardMessagesWithStats : code unit :=
  pick ← ask QPick;
  r ← atomic (take_message pick);
  match r with
  | TStop => atomic close_messages
  | TAgain => go PForwardMessages
  | TGot msg =>
      t ← atomic (getOrCreatePeerStats (im_PeerID msg));
      _ ← atomic (record_received t msg);
      _ ← atomic (deliver msg);
      go PForwardMessages
  end.

Definition take_event (pick : bool) : ST Node (turn ConnectionEvent) :=
  _ ← sync;
  n ← st_get;
  let (r, c) := select (ctx_done n) pick (Dispatcher.Events (eventDispatch n)) in
  _ ← st_modify (set_dispatch {| Dispatcher.events := c; Dispatcher.closed := Dispatcher.closed (eventDispatch n) |} (dispatched n));
  mret r.

(** The conversion to the public event type. *)
Definition public_event (e : ConnectionEvent) : Public.ConnectionEvent :=
  {| Public.PeerID := ce_PeerID e; Public.State := to_public (ce_State e); Public.Error := ce_Error e;
     Public.Timestamp := ce_Timestamp e |}.

Definition forwardEvents : code unit :=
  pick ← ask QPick;
  r ← atomic (take_event pick);
  match r with
  | TStop => hb finish
  | TAgain => go PForwardEvents
  | TGot evt =>
      _ ← (if decide (to_public (ce_State evt) = Public.StateDisconnected) then cleanupPeerResources (ce_PeerID evt) else mret tt);
      _ ← hb (forward (public_event evt));
      go PForwardEvents
  end.

(** ** Health ([health.go]) *)

(** [n.host] is not nil once [New] has returned the node. *)
Definition IsHealthy (n : Node) : bool := started n.

Record CheckResult := { Name : string; Healthy : bool; Message : string; Duration : duration }.
Record HealthStatus := { hs_Healthy : bool; Checks : list CheckResult; hs_Timestamp : time }.

Definition boolToMessage (b : bool) (trueMsg falseMsg : string) : string := if b then trueMsg else falseMsg.

(** [connCount] is the number of peers libp2p is connected to, [took] how long
    each check takes; the host and the address book of a node are there. *)
Definition ReadinessChecks (u : time) (took : nat → duration) (connCount : nat) (n : Node) : HealthStatus :=
  {| hs_Healthy := started n;
     Checks :=
       [ {| Name := "node_started"; Healthy := started n; Message := boolToMessage (started n) "node is running" "node is not started";
            Duration := took 0 |};
         {| Name := "host_running"; Healthy := true;
            Message := boolToMessage true "libp2p host is running" "libp2p host is not available"; Duration := took 1 |};
         {| Name := "address_book"; Healthy := true; Message := "address book is accessible"; Duration := took 2 |};
         {| Name := "connections"; Healthy := true;
            Message := if (0 <? connCount)%nat then "has active connections" else "no active connections"; Duration := took 3 |} ]%string;
     hs_Timestamp := u |}.

(** The status codes of the two HTTP handlers, and what they encode. *)
Definition HealthHandler (u : time) (took : nat → duration) (connCount : nat) (n : Node) : Z * HealthStatus :=
  let status := ReadinessChecks u took connCount n in (if hs_Healthy status then 200%Z else 503%Z, status).
Definition LivenessHandler (n : Node) : Z * bool := if IsHealthy n then (200%Z, true) else (503%Z, false).

(** ** All goroutines *)

Definition discard {X} (m : code X) : code unit := _ ← m; mret tt.

Definition body (q : proc) : code unit :=
  match q with
  | PConn q => cm (ConnManager.body q)
  | PStrm q => sm (StreamManager.body q)
  | PHub q => hb (Subscriptions.body q)
  | PStart => discard Start
  | PStop => discard Stop
  | PAddPeer p addrs md => discard (AddPeer p addrs md)
  | PRemovePeer p => discard (RemovePeer p)
  | PBlacklistPeer p => discard (BlacklistPeer p)
  | PUnblacklistPeer p => discard (UnblacklistPeer p)
  | PConnect p => discard (ConnectCtx p)
  | PDisconnect p => discard (DisconnectCtx p)
  | PCancelReconnection p => discard (CancelReconnection p)
  | PPrepareStreams p pub names => discard (PrepareStreams p pub names)
  | PFinalizeHandshake p => discard (FinalizeHandshake p)
  | PCompleteHandshake p pub names => discard (CompleteHandshake p pub names)
  | PEstablishEncryptedStreams p pub names => discard (EstablishEncryptedStreams p pub names)
  | PSend p name data => discard (SendCtx p name data)
  | PSendAcquire p name data => discard (send_acquire p name data)
  | PHandler protoID remote stream => serve protoID remote stream
  | PForwardMessages => forwardMessagesWithStats
  | PForwardEvents => forwardEvents
  | PCleanupStats => atomic cleanupStalePeerStats
  | PBookTick => o ← ask QIO; atomic (on_book (flush_tick o))
  end.

(** What the application, the host and the runtime start: the methods of the
    node, the handlers, handshake timers, the ticks. *)
Definition api (n : Node) (q : proc) : Prop :=
  match q with
  | PConn (PTimer _) => True
  | PHub (PSubscribe | PUnsubscribe _ | PFiltered _) => True
  | PConn _ | PStrm _ | PHub _ | PSendAcquire _ _ _ | PForwardMessages | PForwardEvents => False
  | _ => True
  end.

Definition answers (n : Node) (q : query) : answer q → Prop :=
  match q with
  | QConn q => ConnManager.answers (conn n) q
  | QStrm q => StreamManager.answers (strm n) q
  | QHub q => Subscriptions.answers (hub n) q
  | QWait name ch => λ e,
      match e with
      | None => ∃ fc, flowControllers n !! name = Some fc ∧ ch ∈ ch_closed fc
      | Some e => e = context_Canceled ∨ e = context_DeadlineExceeded
      end
  | _ => λ _, True
  end.

(** By themselves: the clock advances, and the application receives. *)
Inductive env : Node → Node → Prop :=
| env_clock n u : (Peer.clock (mrt (conn n)) <= u)%Z → (Streams.clock (sto (strm n)) <= u)%Z →
    env n (set_conn (ConnManager.set_rt (λ r, {| keys := keys r; timers := timers r; next_timer := next_timer r; Peer.clock := u |}) (conn n)).2
             (set_strm (set_sto {| Streams.hp := Streams.hp (sto (strm n)); encs := encs (sto (strm n)); uncs := uncs (sto (strm n));
                                   Streams.next_obj := Streams.next_obj (sto (strm n)); incoming := incoming (sto (strm n));
                                   reports := reports (sto (strm n)); base_done := base_done (sto (strm n)); Streams.clock := u |}
                          (strm n)) n))
| env_message n v c : Chan.try_recv (messages n) = (Chan.Value v, c) → env n (set_messages c n)
| env_hub n h : Subscriptions.env (hub n) h → stopped h = stopped (hub n) → env n (set_hub h n).
End Node.
