(* ===== verification/NodeRefinement.v ===== *)
(** * The node refines its components

    Every execution of a node, looked at through its connection manager, is an
    execution of the manager as [ConnManager] models it, and likewise for the
    stream manager: what holds of the managers in every interleaving holds
    inside the node, whatever the node's other parts do meanwhile. *)

From S2P Require Import Prelude Errors ConnState Config Validation Version Flow Dispatcher Interfaces Storage AddressBook Heap Crypto CryptoModule Peer Proc RelyGuarantee Compose Subscriptions Stats Streams StreamManager StreamInvariant ConnManager ConnInvariant Node.

Section Common.
Context `{Libp2p} `{CryptoLib} `{Unicode}.

(** Code of one part leaves the others alone. *)
Lemma sm_respects {X} (m : prog (S := StreamManager.Manager) (P := StreamManager.proc) (Q := Streams.query) (R := Streams.answer) X)
    (T : Node → Node → Prop) :
  (∀ n s, T n (set_strm s n)) → respects T (sm m).
Proof. intros HT. apply respects_translate. eapply respects_embed; [| apply (respects_any m)]. intros s n _. apply HT. Qed.
Lemma cm_respects {X} (m : prog (S := ConnManager.Manager) (P := ConnManager.proc) (Q := ConnManager.query (A := Multiaddr)) (R := ConnManager.answer) X)
    (T : Node → Node → Prop) :
  (∀ n s, T n (set_conn s n)) → respects T (cm m).
Proof. intros HT. apply respects_translate. eapply respects_embed; [| apply (respects_any m)]. intros s n _. apply HT. Qed.
Lemma hb_respects {X} (m : prog (S := Subscriptions.hub) (P := Subscriptions.proc) (Q := Subscriptions.query) (R := Subscriptions.answer) X)
    (T : Node → Node → Prop) :
  (∀ n s, T n (set_hub s n)) → respects T (hb m).
Proof. intros HT. apply respects_translate. eapply respects_embed; [| apply (respects_any m)]. intros s n _. apply HT. Qed.

Lemma sm_starts {X} (m : prog (S := StreamManager.Manager) (P := StreamManager.proc) (Q := Streams.query) (R := Streams.answer) X) ok :
  (∀ q, ok (PStrm q)) → starts ok (sm m).
Proof. intros Hok. apply starts_translate. eapply starts_embed; [| apply (starts_any m)]. auto. Qed.
Lemma cm_starts {X} (m : prog (S := ConnManager.Manager) (P := ConnManager.proc) (Q := ConnManager.query (A := Multiaddr)) (R := ConnManager.answer) X) ok :
  (∀ q, ok (PConn q)) → starts ok (cm m).
Proof. intros Hok. apply starts_translate. eapply starts_embed; [| apply (starts_any m)]. auto. Qed.
Lemma hb_starts {X} (m : prog (S := Subscriptions.hub) (P := Subscriptions.proc) (Q := Subscriptions.query) (R := Subscriptions.answer) X) ok :
  (∀ q, ok (PHub q)) → starts ok (hb m).
Proof. intros Hok. apply starts_translate. eapply starts_embed; [| apply (starts_any m)]. auto. Qed.

Lemma GetState_pure p (c : ConnManager.Manager (B := world)) : (ConnManager.GetState p c).2 = c.
Proof.
  unfold ConnManager.GetState, find_conn, st_gets, mbind, ST_bind, mret, ST_ret.
  destruct (connections c !! p) as [i|]; [| done]. unfold with_conn. cbn.
  destruct (conns c !! i) as [pc|] eqn:E; [| done]. cbn. rewrite insert_id by done. by destruct c.
Qed.

(** How the node's own sections change the managers: not at all, the address
    book, the context, the crypto module, the channel of messages. *)
Inductive move (n n' : Node) : Prop :=
| mv_same : conn n' = conn n → strm n' = strm n → move n n'
| mv_book w : conn n' = (ConnManager.set_book (λ _, w) (conn n)).2 → strm n' = strm n → move n n'
| mv_cancel : conn n' = (ConnManager.set_done (conn n)).2 → strm n' = set_sto (set_base_done (sto (strm n))) (strm n) → move n n'
| mv_module (f : ST state unit) : conn n' = conn n → strm n' = (on_module f (strm n)).2 → move n n'
| mv_receive v c : conn n' = conn n → Chan.try_recv (incoming (sto (strm n))) = (Chan.Value v, c) →
    strm n' = set_sto (set_incoming c (sto (strm n))) (strm n) → move n n'.

Lemma on_book_move {X} (f : ST world X) n : move n (on_book f n).2.
Proof. unfold on_book. destruct (f _) as [x w]. by apply (mv_book _ _ w). Qed.

Lemma on_module_move {X} (f : ST state X) n : move n (on_strm (on_module f) n).2.
Proof.
  apply (mv_module _ _ (λ s, (tt, (f s).2))); unfold on_strm, on_module; by destruct (f _).
Qed.

Lemma sync_same n : conn (sync n).2 = conn n ∧ strm (sync n).2 = strm n.
Proof. unfold sync, st_get, mbind, ST_bind. by destruct (emit_all _ _). Qed.

Lemma close_dispatch_move n : move n (close_dispatch n).2.
Proof.
  destruct (sync_same n) as [E1 E2]. unfold close_dispatch, mbind, ST_bind, st_get.
  destruct (sync n) as [[] n1]. cbn in *. destruct (Dispatcher.Close _); by apply mv_same.
Qed.

Lemma take_event_move pick n : move n (take_event pick n).2.
Proof.
  destruct (sync_same n) as [E1 E2]. unfold take_event, mbind, ST_bind, st_get.
  destruct (sync n) as [[] n1]. cbn in *. destruct (select _ _ _). by apply mv_same.
Qed.

Lemma set_strm_eta n : set_strm (strm n) n = n.
Proof. by destruct n. Qed.

Lemma take_message_move pick n : move n (take_message pick n).2.
Proof.
  unfold take_message, select. destruct (Chan.try_recv (incoming (sto (strm n)))) as [[v| |] c] eqn:E.
  - destruct (ctx_done n && pick); [| by apply (mv_receive _ _ v c)]. apply mv_same; [done |]. by destruct n as [? ? [] ? ? ? ? ? ? ? ? ? ?], sto.
  - apply mv_same; [done |]. by destruct n as [? ? [] ? ? ? ? ? ? ? ? ? ?], sto.
  - apply mv_same; [done |]. by destruct n as [? ? [] ? ? ? ? ? ? ? ? ? ?], sto.
Qed.

Lemma state_move p n : move n (on_conn (ConnManager.GetState p) n).2.
Proof.
  pose proof (GetState_pure p (conn n)) as E. unfold on_conn. destruct (ConnManager.GetState p (conn n)) as [x c].
  by apply mv_same.
Qed.

Lemma register_all_move names n : move n (register_all names n).2.
Proof.
  assert (conn (register_all names n).2 = conn n ∧ strm (register_all names n).2 = strm n) as [E1 E2]; [| by apply mv_same].
  revert n. induction names as [|name names IH]; intros n; [done |]. exact (IH _).
Qed.

Lemma getOrCreatePeerStats_move p n : move n (getOrCreatePeerStats p n).2.
Proof. unfold getOrCreatePeerStats, st_get, mbind, ST_bind. destruct (peerStats n !! p); by apply mv_same. Qed.

Lemma acquire_move name n : move n (acquire name n).2.
Proof.
  unfold acquire. destruct (flowControllers n !! name) as [fc|]; [| by apply mv_same].
  destruct (Acquire_locked fc). by apply mv_same.
Qed.

Lemma release_move name n : move n (release name n).2.
Proof.
  unfold release, st_modify. cbn. destruct (flowControllers n !! name) as [fc|]; [| by apply mv_same].
  destruct (Release fc); by apply mv_same.
Qed.

End Common.

(** ** The shape of the node's code

    A property of code that calls, sections and sequences have is one of every
    method: the components are only used through their procedures, and the
    node's own sections are moves. *)
Section Walk.
Context `{Libp2p} `{CryptoLib} `{Unicode}.
Notation code := (prog (S := Node) (P := Node.proc) (Q := Node.query) (R := Node.answer)).

Definition own (q : Node.proc) : Prop := match q with PConn _ | PStrm _ | PHub _ => False | _ => True end.

Context (ok : ∀ A, code A → Prop)
  (ok_ret : ∀ A (a : A), ok A (mret a))
  (ok_bind : ∀ A B (m : code A) (k : A → code B), ok A m → (∀ a, ok B (k a)) → ok B (mbind k m))
  (ok_ask : ∀ q, ok _ (ask q))
  (ok_go : ∀ q, own q → ok _ (go q))
  (ok_section : ∀ A (f : ST Node A), (∀ n, move n (f n).2) → ok A (atomic f))
  (ok_conn : ∀ A m q, (∀ s : ConnManager.Manager (B := world), ConnManager.api s q) →
     ConnManager.body q = ConnManager.discard m → ok A (cm m))
  (ok_conn_unit : ∀ m q, (∀ s : ConnManager.Manager (B := world), ConnManager.api s q) → ConnManager.body q = m → ok unit (cm m))
  (ok_strm : ∀ A m q, (∀ s, StreamManager.api s q) → StreamManager.body q = StreamManager.discard m → ok A (sm m))
  (ok_strm_unit : ∀ m q, (∀ s, StreamManager.api s q) → StreamManager.body q = m → ok unit (sm m))
  (ok_derive : ∀ pub, ok _ (sm (derive pub)))
  (ok_hub : ∀ A m, ok A (hb m)).

Ltac conn_call q :=
  first [ apply (ok_conn _ _ q); [by intros | reflexivity] | apply (ok_conn_unit _ q); [by intros | reflexivity] ].
Ltac strm_call q :=
  first [ apply (ok_strm _ _ q); [by intros | reflexivity] | apply (ok_strm_unit _ q); [by intros | reflexivity] ].
Ltac section :=
  apply ok_section; intros ?;
  first [ apply on_book_move | apply on_module_move | apply close_dispatch_move | apply take_event_move
        | apply getOrCreatePeerStats_move | apply acquire_move | apply release_move | apply take_message_move | apply state_move | apply register_all_move
        | by apply mv_same | by apply mv_cancel
        | apply mv_same; unfold st_get, st_modify, st_gets, mbind, ST_bind, mret, ST_ret; cbn; repeat match goal with |- context[match ?x with _ => _ end] => destruct x; cbn end; reflexivity ].
Ltac ask_ := match goal with |- ok _ (ask ?q) => exact (ok_ask q) end.
Ltac cases := match goal with |- ok _ (match ?x with _ => _ end) => destruct x end.
Ltac then_ := apply ok_bind; [| intros ?].

Lemma auto_connect_ok l : ok _ (auto_connect l).
Proof.
  induction l as [|e l IH]; cbn [auto_connect]; [apply ok_ret |].
  then_; [conn_call (PAutoConnect (Storage.PeerID e)) | exact IH].
Qed.

Lemma cleanup_ok p : ok _ (cleanupPeerResources p).
Proof.
  unfold cleanupPeerResources. then_; [strm_call (PCloseStreams p) |]. then_; [section |]. destruct a0; [apply ok_ret | section].
Qed.

Lemma err_ok {A} (e : option error) (m : code A) (f : error → code A) :
  ok A m → (∀ e, ok A (f e)) → ok A (match e with Some e => f e | None => m end).
Proof. destruct e; auto. Qed.

Lemma establish_ok p pub names : ok _ (establish p pub names).
Proof.
  unfold establish. then_; [apply ok_derive |]. destruct a as [e|k]; [apply ok_ret |].
  then_; [section |]. then_; [conn_call (PSetSharedKey p a) |]. apply err_ok; [| intros; apply ok_ret].
  then_; [section |]. then_; [strm_call (PEstablish p pub names) |]. apply err_ok; [| intros; apply ok_ret].
  then_; [ask_ |]. then_; [section | apply ok_ret].
Qed.

Lemma send_now_ok p name data : ok _ (send_now p name data).
Proof.
  unfold send_now. then_; [strm_call (StreamManager.PSend p name data) |]. apply err_ok; [| intros; apply ok_ret].
  then_; [section |]. then_; [section | apply ok_ret].
Qed.

Lemma send_acquire_ok p name data : ok _ (send_acquire p name data).
Proof.
  unfold send_acquire. then_; [section |]. destruct a as [|b|ch]; [apply ok_ret | |].
  - then_; [apply send_now_ok |]. then_; [section | apply ok_ret].
  - then_; [ask_ |]. apply err_ok; [| intros; apply ok_ret]. then_; [by apply ok_go | apply ok_ret].
Qed.

Lemma guarded_ok {A} (x : A) (c : code A) : ok _ c → ok _ (st ← is_started; if negb st then mret x else c).
Proof. intros Hc. then_; [section |]. destruct a; [exact Hc | apply ok_ret]. Qed.

Lemma PrepareStreams_ok p pub names : ok _ (PrepareStreams p pub names).
Proof.
  apply guarded_ok. then_; [section |]. apply err_ok; [apply establish_ok | intros; apply ok_ret].
Qed.

Lemma FinalizeHandshake_ok p : ok _ (FinalizeHandshake p).
Proof.
  apply guarded_ok. then_; [conn_call (PCancelHandshakeTimeout p) |]. apply err_ok; [| intros; apply ok_ret].
  then_; [strm_call (PCloseHandshake p) |]. then_; [conn_call (PMarkEstablished p) |]. apply err_ok; intros; apply ok_ret.
Qed.

Lemma Start_ok : ok _ Start.
Proof.
  unfold Start. then_; [section |]. destruct a; [| apply ok_ret].
  then_; [| apply ok_ret]. then_; [section | apply auto_connect_ok].
Qed.

Lemma Stop_ok : ok _ Stop.
Proof.
  apply guarded_ok. then_; [section |]. then_; [conn_call ConnManager.PShutdown |].
  then_; [strm_call StreamManager.PShutdown |]. then_; [section |]. then_; [ask_ |].
  apply err_ok; [| intros; apply ok_ret]. then_; [section |]. then_; [section | apply ok_ret].
Qed.

Lemma AddPeer_ok p addrs md : ok _ (Node.AddPeer p addrs md).
Proof.
  unfold Node.AddPeer. then_; [section |]. apply err_ok; [| intros; apply ok_ret].
  then_; [ask_ |]. then_; [section |]. apply err_ok; [| intros; apply ok_ret].
  then_; [section |]. then_; [| apply ok_ret]. cases; [conn_call (PAutoConnect p) | apply ok_ret].
Qed.

Lemma BlacklistPeer_ok p : ok _ (Node.BlacklistPeer p).
Proof.
  unfold Node.BlacklistPeer. then_; [ask_ |]. then_; [section |]. apply err_ok; [| intros; apply ok_ret].
  then_; [section |]. then_; [| apply ok_ret]. cases; [| apply ok_ret].
  then_; [conn_call (PDisconnectCtx p) | apply ok_ret].
Qed.

Lemma EstablishEncryptedStreams_ok p pub names : ok _ (EstablishEncryptedStreams p pub names).
Proof.
  apply guarded_ok. then_; [section |]. apply err_ok; [| intros; apply ok_ret].
  then_; [section |]. then_; [| apply establish_ok]. case_bool_decide; [| apply ok_ret].
  then_; [conn_call (PRegisterIncoming p) | apply ok_ret].
Qed.

Lemma SendCtx_ok p name data : ok _ (Node.SendCtx p name data).
Proof.
  apply guarded_ok. then_; [section |]. apply err_ok; [| intros; apply ok_ret].
  destruct (_ && _); [apply ok_ret |]. destruct (negb _).
  - then_; [| apply send_acquire_ok]. unfold getOrCreateFlowController. then_; [section |].
    destruct a0; [apply ok_ret | section].
  - then_; [apply send_now_ok | apply ok_ret].
Qed.

Lemma serve_ok protoID remote stream : ok _ (serve protoID remote stream).
Proof.
  unfold serve, handle_handshake, handle_stream. then_; [section |]. destruct a as [[|name]|]; [| | apply ok_ret].
  - then_; [conn_call (PRegisterIncoming remote) |]. then_; [strm_call (PIncomingHandshake remote stream) |].
    apply err_ok; [apply ok_ret | intros]. then_; [ask_ | apply ok_ret].
  - then_; [strm_call (PIncoming remote name stream) |].
    apply err_ok; [apply ok_ret | intros]. then_; [ask_ | apply ok_ret].
Qed.

Lemma forwardMessages_ok : ok _ forwardMessagesWithStats.
Proof.
  unfold forwardMessagesWithStats. then_; [ask_ |]. then_; [section |].
  destruct a0 as [| |msg]; [section | by apply ok_go |].
  then_; [section |]. then_; [section |]. then_; [section |]. by apply ok_go.
Qed.

Lemma forwardEvents_ok : ok _ forwardEvents.
Proof.
  unfold forwardEvents. then_; [ask_ |]. then_; [section |].
  destruct a0 as [| |evt]; [apply ok_hub | by apply ok_go |].
  then_; [destruct (decide _); [apply cleanup_ok | apply ok_ret] |]. then_; [apply ok_hub |]. by apply ok_go.
Qed.

Lemma body_ok q : own q → ok _ (Node.body q).
Proof.
  intros Hq. destruct q; cbn [Node.body]; try done; unfold Node.discard; try (then_; [| apply ok_ret]).
  - apply Start_ok.
  - apply Stop_ok.
  - apply AddPeer_ok.
  - then_; [ask_ | section].
  - apply BlacklistPeer_ok.
  - then_; [ask_ | section].
  - apply guarded_ok. conn_call (PConnectCtx p).
  - then_; [apply cleanup_ok |]. conn_call (PDisconnectCtx p).
  - conn_call (ConnManager.PCancelReconnection p).
  - apply PrepareStreams_ok.
  - apply FinalizeHandshake_ok.
  - then_; [apply PrepareStreams_ok |]. apply err_ok; [apply FinalizeHandshake_ok | intros; apply ok_ret].
  - apply EstablishEncryptedStreams_ok.
  - apply SendCtx_ok.
  - apply send_acquire_ok.
  - apply serve_ok.
  - apply forwardMessages_ok.
  - apply forwardEvents_ok.
  - section.
  - then_; [ask_ | section].
Qed.
End Walk.

(** ** The connection manager in the node *)

Section Conn.
Context `{Libp2p} `{CryptoLib} `{Unicode}.
Notation csystem := (system (S := ConnManager.Manager (B := world)) (P := ConnManager.proc) (Q := ConnManager.query (A := Multiaddr)) (R := ConnManager.answer)).

Definition not_conn (q : Node.proc) : Prop := match q with PConn _ => False | _ => True end.

Notation ctracks := (tracks ConnManager.body ConnManager.api ConnManager.answers ConnManager.env
  Node.answers conn PConn not_conn).

Lemma cm_lifted (q : ConnManager.proc) : ctracks (Node.body (PConn q)) (ConnManager.body q).
Proof. refine (tracks_lifted_unit _ _ _ _ _ _ _ _ _ _ _ _ _ _); [done |]. by intros s q0 a. Qed.

Lemma move_conn n n' : move n n' → rtc ConnManager.env (conn n) (conn n').
Proof.
  intros [-> _|w -> _| -> _|f -> _|v c -> _]; [apply rtc_refl | | | apply rtc_refl..].
  - apply rtc_once. right. left. by exists w.
  - apply rtc_once. by do 2 right.
Qed.

Lemma own_ctracks q m : not_conn q → ctracks (Node.body q) m.
Proof.
  intros Hq. destruct (decide (match q with PConn _ | PStrm _ | PHub _ => true | _ => false end = true)) as [Hc|Hc].
  - destruct q; try done; (apply tracks_quiet; [| by (apply sm_starts || apply hb_starts)]);
      (apply sm_respects || apply hb_respects); intros; apply rtc_refl.
  - apply (body_ok (λ A c, ∀ m, ctracks c m)); [done | | | | | | | | | | | by destruct q].
    + intros A B c k Hc1 Hk m'. apply tracks_bind; auto.
    + intros q1 m'. apply tracks_ask.
    + intros q1 Hq1 m'. apply tracks_go. by destruct q1.
    + intros A f Hf m'. apply tracks_section. intros n. by apply move_conn.
    + intros A c q1 Ha E m'. refine (tracks_called _ _ _ _ _ _ _ _ _ _ _ _ _ c (λ _, mret tt) q1 m' Ha E); [done |]. by intros s q0 a.
    + intros c q1 Ha <- m'. apply (tracks_call _ _ _ _ _ _ _ _ _ q1 m' Ha). apply cm_lifted.
    + intros A c q1 _ _ m'. apply tracks_quiet; [apply sm_respects; intros; apply rtc_refl | by apply sm_starts].
    + intros c q1 _ _ m'. apply tracks_quiet; [apply sm_respects; intros; apply rtc_refl | by apply sm_starts].
    + intros pub m'. apply tracks_quiet; [apply sm_respects; intros; apply rtc_refl | by apply sm_starts].
    + intros A c m'. apply tracks_quiet; [apply hb_respects; intros; apply rtc_refl | by apply hb_starts].
Qed.

Lemma env_conn n n' : Node.env n n' → rtc ConnManager.env (conn n) (conn n').
Proof. intros [n1 u Hu _| |]; [| apply rtc_refl..]. apply rtc_once. left. by exists u. Qed.

Lemma manager_simulated n s :
  rtc (step Node.body Node.api Node.answers Node.env) {| shared := n; gos := Node.body <$> new_goroutines |} s →
  ∃ ms, rtc mstep ({| shared := conn n; gos := [] |} : csystem) {| shared := conn (shared s); gos := ms |}.
Proof.
  apply (composition_refines ConnManager.body ConnManager.api ConnManager.answers ConnManager.env
           Node.body Node.api Node.answers Node.env conn set_conn PConn QConn (λ q a, a) not_conn).
  - done.
  - by intros.
  - apply cm_lifted.
  - intros p. apply own_ctracks.
  - intros n1 q Hq. destruct q as [q| | | | | | | | | | | | | | | | | | | | | |]; try (by left).
    right. exists q. split; [done |]. by destruct q.
  - apply env_conn.
  - by repeat constructor.
Qed.
End Conn.

(** ** The stream manager in the node *)

Section Strm.
Context `{Libp2p} `{CryptoLib} `{Unicode}.
Notation ssystem := (system (S := StreamManager.Manager) (P := StreamManager.proc) (Q := Streams.query) (R := Streams.answer)).

Definition not_strm (q : Node.proc) : Prop := match q with PStrm _ => False | _ => True end.

Notation stracks := (tracks StreamManager.body StreamManager.api StreamManager.answers StreamInvariant.env
  Node.answers strm PStrm not_strm).

Lemma sm_lifted (q : StreamManager.proc) : stracks (Node.body (PStrm q)) (StreamManager.body q).
Proof. refine (tracks_lifted_unit _ _ _ _ _ _ _ _ _ _ _ _ _ _); [done |]. by intros s q0 a. Qed.

Lemma move_strm n n' : move n n' → rtc StreamInvariant.env (strm n) (strm n').
Proof.
  intros [_ ->|w _ ->|_ ->|f _ ->|v c _ Hc ->]; [apply rtc_refl | apply rtc_refl | apply rtc_once; constructor | |].
  - apply rtc_once. apply env_module.
  - apply rtc_once. by apply (env_receive _ v).
Qed.

(** Deriving a key is a sequence of steps of the crypto module. *)
Lemma derive_stracks pub m : stracks (sm (derive pub)) m.
Proof.
  apply tracks_quiet.
  - apply respects_translate. eapply (respects_embed _ _ _ (rtc StreamInvariant.env)); [by intros |].
    assert (∀ p, rtc StreamInvariant.env p p) as Hrefl by (intros; apply rtc_refl).
    assert (∀ q (x : StreamManager.Manager), rtc StreamInvariant.env x (on_module (derive_step q) x).2) as Hstep.
    { intros q x. apply rtc_once.
      replace (on_module (derive_step q) x).2 with (on_module (λ s, (tt, (derive_step q s).2)) x).2; [apply env_module |].
      unfold on_module. by destruct (derive_step q _). }
    unfold derive. destruct (ValidateEd25519PublicKey pub); [exact I |].
    destruct (Ed25519PublicToX25519 _); [exact I |]. do 4 (apply respects_bind; [split; [intros x; apply Hstep | done] | intros ?]). exact I.
  - apply starts_translate. eapply (starts_embed _ _ _ (λ _, False)); [done |].
    unfold derive. destruct (ValidateEd25519PublicKey pub); [exact I |]. destruct (Ed25519PublicToX25519 _); [exact I |].
    do 4 (apply starts_bind; [done | intros ?]). exact I.
Qed.

Lemma own_stracks q m : not_strm q → stracks (Node.body q) m.
Proof.
  intros Hq. destruct (decide (match q with PConn _ | PStrm _ | PHub _ => true | _ => false end = true)) as [Hc|Hc].
  - destruct q; try done; (apply tracks_quiet; [| by (apply cm_starts || apply hb_starts)]);
      (apply cm_respects || apply hb_respects); intros; apply rtc_refl.
  - apply (body_ok (λ A c, ∀ m, stracks c m)); [done | | | | | | | | | | | by destruct q].
    + intros A B c k Hc1 Hk m'. apply tracks_bind; auto.
    + intros q1 m'. apply tracks_ask.
    + intros q1 Hq1 m'. apply tracks_go. by destruct q1.
    + intros A f Hf m'. apply tracks_section. intros n. by apply move_strm.
    + intros A c q1 _ _ m'. apply tracks_quiet; [apply cm_respects; intros; apply rtc_refl | by apply cm_starts].
    + intros c q1 _ _ m'. apply tracks_quiet; [apply cm_respects; intros; apply rtc_refl | by apply cm_starts].
    + intros A c q1 Ha E m'. refine (tracks_called _ _ _ _ _ _ _ _ _ _ _ _ _ c (λ _, mret tt) q1 m' Ha E); [done |]. by intros s q0 a.
    + intros c q1 Ha <- m'. apply (tracks_call _ _ _ _ _ _ _ _ _ q1 m' Ha). apply sm_lifted.
    + intros pub m'. apply derive_stracks.
    + intros A c m'. apply tracks_quiet; [apply hb_respects; intros; apply rtc_refl | by apply hb_starts].
Qed.

Lemma env_strm n n' : Node.env n n' → rtc StreamInvariant.env (strm n) (strm n').
Proof. intros [n1 u _ Hu| |]; [| apply rtc_refl..]. apply rtc_once. by apply StreamInvariant.env_clock. Qed.

Lemma streams_simulated n s :
  rtc (step Node.body Node.api Node.answers Node.env) {| shared := n; gos := Node.body <$> new_goroutines |} s →
  ∃ ms, rtc (step StreamManager.body StreamManager.api StreamManager.answers StreamInvariant.env)
          ({| shared := strm n; gos := [] |} : ssystem) {| shared := strm (shared s); gos := ms |}.
Proof.
  apply (composition_refines StreamManager.body StreamManager.api StreamManager.answers StreamInvariant.env
           Node.body Node.api Node.answers Node.env strm set_strm PStrm QStrm (λ q a, a) not_strm).
  - done.
  - by intros.
  - apply sm_lifted.
  - intros p. apply own_stracks.
  - intros n1 q Hq. destruct q as [| | | | | | | | | | | | | | | | | | | | | |]; try (by left); done.
  - apply env_strm.
  - by repeat constructor.
Qed.
End Strm.

(** ** A node from [New] on *)

Section Made.
Context `{Libp2p} `{CryptoLib} `{Unicode}.
Notation nstep := (step Node.body Node.api Node.answers Node.env).

(** The executions of a node that [New] has made. *)
Definition running (u : time) (s : system) : Prop := ∃ c key o d host h n h',
  New c key o d host u h = (Ok n, h') ∧ rtc nstep {| shared := n; gos := Node.body <$> new_goroutines |} s.

(** What [New] makes of the managers. *)
Lemma New_parts c key o d host u h n h' :
  New c key o d host u h = (Ok n, h') →
  (∃ b cfg, conn n = ConnManager.NewManager b cfg true u)
  ∧ ∃ cm s0, encs s0 = ∅ ∧ uncs s0 = ∅ ∧ Chan.buf (incoming s0) = []
      ∧ strm n = (SetMessageDroppedCallback (Some 1) (SetDecryptionErrorCallback (Some 0) (StreamManager.NewManager cm s0)).2).2.
Proof.
  unfold New, mbind, ST_bind, mret, ST_ret, st_get. destruct (checked_config c) as [e|cfg]; [done |].
  destruct (NewModule _ h) as [[e|cm] h1]; [done |]. destruct (AddressBook.New _ _ _) as [e|b]; [done |].
  destruct host; [done |]. intros [= <- <-]. split; [by do 2 eexists |]. do 2 eexists. split_and!; [| | | reflexivity]; done.
Qed.

Lemma running_manager u s :
  running u s → ∃ b cfg ms, rtc mstep (initial (A := Multiaddr) b cfg true u) {| shared := conn (shared s); gos := ms |}.
Proof.
  intros (c & key & o & d & host & h & n & h' & Hn & Hr). destruct (New_parts _ _ _ _ _ _ _ _ _ Hn) as [(b & cfg & E) _].
  destruct (manager_simulated n s Hr) as (ms & Hm). exists b, cfg, ms. unfold initial. by rewrite <- E.
Qed.

Lemma running_streams u s :
  running u s → ∃ cm s0 ms, encs s0 = ∅ ∧ uncs s0 = ∅ ∧ Chan.buf (incoming s0) = []
    ∧ rtc (step StreamManager.body StreamManager.api StreamManager.answers StreamInvariant.env)
        {| shared := StreamManager.NewManager cm s0; gos := [] |} {| shared := strm (shared s); gos := ms |}.
Proof.
  intros (c & key & o & d & host & h & n & h' & Hn & Hr). destruct (New_parts _ _ _ _ _ _ _ _ _ Hn) as [_ (cm & s0 & E1 & E2 & E3 & E)].
  destruct (streams_simulated n s Hr) as (ms & Hm). exists cm, s0, ms. split_and!; [done.. |].
  etrans; [| exact Hm]. rewrite E.
  assert (∀ m m', StreamInvariant.env m m' → step StreamManager.body StreamManager.api StreamManager.answers StreamInvariant.env
    {| shared := m; gos := [] |} {| shared := m'; gos := [] |}) as Hstep
    by (intros m m' Hm'; exact (step_env StreamManager.body StreamManager.api StreamManager.answers StreamInvariant.env {| shared := m; gos := [] |} m' Hm')).
  eapply rtc_l; [apply Hstep, (StreamInvariant.env_config _ (Some 0)) |].
  apply rtc_once, Hstep, StreamInvariant.env_config.
Qed.
End Made.



(** C21. So the invariants of the parts hold in every execution of the whole: a
    connection of a running node belongs to the peer it is filed under, only
    connected peers are being reconnected, a stream has the peer and the name
    it is filed under, and a message that waits and does not say it is
    handshake data comes from an encrypted stream of the peer and the name it
    says. *)
Theorem node_invariant `{Libp2p} `{CryptoLib} `{Unicode} u s :
  running u s →
  (∀ p c, connections (conn (shared s)) !! p = Some c → ∃ pc, conns (conn (shared s)) !! c = Some pc ∧ Peer.PeerID pc = p)
  ∧ (∀ p r, reconnecting (conn (shared s)) !! p = Some r → is_Some (connections (conn (shared s)) !! p))
  ∧ (∀ p name i, entry (streams (strm (shared s))) p name = Some i →
       ∃ es, encs (sto (strm (shared s))) !! i = Some es ∧ es_name es = name ∧ es_peerID es = p)
  ∧ ∀ msg, msg ∈ Chan.buf (incoming (sto (strm (shared s)))) → im_StreamName msg ≠ HandshakeStreamName →
      ∃ i es, encs (sto (strm (shared s))) !! i = Some es ∧ es_peerID es = im_PeerID msg ∧ es_name es = im_StreamName msg.
Proof.
  intros Hs. destruct (running_manager u s Hs) as (b & cfg & ms & Hm), (running_streams u s Hs) as (cm & s0 & ms' & E1 & E2 & E3 & Hm').
  destruct (mstep_respects _ _ Hm) as [Ht _]; [constructor |]. destruct (Ht (wf_initial b cfg true u)) as [Hw _]. cbn [shared] in Hw.
  destruct (StreamInvariant.tables_hold cm s0 _ E1 E2 E3 Hm') as [[_ _ O3] T2 _]. cbn [shared] in *.
  split; [apply Hw |]. split; [intros p r Hr; by apply (wf_reconnecting _ Hw p r) |]. split; [exact T2 |].
  intros msg Hm1 Hne. rewrite Forall_forall in O3. destruct (O3 msg Hm1) as [(i & es & ?)|[Hh _]]; [by exists i, es | done].
Qed.
