(* ===== verification/NodeBehaviour.v ===== *)
(** * What the node's methods do

    Each method run to its end by itself, on the environment's answers; a
    component's part is the run of the component's own method. *)

From S2P Require Import Prelude Errors ConnState Config Validation Version Flow Dispatcher Interfaces Storage AddressBook Heap Crypto CryptoModule Peer Proc Compose Subscriptions Stats Streams StreamBehaviour StreamManager SecureChannel StreamSafety ConnManager ConnBehaviour Node.

Section Runs.
Context `{Libp2p} `{CryptoLib} `{Unicode}.
Notation code := (prog (S := Node) (P := Node.proc) (Q := Node.query) (R := Node.answer)).
Notation ccode := (prog (S := ConnManager.Manager) (P := ConnManager.proc) (Q := ConnManager.query (A := Multiaddr)) (R := ConnManager.answer)).
Notation scode := (prog (S := StreamManager.Manager) (P := StreamManager.proc) (Q := Streams.query) (R := Streams.answer)).
Notation hcode := (prog (S := Subscriptions.hub) (P := Subscriptions.proc) (Q := Subscriptions.query) (R := Subscriptions.answer)).
Context (ans : ∀ q : Node.query, Node.answer q).

(** The answers as a component sees them. *)
Definition to_conn (q : ConnManager.query (A := Multiaddr)) : ConnManager.answer q := ans (QConn q).
Definition to_strm (q : Streams.query) : Streams.answer q := ans (QStrm q).
Definition to_hub (q : Subscriptions.query) : Subscriptions.answer q := ans (QHub q).

Lemma run_cm {X} (m : ccode X) n :
  run ans (cm m) n = let o := run to_conn m (conn n) in
    {| value := value o; final := set_conn (final o) n; spawned := PConn <$> spawned o; calls := QConn <$> calls o |}.
Proof. unfold cm, lifted. rewrite run_translate, run_embed; [done | done | done | by intros []]. Qed.

Lemma run_sm {X} (m : scode X) n :
  run ans (sm m) n = let o := run to_strm m (strm n) in
    {| value := value o; final := set_strm (final o) n; spawned := PStrm <$> spawned o; calls := QStrm <$> calls o |}.
Proof. unfold sm, lifted. rewrite run_translate, run_embed; [done | done | done | by intros []]. Qed.

Lemma run_hb {X} (m : hcode X) n :
  run ans (hb m) n = let o := run to_hub m (hub n) in
    {| value := value o; final := set_hub (final o) n; spawned := PHub <$> spawned o; calls := QHub <$> calls o |}.
Proof. unfold hb, lifted. rewrite run_translate, run_embed; [done | done | done | by intros []]. Qed.

Lemma run_ask {A} q (k : Node.answer q → code A) n :
  run ans (ask q ≫= k) n
  = let o := run ans (k (ans q)) n in
    {| value := value o; final := final o; spawned := spawned o; calls := q :: calls o |}.
Proof. done. Qed.

(** A guarded method of a node that runs. *)
Lemma run_guarded {A} (x : A) (c : code A) n :
  started n = true → run ans (st ← is_started; if negb st then mret x else c) n = run ans c n.
Proof. intros Hs. unfold is_started. rewrite run_seq, run_section. unfold st_gets. cbn [value final spawned calls fst snd]. rewrite Hs. cbn [negb]. by destruct (run ans c n). Qed.

Lemma run_unstarted {A} (x : A) (c : code A) n :
  started n = false →
  run ans (st ← is_started; if negb st then mret x else c) n = {| value := x; final := n; spawned := []; calls := [] |}.
Proof. intros Hs. unfold is_started. rewrite run_seq, run_section. unfold st_gets. cbn [value final spawned calls fst snd]. by rewrite Hs. Qed.
End Runs.

(** ** Sending *)

Section Sending.
Context `{Libp2p} `{CryptoLib} `{Unicode}.

(** The controller of a stream, made on first use. *)
Definition controller (name : string) (n : Node) : Controller :=
  match flowControllers n !! name with
  | Some fc => fc
  | None => SetBlockedCallback true (NewController (Config.HighWatermark (config n)) (Config.LowWatermark (config n)))
  end.

(** What the peer's statistics are, made on first use. *)
Definition stats (p : string) (n : Node) : PeerStatsTracker := default (NewPeerStatsTracker p true) (tracker_of p n).

(** The table of trackers is in order. *)
Definition stats_ok (n : Node) : Prop :=
  (∀ p t, peerStats n !! p = Some t → t < next_tracker n ∧ is_Some (trackers n !! t))
  ∧ ∀ p q t, peerStats n !! p = Some t → peerStats n !! q = Some t → p = q.

(** One tracker changes, or is made, and nothing else. *)
Definition recorded (p : string) (x : PeerStatsTracker) (n n' : Node) : Prop :=
  stats p n' = x ∧ (∀ q, q ≠ p → tracker_of q n' = tracker_of q n) ∧ stats_ok n'
  ∧ config n' = config n ∧ conn n' = conn n ∧ strm n' = strm n ∧ messages n' = messages n ∧ hub n' = hub n
  ∧ flowControllers n' = flowControllers n ∧ started n' = started n
  ∧ eventDispatch n' = eventDispatch n ∧ dispatched n' = dispatched n ∧ handlers n' = handlers n.

Lemma record_in p n (f : PeerStatsTracker → PeerStatsTracker) :
  stats_ok n →
  let (t, n1) := getOrCreatePeerStats p n in recorded p (f (stats p n)) n (on_tracker t f n1).2.
Proof.
  intros [Hs Hi]. unfold getOrCreatePeerStats, st_get, mbind, ST_bind, mret, ST_ret.
  destruct (peerStats n !! p) as [t|] eqn:Ep; cbn.
  - destruct (Hs p t Ep) as [Ht [x Hx]]. unfold recorded, stats, tracker_of. cbn. rewrite Ep. cbn. rewrite lookup_alter_eq, Hx. cbn.
    split; [done |]. split; [| split; [| by split_and!]].
    + intros q Hq. destruct (peerStats n !! q) as [t'|] eqn:Eq; [| done]. cbn. apply lookup_alter_ne. intros ->. by apply Hq, (Hi q p t').
    + split; [| exact Hi]. cbn. intros q t' Hq. destruct (Hs q t' Hq) as [Hlt Hex]. split; [done |].
      rewrite lookup_alter. case_decide; subst; [by rewrite Hx; eexists | done].
  - set (t := next_tracker n). unfold recorded, stats, tracker_of. cbn. rewrite lookup_insert_eq. cbn.
    rewrite lookup_alter_eq, lookup_insert_eq, Ep. cbn. split; [done |].
    assert (∀ q t', peerStats n !! q = Some t' → t' ≠ t) as Hne by (intros q t' Hq ->; apply Hs in Hq as [? _]; lia).
    split; [| split; [| by split_and!]].
    + intros q Hq. rewrite lookup_insert_ne by done. destruct (peerStats n !! q) as [t'|] eqn:Eq; [| done]. cbn.
      pose proof (Hne q t' Eq). by rewrite lookup_alter_ne, lookup_insert_ne.
    + split; cbn.
      * intros q t' Hq. apply lookup_insert_Some in Hq as [[<- <-]|[Hq Eq]].
        -- split; [lia |]. rewrite lookup_alter_eq, lookup_insert_eq. by eexists.
        -- destruct (Hs q t' Eq) as [? ?]. pose proof (Hne q t' Eq). split; [lia |]. by rewrite lookup_alter_ne, lookup_insert_ne.
      * intros q1 q2 t' Hq1 Hq2. apply lookup_insert_Some in Hq1 as [[<- <-]|[N1 Hq1]];
          apply lookup_insert_Some in Hq2 as [[<- E]|[N2 Hq2]]; [done | | | by eapply Hi].
        -- by destruct (Hne q2 t Hq2).
        -- subst. by destruct (Hne q1 t Hq1).
Qed.

Lemma recorded_refl p n : stats_ok n → recorded p (stats p n) n n.
Proof. intros Hs. by split_and!. Qed.

Lemma send_now_run (ans : ∀ q, Node.answer q) p name data n :
  stats_ok n →
  let r := run (to_strm ans) (StreamManager.SendCtx p name data) (strm n) in
  let o := run ans (send_now p name data) n in
  value o = value r ∧ spawned o = PStrm <$> spawned r ∧ calls o = QStrm <$> calls r
  ∧ recorded p (match value r with
                | None => (RecordMessageSent (Peer.clock (mrt (conn n))) name (Z.of_nat (length data)) (stats p n)).2
                | Some _ => stats p n
                end) (set_strm (final r) n) (final o).
Proof.
  intros Hs. cbv zeta. unfold send_now. rewrite run_seq, run_sm. cbv zeta. cbn [value final spawned calls].
  generalize (run (to_strm ans) (StreamManager.SendCtx p name data) (strm n)). intros r.
  destruct (value r) as [e|].
  - cbn. rewrite !app_nil_r. split_and!; done.
  - rewrite run_seq, run_section. cbn [value final spawned calls]. rewrite run_seq, run_section.
    cbn [value final spawned calls app]. rewrite !app_nil_r.
    set (n1 := set_strm _ n).
    pose proof (record_in p n1 (λ x, (RecordMessageSent (Peer.clock (mrt (conn n))) name (Z.of_nat (length data)) x).2) Hs) as Hr.
    assert (conn (getOrCreatePeerStats p n1).2 = conn n) as Ec.
    { unfold getOrCreatePeerStats, st_get, mbind, ST_bind. by destruct (peerStats n1 !! p). }
    destruct (getOrCreatePeerStats p n1) as [t n2]. cbn [fst snd] in *. rewrite <- Ec in *.
    split; [done |]. split; [done |]. split; [done | exact Hr].
Qed.

(** The stream lets a sender through. *)
Record free (fc : Controller) : Prop := {
  fr_open : Flow.closed fc = false;
  fr_unblocked : blocked fc = false;
  fr_channel : unblockCh fc ∉ ch_closed fc;
  fr_pending : (0 <= pending fc < GoInt.maxInt64)%Z;
}.

Lemma acquire_release fc :
  free fc →
  ∃ cb fc1 fc2, Acquire_locked fc = (AcquireOk cb, fc1) ∧ Release fc1 = Some fc2 ∧ pending fc2 = pending fc.
Proof.
  intros [Hc Hb Hch Hp]. unfold Acquire_locked. rewrite Hc, Hb. cbn [negb orb andb]. eexists _, _.
  assert ((pending fc +₆₄ 1)%go = (pending fc + 1)%Z) as E by (apply GoInt.wrap64_id; unfold GoInt.in_int64, GoInt.maxInt64, GoInt.minInt64 in *; lia).
  rewrite E. set (hit := ((highWatermark fc <=? pending fc + 1)%Z && true)).
  enough (∃ fc2, Release (set_counts fc (pending fc + 1) hit) = Some fc2 ∧ pending fc2 = pending fc) as (fc2 & Hr & Hq)
    by (exists fc2; split; [reflexivity | by split]).
  unfold Release, set_counts. cbn. replace (0 <? pending fc + 1)%Z with true by (symmetry; apply Z.ltb_lt; lia). cbn.
  replace (pending fc + 1 - 1)%Z with (pending fc) by lia.
  destruct (hit && (pending fc <=? lowWatermark fc)%Z); [| by eexists].
  unfold close_channel. cbn. rewrite decide_False by done. cbn. by eexists.
Qed.

(** [getOrCreateFlowController] and the sections of [Acquire] and [Release]. *)
Lemma getOrCreate_run (ans : ∀ q, Node.answer q) name n :
  ∃ n1, run ans (getOrCreateFlowController name) n = {| value := tt; final := n1; spawned := []; calls := [] |}
    ∧ n1 = set_flows (<[name := controller name n]> (flowControllers n)) n.
Proof.
  unfold getOrCreateFlowController. rewrite run_seq, run_section. unfold st_gets. cbn [value final fst snd].
  destruct (flowControllers n !! name) as [fc|] eqn:E.
  - eexists. split; [reflexivity |]. unfold controller. rewrite E, insert_id by done. by destruct n.
  - rewrite run_section. eexists. split; [reflexivity |]. unfold st_modify, controller. cbn. by rewrite E.
Qed.

(** Why a send is turned away before anything happens. *)
Definition send_refusal (p name : string) (data : bytes) (n : Node) : option error :=
  if negb (started n) then Some ErrNodeNotStarted
  else match ValidateStreamName name (MaxStreamNameLength (config n)) with
       | Some e => Some e
       | None =>
           if (0 <? Config.MaxMessageSize (config n))%Z && (Config.MaxMessageSize (config n) <? Z.of_nat (length data))%Z
           then Some (GlueError ErrCodeMessageTooLarge "message size %d exceeds maximum %d" p name None false "")
           else None
       end.

Lemma SendCtx_unfold (ans : ∀ q, Node.answer q) p name data n :
  run ans (Node.SendCtx p name data) n
  = match send_refusal p name data n with
    | Some e => {| value := Returned (Some e); final := n; spawned := []; calls := [] |}
    | None =>
        run ans (if negb (DisableBackpressure (config n))
                 then _ ← getOrCreateFlowController name; send_acquire p name data
                 else err ← send_now p name data; mret (Returned err)) n
    end.
Proof.
  unfold Node.SendCtx, send_refusal. destruct (started n) eqn:Es; [| by apply run_unstarted].
  rewrite run_guarded by done. rewrite run_seq, run_section. unfold st_gets. cbn [value final spawned calls fst snd negb].
  destruct (ValidateStreamName name _); [done |]. destruct (_ && _); [done |].
  set (c := if negb (DisableBackpressure (config n)) then _ else _). by destruct (run ans c n).
Qed.
End Sending.

Lemma send_runs `{Libp2p} `{CryptoLib} `{Unicode} (ans : ∀ q, Node.answer q) p name data n :
  send_refusal p name data n = None → stats_ok n →
  (DisableBackpressure (config n) = false → free (controller name n)) →
  let r := run (to_strm ans) (StreamManager.SendCtx p name data) (strm n) in
  let o := run ans (Node.SendCtx p name data) n in
  value o = Returned (value r) ∧ spawned o = PStrm <$> spawned r ∧ calls o = QStrm <$> calls r
  ∧ strm (final o) = final r ∧ conn (final o) = conn n ∧ hub (final o) = hub n
  ∧ stats p (final o) = match value r with
                        | None => (RecordMessageSent (Peer.clock (mrt (conn n))) name (Z.of_nat (length data)) (stats p n)).2
                        | Some _ => stats p n
                        end
  ∧ (∀ q, q ≠ p → tracker_of q (final o) = tracker_of q n)
  ∧ pending (controller name (final o)) = pending (controller name n)
  ∧ ∀ name', name' ≠ name → flowControllers (final o) !! name' = flowControllers n !! name'.
Proof.
  intros Hn Hs Hf. cbv zeta. rewrite SendCtx_unfold, Hn. destruct (DisableBackpressure (config n)); cbn [negb].
  - rewrite run_seq. destruct (send_now_run ans p name data n Hs) as (H1' & H2' & H3' & H4').
    unfold mret, prog_ret. cbn [value final spawned calls run].
    rewrite H1', H2', H3', !app_nil_r. destruct H4' as (S1 & S2 & _ & S4 & S5 & S6 & _ & S7 & S8 & _).
    rewrite S5, S6, S7, S8. unfold controller. rewrite S4, S8. by split_and!.
  - destruct (acquire_release _ (Hf eq_refl)) as (cb & fc1 & fc2 & Ha & Hr & Hp).
    rewrite run_seq. destruct (getOrCreate_run ans name n) as (n1 & -> & E1). cbn [value final spawned calls app].
    unfold send_acquire. rewrite run_seq, run_section.
    assert (acquire name n1 = (AcquireOk cb, set_flows (<[name := fc1]> (flowControllers n)) n)) as ->
      by (subst n1; unfold acquire; cbn; rewrite lookup_insert_eq, Ha, insert_insert_eq; done).
    cbn [value final spawned calls app fst snd]. rewrite run_seq. cbv zeta.
    set (n2 := set_flows (<[name := fc1]> (flowControllers n)) n).
    destruct (send_now_run ans p name data n2 Hs) as (H1' & H2' & H3' & H4').
    rewrite run_seq, run_section. unfold mret, prog_ret. cbn [value final spawned calls run]. rewrite H1', H2', H3'.
    set (n3 := final (run ans (send_now p name data) n2)) in *. clearbody n3.
    destruct H4' as (S1 & S2 & _ & S4 & S5 & S6 & _ & S7 & S8 & _).
    assert ((release name n3).2 = set_flows (<[name := fc2]> (flowControllers n)) n3) as ->.
    { unfold release, st_modify. cbn. rewrite S8. cbn. by rewrite lookup_insert_eq, Hr, insert_insert_eq. }
    cbn. rewrite !app_nil_r. split_and!; try done.
    + unfold controller. cbn. by rewrite lookup_insert_eq.
    + intros name' Hn'. by rewrite lookup_insert_ne.
Qed.

(** C24. A send on a stream that lets it through: the stream manager is asked to
    send, exactly once; one message of the data's size is counted for the peer
    and the stream if it succeeds and nothing is counted if it fails; and
    either way the stream's pending count is what it was before. *)
Theorem send_accounted `{Libp2p} `{CryptoLib} `{Unicode} (ans : ∀ q, Node.answer q) p name data n :
  send_refusal p name data n = None → stats_ok n →
  (DisableBackpressure (config n) = false → free (controller name n)) →
  let r := run (to_strm ans) (StreamManager.SendCtx p name data) (strm n) in
  let o := run ans (Node.SendCtx p name data) n in
  value o = Returned (value r) ∧ spawned o = PStrm <$> spawned r ∧ calls o = QStrm <$> calls r
  ∧ strm (final o) = final r ∧ conn (final o) = conn n ∧ hub (final o) = hub n
  ∧ stats p (final o) = match value r with
                        | None => (RecordMessageSent (Peer.clock (mrt (conn n))) name (Z.of_nat (length data)) (stats p n)).2
                        | Some _ => stats p n
                        end
  ∧ (∀ q, q ≠ p → tracker_of q (final o) = tracker_of q n)
  ∧ pending (controller name (final o)) = pending (controller name n)
  ∧ ∀ name', name' ≠ name → flowControllers (final o) !! name' = flowControllers n !! name'.
Proof. intros Hn Hs Hf. exact (send_runs ans p name data n Hn Hs Hf). Qed.

(** C34. A send that is turned away, because the node is not started, the name is
    not valid or the message is too large, changes and starts nothing; nor does
    one that finds the stream blocked when its caller gives up, apart from the
    stream's controller being there. *)
Theorem send_refused `{Libp2p} `{CryptoLib} `{Unicode} (ans : ∀ q, Node.answer q) p name data n :
  (∀ e, send_refusal p name data n = Some e →
     run ans (Node.SendCtx p name data) n = {| value := Returned (Some e); final := n; spawned := []; calls := [] |})
  ∧ (∀ fc e, send_refusal p name data n = None → DisableBackpressure (config n) = false →
     flowControllers n !! name = Some fc → Flow.closed fc = false → blocked fc = true →
     ans (QWait name (unblockCh fc)) = Some e → Node.answers n (QWait name (unblockCh fc)) (Some e) →
     run ans (Node.SendCtx p name data) n
     = {| value := Returned (Some (GlueError ErrCodeBackpressure "send blocked by backpressure" p name (Some e) true ""));
          final := n; spawned := []; calls := [QWait name (unblockCh fc)] |})
  ∧ (∀ fc, send_refusal p name data n = None → DisableBackpressure (config n) = false →
     flowControllers n !! name = Some fc → Flow.closed fc = false → blocked fc = true →
     ans (QWait name (unblockCh fc)) = None →
     run ans (Node.SendCtx p name data) n
     = {| value := Blocked; final := n; spawned := [PSendAcquire p name data]; calls := [QWait name (unblockCh fc)] |}).
Proof.
  split; [intros e He; by rewrite SendCtx_unfold, He |].
  assert (∀ fc, send_refusal p name data n = None → DisableBackpressure (config n) = false →
    flowControllers n !! name = Some fc → Flow.closed fc = false → blocked fc = true →
    run ans (Node.SendCtx p name data) n
    = let o := run ans (match ans (QWait name (unblockCh fc)) with
                        | Some e => mret (Returned (Some (backpressure p name e)))
                        | None => _ ← go (PSendAcquire p name data); mret Blocked
                        end) n in
      {| value := value o; final := final o; spawned := spawned o; calls := QWait name (unblockCh fc) :: calls o |}) as Hrun.
  { intros fc Hn Hd Hfc Hc Hb. rewrite SendCtx_unfold, Hn, Hd. cbn [negb]. rewrite run_seq.
    destruct (getOrCreate_run ans name n) as (n1 & -> & E1). cbn [value final spawned calls app].
    assert (n1 = n) as -> by (subst n1; unfold controller; rewrite Hfc, insert_id by done; by destruct n).
    unfold send_acquire. rewrite run_seq, run_section.
    assert (acquire name n = (AcquireWait (unblockCh fc), n)) as ->
      by (unfold acquire, Acquire_locked; rewrite Hfc, Hc, Hb; cbn; rewrite insert_id by done; by destruct n).
    reflexivity. }
  split.
  - intros fc e Hn Hd Hfc Hc Hb He Ha. rewrite (Hrun fc) by done. rewrite He. cbn in Ha. by destruct Ha as [-> | ->].
  - intros fc Hn Hd Hfc Hc Hb He. rewrite (Hrun fc) by done. by rewrite He.
Qed.
