(* ===== verification/NodeLifecycle.v ===== *)
(** * Starting and stopping the node *)

From S2P Require Import Prelude Errors ConnState Config Validation Version Flow Dispatcher Interfaces Storage AddressBook Heap Crypto CryptoModule Peer Proc Compose Subscriptions Stats Streams StreamBehaviour StreamManager SecureChannel StreamSafety ConnManager ConnBehaviour ConnRecovery Node NodeRefinement NodeBehaviour.

(** ** The parts *)

(** A dispatcher as its own methods leave it. *)
Definition dispatch_ok (d : Dispatcher) : Prop := Dispatcher.closed d = Chan.is_closed (Dispatcher.events d).

Lemma EmitEvent_ok e d : dispatch_ok d → ∃ d', EmitEvent e d = Some d' ∧ dispatch_ok d' ∧ Dispatcher.closed d' = Dispatcher.closed d.
Proof.
  unfold dispatch_ok, EmitEvent, Chan.try_send. intros Hd. rewrite <- Hd.
  destruct (Dispatcher.closed d) eqn:Hc; [exists d; by rewrite Hc |].
  case_decide; (eexists; split; [reflexivity |]); cbn; by rewrite <- ?Hd, ?Hc.
Qed.

Lemma emit_all_ok l d : dispatch_ok d → ∃ d', emit_all l d = Some d' ∧ dispatch_ok d' ∧ Dispatcher.closed d' = Dispatcher.closed d.
Proof.
  revert d. induction l as [|e l IH]; intros d Hd; cbn [emit_all]; [by exists d |].
  destruct (EmitEvent_ok e d Hd) as (d1 & -> & H1 & H2). destruct (IH d1 H1) as (d2 & H3 & H4 & H5).
  exists d2. by rewrite H5.
Qed.

(** A closed dispatcher drops everything. *)
Lemma emit_all_closed l d : Dispatcher.closed d = true → emit_all l d = Some d.
Proof. intros Hc. induction l as [|e l IH]; cbn [emit_all]; [done |]. unfold EmitEvent. by rewrite Hc. Qed.

Section Parts.
Context `{Libp2p} `{CryptoLib} `{Unicode}.

Lemma sync_runs n :
  dispatch_ok (eventDispatch n) →
  ∃ d, sync n = (tt, set_dispatch d (length (emitted (conn n))) n) ∧ dispatch_ok d ∧ Dispatcher.closed d = Dispatcher.closed (eventDispatch n)
       ∧ emit_all (drop (dispatched n) (emitted (conn n))) (eventDispatch n) = Some d.
Proof.
  intros Hd. destruct (emit_all_ok (drop (dispatched n) (emitted (conn n))) _ Hd) as (d & E & H1' & H2').
  exists d. unfold sync, st_get, mbind, ST_bind. by rewrite E.
Qed.

Lemma close_dispatch_runs n :
  dispatch_ok (eventDispatch n) →
  ∃ d, close_dispatch n = (tt, set_dispatch d (length (emitted (conn n))) n) ∧ Dispatcher.closed d = true.
Proof.
  intros Hd. destruct (sync_runs n Hd) as (d & E & H1' & _). unfold close_dispatch, mbind, ST_bind, st_get. rewrite E. cbn.
  unfold Dispatcher.Close, Chan.close. rewrite <- H1'. destruct (Dispatcher.closed d) eqn:Hc; cbn; by eexists.
Qed.

(** A closed crypto module derives nothing. *)
Lemma derive_closed (ans : ∀ q, Streams.answer q) pub m :
  mod_closed (crypto m) = true → ∃ e, value (run ans (derive pub) m) = Err e.
Proof.
  intros Hc. unfold derive. destruct (ValidateEd25519PublicKey pub) as [e|]; [by eexists |].
  destruct (Ed25519PublicToX25519 (default [] pub)) as [e|x]; [by eexists |].
  assert (∃ e, on_module (derive_step (CryptoModule.PStart x)) m = (PDone x (Err e), m)) as (e & He).
  { unfold on_module, derive_step, get_mod, mbind, ST_bind, mret, ST_ret, st_gets.
    destruct (negb (length x =? X25519KeySize)%nat); cbn; rewrite ?Hc; destruct m as [? ? ? ? ? ? ? ? ? []]; by eexists. }
  assert (∀ r, on_module (derive_step (PDone x r)) m = (PDone x r, m)) as Hdone.
  { intros r. unfold on_module. cbn. by destruct m as [? ? ? ? ? ? ? ? ? []]. }
  unfold atomic, mbind, prog_bind. cbn [bind run]. rewrite He. cbn [run]. rewrite Hdone. cbn [run]. rewrite Hdone.
  cbn [run]. rewrite Hdone. by exists e.
Qed.

(** The stream manager after the module has been closed. *)
Lemma module_closed m :
  let m' := (on_module Module_Close m).2 in
  mod_closed (crypto m') = true ∧ streams m' = streams m ∧ unencryptedStreams m' = unencryptedStreams m
  ∧ allowedStreams m' = allowedStreams m ∧ sharedKeys m' = sharedKeys m
  ∧ base_done (sto m') = base_done (sto m)
  ∧ zeroed (deref (Streams.hp (sto m')) (x25519Private (crypto m)))
  ∧ zeroed (deref (Streams.hp (sto m')) (ed25519Private (crypto m)))
  ∧ (∀ k r, peerKeys (crypto m) !! k = Some r → zeroed (deref (Streams.hp (sto m')) r))
  ∧ ∀ r, zeroed (deref (Streams.hp (sto m)) r) → zeroed (deref (Streams.hp (sto m')) r).
Proof.
  unfold on_module, Module_Close, get_mod, CryptoModule.on_heap, CryptoModule.set_closed, set_peerKeys, st_modify, st_gets, mbind, ST_bind. cbn.
  change (cached _) with (cached (crypto m)).
  destruct (SecureZeroMultiple_deref (cached (crypto m)) (Streams.hp (sto m))) as (_ & _ & Hq).
  destruct (SecureZeroMultiple (cached (crypto m)) (Streams.hp (sto m))) as [u h']. cbn in *.
  match goal with |- context[deref ?h] => set (h2 := h) end.
  assert (∀ r, deref h2 r = deref (SecureZero (x25519Private (crypto m)) (SecureZero (ed25519Private (crypto m)) h').2).2 r) as HF by done.
  assert (∀ r, zeroed (deref h' r) → zeroed (deref h2 r)) as Hz.
  { intros r Hr. rewrite HF, !deref_SecureZero. repeat (case_decide; [apply memclr_zeroed |]). done. }
  split_and!; try done.
  - rewrite HF, deref_SecureZero, decide_True by done. apply memclr_zeroed.
  - rewrite HF, !deref_SecureZero. case_decide; [apply memclr_zeroed |]. rewrite decide_True by done. apply memclr_zeroed.
  - intros k r Hk. apply Hz, (proj1 (Hq r)), elem_of_cached. by exists k.
  - intros r Hr. by apply Hz, (proj2 (proj2 (Hq r))).
Qed.
End Parts.

(** ** Stopping *)

Section Stopping.
Context `{Libp2p} `{CryptoLib} `{Unicode}.

(** The manager's [Shutdown] leaves the book alone. *)
Notation same_book := (kept (addressBook (B := world))).

Lemma for_all_book {X} (l : list X) f m : (∀ x m, same_book m (f x m).2) → same_book m (for_all l f m).2.
Proof.
  intros Hf. revert m. induction l as [|x l IH]; intros m; [done |]. cbn [for_all]. unfold mbind, ST_bind.
  specialize (Hf x m). destruct (f x m) as [[] m1]. cbn in *. unfold kept in *. rewrite <- Hf. apply IH.
Qed.

Lemma Shutdown_book (ans : ∀ q, ConnManager.answer (A := Multiaddr) q) m : same_book m (final (run ans ConnManager.Shutdown m)).
Proof.
  apply (run_respects same_book).
  cbn. split; [done |]. intros _. split; [| done]. intros m1. unfold st_get, ST_bind, mbind.
  match goal with |- context[for_all ?l (λ c, with_conn c Cleanup) m1] =>
    pose proof (for_all_book l (λ c, with_conn c Cleanup) m1) as H1'; destruct (for_all l (λ c, with_conn c Cleanup) m1) as [u1 m2] end.
  match goal with |- context[for_all ?l cancel_reconnect m2] =>
    pose proof (for_all_book l cancel_reconnect m2) as H2'; destruct (for_all l cancel_reconnect m2) as [u2 m3] end.
  cbn in *. unfold kept in *. cbn. rewrite H2', H1'; [done | | by intros].
  intros c m'. unfold with_conn. destruct (conns m' !! c) as [pc|]; [| done]. by destruct (Cleanup _).
Qed.

(** The node when its context has been cancelled. *)
Definition cancelled (n : Node) : Node :=
  set_strm (set_sto (set_base_done (sto (strm n))) (strm n))
    (set_conn (ConnManager.set_done (conn n)).2 (set_hub (set_stopped (hub n)) n)).

Lemma cancel_runs n : Node.cancel n = (tt, cancelled n).
Proof. done. Qed.

(** [Stop] up to the closing of the host. *)
Lemma Stop_begins (ans : ∀ q, Node.answer q) n :
  started n = true → dispatch_ok (eventDispatch n) →
  let c := run (to_conn ans) ConnManager.Shutdown (conn (cancelled n)) in
  let s := run (to_strm ans) StreamManager.Shutdown (strm (cancelled n)) in
  ∃ d k, Dispatcher.closed d = true ∧
  let n1 := set_dispatch d k (set_strm (final s) (set_conn (final c) (cancelled n))) in
  run ans Stop n
  = match ans QHostClose with
    | Some e => {| value := Some (Errorf "failed to close host: %w" (Some e)); final := n1;
                   spawned := (PConn <$> spawned c) ++ (PStrm <$> spawned s);
                   calls := (QConn <$> calls c) ++ (QStrm <$> calls s) ++ [QHostClose] |}
    | None => {| value := None; final := set_started false (set_strm (on_module Module_Close (final s)).2 n1);
                 spawned := (PConn <$> spawned c) ++ (PStrm <$> spawned s);
                 calls := (QConn <$> calls c) ++ (QStrm <$> calls s) ++ [QHostClose] |}
    end.
Proof.
  intros Hs Hd. cbv zeta. set (c := run (to_conn ans) _ _). set (s := run (to_strm ans) _ _).
  set (n0 := set_strm (final s) (set_conn (final c) (cancelled n))).
  destruct (close_dispatch_runs n0 Hd) as (d & Ed & Hcl). exists d, (length (emitted (conn n0))). split; [exact Hcl |].
  unfold Stop. rewrite run_guarded by done. rewrite run_seq, run_section, cancel_runs. cbv zeta. cbn [value final spawned calls fst snd app].
  rewrite run_seq, run_cm. cbv zeta. cbn [value final spawned calls]. change (run (to_conn ans) ConnManager.Shutdown (conn (cancelled n))) with c.
  rewrite run_seq, run_sm. cbv zeta. cbn [value final spawned calls].
  change (run (to_strm ans) StreamManager.Shutdown (strm (set_conn (final c) (cancelled n)))) with s.
  change (set_strm (final s) (set_conn (final c) (cancelled n))) with n0.
  rewrite run_seq, run_section, Ed. cbv zeta. cbn [value final spawned calls fst snd app].
  rewrite (run_ask ans QHostClose). cbv zeta.
  destruct (ans QHostClose) as [e|]; [cbn; by rewrite !app_nil_r |].
  rewrite run_seq, run_section. cbv zeta. cbn [value final spawned calls]. rewrite run_seq, run_section. cbn [value final spawned calls].
  unfold on_strm. set (n1 := set_dispatch d _ n0). change (strm n1) with (final s).
  destruct (on_module Module_Close (final s)) as [[] m2]. cbn. by rewrite !app_nil_r.
Qed.
End Stopping.


(** ** Starting again *)

Section Restarting.
Context `{Libp2p} `{CryptoLib} `{Unicode}.

(** What [Start] leaves alone. *)
Definition same_streams (n n' : Node) : Prop :=
  strm n' = strm n ∧ hub n' = hub n ∧ eventDispatch n' = eventDispatch n.

#[local] Instance same_streams_refl : Reflexive same_streams.
Proof. by split. Qed.
#[local] Instance same_streams_trans : Transitive same_streams.
Proof. intros ? ? ? (? & ? & ?) (? & ? & ?). unfold same_streams. split_and!; congruence. Qed.

Lemma auto_connect_same l : respects same_streams (auto_connect l).
Proof.
  induction l as [|e l IH]; cbn [auto_connect]; [done |].
  apply respects_bind; [by apply cm_respects | by intros].
Qed.

Lemma Start_runs (ans : ∀ q, Node.answer q) n :
  started n = false →
  let o := run ans Start n in value o = None ∧ same_streams n (final o) ∧ started (final o) = true.
Proof.
  intros Hs. cbv zeta. unfold Start. rewrite run_seq, run_section. cbv zeta.
  set (sec := (n0 ← st_get; _ : ST Node bool)).
  assert (∃ n1, sec n = (true, n1) ∧ same_streams n n1 ∧ started n1 = true) as (n1 & -> & H1' & H2').
  { unfold sec, st_get, mbind, ST_bind. rewrite Hs. by eexists. }
  cbn [value final spawned calls fst snd]. rewrite run_seq. cbv zeta. unfold mret, prog_ret. cbn [value final run].
  split; [done |]. split.
  - etrans; [exact H1' |]. apply run_respects; [apply _.. |]. apply respects_bind; [done | intros l; apply auto_connect_same].
  - rewrite <- H2'. apply (run_respects (kept started)).
    apply respects_bind; [done |]. intros l. induction l as [|e l IH]; cbn [auto_connect]; [done |].
    apply respects_bind; [by apply cm_respects | by intros].
Qed.

(** A node whose streams are gone and whose module is closed. *)
Record dead (n : Node) : Prop := {
  dd_ctx : ctx_done n = true;
  dd_streams : streams (strm n) = ∅ ∧ allowedStreams (strm n) = ∅;
  dd_module : mod_closed (crypto (strm n)) = true;
  dd_events : Dispatcher.closed (eventDispatch n) = true;
}.

Lemma dead_prepare (ans : ∀ q, Node.answer q) p pub names n :
  dead n → value (run ans (PrepareStreams p pub names) n) ≠ None.
Proof.
  intros [_ _ Hm _]. destruct (started n) eqn:Es; [| unfold PrepareStreams; by rewrite run_unstarted].
  unfold PrepareStreams. rewrite run_guarded by done. rewrite run_seq, run_section. cbv zeta. cbn [value final].
  destruct (ValidateStreamNames names _); [done |]. unfold establish. rewrite run_seq, run_sm. cbv zeta. cbn [value final].
  unfold st_gets. cbn [fst snd].
  destruct (derive_closed (to_strm ans) pub (strm n) Hm) as (e & He). by rewrite He.
Qed.

Lemma dead_send (ans : ∀ q, Node.answer q) p name data n :
  dead n → name ≠ HandshakeStreamName → value (run ans (Node.SendCtx p name data) n) ≠ Returned None.
Proof.
  intros [_ [Hst Hal] _ _] Hname.
  assert (∀ n1, strm n1 = strm n → value (run ans (send_now p name data) n1) ≠ None) as Hsend.
  { intros n1 E. unfold send_now. rewrite run_seq, run_sm. cbv zeta. cbn [value final]. rewrite E.
    destruct (refusing_send (to_strm ans) p name data (strm n) Hname) as (Hv & _).
    { split; [| left; unfold allowed, entry; by rewrite Hal, lookup_empty].
      rewrite entry_None_find; [done |]. unfold entry. by rewrite Hst, lookup_empty. }
    by destruct (value _). }
  rewrite SendCtx_unfold. destruct (send_refusal p name data n); [done |]. destruct (negb _).
  - rewrite run_seq. destruct (getOrCreate_run ans name n) as (n1 & -> & E1). cbv zeta. cbn [value final].
    unfold send_acquire. rewrite run_seq, run_section. cbv zeta. cbn [value final].
    assert (strm (acquire name n1).2 = strm n) as E.
    { subst n1. unfold acquire. cbn. rewrite lookup_insert_eq. by destruct (Acquire_locked _). }
    destruct (acquire name n1) as [[|b|ch] n2]; cbn [fst snd] in *; [done | |].
    + rewrite run_seq. cbv zeta. rewrite run_seq, run_section. unfold mret, prog_ret. cbn [value final run].
      specialize (Hsend n2 E). by destruct (value _).
    + rewrite (run_ask ans (QWait name ch)). cbv zeta. cbn [value]. by destruct (ans (QWait name ch)).
  - rewrite run_seq. unfold mret, prog_ret. cbn [value final run]. specialize (Hsend n eq_refl). by destruct (value _).
Qed.
End Restarting.

(** A stopped node can pass for a healthy one.  When closing the host fails,
    [Stop] returns with the context cancelled and everything given back but
    leaves the node started.  And after a [Stop] that succeeds [Start] succeeds
    too, yet the context stays cancelled, the crypto module and the dispatcher
    stay closed: the node reports itself healthy, but no handshake can be
    prepared, nothing can be sent on an encrypted stream, and no event is ever
    delivered. *)
Theorem stopped_but_healthy `{Libp2p} `{CryptoLib} `{Unicode} (ans ans' : ∀ q, Node.answer q) n :
  started n = true → dispatch_ok (eventDispatch n) →
  let n1 := final (run ans Stop n) in
  match ans QHostClose with
  | Some _ => IsHealthy n1 = true ∧ ctx_done n1 = true ∧ connections (conn n1) = ∅ ∧ streams (strm n1) = ∅
              ∧ ∀ l, emit_all l (eventDispatch n1) = Some (eventDispatch n1)
  | None =>
      let o := run ans' Start n1 in let n2 := final o in
      value o = None ∧ IsHealthy n2 = true ∧ ctx_done n2 = true
      ∧ (∀ l, emit_all l (eventDispatch n2) = Some (eventDispatch n2))
      ∧ (∀ a p pub names, value (run a (PrepareStreams p pub names) n2) ≠ None)
      ∧ ∀ a p name data, name ≠ HandshakeStreamName → value (run a (Node.SendCtx p name data) n2) ≠ Returned None
  end.
Proof.
  intros Hs Hd. cbv zeta. destruct (Stop_begins ans n Hs Hd) as (d & k & Hcl & ->).
  set (c := run (to_conn ans) ConnManager.Shutdown (conn (cancelled n))).
  set (s := run (to_strm ans) StreamManager.Shutdown (strm (cancelled n))).
  destruct (Shutdown_run (to_strm ans) (strm (cancelled n))) as (_ & S2 & _ & S4 & _). fold s in S2, S4.
  destruct (ans QHostClose) as [e|]; cbn [final].
  - destruct (shutdown_stops (to_conn ans) (conn (cancelled n))) as (C1 & _). fold c in C1.
    split_and!; try done. intros l. by apply emit_all_closed.
  - set (n1 := set_started false _). destruct (Start_runs ans' n1 eq_refl) as (H1' & (E1 & E2 & E3) & H2').
    set (n2 := final (run ans' Start n1)) in *. clearbody n2.
    destruct (module_closed (final s)) as (M1 & M2 & _ & M4 & _).
    assert (dead n2) as Hdead.
    { split; [unfold ctx_done; by rewrite E2 | | by rewrite E1 | by rewrite E3].
      rewrite E1. unfold n1. cbn [strm set_started set_strm]. by rewrite M2, M4. }
    split_and!; [done | done | apply Hdead | intros l; apply emit_all_closed, Hdead | |].
    + intros. by apply dead_prepare.
    + intros. by apply dead_send.
Qed.
