(* ===== verification/NodeHandshake.v ===== *)
(** * Handshakes and disconnections of the node *)

From S2P Require Import Prelude Errors ConnState Config Validation Version Flow Dispatcher Interfaces Storage AddressBook Heap Crypto CryptoModule Peer Proc RelyGuarantee Compose Subscriptions Stats Streams StreamBehaviour StreamManager SecureChannel StreamSafety ConnManager ConnBehaviour Node NodeRefinement NodeBehaviour NodeLifecycle.

(** ** The connection manager's part *)

(** The peer has a connection, and which one it is. *)
Record shaking {B} (m : ConnManager.Manager (B := B)) (p : string) (c : nat) (pc : PeerConnection) : Prop := {
  sh_entry : connections m !! p = Some c;
  sh_object : conns m !! c = Some pc;
}.

Section ManagerPart.
Context {B A : Type} `{PeerBook B A} (ans : ∀ q : ConnManager.query (A := A), ConnManager.answer q).

(** Everything but the connections, the keys, the timers and the events. *)
Definition same_rest (m m' : ConnManager.Manager (B := B)) : Prop :=
  addressBook m' = addressBook m ∧ ConnManager.config m' = ConnManager.config m ∧ has_events m' = has_events m
  ∧ connections m' = connections m ∧ reconnecting m' = reconnecting m ∧ mgr_done m' = mgr_done m
  ∧ Peer.clock (mrt m') = Peer.clock (mrt m).

Lemma SetSharedKey_run m p c pc key :
  shaking m p c pc →
  ∃ m', run ans (ConnManager.SetSharedKey p key) m = {| value := None; final := m'; spawned := []; calls := [] |}
    ∧ same_rest m m' ∧ emitted m' = emitted m ∧ timers (mrt m') = timers (mrt m)
    ∧ conns m' = <[c := set_key (Some (next (keys (mrt m)))) pc]> (conns m)
    ∧ keys (mrt m') = (alloc key (keys (mrt m))).2.
Proof.
  intros [Hp Hc]. destruct (run ans (ConnManager.SetSharedKey p key) m) as [v mF sp cl] eqn:E.
  unfold ConnManager.SetSharedKey, GetOrCreateConnection, get_or_create, Peer.SetSharedKey, on_keys in E. exec_step E.
  exec_with E ltac:(rewrite ?Hp, ?Hc in E). injection E as <- <- <- <-. eexists. split; [reflexivity |]. by split_and!.
Qed.

Lemma CancelTimeout_run m p c pc t :
  shaking m p c pc → HandshakeTimer pc = Some t → HandshakeCancel pc = Some t →
  ∃ m', run ans (Manager_CancelHandshakeTimeout p) m = {| value := None; final := m'; spawned := []; calls := [] |}
    ∧ same_rest m m' ∧ emitted m' = emitted m ∧ keys (mrt m') = keys (mrt m)
    ∧ conns m' = <[c := set_timer None None pc]> (conns m)
    ∧ timers (mrt m') = alter cancel_timeout t (alter stop_timer t (timers (mrt m))).
Proof.
  intros [Hp Hc] Ht Hct. destruct (run ans (Manager_CancelHandshakeTimeout p) m) as [v mF sp cl] eqn:E.
  unfold Manager_CancelHandshakeTimeout in E. exec_step E. exec_with E ltac:(rewrite ?Hp, ?Hc, ?Ht, ?Hct in E).
  injection E as <- <- <- <-. eexists. split; [reflexivity |]. by split_and!.
Qed.

Lemma MarkEstablished_run m p c pc :
  shaking m p c pc → HandshakeTimer pc = None → HandshakeCancel pc = None → Peer.State pc = StateConnected →
  ∃ m', run ans (MarkEstablished p) m = {| value := None; final := m'; spawned := []; calls := [] |}
    ∧ same_rest m m' ∧ emitted m' = add_if (has_events m) (emitted m) (ConnBehaviour.event m p StateEstablished None)
    ∧ keys (mrt m') = keys (mrt m) ∧ timers (mrt m') = timers (mrt m)
    ∧ conns m' = <[c := set_state StateEstablished (Peer.clock (mrt m)) (set_timer None None pc)]> (conns m).
Proof.
  intros [Hp Hc] Ht Hct Hst. destruct (run ans (MarkEstablished p) m) as [v mF sp cl] eqn:E.
  unfold MarkEstablished in E. exec_step E. exec_with E ltac:(rewrite ?Hp, ?Hc, ?Ht, ?Hct, ?Hst in E).
  destruct (has_events m) eqn:He; cbn in E; injection E as <- <- <- <-; (eexists; split; [reflexivity |]);
    cbn; rewrite ?He; by split_and!.
Qed.
End ManagerPart.

(** ** The handlers *)

(** The handlers after [registerIncomingStreamHandlers]. *)
Definition with_handlers (names : list string) (hs : gmap string handler) : gmap string handler :=
  foldl (λ hs name, <[StreamProtocolID name := HStream name]> hs) hs names.

Lemma with_handlers_cons x names hs :
  with_handlers (x :: names) hs = with_handlers names (<[StreamProtocolID x := HStream x]> hs).
Proof. done. Qed.

Lemma with_handlers_keep names hs name :
  hs !! StreamProtocolID name = Some (HStream name) → with_handlers names hs !! StreamProtocolID name = Some (HStream name).
Proof.
  revert hs. induction names as [|x names IH]; intros hs Hl; [done |]. rewrite with_handlers_cons. apply IH.
  destruct (decide (StreamProtocolID x = StreamProtocolID name)) as [E|E]; [| by rewrite lookup_insert_ne].
  rewrite E, lookup_insert_eq. by apply StreamProtocolID_inj in E as ->.
Qed.

Lemma with_handlers_lookup names hs name :
  name ∈ names → with_handlers names hs !! StreamProtocolID name = Some (HStream name).
Proof.
  revert hs. induction names as [|x names IH]; intros hs Hin; [by apply elem_of_nil in Hin |]. rewrite with_handlers_cons.
  apply elem_of_cons in Hin as [<-|Hin]; [| by apply IH]. apply with_handlers_keep. by rewrite lookup_insert_eq.
Qed.

Lemma register_all_runs `{Libp2p} `{CryptoLib} names n :
  register_all names n = (tt, set_handlers (with_handlers names (handlers n)) n).
Proof.
  revert n. induction names as [|x names IH]; intros n; cbn [register_all]; [by destruct n |].
  unfold mbind, ST_bind, register, st_modify. rewrite IH. done.
Qed.

(** ** The streams' part *)

Definition stream_view (m : StreamManager.Manager) :=
  (sharedKeys m, allowedStreams m, streams m, crypto m, Streams.hp (sto m), base_done (sto m), incoming (sto m), Streams.clock (sto m), config_of m).

Section Steps.
Context `{Libp2p} `{CryptoLaws} `{Unicode}.

Lemma CloseHandshake_run (ans : ∀ q, Streams.answer q) p m :
  let o := run ans (CloseHandshakeStream p) m in spawned o = [] ∧ stream_view (final o) = stream_view m.
Proof.
  cbv zeta. split.
  - unfold CloseHandshakeStream. rewrite run_seq, run_section. cbv zeta. cbn [value final spawned fst snd st_gets app].
    destruct (entry (unencryptedStreams m) p HandshakeStreamName) as [i|]; [| done].
    rewrite run_seq, run_lift. cbv zeta. cbn [value final spawned]. destruct (us_Close_closing ans i (sto m)) as [-> _].
    by rewrite run_seq, run_section.
  - apply (run_respects (kept stream_view)). apply respects_bind; [done |]. intros [i|]; [| done].
    apply respects_bind; [| intros err; by apply respects_bind].
    eapply (respects_embed _ _ _ (kept (λ s, (Streams.hp s, base_done s, incoming s, Streams.clock s)))).
    { unfold kept, stream_view, config_of. cbn. intros m1 s. congruence. }
    unfold us_Close. apply respects_bind.
    { split; [| done]. intros s. unfold us_close_begin, st_get, mbind, ST_bind. destruct (uncs s !! i) as [us|]; [| done].
      by destruct (us_closed us). }
    intros [err|]; [done |]. apply respects_bind; [done |]. intros _. apply respects_bind; [done |]. intros st.
    apply respects_bind; [done |]. intros err. by apply respects_bind.
Qed.

Lemma established_view m m' p name kb : stream_view m' = stream_view m → established m p name kb → established m' p name kb.
Proof. unfold stream_view. intros [= E1 E2 E3 E4 E5 E6 E7 _] [H1' H2' H3' H4']. by split; unfold allowed; rewrite ?E1, ?E2, ?E5, ?E6, ?E7. Qed.

(** The part [PrepareStreams] and [EstablishEncryptedStreams] share, when a
    key can be derived for the peer. *)
Record can_derive (n : Node) (pub x X kb : bytes) : Prop := {
  cd_valid : ValidateEd25519PublicKey (Some pub) = None;
  cd_x25519 : Ed25519PublicToX25519 pub = Ok x;
  cd_length : length x = X25519KeySize ∧ length X = X25519KeySize;
  cd_module : module_ok X {| modl := crypto (strm n); CryptoModule.hp := Streams.hp (sto (strm n)) |};
  cd_open : mod_closed (crypto (strm n)) = false;
  cd_key : shared_key X x [] = Some kb;
  cd_live : base_done (sto (strm n)) = false ∧ Chan.is_closed (incoming (sto (strm n))) = false;
}.

(** What a handshake leaves alone in the node and in its streams. *)
Definition node_view (n : Node) :=
  (started n, hub n, Node.config n, messages n, trackers n, next_tracker n, peerStats n, flowControllers n, eventDispatch n).
Definition same_opened (p : string) (m m' : StreamManager.Manager) : Prop :=
  (∀ name, entry (streams m') p name = entry (streams m) p name) ∧ config_of m' = config_of m
  ∧ incoming (sto m') = incoming (sto m) ∧ Streams.clock (sto m') = Streams.clock (sto m).

Lemma view_opened m m' p : stream_view m' = stream_view m → same_opened p m m'.
Proof. unfold stream_view, same_opened. intros [= E1 E2 E3 E4 E5 E6 E7 E8 E9 E10 E11 E12]. rewrite E3, E7, E8. split_and!; [done | | done | done]. unfold config_of. by rewrite E9, E10, E11, E12. Qed.

Lemma establish_runs (ans : ∀ q, Node.answer q) p pub x X kb names n c pc :
  can_derive n pub x X kb → names ≠ [] → shaking (conn n) p c pc →
  let o := run ans (establish p (Some pub) names) n in
  value o = None ∧ spawned o = []
  ∧ (∀ name, name ∈ names → established (strm (final o)) p name kb)
  ∧ handlers (final o) = with_handlers names (handlers n)
  ∧ kept node_view n (final o) ∧ same_opened p (strm n) (strm (final o))
  ∧ ∃ m1 w, same_rest (conn n) m1 ∧ emitted m1 = emitted (conn n) ∧ timers (mrt m1) = timers (mrt (conn n))
      ∧ conns m1 = <[c := set_key (Some (next (keys (mrt (conn n))))) pc]> (conns (conn n))
      ∧ keys (mrt m1) = (alloc kb (keys (mrt (conn n)))).2
      ∧ conn (final o) = (set_book (λ _, w) m1).2.
Proof.
  intros [Hv Hx [Hxl HX] Hok Hop Hk [Hb Hch]] Hne Hsh. cbv zeta. unfold establish. rewrite run_seq, run_sm. cbv zeta.
  pose proof (derive_run (to_strm ans) pub x (strm n) Hv Hx) as Ed. pose proof (derive_runs X _ x HX Hok Hop Hxl) as Hd.
  pose proof (derive_module_ok X _ x HX Hok) as Hok1. rewrite Hk in Hd.
  destruct (DeriveSharedKeyFromX25519 x _) as [r cr]. destruct Hd as (Hop1 & _ & kr & cr' & -> & Hd & _). rewrite Ed.
  cbn [value final spawned calls fst snd app]. rewrite run_seq, run_section. cbv zeta. cbn [value final spawned calls st_gets fst snd app].
  set (n1 := set_strm (with_module cr (strm n)) n). change (deref (Streams.hp (sto (strm n1))) kr) with (deref (CryptoModule.hp cr) kr).
  assert (module_ok X {| modl := modl cr; CryptoModule.hp := CryptoModule.hp cr |}) as Hok2 by (by destruct cr).
  rewrite Hd. rewrite run_seq, run_cm. cbv zeta. change (conn n1) with (conn n).
  destruct (SetSharedKey_run (to_conn ans) (conn n) p c pc kb Hsh) as (m1 & -> & R1 & R2 & R3 & R4 & R5).
  cbn [value final spawned calls fmap list_fmap app]. rewrite run_seq, run_section. unfold registerIncomingStreamHandlers.
  rewrite register_all_runs. cbv zeta. cbn [value final spawned calls fst snd app]. rewrite run_seq, run_sm. cbv zeta.
  set (n2 := set_handlers _ _). change (strm n2) with (with_module cr (strm n)).
  destruct (establish_run (to_strm ans) p pub x names (with_module cr (strm n)) X kb Hne Hv Hx HX Hok2 Hop1 Hxl Hk Hb Hch)
    as (S1 & S2 & _ & S3 & S4).
  set (o2 := run (to_strm ans) (EstablishStreams p (Some pub) names) (with_module cr (strm n))) in *. clearbody o2.
  cbn [value final spawned calls]. rewrite S1, S2. cbn [fmap list_fmap]. rewrite (run_ask ans QIO). cbv zeta. rewrite run_seq, run_section.
  cbv zeta. unfold mret, prog_ret. cbn [value final spawned calls run app].
  unfold mbind, ST_bind, now, st_gets, on_book. cbn [fst snd].
  destruct (UpdatePublicKey _ _ _ _ _) as [e w]. cbn [snd].
  split; [done |]. split; [done |]. split; [exact S3 |]. split; [done |]. split; [done |]. split; [exact S4 |].
  exists m1, w. by split_and!.
Qed.
End Steps.

(** ** A complete handshake *)

Section Complete.
Context `{Libp2p} `{CryptoLaws} `{Unicode}.

(** [FinalizeHandshake] of a connection whose timeout is running. *)
Lemma Finalize_runs (ans : ∀ q, Node.answer q) p n c pc t :
  started n = true → shaking (conn n) p c pc → Peer.State pc = StateConnected →
  HandshakeTimer pc = Some t → HandshakeCancel pc = Some t →
  let o := run ans (FinalizeHandshake p) n in
  value o = None ∧ spawned o = [] ∧ stream_view (strm (final o)) = stream_view (strm n)
  ∧ handlers (final o) = handlers n ∧ kept node_view n (final o) ∧ same_rest (conn n) (conn (final o))
  ∧ keys (mrt (conn (final o))) = keys (mrt (conn n))
  ∧ timers (mrt (conn (final o))) = alter cancel_timeout t (alter stop_timer t (timers (mrt (conn n))))
  ∧ conns (conn (final o)) = <[c := set_state StateEstablished (Peer.clock (mrt (conn n))) (set_timer None None pc)]> (conns (conn n))
  ∧ emitted (conn (final o)) = add_if (has_events (conn n)) (emitted (conn n)) (ConnBehaviour.event (conn n) p StateEstablished None).
Proof.
  intros Hs Hsh Hst Ht Hc. cbv zeta. unfold FinalizeHandshake. rewrite run_guarded by done. rewrite run_seq, run_cm. cbv zeta.
  destruct (CancelTimeout_run (to_conn ans) (conn n) p c pc t Hsh Ht Hc) as (m1 & -> & R1 & R2 & R3 & R4 & R5).
  cbn [value final spawned calls fmap list_fmap app]. rewrite run_seq, run_sm. cbv zeta.
  destruct (CloseHandshake_run (to_strm ans) p (strm (set_conn m1 n))) as [S1 S2]. change (strm (set_conn m1 n)) with (strm n) in *.
  set (o2 := run (to_strm ans) (CloseHandshakeStream p) (strm n)) in *. clearbody o2.
  cbn [value final spawned calls]. rewrite S1. cbn [fmap list_fmap app]. rewrite run_seq, run_cm. cbv zeta.
  destruct Hsh as [Hp Hci]. destruct R1 as (Q1 & Q2 & Q3 & Q4 & Q5 & Q6 & Q7).
  destruct (MarkEstablished_run (to_conn ans) m1 p c (set_timer None None pc)) as (m2 & E2 & W1 & W2 & W3 & W4 & W5);
    [split; [by rewrite Q4 | by rewrite R4, lookup_insert_eq] | done.. |].
  change (conn (set_strm (final o2) (set_conn m1 n))) with m1. rewrite E2. cbn [value final spawned calls fmap list_fmap app].
  unfold mret, prog_ret. cbn [value final spawned run]. destruct W1 as (Y1 & Y2 & Y3 & Y4 & Y5 & Y6 & Y7).
  split_and!; try done; cbn [conn strm set_conn set_strm]; try congruence.
  - unfold same_rest. split_and!; congruence.
  - rewrite W5, R4, Q7, insert_insert_eq. done.
  - rewrite W2, R2, Q3. unfold ConnBehaviour.event. by rewrite Q7.
Qed.

Lemma handshake_runs (ans : ∀ q, Node.answer q) n p pub x X kb names c pc t :
  started n = true → ValidateStreamNames names (MaxStreamNameLength (Node.config n)) = None → names ≠ [] →
  can_derive n pub x X kb →
  shaking (conn n) p c pc → Peer.State pc = StateConnected → HandshakeTimer pc = Some t → HandshakeCancel pc = Some t →
  let o := run ans (CompleteHandshake p (Some pub) names) n in let n' := final o in
  let k := next (keys (mrt (conn n))) in
  value o = None ∧ spawned o = []
  ∧ (∀ name, name ∈ names → established (strm n') p name kb ∧ handlers n' !! StreamProtocolID name = Some (HStream name))
  ∧ conns (conn n')
    = <[c := set_state StateEstablished (Peer.clock (mrt (conn n))) (set_timer None None (set_key (Some k) pc))]> (conns (conn n))
  ∧ deref (keys (mrt (conn n'))) k = kb
  ∧ timers (mrt (conn n')) = alter cancel_timeout t (alter stop_timer t (timers (mrt (conn n))))
  ∧ emitted (conn n')
    = add_if (has_events (conn n)) (emitted (conn n)) (ConnBehaviour.event (conn n) p StateEstablished None)
  ∧ kept node_view n n' ∧ same_opened p (strm n) (strm n').
Proof.
  intros Hs Hv Hne Hd Hsh Hst Ht Hc. cbv zeta. unfold CompleteHandshake. rewrite run_seq. unfold PrepareStreams.
  rewrite run_guarded by done. rewrite run_seq, run_section. cbv zeta. unfold st_gets. cbn [value final spawned calls fst snd app].
  rewrite Hv. destruct (establish_runs ans p pub x X kb names n c pc Hd Hne Hsh) as (E1 & E2 & E3 & E4 & E5 & E6 & m1 & w & M1 & M2 & M3 & M4 & M5 & M6).
  cbn [value final spawned]. rewrite E1, E2.
  set (n1 := final (run ans (establish p (Some pub) names) n)) in *. clearbody n1.
  destruct Hsh as [Hp Hci]. destruct M1 as (Q1 & Q2 & Q3 & Q4 & Q5 & Q6 & Q7).
  assert (connections (conn n1) = connections (conn n) ∧ conns (conn n1) = conns m1 ∧ has_events (conn n1) = has_events (conn n)
          ∧ mrt (conn n1) = mrt m1 ∧ emitted (conn n1) = emitted (conn n)) as (G1 & G2 & G3 & G4 & G5).
  { rewrite M6. by split_and!. }
  assert (started n1 = true) as Hs1 by (unfold kept, node_view in E5; congruence).
  destruct (Finalize_runs ans p n1 c (set_key (Some (next (keys (mrt (conn n))))) pc) t) as (F1 & F2 & F3 & F4 & F5 & _ & F6 & F7 & F8 & F9);
    [exact Hs1 | split; [by rewrite G1 | by rewrite G2, M4, lookup_insert_eq] | done.. |].
  set (o := run ans (FinalizeHandshake p) n1) in *. clearbody o.
  pose proof (view_opened _ _ p F3) as [V1 V2]. destruct E6 as [W1 W2].
  split_and!; [done | by rewrite F2 | | | | | | |].
  - intros name Hn. split; [by apply (established_view (strm n1)); [| apply E3] |]. rewrite F4, E4. by apply with_handlers_lookup.
  - by rewrite F8, G4, Q7, G2, M4, insert_insert_eq.
  - rewrite F6, G4, M5. apply deref_alloc_eq.
  - by rewrite F7, G4, M3.
  - rewrite F9, G3, G5. unfold ConnBehaviour.event. by rewrite G4, Q7.
  - unfold kept in *. congruence.
  - split; [intros name; by rewrite V1 |]. destruct V2 as (-> & -> & ->). exact W2.
Qed.
End Complete.

(** C16. A peer that is connected and whose handshake timeout runs, and a public
    key a key can be derived from: completing the handshake succeeds and starts
    nothing, each of the given names is established with the derived key and
    has its handler, the connection is established with the key and without a
    timeout, the timeout's timer is stopped and its context cancelled, and one
    event tells of it. *)
Theorem handshake_completes `{Libp2p} `{CryptoLaws} `{Unicode} (ans : ∀ q, Node.answer q) n p pub x X kb names c pc t :
  started n = true → ValidateStreamNames names (MaxStreamNameLength (Node.config n)) = None → names ≠ [] →
  can_derive n pub x X kb →
  shaking (conn n) p c pc → Peer.State pc = StateConnected → HandshakeTimer pc = Some t → HandshakeCancel pc = Some t →
  let o := run ans (CompleteHandshake p (Some pub) names) n in let n' := final o in
  let k := next (keys (mrt (conn n))) in
  value o = None ∧ spawned o = []
  ∧ (∀ name, name ∈ names → established (strm n') p name kb ∧ handlers n' !! StreamProtocolID name = Some (HStream name))
  ∧ conns (conn n')
    = <[c := set_state StateEstablished (Peer.clock (mrt (conn n))) (set_timer None None (set_key (Some k) pc))]> (conns (conn n))
  ∧ deref (keys (mrt (conn n'))) k = kb
  ∧ timers (mrt (conn n')) = alter cancel_timeout t (alter stop_timer t (timers (mrt (conn n))))
  ∧ emitted (conn n')
    = add_if (has_events (conn n)) (emitted (conn n)) (ConnBehaviour.event (conn n) p StateEstablished None).
Proof.
  intros Hs Hv Hne Hd Hsh Hst Ht Hc. cbv zeta.
  destruct (handshake_runs ans n p pub x X kb names c pc t Hs Hv Hne Hd Hsh Hst Ht Hc) as (R1 & R2 & R3 & R4 & R5 & R6 & R7 & _).
  by split_and!.
Qed.

(** ** The handler of handshake streams *)

#[local] Arguments put : simpl never.
#[local] Arguments ensure : simpl never.

Section Hijack.
Context `{Libp2p} `{CryptoLib} `{Unicode}.

Lemma ensure_other {A} p q (mm : gmap string (gmap string A)) : q ≠ p → ensure p mm !! q = mm !! q.
Proof. intros Hq. unfold ensure. destruct (mm !! p); [done |]. by apply lookup_insert_ne. Qed.

Lemma put_all_other p q names (mm : gmap string (gmap string bool)) :
  q ≠ p → foldl (λ mm name, put p name true mm) mm names !! q = mm !! q.
Proof.
  intros Hq. revert mm. induction names as [|x names IH]; intros mm; [done |].
  change (foldl (λ mm name, put p name true mm) (put p x true mm) names !! q = mm !! q). rewrite IH. by apply lookup_alter_ne.
Qed.

Lemma derive_respects (T : StreamManager.Manager → StreamManager.Manager → Prop) pub :
  (∀ X (f : ST state X) m, T m (on_module f m).2) → respects T (derive pub).
Proof.
  intros HT. unfold derive. destruct (ValidateEd25519PublicKey pub); [exact I |]. destruct (Ed25519PublicToX25519 _); [exact I |].
  do 4 (apply respects_bind; [split; [intros m; apply HT | done] | intros ?]). exact I.
Qed.

(** Establishing with one peer leaves what is allowed to the others alone. *)
Lemma establish_others p q pub names :
  q ≠ p → respects (kept (λ n, allowedStreams (strm n) !! q)) (establish p pub names).
Proof.
  intros Hq.
  assert (∀ X (c : prog (S := StreamManager.Manager) (P := StreamManager.proc) (Q := Streams.query) (R := Streams.answer) X),
    respects (kept (λ m, allowedStreams m !! q)) c → respects (kept (λ n, allowedStreams (strm n) !! q)) (sm c)) as Hsm.
  { intros X c Hc. apply respects_translate. by eapply respects_embed; [| exact Hc]. }
  assert (∀ X (f : ST state X) m, kept (λ m, allowedStreams m !! q) m (on_module f m).2) as Hmod.
  { intros X f m. rewrite on_module_start. by destruct (f _). }
  unfold establish. apply respects_bind; [by apply Hsm, derive_respects | intros [e|sk]; [exact I |]].
  apply respects_bind; [done | intros key]. apply respects_bind; [by apply cm_respects | intros [e|]; [exact I |]].
  apply respects_bind.
  { split; [| done]. intros n. unfold registerIncomingStreamHandlers. by rewrite register_all_runs. }
  intros _. apply respects_bind; [apply Hsm |].
  { unfold EstablishStreams. destruct (_ =? 0); [exact I |]. apply respects_bind; [by apply derive_respects | intros [e|sk']; [exact I |]].
    split; [| done]. intros m. change (foldl (λ mm name, put p name true mm) (ensure p (allowedStreams m)) names !! q = allowedStreams m !! q). by rewrite put_all_other, ensure_other. }
  intros [e|]; [exact I |]. apply respects_bind; [exact (λ _, I) | intros o]. apply respects_bind; [| intros; exact I].
  split; [| done]. intros n. unfold mbind, ST_bind, now, st_gets, on_book. by destruct (UpdatePublicKey _ _ _ _ _).
Qed.

(** Whom the connection manager does not know it connects. *)
Lemma RegisterIncoming_run (ans : ∀ q : ConnManager.query (A := Multiaddr), ConnManager.answer q) (m : ConnManager.Manager (B := world)) q :
  connections m !! q = None →
  (ConnManager.GetState q (final (run ans (RegisterIncomingConnection q) m))).1 = StateConnected.
Proof.
  intros Hq. destruct (run ans (RegisterIncomingConnection q) m) as [v mF sp cl] eqn:E.
  unfold RegisterIncomingConnection, get_or_create, new_conn, setupHandshakeTimeout in E. exec_step E.
  exec_with E ltac:(rewrite ?Hq in E).
  assert (connections mF = <[q := next_obj m]> (connections m)
          ∧ ∃ pc, conns mF !! next_obj m = Some pc ∧ Peer.State pc = StateConnected) as (E1 & pc & E2 & E3).
  { destruct (has_events m); cbn in E; injection E as <- <- <- <-; cbn; (split; [done |]); rewrite lookup_insert_eq; by eexists. }
  unfold ConnManager.GetState, find_conn, st_gets, mbind, ST_bind. cbn. rewrite E1, lookup_insert_eq. unfold with_conn. cbn. by rewrite E2.
Qed.
End Hijack.

(** Nothing keeps an application from preparing a stream that is called like
    the handshake stream, and the handlers belong to the whole node: from then
    on an incoming handshake of any peer goes to the handler of encrypted
    streams, which resets it, and the connection manager never hears of the
    peer; before, the same stream made it connected. *)
Theorem handshake_handler_hijacked `{Libp2p} `{CryptoLaws} `{Unicode} (ans ans' : ∀ q, Node.answer q) n p pub x X kb names c pc q raw :
  started n = true → ValidateStreamNames names (MaxStreamNameLength (Node.config n)) = None → HandshakeStreamName ∈ names →
  can_derive n pub x X kb → shaking (conn n) p c pc →
  handlers n !! StreamProtocolID HandshakeStreamName = Some HHandshake →
  q ≠ p → connections (conn n) !! q = None → allowed (strm n) q HandshakeStreamName = false →
  let n1 := final (run ans (PrepareStreams p (Some pub) names) n) in
  let handshake n := run ans' (serve (StreamProtocolID HandshakeStreamName) q raw) n in
  (ConnManager.GetState q (conn (final (handshake n)))).1 = StateConnected
  ∧ (ConnManager.GetState q (conn (final (handshake n1)))).1 = StateDisconnected
  ∧ conn (final (handshake n1)) = conn n1 ∧ calls (handshake n1) = [QReset raw].
Proof.
  intros Hs Hv Hin Hd Hsh Hh Hqp Hq Ha. cbv zeta. split.
  - unfold serve, handle_handshake, handle_stream. rewrite run_seq, run_section. cbv zeta. unfold st_gets. cbn [value final fst snd]. rewrite Hh.
    rewrite run_seq, run_cm. cbv zeta. cbn [value final].
    pose proof (RegisterIncoming_run (to_conn ans') (conn n) q Hq) as Hr.
    set (o := run (to_conn ans') (RegisterIncomingConnection q) (conn n)) in *. clearbody o.
    rewrite run_seq, run_sm. cbv zeta. cbn [value final]. by destruct (value _).
  - unfold PrepareStreams. rewrite run_guarded by done. rewrite run_seq, run_section. cbv zeta. unfold st_gets. cbn [value final fst snd].
    rewrite Hv. pose proof (establish_runs ans p pub x X kb names n c pc Hd) as Hr.
    pose proof (run_respects _ ans _ n (establish_others p q (Some pub) names Hqp)) as Ho. unfold kept in Ho. cbn [run] in *.
    destruct Hr as (_ & _ & _ & Hhs & _ & _ & m1 & w & M1 & _ & _ & _ & _ & M6); [by intros -> | done |].
    set (n1 := final (run ans (establish p (Some pub) names) n)) in *. clearbody n1.
    assert (connections (conn n1) !! q = None) as Hq1 by (rewrite M6; cbn; destruct M1 as (_ & _ & _ & -> & _); done).
    unfold serve, handle_handshake, handle_stream. rewrite run_seq, run_section. cbv zeta. unfold st_gets. cbn [value final spawned calls fst snd].
    rewrite Hhs, with_handlers_lookup by done. rewrite run_seq, run_sm. cbv zeta.
    destruct (keyless_incoming (to_strm ans') q HandshakeStreamName raw (strm n1)) as (e & ->);
      [left; unfold allowed, entry in *; by rewrite Ho |].
    cbn [value final calls]. change (conn (set_strm (strm n1) n1)) with (conn n1).
    split_and!; [| done | done].
    unfold ConnManager.GetState, find_conn, st_gets, mbind, ST_bind. cbn. by rewrite Hq1.
Qed.
