(* ===== verification/NodeChannel.v ===== *)
(** * Messages through two nodes

    What [forwardMessagesWithStats] does with the messages that wait, and a
    message all the way from one application to the other. *)

From S2P Require Import Prelude Errors ConnState Config Validation Version Flow Dispatcher Interfaces Storage AddressBook Heap Crypto CryptoModule Peer Proc RelyGuarantee Compose Subscriptions Stats Streams StreamBehaviour StreamManager SecureChannel StreamSafety ConnManager ConnBehaviour Node NodeRefinement NodeBehaviour NodeLifecycle NodeHandshake.

(** ** Forwarding *)

Section Forwarding.
Context `{Libp2p} `{CryptoLib} `{Unicode}.

(** What a delivered message leaves in the statistics of its peer. *)
Definition received (n : Node) (x : PeerStatsTracker) (msg : IncomingMessage) : PeerStatsTracker :=
  (RecordMessageReceived (Peer.clock (mrt (conn n))) (im_StreamName msg)
     (Z.of_nat (length (deref (Streams.hp (sto (strm n))) (im_Data msg)))) x).2.

(** The application's channel after an offer. *)
Definition offered {A} (v : A) (c : Chan.chan A) : Chan.chan A :=
  Chan.mk (Chan.buf c ++ if decide (length (Chan.buf c) < Chan.cap c) then [v] else []) (Chan.cap c) false.

Lemma try_send_offered {A} (v : A) (c : Chan.chan A) :
  Chan.is_closed c = false → ∃ b, Chan.try_send v c = Some (b, offered v c).
Proof.
  intros Hc. unfold Chan.try_send, offered. rewrite Hc. case_decide; eexists; [done |]. rewrite app_nil_r, <- Hc. by destruct c.
Qed.

(** A node whose messages are being forwarded. *)
Record forwarding (n : Node) : Prop := {
  fw_live : ctx_done n = false;
  fw_open : Chan.is_closed (messages n) = false;
  fw_stats : stats_ok n;
}.

(** One message is taken, counted and offered. *)
Lemma forward_turn (ans : ∀ q, Node.answer q) n msg rest :
  forwarding n → Chan.buf (incoming (sto (strm n))) = msg :: rest →
  let o := run ans forwardMessagesWithStats n in let n' := final o in
  spawned o = [PForwardMessages] ∧ calls o = [QPick] ∧ forwarding n'
  ∧ Chan.buf (incoming (sto (strm n'))) = rest ∧ messages n' = offered msg (messages n)
  ∧ conn n' = conn n ∧ Streams.hp (sto (strm n')) = Streams.hp (sto (strm n))
  ∧ stats (im_PeerID msg) n' = received n (stats (im_PeerID msg) n) msg
  ∧ ∀ q, q ≠ im_PeerID msg → stats q n' = stats q n.
Proof.
  intros [Hl Ho Hs] Hb. cbv zeta. unfold forwardMessagesWithStats. rewrite (run_ask ans QPick). cbv zeta. rewrite run_seq, run_section. cbv zeta.
  unfold take_message, select, Chan.try_recv. rewrite Hb, Hl. cbn [andb fst snd value final spawned calls].
  set (n1 := set_strm _ n). rewrite run_seq, run_section. cbv zeta.
  pose proof (record_in (im_PeerID msg) n1 (λ x, received n x msg) Hs) as Hr.
  assert (conn (getOrCreatePeerStats (im_PeerID msg) n1).2 = conn n ∧ strm (getOrCreatePeerStats (im_PeerID msg) n1).2 = strm n1) as [Ec Es].
  { unfold getOrCreatePeerStats, st_get, mbind, ST_bind. by destruct (peerStats n1 !! im_PeerID msg). }
  destruct (getOrCreatePeerStats (im_PeerID msg) n1) as [t n2]. cbn [fst snd value final spawned calls] in *.
  rewrite run_seq, run_section. cbv zeta.
  assert (record_received t msg n2 = on_tracker t (λ x, received n x msg) n2) as ->
    by (unfold record_received, mbind, ST_bind, now, st_get, st_gets, received; cbn; by rewrite Ec, Es).
  destruct (on_tracker t _ n2) as [u n3]. cbn [fst snd value final spawned calls] in *.
  rewrite run_seq, run_section. unfold go. cbv zeta. cbn [run value final spawned calls app].
  destruct Hr as (S1 & S2 & S3 & _ & S5 & S6 & S7 & S8 & _).
  destruct (try_send_offered msg (messages n) Ho) as (b & Ht).
  assert ((deliver msg n3).2 = set_messages (offered msg (messages n)) n3) as ->
    by (unfold deliver, st_modify; cbn; rewrite S7; change (messages n1) with (messages n); by rewrite Ht).
  cbn. split_and!; try done.
  - split; [| done | done]. unfold ctx_done. cbn. by rewrite S8.
  - by rewrite S6.
  - by rewrite S6.
  - intros q Hq. unfold stats, tracker_of in *. cbn. by rewrite S2.
Qed.

(** Turns of the goroutine, one after the other. *)
Fixpoint turns (ans : ∀ q, Node.answer q) (k : nat) (n : Node) : Node :=
  match k with O => n | S k => turns ans k (final (run ans forwardMessagesWithStats n)) end.

Lemma take_cap {A} (x : A) (l b : list A) c :
  length b ≤ c → (b ++ if decide (length b < c) then [x] else []) ++ take (c - length (b ++ if decide (length b < c) then [x] else [])) l
  = b ++ take (c - length b) (x :: l).
Proof.
  intros Hb. case_decide as Hd.
  - rewrite length_app. cbn [length]. replace (c - length b) with (S (c - (length b + 1))) by lia. cbn. by rewrite <- app_assoc.
  - rewrite app_nil_r. replace (c - length b) with 0 by lia. done.
Qed.
End Forwarding.

(** C25. The messages that wait are forwarded in their order, as many as the
    application's channel has room for, and the others are dropped; all of them
    are counted for their peer. *)
Theorem messages_forwarded `{Libp2p} `{CryptoLib} `{Unicode} (ans : ∀ q, Node.answer q) n l :
  forwarding n → Chan.buf (incoming (sto (strm n))) = l → Chan.ok (messages n) →
  let n' := turns ans (length l) n in
  Chan.buf (incoming (sto (strm n'))) = []
  ∧ Chan.buf (messages n') = Chan.buf (messages n) ++ take (Chan.cap (messages n) - length (Chan.buf (messages n))) l
  ∧ ∀ p, stats p n' = foldl (received n) (stats p n) (filter (λ msg, im_PeerID msg = p) l).
Proof.
  revert n. induction l as [|msg l IH]; intros n Hf Hb Hok; cbv zeta; cbn [length turns].
  { rewrite take_nil, app_nil_r. by split_and!. }
  destruct (forward_turn ans n msg l Hf Hb) as (_ & _ & Hf1 & H1' & H2' & H3' & H4' & H5' & H6').
  set (n1 := final (run ans forwardMessagesWithStats n)) in *. clearbody n1.
  assert (Chan.ok (messages n1)) as Hok1.
  { rewrite H2'. unfold Chan.ok, offered in *. cbn. rewrite length_app. case_decide; cbn; lia. }
  destruct (IH n1 Hf1 H1' Hok1) as (I1 & I2 & I3). split; [exact I1 |]. split.
  - rewrite I2, H2'. unfold offered. cbn. by apply take_cap.
  - intros p. rewrite I3, filter_cons.
    assert (∀ x, foldl (received n1) x (filter (λ msg, im_PeerID msg = p) l) = foldl (received n) x (filter (λ msg, im_PeerID msg = p) l)) as Hext.
    { intros x. f_equal. unfold received. by rewrite H3', H4'. }
    rewrite Hext. case_decide as Hp; [subst p; cbn; by rewrite H5' | by rewrite H6'].
Qed.

(** ** From one application to the other *)

(** A node that is about to complete a handshake with the peer [p], whose
    public key is [pub] and whose X25519 key is [x]; its own private key comes
    from [seed], the key they agree on is [kb]. *)
Record meets `{Libp2p} `{CryptoLib} `{Unicode} (n : Node) (p : string) (names : list string) (seed pub x kb : bytes) : Prop := {
  mt_started : started n = true;
  mt_names : ValidateStreamNames names (MaxStreamNameLength (Node.config n)) = None ∧ names ≠ [];
  mt_key : can_derive n pub x (x25519_of_seed seed) kb;
  mt_peer : ∃ c pc t, shaking (conn n) p c pc ∧ Peer.State pc = StateConnected ∧ HandshakeTimer pc = Some t ∧ HandshakeCancel pc = Some t;
  mt_fresh : ∀ name, entry (streams (strm n)) p name = None;
  mt_stats : stats_ok n;
}.

Lemma meets_runs `{Libp2p} `{CryptoLaws} `{Unicode} (ans : ∀ q, Node.answer q) n p names seed pub x kb :
  meets n p names seed pub x kb →
  let o := run ans (CompleteHandshake p (Some pub) names) n in let n' := final o in
  value o = None
  ∧ (∀ name, name ∈ names → established (strm n') p name kb ∧ handlers n' !! StreamProtocolID name = Some (HStream name))
  ∧ (∀ name, entry (streams (strm n')) p name = None)
  ∧ kept node_view n n' ∧ same_opened p (strm n) (strm n').
Proof.
  intros [Hs [Hv Hne] Hk (c & pc & t & Hsh & Hst & Ht & Hc) Hf _]. cbv zeta.
  destruct (handshake_runs ans n p pub x _ kb names c pc t Hs Hv Hne Hk Hsh Hst Ht Hc) as (R1 & _ & R3 & _ & _ & _ & _ & R8 & R9).
  split_and!; try done. intros name. destruct R9 as [-> _]. apply Hf.
Qed.

(** What a derived key is derived from. *)
Lemma keys_agree `{CryptoLaws} seedA seedB xA xB kA kB :
  length seedA = 32 → length seedB = 32 →
  Ed25519PublicToX25519 (ed25519_public seedA) = Ok xA → Ed25519PublicToX25519 (ed25519_public seedB) = Ok xB →
  shared_key (x25519_of_seed seedA) xB [] = Some kA → shared_key (x25519_of_seed seedB) xA [] = Some kB → kA = kB.
Proof.
  intros La Lb Hxa Hxb Hka Hkb.
  assert (∀ seed x, length seed = 32 → Ed25519PublicToX25519 (ed25519_public seed) = Ok x →
    curve25519_X25519 (x25519_of_seed seed) Basepoint = Some x) as Hpub.
  { intros seed x Hl Hx. destruct (montgomery_public seed Hl) as (q & Hq & Hp). unfold Ed25519PublicToX25519 in Hx.
    rewrite ed25519_public_length in Hx. cbn [negb Nat.eqb PublicKeySize] in Hx. rewrite Hq in Hx. by injection Hx as <-. }
  pose proof (shared_key_sym seedA xA seedB xB (Hpub _ _ La Hxa) (Hpub _ _ Lb Hxb)). congruence.
Qed.

Lemma node_writes `{Libp2p} `{CryptoLaws} `{Unicode} (ans : ∀ q, Node.answer q) n p name kb raw nonce data :
  send_refusal p name data n = None → stats_ok n → (DisableBackpressure (config n) = false → free (controller name n)) →
  established (strm n) p name kb → entry (streams (strm n)) p name = None → name ≠ HandshakeStreamName →
  ans (QStrm Streams.QCtxErr) = None :> option error → ans (QStrm (QNewStream p name)) = Ok raw :> result error nat →
  ans (QStrm QRand) = Ok nonce :> result error bytes → length nonce = NonceSize →
  (∀ st f, ans (QStrm (QWrite st f)) = None :> option error) → (∀ st, ans (QStrm (QFlush st)) = None :> option error) →
  let o := run ans (Node.SendCtx p name data) n in
  value o = Returned None ∧ (∃ cs, calls o = QStrm <$> cs ∧ writes cs = [(raw, nonce ++ aead_Seal kb nonce data [])])
  ∧ t_messagesSent (stats p (final o)) = (t_messagesSent (stats p n) +₆₄ 1)%go.
Proof.
  intros Hr Hst Hf He Hn Hh H1' H2' H3' H4' H5' H6'. cbv zeta.
  destruct (send_run (to_strm ans) p name kb raw nonce data (strm n) He Hn Hh H1' H2' H3' H4' H5' H6') as (S1 & S2 & _).
  destruct (send_runs ans p name data n Hr Hst Hf) as (T1 & _ & T3 & _ & _ & _ & T4 & _). rewrite S1 in T1, T4.
  split; [exact T1 |]. split; [by eexists |]. by rewrite T4.
Qed.

Lemma node_accepts `{Libp2p} `{CryptoLaws} `{Unicode} (ans ansL ansF : ∀ q, Node.answer q) n p name kb raw nonce data :
  established (strm n) p name kb → entry (streams (strm n)) p name = None →
  handlers n !! StreamProtocolID name = Some (HStream name) → length nonce = NonceSize →
  forwarding n → Chan.buf (incoming (sto (strm n))) = [] → 0 < Chan.cap (incoming (sto (strm n))) →
  length (Chan.buf (messages n)) < Chan.cap (messages n) →
  (maxMessageSize (strm n) <= 0 ∨ Z.of_nat (NonceSize + length data + TagSize) <= maxMessageSize (strm n))%Z →
  let o := run ans (serve (StreamProtocolID name) p raw) n in
  ∃ j, spawned o = [PStrm (StreamManager.PLoop (LEncrypted j))]
  ∧ (ansL (QStrm (QNext raw)) = NextMsg (nonce ++ aead_Seal kb nonce data []) :> next_result →
     let o1 := run ansL (Node.body (PStrm (StreamManager.PLoop (LEncrypted j)))) (final o) in
     let o2 := run ansF forwardMessagesWithStats (final o1) in
     ∃ msg, Chan.buf (messages (final o2)) = Chan.buf (messages n) ++ [msg]
       ∧ im_PeerID msg = p ∧ im_StreamName msg = name ∧ deref (Streams.hp (sto (strm (final o2)))) (im_Data msg) = data
       ∧ t_messagesReceived (stats p (final o2)) = (t_messagesReceived (stats p n) +₆₄ 1)%go
       ∧ spawned o2 = [PForwardMessages]).
Proof.
  intros He Hn Hh Hnon Hfw Hb Hcap Hroom Hfit. cbv zeta. unfold serve. rewrite run_seq, run_section. cbv zeta. unfold st_gets.
  cbn [value final spawned calls fst snd app]. rewrite Hh. unfold handle_stream. rewrite run_seq, run_sm. cbv zeta.
  destruct (accept_run (to_strm ans) p name kb raw (strm n) He Hn) as (A1 & A2 & _ & es & A4 & A5 & A6 & A7 & A8 & A9 & A10).
  set (o1 := run (to_strm ans) (HandleIncomingStream p name raw) (strm n)) in *. clearbody o1. cbn [value final spawned calls].
  rewrite A1, A2. unfold mret, prog_ret. cbn [run value final spawned calls fmap list_fmap app].
  exists (Streams.next_obj (sto (strm n))). split; [done |]. intros Hq. cbn [Node.body]. rewrite run_sm. cbv zeta. cbn [StreamManager.body].
  rewrite run_lift. cbv zeta. cbn [value final spawned calls]. change (strm (set_strm (final o1) n)) with (final o1).
  rewrite <- A7 in Hq. cbn [loop_body].
  destruct (readLoop_turn (to_strm ansL) (sto (final o1)) _ es kb _ A4 Hq) as (_ & _ & _ & _ & _ & _ & T2).
  destruct A4 as [_ _ _ Hk Hc _]. destruct (Cipher_roundtrip (es_cipher es) nonce data [] kb Hk Hc Hnon) as (ct & _ & -> & Hlen & Hd).
  unfold frame_spec in T2. rewrite Hlen, Hd, A9, A8 in T2.
  replace ((0 <? maxMessageSize (strm n))%Z && (maxMessageSize (strm n) <? Z.of_nat (NonceSize + length data + TagSize))%Z) with false in T2
    by (symmetry; apply andb_false_iff; destruct Hfit; [left | right]; apply Z.ltb_ge; lia).
  assert (room (incoming (sto (strm n))) = true) as Hrm by (unfold room; rewrite Hb; by apply bool_decide_eq_true).
  rewrite Hrm in T2. cbn [fst] in T2. destruct T2 as (r & E1 & E2 & _). rewrite Hb in E1. cbn [app] in E1. rewrite A5, A6 in E1.
  set (o2 := run (to_strm ansL) (es_readLoop _) (sto (final o1))) in *. clearbody o2.
  set (n1 := set_strm (set_sto (final o2) (final o1)) (set_strm (final o1) n)).
  destruct (forward_turn ansF n1 {| im_PeerID := p; im_StreamName := name; im_Data := r; im_Timestamp := Streams.clock (sto (final o1)) |} [])
    as (F1 & _ & _ & _ & F5 & _ & F7 & F8 & _); [by destruct Hfw | unfold n1; cbn; by rewrite E1 |].
  eexists. split_and!; [| | | | | exact F1].
  - rewrite F5. unfold offered. cbn. by rewrite decide_True by exact Hroom.
  - done.
  - done.
  - rewrite F7. exact E2.
  - cbn [im_PeerID] in F8. by rewrite F8.
Qed.

(** C1. A message from one application to the other.  Two connected nodes complete
    their handshakes with each other's public key; the first sends on one of
    the streams they agreed on; the second is handed the stream, reads the one
    frame that was written, and forwards: the application of the second finds
    the very bytes at the end of its channel, under the name of the first and
    of the stream, and both count one message. *)
Theorem node_to_node `{Libp2p} `{CryptoLaws} `{Unicode} (ansA ansB ansL ansF : ∀ q, Node.answer q) nA nB idA idB names name data
    seedA seedB xA xB kA kB rawA rawB nonce :
  length seedA = 32 → length seedB = 32 →
  meets nA idB names seedA (ed25519_public seedB) xB kA → meets nB idA names seedB (ed25519_public seedA) xA kB →
  name ∈ names → name ≠ HandshakeStreamName →
  send_refusal idB name data nA = None → (DisableBackpressure (config nA) = false → free (controller name nA)) →
  ansA (QStrm Streams.QCtxErr) = None :> option error → ansA (QStrm (QNewStream idB name)) = Ok rawA :> result error nat →
  ansA (QStrm QRand) = Ok nonce :> result error bytes → length nonce = NonceSize →
  (∀ st f, ansA (QStrm (QWrite st f)) = None :> option error) → (∀ st, ansA (QStrm (QFlush st)) = None :> option error) →
  forwarding nB → Chan.buf (incoming (sto (strm nB))) = [] → 0 < Chan.cap (incoming (sto (strm nB))) →
  length (Chan.buf (messages nB)) < Chan.cap (messages nB) → (maxMessageSize (strm nB) <= 0)%Z →
  let a1 := run ansA (CompleteHandshake idB (Some (ed25519_public seedB)) names) nA in
  let b1 := run ansB (CompleteHandshake idA (Some (ed25519_public seedA)) names) nB in
  let a2 := run ansA (Node.SendCtx idB name data) (final a1) in
  let b2 := run ansB (serve (StreamProtocolID name) idA rawB) (final b1) in
  value a1 = None ∧ value b1 = None ∧ value a2 = Returned None
  ∧ t_messagesSent (stats idB (final a2)) = (t_messagesSent (stats idB nA) +₆₄ 1)%go
  ∧ ∃ cs frame j, calls a2 = QStrm <$> cs ∧ writes cs = [(rawA, frame)]
    ∧ spawned b2 = [PStrm (StreamManager.PLoop (LEncrypted j))]
    ∧ (ansL (QStrm (QNext rawB)) = NextMsg frame :> next_result →
       let b3 := run ansL (Node.body (PStrm (StreamManager.PLoop (LEncrypted j)))) (final b2) in
       let b4 := run ansF forwardMessagesWithStats (final b3) in
       ∃ msg, Chan.buf (messages (final b4)) = Chan.buf (messages nB) ++ [msg]
         ∧ im_PeerID msg = idA ∧ im_StreamName msg = name ∧ deref (Streams.hp (sto (strm (final b4)))) (im_Data msg) = data
         ∧ t_messagesReceived (stats idA (final b4)) = (t_messagesReceived (stats idA nB) +₆₄ 1)%go).
Proof.
  intros La Lb MA MB Hin Hh Hr Hf H1' H2' H3' H4' H5' H6' Hfw Hb Hcap Hroom Hmax. cbv zeta.
  assert (kA = kB) as <-.
  { destruct MA as [_ _ [_ XA _ _ _ KA _] _ _ _], MB as [_ _ [_ XB _ _ _ KB _] _ _ _].
    exact (keys_agree seedA seedB xA xB kA kB La Lb XB XA KA KB). }
  pose proof (mt_stats _ _ _ _ _ _ _ MA) as HsA.
  destruct (meets_runs ansA nA idB names seedA _ xB kA MA) as (A1 & A2 & A3 & A4 & _).
  destruct (meets_runs ansB nB idA names seedB _ xA kA MB) as (B1 & B2 & B3 & B4 & B5).
  set (a1 := run ansA (CompleteHandshake _ _ _) nA) in *. set (b1 := run ansB (CompleteHandshake _ _ _) nB) in *. clearbody a1 b1.
  split; [exact A1 |]. split; [exact B1 |]. unfold kept, node_view in A4, B4.
  injection A4 as E1 E2 E3 E4 E5 E6 E7 E8 E9. injection B4 as G1 G2 G3 G4 G5 G6 G7 G8 G9. destruct B5 as (_ & C1 & C2 & _).
  destruct (node_writes ansA (final a1) idB name kA rawA nonce data) as (W1 & (cs & W2 & W3) & W4);
    [unfold send_refusal in *; by rewrite E1, E3 | unfold stats_ok in *; by rewrite E5, E6, E7
    | unfold controller in *; by rewrite E3, E8 | apply A2, Hin | apply A3 | done.. |].
  split; [exact W1 |]. split; [rewrite W4; unfold stats, tracker_of; by rewrite E5, E7 |].
  destruct (node_accepts ansB ansL ansF (final b1) idA name kA rawB nonce data) as (j & D1 & D2);
    [apply B2, Hin | apply B3 | apply B2, Hin | done | | by rewrite C2 | by rewrite C2 | by rewrite G4 | |].
  { destruct Hfw as [F1 F2 F3]. split; [unfold ctx_done in *; by rewrite G2 | by rewrite G4 | unfold stats_ok in *; by rewrite G5, G6, G7]. }
  { left. apply (f_equal MaxMessageSize) in C1. cbn in C1. by rewrite C1. }
  exists cs, (nonce ++ aead_Seal kA nonce data []), j. split; [exact W2 |]. split; [exact W3 |]. split; [exact D1 |]. intros Hq.
  destruct (D2 Hq) as (msg & M1 & M2 & M3 & M4 & M5 & _). exists msg. rewrite M1, M5, G4.
  split_and!; try done. unfold stats, tracker_of. by rewrite G5, G7.
Qed.
