(* ===== verification/NodePeers.v ===== *)
(** * Disconnecting and blacklisting a peer *)

From S2P Require Import Prelude Errors ConnState Config Validation Version Flow Dispatcher Interfaces Storage AddressBook Heap Crypto CryptoModule Peer Proc RelyGuarantee Compose Subscriptions Stats Streams StreamBehaviour StreamManager SecureChannel StreamSafety ConnManager ConnBehaviour ConnRecovery System Node NodeRefinement NodeBehaviour NodeLifecycle NodeHandshake.

(** ** The parts *)

Section Parts.
Context {B A : Type} `{PeerBook B A} (ans : ∀ q : ConnManager.query (A := A), ConnManager.answer q).

(** What [PeerConnection.Cleanup] and the transition leave of a connection. *)
Definition torn_down (now : time) (pc : PeerConnection) : PeerConnection :=
  set_state StateDisconnected now (set_reconnect None (clear_streams (set_key None (set_timer None None pc)))).

(** One call on a connection. *)
Definition set_cell (c : nat) (cl : cell) (m : ConnManager.Manager (B := B)) : ConnManager.Manager :=
  (set_rt (λ _, rt cl) (set_conns (<[c := Peer.pc cl]>) m).2).2.

Lemma with_conn_run {X} `{!Inhabited X} c (f : ST cell X) (m : ConnManager.Manager (B := B)) pc :
  conns m !! c = Some pc →
  with_conn c f m = let (x, cl) := f {| Peer.pc := pc; rt := mrt m |} in (x, set_cell c cl m).
Proof. intros Hc. unfold with_conn. by rewrite Hc. Qed.

Lemma TransitionTo_run st (cl : cell) :
  ValidateTransition (Peer.State (Peer.pc cl)) st = None →
  TransitionTo st cl = (None, {| Peer.pc := set_state st (Peer.clock (rt cl)) (Peer.pc cl); rt := rt cl |}).
Proof. intros Hv. unfold TransitionTo, get_pc, Now, upd, st_gets, st_modify, mbind, ST_bind. by rewrite Hv. Qed.

Lemma run_ask_seq {X} q (k : ConnManager.answer q → prog (S := ConnManager.Manager (B := B)) (P := ConnManager.proc) (Q := ConnManager.query (A := A)) (R := ConnManager.answer) X) m :
  run ans (ask q ≫= k) m
  = let o := run ans (k (ans q)) m in
    {| value := value o; final := final o; spawned := spawned o; calls := q :: calls o |}.
Proof. done. Qed.

Lemma Disconnect_run (m : ConnManager.Manager (B := B)) p c pc :
  shaking m p c pc → ValidateTransition (Peer.State pc) StateDisconnected = None → ans ConnManager.QCtxErr = None :> option error →
  let o := run ans (ConnManager.DisconnectCtx p) m in
  value o = None ∧ spawned o = [] ∧ connections (final o) = connections m ∧ addressBook (final o) = addressBook m
  ∧ reconnecting (final o) = delete p (reconnecting m)
  ∧ conns (final o) = <[c := torn_down (Peer.clock (mrt m)) pc]> (conns m)
  ∧ (∀ t, HandshakeTimer pc = Some t → ¬ armed (timers (mrt (final o))) t)
  ∧ (∀ k, SharedKey pc = Some k → zeroed (deref (keys (mrt (final o))) k))
  ∧ emitted (final o) = add_if (has_events m) (emitted m) (ConnBehaviour.event m p StateDisconnected None)
  ∧ calls o = [ConnManager.QCtxErr; ConnManager.QCtxErr; QDisconnect p].
Proof.
  intros [Hp Hc] Hst Hctx. cbv zeta. unfold ConnManager.DisconnectCtx. rewrite (run_ask_seq ConnManager.QCtxErr). cbv zeta. rewrite Hctx, run_seq, run_section. cbv zeta.
  set (sec := (m0 ← st_get; _ : ST _ (option nat))).
  assert (∃ m1, sec m = (Some c, m1) ∧ connections m1 = connections m ∧ addressBook m1 = addressBook m ∧ has_events m1 = has_events m
    ∧ reconnecting m1 = delete p (reconnecting m) ∧ conns m1 = conns m ∧ mrt m1 = mrt m ∧ emitted m1 = emitted m)
    as (m1 & -> & Q1 & Q2 & Q3 & Q4 & Q5 & Q6 & Q7).
  { unfold sec, st_get, mbind, ST_bind. rewrite Hp. destruct (reconnecting m !! p) as [r|] eqn:Hr; (eexists; split; [reflexivity |]); split_and!; try done.
    by rewrite delete_id. }
  clear sec. cbn [value final spawned calls fst snd app]. rewrite (run_ask_seq ConnManager.QCtxErr). cbv zeta. rewrite Hctx, run_seq, run_section. cbv zeta.
  rewrite (with_conn_run c Cleanup m1 pc) by (by rewrite Q5). rewrite Q6.
  set (cl0 := {| pc := pc; rt := mrt m |}). pose proof (Cleanup_pc cl0) as C1. pose proof (Cleanup_clock cl0) as [C2 _].
  pose proof (Cleanup_releases cl0) as (_ & _ & _ & _ & C3 & C4 & _).
  destruct (Cleanup cl0) as [[] cl]. cbn [fst snd value final spawned calls app] in *. rewrite (run_ask_seq (QDisconnect p)). cbv zeta. rewrite run_seq, run_section. cbv zeta.
  set (m2 := set_cell c cl m1).
  rewrite (with_conn_run c (TransitionTo StateDisconnected) m2 (Peer.pc cl)) by (unfold m2; cbn; by rewrite lookup_insert_eq).
  rewrite TransitionTo_run by (cbn [Peer.pc]; by rewrite C1). cbn [Peer.pc rt fst snd value final spawned calls app].
  unfold m2. cbn [mrt set_cell]. set (cl2 := {| Peer.pc := _; rt := _ |}). set (m3 := set_cell c cl2 (set_cell c cl m1)).
  rewrite run_seq. cbv zeta. destruct (run_emitEvent ans p StateDisconnected None m3) as (D1 & D2 & D3 & D4 & D5 & D6 & _ & D8 & _ & D10 & _).
  unfold mret, prog_ret. cbn [run value final spawned calls]. rewrite D1, D2, D3, D4, D5, D6, D8, D10.
  assert (Peer.clock (rt cl) = Peer.clock (mrt m)) as Hcl by exact C2.
  split_and!; try done.
  - unfold m3, cl2. cbn. rewrite insert_insert_eq, Q5, C1, Hcl. done.
  - unfold ConnBehaviour.event, m3, cl2. cbn. by rewrite Q3, Q7, Hcl.
Qed.
End Parts.

Section Cleaning.
Context `{Libp2p} `{CryptoLib} `{Unicode}.

(** Dropping a key from the module's cache. *)
Lemma remove_key_run pub x m :
  pub ≠ [] → Ed25519PublicToX25519 pub = Ok x →
  let m' := (on_module (RemovePeerKeyByEd25519 pub) m).2 in
  peerKeys (crypto m') = delete x (peerKeys (crypto m))
  ∧ ∀ r, peerKeys (crypto m) !! x = Some r → zeroed (deref (Streams.hp (sto m')) r).
Proof.
  intros Hne Hx. cbv zeta. unfold on_module, RemovePeerKeyByEd25519. rewrite Hx.
  destruct (length pub =? 0) eqn:El; [by apply Nat.eqb_eq, nil_length_inv in El |].
  unfold RemovePeerKey, get_mod, CryptoModule.on_heap, set_peerKeys, st_modify, st_gets, mbind, ST_bind, mret, ST_ret. cbn.
  destruct (peerKeys (crypto m) !! x) as [k|] eqn:Ek; cbn; (split; [done |]); [| done].
  intros r [= <-]. match goal with |- context[deref ?h] => change h with (SecureZero k (Streams.hp (sto m))).2 end.
  rewrite deref_SecureZero, decide_True by done. apply memclr_zeroed.
Qed.

Lemma remove_other pub m :
  let m' := (on_module (RemovePeerKeyByEd25519 pub) m).2 in
  streams m' = streams m ∧ unencryptedStreams m' = unencryptedStreams m ∧ allowedStreams m' = allowedStreams m
  ∧ sharedKeys m' = sharedKeys m
  ∧ ∀ r, zeroed (deref (Streams.hp (sto m)) r) → zeroed (deref (Streams.hp (sto m')) r).
Proof.
  cbv zeta. unfold on_module, RemovePeerKeyByEd25519. destruct (length pub =? 0); [by split_and! |].
  destruct (Ed25519PublicToX25519 pub) as [e|x]; [by split_and! |].
  unfold RemovePeerKey, get_mod, CryptoModule.on_heap, set_peerKeys, st_modify, st_gets, mbind, ST_bind, mret, ST_ret. cbn.
  destruct (peerKeys (crypto m) !! x) as [k|] eqn:Ek; cbn; (split_and!; [done.. |]); [| done].
  intros r Hr. match goal with |- context[deref ?h] => change h with (SecureZero k (Streams.hp (sto m))).2 end.
  rewrite deref_SecureZero. case_decide; [apply memclr_zeroed | done].
Qed.

Lemma CloseStreams_crypto (ans : ∀ q, Streams.answer q) p m : crypto (final (run ans (CloseStreams p) m)) = crypto m.
Proof.
  destruct (CloseStreams_parts ans p m) as (_ & s2 & _ & ->).
  unfold forget, zero_key, st_get, st_modify, on_store, Streams.on_heap, mbind, ST_bind, mret, ST_ret.
  cbn [sharedKeys set_allowed set_unencrypted set_streams set_sto]. by destruct (sharedKeys m !! p).
Qed.

Lemma cleanup_runs (ans : ∀ q, Node.answer q) p n :
  let o := run ans (cleanupPeerResources p) n in let m := strm n in let m' := strm (final o) in
  spawned o = [] ∧ kept conn n (final o)
  ∧ streams m' = delete p (streams m) ∧ unencryptedStreams m' = delete p (unencryptedStreams m)
  ∧ allowedStreams m' = delete p (allowedStreams m) ∧ sharedKeys m' = delete p (sharedKeys m)
  ∧ (∀ k, sharedKeys m !! p = Some k → zeroed (deref (Streams.hp (sto m')) k))
  ∧ (∀ entry x, GetPeer p n = Ok entry → Storage.PublicKey entry ≠ [] → Ed25519PublicToX25519 (Storage.PublicKey entry) = Ok x →
       peerKeys (crypto m') = delete x (peerKeys (crypto m))
       ∧ ∀ r, peerKeys (crypto m) !! x = Some r → zeroed (deref (Streams.hp (sto m')) r))
  ∧ (∀ e, GetPeer p n = Err e → crypto m' = crypto m).
Proof.
  cbv zeta. unfold cleanupPeerResources. rewrite run_seq, run_sm. cbv zeta. cbn [value final spawned].
  destruct (CloseStreams_run (to_strm ans) p (strm n)) as (H1' & H2' & H3' & H4' & H5' & _ & H6').
  pose proof (CloseStreams_crypto (to_strm ans) p (strm n)) as Hcr.
  set (o := run (to_strm ans) (CloseStreams p) (strm n)) in *. clearbody o. rewrite H1'. rewrite run_seq, run_section. cbv zeta. unfold st_gets. cbn [value final spawned fst snd fmap list_fmap app].
  set (n1 := set_strm (final o) n).
  assert (∀ k, sharedKeys (strm n) !! p = Some k → zeroed (deref (Streams.hp (sto (final o))) k)) as Hz
    by (intros k Hk; rewrite (H6' k Hk); apply memclr_zeroed).
  change (GetPeer p n1) with (GetPeer p n).
  destruct (GetPeer p n) as [e|entry] eqn:Eg.
  { unfold mret, prog_ret. cbn [run value final spawned]. split_and!; try done. }
  rewrite run_section. cbn [final spawned]. unfold on_strm. change (strm n1) with (final o).
  destruct (on_module (RemovePeerKeyByEd25519 (Storage.PublicKey entry)) (final o)) as [[] m2] eqn:Em. cbn [snd strm set_strm].
  destruct (remove_other (Storage.PublicKey entry) (final o)) as (R1 & R2 & R3 & R4 & R5). rewrite Em in R1, R2, R3, R4, R5. cbn [snd] in *.
  split_and!; try done; try congruence.
  - intros k Hk. by apply R5, Hz.
  - intros entry' x [= <-] Hne Hx. destruct (remove_key_run _ x (final o) Hne Hx) as (K1 & K2). rewrite Em in K1, K2. cbn [snd] in *.
    by rewrite Hcr in K1, K2.
Qed.
End Cleaning.


Lemma active_to_disconnected s : IsActive s = true → ValidateTransition s StateDisconnected = None.
Proof. by destruct s. Qed.

Section Blacklisting.
Context `{Libp2p} `{CryptoLib} `{Unicode}.

Lemma GetState_at (m : ConnManager.Manager (B := world)) p c pc :
  shaking m p c pc → ConnManager.GetState p m = (Peer.State pc, m).
Proof.
  intros [Hp Hc]. unfold ConnManager.GetState, find_conn, st_gets, mbind, ST_bind. rewrite Hp.
  rewrite (with_conn_run c _ m pc Hc). unfold Peer.GetState, st_gets. cbn. unfold set_cell. cbn.
  rewrite insert_id by done. by destruct m.
Qed.

Lemma on_GetState p c pc n : shaking (conn n) p c pc → on_conn (ConnManager.GetState p) n = (Peer.State pc, n).
Proof. intros Hsh. unfold on_conn. rewrite (GetState_at _ p c pc Hsh). by destruct n. Qed.

Lemma blacklist_book_eq o p n :
  (t ← now; on_book (AddressBook.BlacklistPeer o t p)) n
  = let (e, w) := AddressBook.BlacklistPeer o (Peer.clock (mrt (conn n))) p (addressBook (conn n)) in
    (e, set_conn (set_book (λ _, w) (conn n)).2 n).
Proof. done. Qed.

(** What a full dispatcher does with an event. *)
Lemma EmitEvent_full e d :
  Dispatcher.closed d = false → Chan.is_closed (Dispatcher.events d) = false →
  Chan.cap (Dispatcher.events d) <= length (Chan.buf (Dispatcher.events d)) → EmitEvent e d = Some d.
Proof.
  intros Hop Hch Hfull. unfold EmitEvent, Chan.try_send. rewrite Hop, Hch, decide_False by lia. rewrite <- Hop. by destruct d.
Qed.
End Blacklisting.

(** Blacklisting a connected peer saves the entry, disconnects the peer and
    emits the event, but does not touch the streams: the peer's shared key,
    streams and rights stay until [forwardEvents] takes that event.  When the
    dispatcher's channel is full the event is lost, and they stay for good. *)
Theorem blacklist_leaves_streams `{Libp2pLaws} `{CryptoLib} `{Unicode} (ans : ∀ q, Node.answer q) n p c pc :
  shaking (conn n) p c pc → IsActive (Peer.State pc) = true →
  ans (QConn ConnManager.QCtxErr) = None :> option error →
  (AddressBook.BlacklistPeer (ans QIO) (Peer.clock (mrt (conn n))) p (addressBook (conn n))).1 = None →
  has_events (conn n) = true → Dispatcher.closed (eventDispatch n) = false →
  Chan.is_closed (Dispatcher.events (eventDispatch n)) = false →
  Chan.cap (Dispatcher.events (eventDispatch n)) <= length (Chan.buf (Dispatcher.events (eventDispatch n))) →
  dispatched n = length (emitted (conn n)) →
  let o := run ans (Node.BlacklistPeer p) n in let n' := (sync (final o)).2 in
  value o = None ∧ pb_IsBlacklisted (A := Multiaddr) (addressBook (conn n')) p = true
  ∧ conns (conn n') = <[c := torn_down (Peer.clock (mrt (conn n))) pc]> (conns (conn n)) ∧ QConn (QDisconnect p) ∈ calls o
  ∧ emitted (conn n') = emitted (conn n) ++ [ConnBehaviour.event (conn n) p StateDisconnected None]
  ∧ dispatched n' = length (emitted (conn n')) ∧ eventDispatch n' = eventDispatch n
  ∧ strm n' = strm n ∧ hub n' = hub n.
Proof.
  intros Hsh Hact Hctx Hsave Hev Hop Hch Hfull Hdis. cbv zeta. unfold Node.BlacklistPeer. rewrite (run_ask ans QIO). cbv zeta.
  rewrite run_seq, run_section. cbv zeta. rewrite blacklist_book_eq.
  pose proof (BlacklistPeer_blacklists (ans QIO) (Peer.clock (mrt (conn n))) p (addressBook (conn n)) Hsave) as Hbl.
  destruct (AddressBook.BlacklistPeer _ _ _ _) as [e w]. cbn [fst snd] in *. subst e. cbn [value final spawned calls].
  set (m1 := (set_book (λ _, w) (conn n)).2). assert (shaking m1 p c pc) as Hsh1 by (by destruct Hsh).
  rewrite run_seq, run_section. cbv zeta. rewrite (on_GetState p c pc) by done.
  cbn [fst snd value final spawned calls app]. rewrite Hact. rewrite !run_seq, run_cm. cbv zeta.
  change (conn (set_conn m1 n)) with m1.
  destruct (Disconnect_run (to_conn ans) m1 p c pc Hsh1 (active_to_disconnected _ Hact) Hctx) as (D1 & D2 & D3 & D4 & D5 & D6 & D7 & D8 & D9 & D10).
  unfold ConnManager.Disconnect. set (o := run (to_conn ans) (ConnManager.DisconnectCtx p) m1) in *. clearbody o. unfold mret, prog_ret. cbn [run value final spawned calls].
  rewrite D10. set (n1 := set_conn (final o) _).
  assert (emitted (conn n1) = emitted (conn n) ++ [ConnBehaviour.event (conn n) p StateDisconnected None]) as Hem
    by (change (conn n1) with (final o); rewrite D9; unfold m1, add_if; cbn; by rewrite Hev).
  assert (sync n1 = (tt, set_dispatch (eventDispatch n) (length (emitted (conn n1))) n1)) as ->.
  { unfold sync, st_get, mbind, ST_bind. change (dispatched n1) with (dispatched n). change (eventDispatch n1) with (eventDispatch n).
    rewrite Hem, Hdis, drop_app_length. cbn [emit_all].
    by rewrite EmitEvent_full by done. }
  cbn [snd conn strm hub eventDispatch dispatched set_dispatch]. change (conn n1) with (final o) in *.
  rewrite D4, D6. split_and!; try done. set_solver.
Qed.

(** ** Events of a disconnection *)

Lemma cleanup_keeps `{Libp2p} `{CryptoLib} `{Unicode} (ans : ∀ q, Node.answer q) p n :
  let n' := final (run ans (cleanupPeerResources p) n) in eventDispatch n' = eventDispatch n ∧ hub n' = hub n.
Proof.
  cbv zeta. enough (kept (λ n, (eventDispatch n, hub n)) n (final (run ans (cleanupPeerResources p) n))) as [= ? ?] by done.
  apply run_respects; [apply _.. |]. apply respects_bind; [by apply sm_respects | intros _].
  apply respects_bind; [done | intros [e|entry]; [exact I |]]. split; [| done].
  intros n1. unfold on_strm. by destruct (on_module _ _).
Qed.

(** An event that waits in the dispatcher's channel is taken. *)
Lemma take_event_runs `{Libp2p} `{CryptoLib} `{Unicode} pick n evt rest :
  dispatched n = length (emitted (conn n)) → ctx_done n = false →
  Chan.buf (Dispatcher.events (eventDispatch n)) = evt :: rest →
  ∃ d, take_event pick n = (TGot evt, set_dispatch d (dispatched n) n) ∧ Chan.buf (Dispatcher.events d) = rest.
Proof.
  intros Hd Hc Hb. unfold take_event, sync, st_get, mbind, ST_bind. rewrite Hd, drop_all. cbn [emit_all]. cbn.
  unfold select, Chan.try_recv, Dispatcher.Events, ctx_done in *. cbn. rewrite Hc, Hb. cbn. by eexists.
Qed.

(** The turn of [forwardEvents] that takes a Disconnected event forgets what
    the node has for the peer, passes the event on, and leaves the connections
    alone.  It looks at the event only: when the peer has connected again and
    its streams have been established anew before the event's turn comes, the
    new streams and keys are dropped while the connection stays Established. *)
Theorem stale_event_drops_streams `{Libp2p} `{CryptoLib} `{Unicode} (ans : ∀ q, Node.answer q) n p c pc evt rest :
  dispatched n = length (emitted (conn n)) → ctx_done n = false →
  Chan.buf (Dispatcher.events (eventDispatch n)) = evt :: rest →
  ce_PeerID evt = p → ce_State evt = StateDisconnected →
  shaking (conn n) p c pc → Peer.State pc = StateEstablished →
  let o := run ans forwardEvents n in let m := strm n in let m' := strm (final o) in
  Chan.buf (Dispatcher.events (eventDispatch (final o))) = rest
  ∧ hub (final o) = final (run (to_hub ans) (Subscriptions.forward (public_event evt)) (hub n))
  ∧ PForwardEvents ∈ spawned o
  ∧ conn (final o) = conn n ∧ (ConnManager.GetState p (conn (final o))).1 = StateEstablished
  ∧ streams m' = delete p (streams m) ∧ allowedStreams m' = delete p (allowedStreams m) ∧ sharedKeys m' = delete p (sharedKeys m)
  ∧ (∀ k, sharedKeys m !! p = Some k → zeroed (deref (Streams.hp (sto m')) k))
  ∧ ∀ a name data, name ≠ HandshakeStreamName → value (run a (StreamManager.SendCtx p name data) m') ≠ None.
Proof.
  intros Hd Hc Hb Hp Hs Hsh Hst. cbv zeta. unfold forwardEvents. rewrite (run_ask ans QPick). cbv zeta. rewrite run_seq, run_section. cbv zeta.
  destruct (take_event_runs (ans QPick) n evt rest Hd Hc Hb) as (d & -> & Hrest). cbn [fst snd value final spawned calls].
  rewrite run_seq. cbv zeta. rewrite Hs, decide_True, Hp by done. set (n1 := set_dispatch d (dispatched n) n).
  destruct (cleanup_runs ans p n1) as (C1 & C2 & C3 & C4 & C5 & C6 & C7 & _).
  destruct (cleanup_keeps ans p n1) as [K1 K2].
  set (o1 := run ans (cleanupPeerResources p) n1) in *. clearbody o1. rewrite run_seq, run_hb. cbv zeta. cbn [value final spawned].
  rewrite C1, K2. change (hub n1) with (hub n). set (o2 := run (to_hub ans) (forward (public_event evt)) (hub n)). clearbody o2.
  unfold go. cbn [run value final spawned calls app strm conn hub eventDispatch set_hub]. rewrite K1, C2. change (conn n1) with (conn n).
  rewrite (GetState_at _ p c pc Hsh). split_and!; try done; [set_solver |].
  intros a name data Hname. apply refusing_send; [done |]. split; [| right; by rewrite C6, lookup_delete_eq].
  rewrite entry_None_find; [done |]. unfold entry. by rewrite C3, lookup_delete_eq.
Qed.
