(* ===== verification/NodeWitness.v ===== *)
(** * A concrete node

    The theorems on the node applied to a node that [New] makes from a
    configuration, with the toy cryptography, plain libp2p types and file
    operations that succeed. *)

From S2P Require Import Prelude Errors ConnState Config Validation Version Flow Dispatcher Interfaces Storage AddressBook Heap Crypto CryptoModule Peer Proc RelyGuarantee Compose Subscriptions Stats Streams StreamBehaviour StreamManager SecureChannel StreamSafety StreamInvariant ConnManager ConnInvariant ConnBehaviour Node NodeRefinement NodeBehaviour NodeLifecycle NodeHandshake NodeChannel NodePeers.

Module NodeWitness.
#[local] Existing Instance plain_libp2p.
#[local] Existing Instance plain_libp2p_laws.
#[local] Existing Instance Toy.toy.
#[local] Existing Instance Toy.toy_laws.
#[local] Existing Instance ascii_ucd.
Import AddressBook.Witness CryptoModule.Witness ChannelWitness.
Local Open Scope Z_scope.

(** ** The node *)

Definition cfg (k : Z) : Config.Config :=
  {| PrivateKey := Some (seed k ++ ed25519_public (seed k)); AddressBookPath := "book.json"; ListenAddrs := ["/ip4/0.0.0.0/tcp/0"];
     Config.HandshakeTimeout := 0; Config.ReconnectBaseDelay := 0; Config.ReconnectMaxDelay := 0; Config.ReconnectMaxAttempts := 0;
     Config.FailedHandshakeCooldown := 0; Config.EventBufferSize := 2; MessageBufferSize := 4; Logger := None; Metrics := None;
     Config.HighWatermark := 0; Config.LowWatermark := 0; Config.MaxMessageSize := 0; DisableBackpressure := false;
     ConnMgrLowWatermark := 0; ConnMgrHighWatermark := 0; Config.OnDecryptionError := None; MaxStreamNameLength := 0; MaxMetadataSize := 0 |}.

(** A node by hand, to stand where [New] fails. *)
Definition by_hand : Node :=
  {| config := cfg 9; conn := NewManager fresh Concrete.cfg true 1000; strm := manager_of 9; eventDispatch := NewDispatcher 2; dispatched := 0;
     hub := new_hub 2; messages := Chan.make 4; trackers := ∅; next_tracker := 0; peerStats := ∅; flowControllers := ∅; handlers := ∅;
     started := false |}.

Definition made_by_New (k : Z) := New (cfg k) 0 io_ok no_files None 1000 (priv_heap k).
Definition node_of (k : Z) : Node := match (made_by_New k).1 with Ok n => n | Err _ => by_hand end.
Definition node0 : Node := node_of 9.

Lemma node0_made : made_by_New 9 = (Ok node0, (made_by_New 9).2).
Proof.
  assert (is_ok (made_by_New 9).1 = true) as Hok by (vm_compute; reflexivity).
  unfold node0, node_of. destruct (made_by_New 9) as [[e|n] h]; [discriminate Hok | reflexivity].
Qed.

(** An environment where everything works; [host] is what closing it gives. *)
Definition quiet (host : option error) (q : Node.query) : Node.answer q :=
  match q with
  | QConn q => match q with
               | ConnManager.QCtxErr | QConnect _ _ | QDisconnect _ => None
               | QSleep _ _ => true
               | QJitter => λ _, 0
               end
  | QStrm q => calm NextEOF q
  | QHub q => match q with QDone _ => tt | QOrder l => l | Subscriptions.QPick => true end
  | QIO => io_ok
  | QWait _ _ | QReset _ => None
  | QPick => false
  | QHostClose => host
  end.
Notation go_on := (quiet None).

Definition hs_id : string := StreamProtocolID HandshakeStreamName.
Definition pub16 : bytes := ed25519Public (mod_of 16).

(** The node is started, a peer comes in, and they complete a handshake. *)
Definition node1 : Node := final (run go_on Start node0).
Definition node2 : Node := final (run go_on (serve hs_id "QmB" 7) node1).
Definition node3 : Node := final (run go_on (CompleteHandshake "QmB" (Some pub16) ["chat"]) node2).
Definition pc2 : PeerConnection := default (NewPeerConnection "" 0) (conns (conn node2) !! 0%nat).
Definition pc3 : PeerConnection := default (NewPeerConnection "" 0) (conns (conn node3) !! 0%nat).

Definition x9 : bytes := x25519_of_seed (seed 9).
Definition x16 : bytes := match Ed25519PublicToX25519 pub16 with Ok x => x | Err _ => [] end.
Definition kb : bytes := default [] (shared_key x9 x16 []).

Lemma pub16_derives n :
  {| modl := crypto (strm n); CryptoModule.hp := Streams.hp (sto (strm n)) |} = {| modl := mod_of 9; CryptoModule.hp := (made 9).2 |} →
  base_done (sto (strm n)) = false ∧ Chan.is_closed (incoming (sto (strm n))) = false →
  can_derive n pub16 x16 x9 kb.
Proof.
  intros Hm Hl. split; [reflexivity | vm_compute; reflexivity | split; vm_compute; reflexivity | | | vm_compute; reflexivity | exact Hl].
  - rewrite Hm. exact ok_9.
  - assert (crypto (strm n) = mod_of 9) as -> by congruence. vm_compute. reflexivity.
Qed.

Lemma derives2 : can_derive node2 pub16 x16 x9 kb.
Proof. apply pub16_derives; [vm_compute; reflexivity | vm_compute; split; reflexivity]. Qed.

Lemma peer2 : shaking (conn node2) "QmB" 0%nat pc2.
Proof. split; vm_compute; reflexivity. Qed.
Lemma peer3 : shaking (conn node3) "QmB" 0%nat pc3.
Proof. split; vm_compute; reflexivity. Qed.

Lemma handshake_completes_witness :
  value (run go_on (CompleteHandshake "QmB" (Some pub16) ["chat"]) node2) = None ∧ established (strm node3) "QmB" "chat" kb.
Proof.
  destruct (handshake_completes go_on node2 "QmB" pub16 x16 x9 kb ["chat"] 0%nat pc2 0%nat) as (H1 & _ & H2 & _);
    [first [exact derives2 | exact peer2 | discriminate | vm_compute; reflexivity] .. |].
  split; [exact H1 |]. apply (H2 "chat"). constructor.
Defined.

Lemma handshake_handler_hijacked_witness :
  let n := final (run go_on (PrepareStreams "QmB" (Some pub16) ["handshake"]) node2) in
  (ConnManager.GetState "QmC" (conn (final (run go_on (serve hs_id "QmC" 8) node2)))).1 = StateConnected
  ∧ (ConnManager.GetState "QmC" (conn (final (run go_on (serve hs_id "QmC" 8) n)))).1 = StateDisconnected.
Proof.
  cbv zeta.
  destruct (handshake_handler_hijacked go_on go_on node2 "QmB" pub16 x16 x9 kb ["handshake"] 0%nat pc2 "QmC" 8) as (H1 & H2 & _);
    [first [exact derives2 | exact peer2 | discriminate | apply list_elem_of_here | vm_compute; reflexivity] .. |]. split; [exact H1 | exact H2].
Defined.


(** The peer gets an entry in the book, and its events fill the dispatcher. *)
Definition node4 : Node := (sync (final (run go_on (Node.AddPeer "QmB" ["/ip4/10.0.0.2/tcp/4001" : Multiaddr] None) node3))).2.

Lemma peer4 : shaking (conn node4) "QmB" 0%nat pc3.
Proof. split; vm_compute; reflexivity. Qed.

Lemma blacklist_leaves_streams_witness :
  let n' := (sync (final (run go_on (Node.BlacklistPeer "QmB") node4))).2 in
  eventDispatch n' = eventDispatch node4 ∧ strm n' = strm node4.
Proof.
  cbv zeta. destruct (blacklist_leaves_streams go_on node4 "QmB" 0%nat pc3 peer4) as (_ & _ & _ & _ & _ & _ & H1 & H2 & _);
    [first [vm_compute; reflexivity | vm_compute; lia] .. |]. split; [exact H1 | exact H2].
Defined.

(** The peer is disconnected and completes a new handshake before its events
    are taken. *)
Definition node5 : Node := final (run go_on (serve hs_id "QmB" 9) (final (run go_on (Node.DisconnectCtx "QmB") node2))).
Definition node6 : Node :=
  final (run go_on forwardEvents (final (run go_on (CompleteHandshake "QmB" (Some pub16) ["chat"]) node5))).
Definition pc6 : PeerConnection := default (NewPeerConnection "" 0) (conns (conn node6) !! 0%nat).
Definition lost_event : ConnectionEvent :=
  default {| ce_PeerID := ""; ce_State := StateConnected; ce_Error := None; ce_Timestamp := 0 |}
    (head (Chan.buf (Dispatcher.events (eventDispatch node6)))).

Lemma peer6 : shaking (conn node6) "QmB" 0%nat pc6.
Proof. split; vm_compute; reflexivity. Qed.

Lemma stale_event_drops_streams_witness :
  let m := strm (final (run go_on forwardEvents node6)) in
  is_Some (sharedKeys (strm node6) !! "QmB") ∧ sharedKeys m = delete "QmB" (sharedKeys (strm node6))
  ∧ Peer.State pc6 = StateEstablished.
Proof.
  cbv zeta. destruct (stale_event_drops_streams go_on node6 "QmB" 0%nat pc6 lost_event []) as (_ & _ & _ & _ & _ & _ & _ & H1 & _);
    [first [exact peer6 | vm_compute; reflexivity] .. |].
  split; [vm_compute; by eexists |]. split; [exact H1 | vm_compute; reflexivity].
Defined.

(** ** Sending *)

Lemma stats_ok_empty n : peerStats n = ∅ → stats_ok n.
Proof. intros E. split; intros *; rewrite E, lookup_empty; discriminate. Qed.

Lemma stats_ok3 : stats_ok node3.
Proof. apply stats_ok_empty. vm_compute. reflexivity. Qed.

Lemma free3 : free (controller "chat" node3).
Proof.
  split; [vm_compute; reflexivity .. | | vm_compute; split; [discriminate | reflexivity]].
  assert (ch_closed (controller "chat" node3) = ∅) as -> by (vm_compute; reflexivity). apply not_elem_of_empty.
Qed.

Lemma send_accounted_witness :
  let o := run go_on (Node.SendCtx "QmB" "chat" hi) node3 in
  value o = Returned None ∧ t_messagesSent (stats "QmB" (final o)) = 1.
Proof.
  cbv zeta. destruct (send_accounted go_on "QmB" "chat" hi node3) as (H1 & _ & _ & _ & _ & _ & H2 & _);
    [vm_compute; reflexivity | exact stats_ok3 | intros _; exact free3 |].
  split; [refine (eq_trans H1 _); vm_compute; reflexivity |]. rewrite H2. vm_compute. reflexivity.
Defined.

(** The stream's controller is blocked, and its caller gives up. *)
Definition blocked_node : Node :=
  set_flows (<["chat" := set_counts (NewController 1 0) 1 true]> ∅) node3.
Definition impatient (q : Node.query) : Node.answer q :=
  match q with QWait _ _ => Some context_Canceled | q => go_on q end.

Lemma send_refused_witness :
  value (run go_on (Node.SendCtx "QmB" "chat" hi) node0) = Returned (Some ErrNodeNotStarted)
  ∧ final (run impatient (Node.SendCtx "QmB" "chat" hi) blocked_node) = blocked_node
  ∧ spawned (run go_on (Node.SendCtx "QmB" "chat" hi) blocked_node) = [PSendAcquire "QmB" "chat" hi].
Proof.
  destruct (send_refused go_on "QmB" "chat" hi node0) as (H1 & _).
  destruct (send_refused impatient "QmB" "chat" hi blocked_node) as (_ & H2 & _).
  destruct (send_refused go_on "QmB" "chat" hi blocked_node) as (_ & _ & H3).
  split; [rewrite (H1 ErrNodeNotStarted); vm_compute; reflexivity |]. split.
  - erewrite H2; [reflexivity | vm_compute; reflexivity .. | left; reflexivity].
  - erewrite H3; [reflexivity | vm_compute; reflexivity ..].
Defined.

(** ** Messages *)

(** A node with a message that waits. *)
Definition waiting_message : IncomingMessage := {| im_PeerID := "QmB"; im_StreamName := "chat"; im_Data := 0%nat; im_Timestamp := 9 |}.
Definition node_waiting : Node :=
  set_strm (set_sto (set_incoming (Chan.mk [waiting_message] 4 false) (sto (strm node3))) (strm node3)) node3.

Lemma messages_forwarded_witness :
  let n' := turns go_on 1 node_waiting in
  Chan.buf (messages n') = [waiting_message] ∧ t_messagesReceived (stats "QmB" n') = 1.
Proof.
  cbv zeta. destruct (messages_forwarded go_on node_waiting [waiting_message]) as (_ & H1 & H2).
  - split; [vm_compute; reflexivity .. | apply stats_ok_empty; vm_compute; reflexivity].
  - reflexivity.
  - vm_compute. lia.
  - cbn [length] in H1, H2. split; [refine (eq_trans H1 _); vm_compute; reflexivity |].
    rewrite (H2 "QmB"). vm_compute. reflexivity.
Defined.

(** The other node. *)
Definition nodeB : Node := final (run go_on (serve hs_id "QmA" 7) (final (run go_on Start (node_of 16)))).
Definition pcB : PeerConnection := default (NewPeerConnection "" 0) (conns (conn nodeB) !! 0%nat).
Definition reads (q : Node.query) : Node.answer q :=
  match q with QStrm q => calm (NextMsg frame) q | q => go_on q end.

Lemma meets_A : meets node2 "QmB" ["chat"] (seed 9) (ed25519_public (seed 16)) x16 kb.
Proof.
  split; [vm_compute; reflexivity | split; [vm_compute; reflexivity | discriminate] | exact derives2 | | | ].
  - exists 0%nat, pc2, 0%nat. split; [exact peer2 |]. vm_compute. split_and!; reflexivity.
  - intros name. assert (streams (strm node2) !! "QmB" = None) as E by (vm_compute; reflexivity). unfold entry. by rewrite E.
  - apply stats_ok_empty. vm_compute. reflexivity.
Qed.

Definition x9' : bytes := match Ed25519PublicToX25519 (ed25519_public (seed 9)) with Ok x => x | Err _ => [] end.

Lemma ok_16 : module_ok (x25519_of_seed (seed 16)) {| modl := mod_of 16; CryptoModule.hp := (made 16).2 |}.
Proof. destruct node_16 as (H1 & H2 & H3 & H4 & H5). exact (inv_initial _ _ _ _ _ H1 H2 H3 H4 H5). Qed.

Lemma meets_B : meets nodeB "QmA" ["chat"] (seed 16) (ed25519_public (seed 9)) x9' kb.
Proof.
  split; [vm_compute; reflexivity | split; [vm_compute; reflexivity | discriminate] | | | | ].
  - assert ({| modl := crypto (strm nodeB); CryptoModule.hp := Streams.hp (sto (strm nodeB)) |}
            = {| modl := mod_of 16; CryptoModule.hp := (made 16).2 |}) as E by (vm_compute; reflexivity).
    split; [reflexivity | vm_compute; reflexivity | split; vm_compute; reflexivity | rewrite E; exact ok_16
      | vm_compute; reflexivity | vm_compute; reflexivity | split; vm_compute; reflexivity].
  - exists 0%nat, pcB, 0%nat. split; [split; vm_compute; reflexivity |]. vm_compute. split_and!; reflexivity.
  - intros name. assert (streams (strm nodeB) !! "QmA" = None) as E by (vm_compute; reflexivity). unfold entry. by rewrite E.
  - apply stats_ok_empty. vm_compute. reflexivity.
Qed.

Lemma free2 : free (controller "chat" node2).
Proof.
  split; [vm_compute; reflexivity .. | | vm_compute; split; [discriminate | reflexivity]].
  assert (ch_closed (controller "chat" node2) = ∅) as -> by (vm_compute; reflexivity). apply not_elem_of_empty.
Qed.

Lemma node_to_node_witness :
  let a1 := run go_on (CompleteHandshake "QmB" (Some (ed25519_public (seed 16))) ["chat"]) node2 in
  let b1 := run go_on (CompleteHandshake "QmA" (Some (ed25519_public (seed 9))) ["chat"]) nodeB in
  value a1 = None ∧ value b1 = None ∧ value (run go_on (Node.SendCtx "QmB" "chat" hi) (final a1)) = Returned None.
Proof.
  cbv zeta.
  destruct (node_to_node go_on go_on reads go_on node2 nodeB "QmA" "QmB" ["chat"] "chat" hi (seed 9) (seed 16) x9' x16 kb kb 5%nat 6%nat
    StreamWitness.nonce12) as (H1 & H2 & H3 & _);
    [reflexivity | reflexivity | exact meets_A | exact meets_B | apply list_elem_of_here | discriminate | vm_compute; reflexivity
     | intros _; exact free2 | reflexivity | reflexivity | reflexivity | reflexivity | reflexivity | reflexivity
     | split; [vm_compute; reflexivity .. | apply stats_ok_empty; vm_compute; reflexivity]
     | vm_compute; reflexivity | vm_compute; lia | vm_compute; lia | vm_compute; discriminate |].
  split; [exact H1 |]. split; [exact H2 | exact H3].
Defined.

(** ** Stopping *)


Lemma stopped_but_healthy_witness :
  (let n1 := final (run (quiet (Some ErrNodeNotStarted)) Stop node3) in IsHealthy n1 = true ∧ ctx_done n1 = true)
  ∧ (let n2 := final (run go_on Start (final (run go_on Stop node3))) in
     IsHealthy n2 = true ∧ value (run go_on (PrepareStreams "QmB" (Some pub16) ["chat"]) n2) ≠ None).
Proof.
  split.
  - destruct (stopped_but_healthy (quiet (Some ErrNodeNotStarted)) go_on node3) as (H1 & H2 & _); [vm_compute; reflexivity .. |].
    split; [exact H1 | exact H2].
  - destruct (stopped_but_healthy go_on go_on node3) as (_ & H1 & _ & _ & H2 & _); [vm_compute; reflexivity .. |].
    split; [exact H1 | apply H2].
Defined.

(** ** Executions *)

(** What [quiet] may answer in every state. *)
Definition always (q : Node.query) : Prop := ∀ n, Node.answers n q (go_on q).

Lemma cm_always {X} (c : prog (S := ConnManager.Manager) (P := ConnManager.proc) (Q := ConnManager.query (A := Multiaddr)) (R := ConnManager.answer) X) :
  asks always (cm c).
Proof.
  apply asks_translate, asks_embed, asks_any. intros q n. destruct q; cbn; try exact I; [discriminate |].
  intros d Hd. cbn. pose proof (Z.div_pos d (2 ^ 50)). lia.
Qed.
Lemma sm_always {X} (c : prog (S := StreamManager.Manager) (P := StreamManager.proc) (Q := Streams.query) (R := Streams.answer) X) :
  asks always (sm c).
Proof. apply asks_translate, asks_embed, asks_any. intros q n. exact I. Qed.

Lemma auto_connect_always l : asks always (auto_connect l).
Proof. induction l as [|e l IH]; [exact I |]. apply asks_bind; [apply cm_always | intros _; exact IH]. Qed.

Lemma start_always : asks always (Node.body PStart).
Proof.
  apply asks_bind; [| intros; exact I]. apply asks_bind; [by intros ? | intros [|]; [| exact I]].
  apply asks_bind; [| intros; exact I]. apply asks_bind; [by intros ? | intros l; apply auto_connect_always].
Qed.

Lemma serve_always proto remote raw : asks always (Node.body (PHandler proto remote raw)).
Proof.
  apply asks_bind; [by intros ? | intros [[|name]|]; [| | exact I]].
  - apply asks_bind; [apply cm_always | intros _]. apply asks_bind; [apply sm_always | by intros [e|]].
  - apply asks_bind; [apply sm_always | by intros [e|]].
Qed.

(** A node that [New] has made reaches [node2]. *)
Lemma node2_running : ∃ gs, running 1000 {| shared := node2; gos := gs |}.
Proof.
  destruct (call_in_a_row Node.body Node.api Node.answers Node.env go_on PStart node0 (Node.body <$> new_goroutines) start_always I) as [gs1 H1].
  assert (final (run go_on (Node.body PStart) node0) = node1) as E1 by (cbn [Node.body]; unfold discard; by rewrite run_seq).
  rewrite E1 in H1.
  destruct (call_in_a_row Node.body Node.api Node.answers Node.env go_on (PHandler hs_id "QmB" 7) node1 gs1 (serve_always _ _ _) I) as [gs2 H2].
  exists gs2, (cfg 9), 0%nat, io_ok, no_files, None, (priv_heap 9), node0, (made_by_New 9).2. split; [exact node0_made |]. by etrans.
Qed.



Lemma node_invariant_witness : ∃ pc, conns (conn node2) !! 0%nat = Some pc ∧ Peer.PeerID pc = "QmB".
Proof. destruct node2_running as [gs Hr]. apply (proj1 (node_invariant 1000 _ Hr) "QmB" 0%nat). vm_compute. reflexivity. Defined.
End NodeWitness.
