(* ===== verification/Debug.v ===== *)
(** * Debug dumps ([debug.go])

    What the node tells about itself: the dumped records, the summaries of the
    address book, and what is known of a peer.  The JSON and the printed form
    of a dump are left out. *)

From Stdlib Require Import Ascii String.
From S2P Require Import Prelude Errors ConnState Config Validation Version Flow Dispatcher Interfaces Storage AddressBook Heap Crypto CryptoModule Peer Proc Compose Subscriptions Stats Streams StreamManager ConnManager Node.

(** ** What the standard library prints *)

(** [%x] of bytes: two digits each, lower case. *)
Definition hex_digit (d : Z) : ascii := ascii_of_nat (Z.to_nat (if (d <? 10)%Z then 48 + d else 87 + d)).
Definition hex (b : bytes) : string :=
  string_of_list_ascii (mjoin ((λ x, [hex_digit (x / 16); hex_digit (x mod 16)]) <$> b)).

(** [time.Duration.String]: the digits of a fraction without its trailing
    zeros, the unit of a duration below a second, and hours, minutes and
    seconds above. *)
Fixpoint fraction (digits : nat) (v : Z) : string :=
  match digits with
  | O => ""
  | S k => if (v =? 0)%Z then ""
           else let p := (10 ^ Z.of_nat k)%Z in pretty (v / p)%Z +:+ fraction k (v mod p)
  end.
Definition decimal (digits : nat) (v : Z) : string :=
  let p := (10 ^ Z.of_nat digits)%Z in
  pretty (v / p)%Z +:+ (if (v mod p =? 0)%Z then "" else "." +:+ fraction digits (v mod p)).

(** The micro sign, in UTF-8. *)
Definition micro : string := string_of_list_ascii [ascii_of_nat 194; ascii_of_nat 181].

Definition Duration_String (d : duration) : string :=
  let u := Z.abs d in
  let secs := (u / GoTime.Second)%Z in
  let body :=
    if (u =? 0)%Z then "0s"
    else if (u <? 1000)%Z then pretty u +:+ "ns"
    else if (u <? 1000000)%Z then decimal 3 u +:+ micro +:+ "s"
    else if (u <? GoTime.Second)%Z then decimal 6 u +:+ "ms"
    else
      let s := decimal 9 (secs mod 60 * GoTime.Second + u mod GoTime.Second)%Z +:+ "s" in
      let m := (secs / 60)%Z in
      if (m =? 0)%Z then s
      else let s := pretty (m mod 60)%Z +:+ "m" +:+ s in
           let h := (m / 60)%Z in
           if (h =? 0)%Z then s else pretty h +:+ "h" +:+ s in
  if (d <? 0)%Z then "-" +:+ body else body.

Example Duration_String_1 : Duration_String 90000000000 = "1m30s".
Proof. reflexivity. Qed.
Example Duration_String_2 : Duration_String 1500000 = "1.5ms".
Proof. reflexivity. Qed.
Example Duration_String_3 : Duration_String 3600050000000 = "1h0m0.05s".
Proof. reflexivity. Qed.

(** ** The dumped records *)

Record DebugAddressBook := { TotalPeers : Z; ActivePeers : Z; BlacklistedPeers : Z; PeerIDs : list string }.
Record DebugConfig := {
  d_HandshakeTimeout : string;
  d_MaxReconnectDelay : string;
  d_HighWatermark : Z;
  d_LowWatermark : Z;
  d_MaxMessageSize : Z;
}.
Record DebugFlowControl := { Stream : string; d_Pending : Z; d_IsBlocked : bool }.
Record DebugState := {
  d_PeerID : string;
  d_PublicKey : string;
  d_ListenAddrs : list string;
  d_Version : string;
  d_AddressBook : DebugAddressBook;
  d_Config : DebugConfig;
  PeersWithStats : Z;
  d_FlowControllers : list DebugFlowControl;
  CapturedAt : time;
}.

(** A value of a [map[string]any]. *)
Inductive any :=
| AString (s : string) | ABool (b : bool) | ATime (t : time) | AStrings (l : list string)
| AMetadata (m : gmap string string) | AInts (m : gmap string Z).

Section Debug.
Context `{Libp2p} `{CryptoLib} `{Unicode}.

Definition dumpAddressBook (n : Node) : DebugAddressBook :=
  let allPeers := (ListAllPeers (addressBook (conn n))).1 in
  let activePeers := ListPeers n in
  {| TotalPeers := Z.of_nat (length allPeers); ActivePeers := Z.of_nat (length activePeers);
     BlacklistedPeers := Z.of_nat (length allPeers) - Z.of_nat (length activePeers);
     PeerIDs := (λ p : PeerEntry, peer_String (Storage.PeerID p)) <$> activePeers |}.

Definition dumpConfig (n : Node) : DebugConfig :=
  {| d_HandshakeTimeout := Duration_String (Config.HandshakeTimeout (config n));
     d_MaxReconnectDelay := Duration_String (Config.ReconnectMaxDelay (config n));
     d_HighWatermark := Config.HighWatermark (config n); d_LowWatermark := Config.LowWatermark (config n);
     d_MaxMessageSize := Config.MaxMessageSize (config n) |}.

(** [self] and [addrs] are the host's identifier and addresses. *)
Definition DumpState (self : string) (addrs : list Multiaddr) (u : time) (n : Node) : DebugState :=
  {| d_PeerID := peer_String self; d_PublicKey := hex (ed25519Public (crypto (strm n)));
     d_ListenAddrs := ma_String <$> addrs; d_Version := Version_String (Version n);
     d_AddressBook := dumpAddressBook n; d_Config := dumpConfig n;
     PeersWithStats := Z.of_nat (size (peerStats n));
     d_FlowControllers := (λ x, {| Stream := x.1; d_Pending := Flow.Pending x.2; d_IsBlocked := Flow.IsBlocked x.2 |})
                            <$> map_to_list (flowControllers n);
     CapturedAt := u |}.

Definition ConnectionSummary (n : Node) : gmap string Z := {["known" := Z.of_nat (length (ListPeers n))]}.

Definition ListKnownPeers (n : Node) : list string := Storage.PeerID <$> ListPeers n.

Definition put_if {A} (b : bool) (k : string) (x : A) (m : gmap string A) : gmap string A := if b then <[k := x]> m else m.

Definition PeerInfo (p : string) (n : Node) : result error (gmap string any) :=
  match GetPeer p n with
  | Err e => Err e
  | Ok entry =>
      let info : gmap string any :=
        {[ "peer_id" := AString (peer_String (Storage.PeerID entry)); "blacklisted" := ABool (Blacklisted entry);
           "created_at" := ATime (CreatedAt entry); "updated_at" := ATime (UpdatedAt entry) ]} in
      let info := put_if (negb (GoTime.IsZero (LastSeen entry))) "last_seen" (ATime (LastSeen entry)) info in
      let info := put_if (0 <? length (Multiaddrs entry))%nat "addresses" (AStrings (ma_String <$> Multiaddrs entry)) info in
      let metadata := default ∅ (Metadata entry) in
      let info := put_if (0 <? size metadata)%nat "metadata" (AMetadata metadata) info in
      Ok match PeerStatistics p n with
         | None => info
         | Some stats => <["stats" := AInts {[ "messages_sent" := ps_MessagesSent stats; "messages_received" := ps_MessagesReceived stats;
                                               "bytes_sent" := ps_BytesSent stats; "bytes_received" := ps_BytesReceived stats ]}]> info
         end
  end.
End Debug.

(** ** What the dumps say *)

Lemma filter_partition {A} (P : A → Prop) `{!∀ x, Decision (P x)} (l : list A) :
  List.length l = List.length (filter P l) + List.length (filter (λ x, ¬ P x) l).
Proof.
  induction l as [|x l IH]; [done |]. rewrite !filter_cons. destruct (decide (P x)) as [Hp|Hp].
  - rewrite decide_False by auto. cbn. lia.
  - rewrite decide_True by done. cbn. lia.
Qed.

(** The counts of a dump add up, and count what they say: the active peers are
    the entries that are not blacklisted, each with its identifier in the list,
    none left out; and [ConnectionSummary] and [ListKnownPeers] agree with
    them. *)
Theorem dump_counts `{Libp2p} `{CryptoLib} `{Unicode} n :
  let d := dumpAddressBook n in
  let entries := (map_to_list (peers (book (addressBook (conn n))))).*2 in
  TotalPeers d = Z.of_nat (size (peers (book (addressBook (conn n)))))
  ∧ (TotalPeers d = ActivePeers d + BlacklistedPeers d)%Z
  ∧ BlacklistedPeers d = Z.of_nat (List.length (filter (λ e : PeerEntry, Blacklisted e ≠ false) entries))
  ∧ ActivePeers d = Z.of_nat (List.length (PeerIDs d))
  ∧ ConnectionSummary n !! "known"%string = Some (ActivePeers d)
  ∧ peer_String <$> ListKnownPeers n = PeerIDs d.
Proof.
  cbv zeta. unfold dumpAddressBook, ConnectionSummary, ListKnownPeers, Node.ListPeers, AddressBook.ListPeers, ListAllPeers.
  unfold st_gets, mbind, ST_bind, mret, ST_ret. cbn [fst TotalPeers ActivePeers BlacklistedPeers PeerIDs].
  set (l := (map_to_list _).*2). rewrite !length_fmap.
  pose proof (filter_partition (λ e : PeerEntry, Blacklisted e = false) l) as Hp.
  split_and!; [| lia | lia | done | by rewrite lookup_singleton_eq | ].
  - unfold l. by rewrite length_fmap, length_map_to_list.
  - by rewrite <- list_fmap_compose.
Qed.
