(* ===== verification/DebugText.v ===== *)
(** * The text of the debug dump and of the health check ([debug.go], [health.go])

    The JSON and the printed form of a [DebugState], and the bodies that the
    two HTTP handlers write.  [zone] is the offset, in minutes, that an instant
    is shown with. *)

From Stdlib Require Import Ascii String.
From S2P Require Import Prelude Errors ConnState Config Validation Json Rfc3339 Version Flow Dispatcher Interfaces Storage AddressBook Heap Crypto CryptoModule Peer Proc Compose Subscriptions Stats Streams StreamManager ConnManager Node Debug.
Local Open Scope string_scope.
Local Open Scope list_scope.
Local Open Scope Z_scope.

(** ** JSON *)

Definition jstrings (l : list string) : json := JArr (jstr <$> l).
Definition is_nil {A} (l : list A) : bool := (length l =? 0)%nat.

Definition flow_json (f : DebugFlowControl) : json :=
  JObj (field "stream" (jstr (Stream f)) ++ field "pending" (jint (d_Pending f)) ++ field "is_blocked" (JBool (d_IsBlocked f))).

Definition book_summary_json (b : DebugAddressBook) : json :=
  JObj (field "total_peers" (jint (TotalPeers b)) ++ field "active_peers" (jint (ActivePeers b))
    ++ field "blacklisted_peers" (jint (BlacklistedPeers b)) ++ omit (is_nil (PeerIDs b)) "peer_ids" (jstrings (PeerIDs b))).

Definition config_json (c : DebugConfig) : json :=
  JObj (field "handshake_timeout" (jstr (d_HandshakeTimeout c)) ++ field "max_reconnect_delay" (jstr (d_MaxReconnectDelay c))
    ++ field "high_watermark" (jint (d_HighWatermark c)) ++ field "low_watermark" (jint (d_LowWatermark c))
    ++ field "max_message_size" (jint (d_MaxMessageSize c))).

(** The addresses are appended to a nil slice, which is [null] when it stays
    empty. *)
Definition state_json (zone : time → Z) (s : DebugState) : option json :=
  captured_at ← jtime zone (CapturedAt s);
  Some (JObj (field "peer_id" (jstr (d_PeerID s)) ++ field "public_key" (jstr (d_PublicKey s))
    ++ field "listen_addrs" (if is_nil (d_ListenAddrs s) then JNull else jstrings (d_ListenAddrs s))
    ++ field "version" (jstr (d_Version s))
    ++ field "address_book" (book_summary_json (d_AddressBook s)) ++ field "config" (config_json (d_Config s))
    ++ field "peers_with_stats" (jint (PeersWithStats s))
    ++ omit (is_nil (d_FlowControllers s)) "flow_controllers" (JArr (flow_json <$> d_FlowControllers s))
    ++ field "captured_at" captured_at)).

(** [invalid] is the error of the JSON package. *)
Definition DumpStateJSON (zone : time → Z) (invalid : error) (s : DebugState) : result error (list Z) :=
  match state_json zone s with
  | None => Err (Errorf "failed to marshal state: %w" (Some invalid))
  | Some j => Ok (print indented 0 j)
  end.

(** ** The printed form *)

Definition line (s : string) : string := s +:+ String (ascii_of_nat 10) "".
Definition lines (l : list string) : string := foldr (λ s acc, line s +:+ acc) "" l.

Definition DumpStateString (zone : time → Z) (s : DebugState) : string :=
  lines (
    ["=== Glueberry Node Debug State ==="; "";
     "IDENTITY:"; "  Peer ID:    " +:+ d_PeerID s]
    ++ (if (16 <=? String.length (d_PublicKey s))%nat then ["  Public Key: " +:+ substring 0 16 (d_PublicKey s) +:+ "..."] else [])
    ++ ["  Version:    " +:+ d_Version s; "";
        "LISTEN ADDRESSES:"]
    ++ (if is_nil (d_ListenAddrs s) then ["  (none)"] else (λ a, "  - " +:+ a) <$> d_ListenAddrs s)
    ++ ["";
        "ADDRESS BOOK:";
        "  Total:       " +:+ pretty (TotalPeers (d_AddressBook s)) +:+ " peers";
        "  Active:      " +:+ pretty (ActivePeers (d_AddressBook s)) +:+ " peers";
        "  Blacklisted: " +:+ pretty (BlacklistedPeers (d_AddressBook s)) +:+ " peers";
        "";
        "CONFIGURATION:";
        "  Handshake Timeout:  " +:+ d_HandshakeTimeout (d_Config s);
        "  Max Reconnect:      " +:+ d_MaxReconnectDelay (d_Config s);
        "  High Watermark:     " +:+ pretty (d_HighWatermark (d_Config s));
        "  Low Watermark:      " +:+ pretty (d_LowWatermark (d_Config s));
        "  Max Message Size:   " +:+ pretty (d_MaxMessageSize (d_Config s)) +:+ " bytes";
        "";
        "STATISTICS:";
        "  Peers tracked: " +:+ pretty (PeersWithStats s)]
    ++ (if is_nil (d_FlowControllers s) then []
        else "  Flow controllers:"
             :: ((λ f, "    " +:+ Stream f +:+ ": " +:+ pretty (d_Pending f) +:+ " pending" +:+ (if d_IsBlocked f then " (BLOCKED)" else ""))
                   <$> d_FlowControllers s))
    ++ [""; "Captured at: " +:+ string_of (RFC3339 (zone (CapturedAt s)) (CapturedAt s));
        "================================="]).

(** ** The bodies of the HTTP handlers *)

Definition check_json (c : CheckResult) : json :=
  JObj (field "name" (jstr (Node.Name c)) ++ field "healthy" (JBool (Node.Healthy c))
    ++ omit (String.eqb (Node.Message c) "") "message" (jstr (Node.Message c))
    ++ omit (Node.Duration c =? 0) "duration_ns" (jint (Node.Duration c))).

Definition health_json (zone : time → Z) (h : HealthStatus) : option json :=
  timestamp ← jtime zone (hs_Timestamp h);
  Some (JObj (field "healthy" (JBool (hs_Healthy h)) ++ field "checks" (JArr (check_json <$> Checks h)) ++ field "timestamp" timestamp)).

(** [json.NewEncoder(w).Encode]: the compact form and a line end; nothing when
    it fails. *)
Definition HealthBody (zone : time → Z) (h : HealthStatus) : list Z :=
  match health_json zone h with Some j => print compact 0 j ++ [10] | None => [] end.
Definition LivenessBody (healthy : bool) : list Z := print compact 0 (JObj (field "healthy" (JBool healthy))).

Example liveness_up : LivenessBody true = [123; 34; 104; 101; 97; 108; 116; 104; 121; 34; 58; 116; 114; 117; 101; 125].
Proof. reflexivity. Qed.

(** ** What is read of them *)

(** The counters are [int]s. *)
Definition counts_ok (s : DebugState) : Prop :=
  Forall in_int64 [TotalPeers (d_AddressBook s); ActivePeers (d_AddressBook s); BlacklistedPeers (d_AddressBook s);
                   d_HighWatermark (d_Config s); d_LowWatermark (d_Config s); d_MaxMessageSize (d_Config s); PeersWithStats s]
  ∧ Forall (λ f, in_int64 (d_Pending f)) (d_FlowControllers s).

Lemma jstrings_ok l : well_formed (jstrings l).
Proof. apply array_well_formed. auto with json. Qed.
#[export] Hint Resolve jstrings_ok : json.

Lemma state_json_ok zone s j : counts_ok s → state_json zone s = Some j → well_formed j.
Proof.
  intros [Hc Hf]. unfold state_json. destruct (jtime _ _) as [t|] eqn:Et; [| done]. intros [= <-].
  apply jtime_well_formed in Et. repeat (apply Forall_cons in Hc as [?%id Hc]).
  assert (well_formed (book_summary_json (d_AddressBook s))) by (apply members_app; auto 10 with json).
  assert (well_formed (config_json (d_Config s))) by (apply members_app; auto 10 with json).
  assert (well_formed (JArr (flow_json <$> d_FlowControllers s))).
  { apply array_well_formed. intros f Hin. rewrite Forall_forall in Hf. apply Hf in Hin. apply members_app; auto 10 with json. }
  assert (well_formed (if is_nil (d_ListenAddrs s) then JNull else jstrings (d_ListenAddrs s))) by (case_match; [done | auto with json]).
  change (members_ok (field "peer_id" (jstr (d_PeerID s)) ++ field "public_key" (jstr (d_PublicKey s))
    ++ field "listen_addrs" (if is_nil (d_ListenAddrs s) then JNull else jstrings (d_ListenAddrs s))
    ++ field "version" (jstr (d_Version s))
    ++ field "address_book" (book_summary_json (d_AddressBook s)) ++ field "config" (config_json (d_Config s))
    ++ field "peers_with_stats" (jint (PeersWithStats s))
    ++ omit (is_nil (d_FlowControllers s)) "flow_controllers" (JArr (flow_json <$> d_FlowControllers s))
    ++ field "captured_at" t)).
  auto 20 with json.
Qed.

(** The dump is JSON, whatever the peers and streams are called, and says what
    the state says: it reads back as the state's members. *)
Lemma dump_reads_back zone invalid s :
  counts_ok s → json_range (zone (CapturedAt s)) (CapturedAt s) = true →
  ∃ text j, DumpStateJSON zone invalid s = Ok text ∧ state_json zone s = Some j ∧ parse text = Some (sanitize j).
Proof.
  intros Hc Hr. unfold DumpStateJSON. destruct (state_json zone s) as [j|] eqn:Ej.
  - do 2 eexists. split_and!; [done | done |]. apply (parse_print indented indented_ok). by eapply state_json_ok.
  - unfold state_json, jtime in Ej. by rewrite Hr in Ej.
Qed.

(** The response of the health check is a document whose first member is the
    node's health, with the status code that goes with it. *)
Lemma health_reads_back `{Libp2p} `{CryptoLib} `{Unicode} zone u took connCount (n : Node) :
  json_range (zone u) u = true → (∀ i, in_int64 (took i)) →
  let (code, status) := HealthHandler u took connCount n in
  ∃ rest, parse (HealthBody zone status) = Some (JObj (field "healthy" (JBool (started n)) ++ rest))
          ∧ code = (if started n then 200 else 503).
Proof.
  intros Hr Ht. unfold HealthHandler, HealthBody, health_json, jtime. cbn [hs_Healthy hs_Timestamp Checks ReadinessChecks].
  rewrite Hr. cbn [mbind option_bind]. set (checks := JArr _). set (stamp := JStr _).
  assert (well_formed checks) as Hck.
  { apply array_well_formed. intros c Hc. apply members_app; [auto with json |]. apply members_app; [auto with json |].
    apply members_app; [auto with json |]. apply omit_ok, jint_well_formed. unfold ReadinessChecks in Hc. cbn [Checks] in Hc.
    repeat (apply elem_of_cons in Hc as [->|Hc]; [apply Ht |]). by apply elem_of_nil in Hc. }
  assert (well_formed stamp) as Hst.
  { apply (jtime_well_formed zone u). unfold jtime. by rewrite Hr. }
  assert (members_ok (field "healthy" (JBool (started n)) ++ field "checks" checks ++ field "timestamp" stamp)) as Hm by (auto 10 with json).
  eexists. split; [| done]. by rewrite (parse_print_space compact compact_ok 0 _ [10] Hm eq_refl).
Qed.
