(* ===== verification/FileTransfer.v ===== *)
(** * The file transfer example ([examples/file-transfer/main.go])

    Sending a file in chunks over a stream of a node, and receiving files from
    any number of peers at once.  What is printed is left out.  The file that
    is read, the answers of the node and the memory that can be had are
    arguments; a panic is [None]. *)

From S2P Require Import Prelude Errors Validation Json Sha2.
Local Open Scope Z_scope.

Definition msgFileStart : Z := 10.
Definition msgFileChunk : Z := 11.
Definition msgFileEnd : Z := 12.
Definition msgFileAck : Z := 13.
Definition streamFile : string := "file-transfer".
Definition chunkSize : Z := 64 * 1024.

(** ** Paths ([path/filepath] on Unix), as bytes *)

Module Path.
Definition slash : Z := 47.
Definition dot : list Z := [46].
Definition dotdot : list Z := [46; 46].

(** The elements between slashes. *)
Fixpoint split (l : list Z) : list (list Z) :=
  match l with
  | [] => [[]]
  | c :: l => if c =? slash then [] :: split l else match split l with e :: es => (c :: e) :: es | [] => [[c]] end
  end.
Fixpoint join (es : list (list Z)) : list Z :=
  match es with [] => [] | [e] => e | e :: es => e ++ slash :: join es end.

Definition rooted (l : list Z) : bool := match l with c :: _ => c =? slash | [] => false end.

(** The elements seen so far, last first; [..] drops one, stays at the root,
    and is kept where there is nothing to drop. *)
Definition push (root : bool) (done : list (list Z)) (e : list Z) : list (list Z) :=
  if bool_decide (e = [] ∨ e = dot) then done
  else if bool_decide (e = dotdot) then
    match done with
    | [] => if root then [] else [dotdot]
    | d :: done' => if bool_decide (d = dotdot) then dotdot :: done else done'
    end
  else e :: done.
Definition Clean (l : list Z) : list Z :=
  let root := rooted l in
  let es := reverse (foldl (push root) [] (split l)) in
  if root then slash :: join es else match es with [] => dot | _ => join es end.
(** [filepath.Join] of two elements. *)
Definition Join (a b : list Z) : list Z :=
  match a, b with
  | [], [] => []
  | [], b => Clean b
  | a, b => Clean (a ++ slash :: b)
  end.

(** The name of a file in a directory. *)
Definition plain (e : list Z) : Prop := e ≠ [] ∧ e ≠ dot ∧ e ≠ dotdot ∧ slash ∉ e.

Lemma split_plain e : slash ∉ e → split e = [e].
Proof.
  induction e as [|c e IH]; [done |]. intros [Hc He]%not_elem_of_cons. cbn [split].
  rewrite (proj2 (Z.eqb_neq c slash)) by congruence. by rewrite IH.
Qed.
Lemma split_ne l : split l ≠ [].
Proof. destruct l as [|c l]; cbn; [done |]. by repeat case_match. Qed.
Lemma split_app l e : split (l ++ slash :: e) = split l ++ split e.
Proof.
  induction l as [|c l IH]; [done |]. cbn [split app]. rewrite IH. destruct (c =? slash); [done |].
  destruct (split l) eqn:E; [by apply split_ne in E | done].
Qed.

(** Joining a directory and the name of a file gives a path in the directory:
    one element more than the directory has. *)
Definition elements (l : list Z) : list (list Z) := reverse (foldl (push (rooted l)) [] (split l)).
Lemma Join_plain dir e : dir ≠ [] → plain e →
  elements (dir ++ slash :: e) = elements dir ++ [e]
  ∧ Join dir e = (if rooted dir then [slash] else []) ++ join (elements dir ++ [e]).
Proof.
  intros Hd (H1 & H2 & H3 & H4). assert (rooted (dir ++ slash :: e) = rooted dir) as Hr by (by destruct dir).
  assert (elements (dir ++ slash :: e) = elements dir ++ [e]) as He.
  { unfold elements. rewrite Hr, split_app, (split_plain e), foldl_app by done. cbn [foldl]. unfold push at 1.
    rewrite !bool_decide_eq_false_2 by naive_solver. by rewrite reverse_cons. }
  split; [done |]. destruct dir as [|c dir]; [done |]. unfold Join, Clean. fold (elements ((c :: dir) ++ slash :: e)).
  rewrite He, Hr. destruct (rooted (c :: dir)); [done |]. by destruct (elements (c :: dir)).
Qed.
End Path.

(** ** Sending *)

Definition start_message (filename : list Z) (fileSize : Z) : list Z :=
  msgFileStart :: Z.of_nat (length filename) mod 256 :: filename ++ be_bytes 8 fileSize.
Definition chunk_message (chunkIndex : Z) (data : list Z) : list Z := msgFileChunk :: be_bytes 4 chunkIndex ++ data.
Definition end_message (checksum : list Z) : list Z := msgFileEnd :: checksum.
Definition ack_message (chunkIndex : Z) : list Z := msgFileAck :: be_bytes 4 chunkIndex.

(** What the file system says of a file: what a series of reads gives, and the
    error it ends with, [None] at the end of the file. *)
Record source := {
  open_err : option error;
  stat : result error (list Z * Z);
  reads : list (list Z);
  read_err : option error;
}.

Section Send.
Context (send : nat → option error).   (** the answers of [node.Send] *)

(** The messages given to [node.Send], and the error. *)
Fixpoint send_chunks (reads : list (list Z)) (last : option error) (hashed : list Z) (chunkIndex : nat) : option error * list (list Z) :=
  match reads with
  | [] =>
      match last with
      | Some e => (Some (Errorf "failed to read file: %w" (Some e)), [])
      | None =>
          let msg := end_message (sha256_Sum256 hashed) in
          match send (S chunkIndex) with
          | Some e => (Some (Errorf "failed to send file end: %w" (Some e)), [msg])
          | None => (None, [msg])
          end
      end
  | data :: reads =>
      let msg := chunk_message (Z.of_nat chunkIndex) data in
      match send (S chunkIndex) with
      | Some e => (Some (Errorf "failed to send chunk %d: %w" (Some e)), [msg])
      | None => let (err, msgs) := send_chunks reads last (hashed ++ data) (S chunkIndex) in (err, msg :: msgs)
      end
  end.

Definition sendFileTransfer (f : source) : option error * list (list Z) :=
  match open_err f with
  | Some e => (Some (Errorf "failed to open file: %w" (Some e)), [])
  | None =>
      match stat f with
      | Err e => (Some (Errorf "failed to stat file: %w" (Some e)), [])
      | Ok (filename, fileSize) =>
          let msg := start_message filename fileSize in
          match send 0%nat with
          | Some e => (Some (Errorf "failed to send file start: %w" (Some e)), [msg])
          | None => let (err, msgs) := send_chunks (reads f) (read_err f) [] 0 in (err, msg :: msgs)
          end
      end
  end.
End Send.

(** ** Receiving *)

Record FileTransfer := {
  Filename : list Z;
  TotalSize : Z;
  ChunksTotal : Z;
  ChunksRecv : Z;
  Data : list Z;
  Checksum : list Z;
}.

(** What handling a message does outside: it sends an acknowledgement, whose
    failure is ignored, and writes a file, whose failure is printed. *)
Inductive effect := SendAck (msg : list Z) | WriteFile (path data : list Z).

Section Receive.
(** [make([]byte, 0, n)] finds the memory. *)
Context (mem : Z → bool) (outputDir : list Z).

Definition handle_start (p : string) (data : list Z) (transfers : gmap string FileTransfer) : option (gmap string FileTransfer * list effect) :=
  if (length data <? 3)%nat then Some (transfers, [])
  else
    let filenameLen := Z.to_nat (nth 1 data 0) in
    if (length data <? 2 + filenameLen + 8)%nat then Some (transfers, [])
    else
      let filename := take filenameLen (drop 2 data) in
      let fileSize := GoInt.wrap64 (be_value (take 8 (drop (2 + filenameLen) data))) in
      let chunksTotal := Z.quot (GoInt.wrap64 (fileSize + chunkSize - 1)) chunkSize in
      if mem fileSize then
        Some (<[p := {| Filename := filename; TotalSize := fileSize; ChunksTotal := chunksTotal; ChunksRecv := 0; Data := []; Checksum := [] |}]> transfers, [])
      else None.

Definition handle_chunk (p : string) (data : list Z) (transfers : gmap string FileTransfer) : gmap string FileTransfer * list effect :=
  if (length data <? 5)%nat then (transfers, [])
  else
    let chunkIndex := be_value (take 4 (drop 1 data)) in
    let chunkData := drop 5 data in
    match transfers !! p with
    | None => (transfers, [])
    | Some t =>
        (<[p := {| Filename := Filename t; TotalSize := TotalSize t; ChunksTotal := ChunksTotal t; ChunksRecv := GoInt.wrap64 (ChunksRecv t + 1);
                   Data := Data t ++ chunkData; Checksum := Checksum t |}]> transfers,
         [SendAck (ack_message chunkIndex)])
    end.

Definition handle_end (p : string) (data : list Z) (transfers : gmap string FileTransfer) : gmap string FileTransfer * list effect :=
  if (length data <? 33)%nat then (transfers, [])
  else
    let receivedChecksum := take 32 (drop 1 data) in
    match transfers !! p with
    | None => (transfers, [])
    | Some t =>
        (delete p transfers,
         if decide (receivedChecksum = sha256_Sum256 (Data t))
         then [WriteFile (Path.Join outputDir (Filename t)) (Data t)] else [])
    end.

Definition handleFileTransferMessage (p : string) (data : list Z) (transfers : gmap string FileTransfer) : option (gmap string FileTransfer * list effect) :=
  match data with
  | [] => None
  | t :: _ =>
      if t =? msgFileStart then handle_start p data transfers
      else if t =? msgFileChunk then Some (handle_chunk p data transfers)
      else if t =? msgFileEnd then Some (handle_end p data transfers)
      else Some (transfers, [])
  end.

(** The loop over the node's messages, as far as the files go; each effect is
    noted with the peer whose message had it. *)
Definition on_message (p name : string) (data : list Z) (transfers : gmap string FileTransfer) : option (gmap string FileTransfer * list effect) :=
  if bool_decide (name = streamFile) && negb (length data =? 0)%nat
  then handleFileTransferMessage p data transfers else Some (transfers, []).

Fixpoint receive (arrivals : list (string * list Z)) (transfers : gmap string FileTransfer) : option (gmap string FileTransfer * list (string * effect)) :=
  match arrivals with
  | [] => Some (transfers, [])
  | (p, data) :: arrivals =>
      '(transfers, done) ← on_message p streamFile data transfers;
      '(transfers, effects) ← receive arrivals transfers;
      Some (transfers, (pair p <$> done) ++ effects)
  end.
End Receive.

(** ** One peer's messages do not touch another's transfer *)

Section Isolation.
Context (mem : Z → bool) (outputDir : list Z).
Notation handles := (on_message mem outputDir).
Notation receives := (receive mem outputDir).

(** Handling a message reads and changes the sender's transfer only. *)
Lemma on_message_local p name data ts :
  match handles p name data ts with
  | None => ∀ ts2, ts2 !! p = ts !! p → handles p name data ts2 = None
  | Some (ts', effects) =>
      (∀ q, q ≠ p → ts' !! q = ts !! q)
      ∧ ∀ ts2, ts2 !! p = ts !! p → ∃ ts2', handles p name data ts2 = Some (ts2', effects) ∧ ts2' !! p = ts' !! p
  end.
Proof.
  unfold on_message, handleFileTransferMessage, handle_start, handle_chunk, handle_end. destruct data as [|c data].
  - rewrite andb_false_r. split; [done |]. intros ts2 E. by exists ts2.
  - repeat (case_match; simplify_eq/=); try done; (split; [intros q Hq; by rewrite ?lookup_insert_ne, ?lookup_delete_ne by congruence |]);
      intros ts2 E; rewrite ?E; repeat (case_match; simplify_eq/=); eexists; split; try reflexivity;
      by rewrite ?lookup_insert_eq, ?lookup_delete_eq, ?E.
Qed.

Lemma filter_tagged (p q : string) (l : list effect) :
  filter (λ x : string * effect, x.1 = p) (pair q <$> l) = if decide (q = p) then pair q <$> l else [].
Proof.
  induction l as [|e l IH]; [by case_decide |]. rewrite fmap_cons, filter_cons, IH. cbn [fst]. by repeat case_decide.
Qed.

(** What a series of messages does for a peer is what the peer's own messages
    do. *)
Lemma receive_alone p arrivals ts ts' effects ts2 :
  receives arrivals ts = Some (ts', effects) → ts2 !! p = ts !! p →
  ∃ ts2', receives (filter (λ x, x.1 = p) arrivals) ts2 = Some (ts2', filter (λ x, x.1 = p) effects) ∧ ts2' !! p = ts' !! p.
Proof.
  revert ts effects ts2. induction arrivals as [|[q data] arrivals IH]; intros ts effects ts2 Hr Hp; cbn in Hr.
  { simplify_eq. by exists ts2. }
  pose proof (on_message_local q streamFile data ts) as Hl.
  destruct (handles q streamFile data ts) as [[ts1 acts]|] eqn:E1; [| done]. cbn in Hr.
  destruct (receives arrivals ts1) as [[ts3 rest]|] eqn:E2; [| done]. cbn in Hr. simplify_eq. destruct Hl as [Hother Hsame].
  rewrite filter_app, filter_cons. cbn [fst]. case_decide as Hq.
  - subst q. destruct (Hsame ts2 Hp) as (ts2' & E3 & Hp'). destruct (IH ts1 rest ts2' E2 Hp') as (ts4 & E4 & Hp4).
    exists ts4. split; [| done]. cbn. rewrite E3. cbn. rewrite E4. cbn. do 2 f_equal.
    by rewrite filter_tagged, decide_True.
  - destruct (IH ts1 rest ts2 E2) as (ts4 & E4 & Hp4); [rewrite Hother by congruence; done |]. exists ts4. split; [| done].
    rewrite E4. do 2 f_equal. by rewrite filter_tagged, decide_False.
Qed.

(** ** Only an announced size that finds no memory panics *)

(** The size in a message that starts a transfer. *)
Definition announced (data : list Z) : option Z :=
  match data with
  | t :: n :: _ =>
      if (t =? msgFileStart) && negb (length data <? 3)%nat && negb (length data <? 2 + Z.to_nat n + 8)%nat
      then Some (GoInt.wrap64 (be_value (take 8 (drop (2 + Z.to_nat n) data)))) else None
  | _ => None
  end.
Definition fits (data : list Z) : Prop := ∀ n, announced data = Some n → mem n = true.

Lemma on_message_fits p name data ts : fits data → is_Some (handles p name data ts).
Proof.
  unfold fits, on_message, handleFileTransferMessage, handle_start, announced. intros Hf.
  destruct data as [|t data]; [by rewrite andb_false_r |].
  destruct (bool_decide (name = streamFile)); [| done]. cbn [andb]. change (negb (length (t :: data) =? 0)%nat) with true. cbv iota.
  destruct (t =? msgFileStart); [| by repeat case_match].
  destruct data as [|n data]; [done |]. cbn [nth]. set (whole := t :: n :: data) in *. clearbody whole.
  destruct (length whole <? 3)%nat; [done |]. destruct (length whole <? 2 + Z.to_nat n + 8)%nat; [done |].
  by rewrite (Hf _ eq_refl).
Qed.

Lemma receive_fits arrivals ts : Forall (λ x, fits x.2) arrivals → is_Some (receives arrivals ts).
Proof.
  intros Hf. revert ts. induction Hf as [|[p data] arrivals Hx _ IH]; intros ts; [done |]. cbn.
  destruct (on_message_fits p streamFile data ts Hx) as [[ts1 acts] ->]. cbn. destruct (IH ts1) as [[ts2 rest] ->]. done.
Qed.

(** ** What is written was announced *)

(** A file is written only at the end of a transfer, under the name given at
    its start and with the bytes that came since, and only when they have the
    announced hash. *)
Lemma write_checked p name data ts ts' effects path content :
  handles p name data ts = Some (ts', effects) → WriteFile path content ∈ effects →
  ∃ t, ts !! p = Some t ∧ ts' = delete p ts ∧ path = Path.Join outputDir (Filename t) ∧ content = Data t
       ∧ take 32 (drop 1 data) = sha256_Sum256 content.
Proof.
  unfold on_message, handleFileTransferMessage, handle_start, handle_chunk, handle_end. intros Hm Hw.
  repeat (case_match; simplify_eq/=); try (by apply not_elem_of_nil in Hw); apply list_elem_of_singleton in Hw; simplify_eq; eauto 10.
Qed.
End Isolation.

(** ** A file arrives *)

Section Arrival.
Context (mem : Z → bool) (outputDir : list Z).
Notation receives := (receive mem outputDir).
Notation ok := (λ _ : nat, @None error).

Lemma receive_one p data rest ts :
  receives ((p, data) :: rest) ts
  = '(ts, acts) ← on_message mem outputDir p streamFile data ts; '(ts, effects) ← receives rest ts; Some (ts, (pair p <$> acts) ++ effects).
Proof. done. Qed.

Lemma on_start p name size ts :
  (length name <= 255)%nat → 0 <= size < 2 ^ 63 → mem size = true →
  ∃ t, on_message mem outputDir p streamFile (start_message name size) ts = Some (<[p := t]> ts, [])
       ∧ Filename t = name ∧ Data t = [].
Proof.
  intros Hn Hs Hm. unfold on_message, start_message, handleFileTransferMessage. cbn [length].
  rewrite bool_decide_eq_true_2 by done. cbn [andb negb Nat.eqb]. change (msgFileStart =? msgFileStart) with true. cbv iota.
  unfold handle_start. cbn [length nth drop]. rewrite length_app, be_bytes_length.
  rewrite Z.mod_small by lia. rewrite Nat2Z.id.
  rewrite (proj2 (Nat.ltb_ge _ _)) by lia. rewrite (proj2 (Nat.ltb_ge _ _)) by lia.
  change (2 + length name)%nat with (S (S (length name))). cbn [drop]. rewrite ?drop_0. rewrite take_app_length, drop_app_length.
  rewrite firstn_all2 by (rewrite be_bytes_length; lia). rewrite be_value_bytes by lia.
  rewrite GoInt.wrap64_id by (unfold GoInt.in_int64, GoInt.minInt64, GoInt.maxInt64; lia). rewrite Hm. by eexists.
Qed.

Lemma on_chunk p i data ts t :
  ts !! p = Some t →
  ∃ t', on_message mem outputDir p streamFile (chunk_message i data) ts = Some (<[p := t']> ts, [SendAck (ack_message i)])
        ∧ Filename t' = Filename t ∧ Data t' = Data t ++ data.
Proof.
  intros Ht. unfold on_message, chunk_message, handleFileTransferMessage. cbn [length].
  rewrite bool_decide_eq_true_2 by done. cbn [andb negb Nat.eqb].
  change (msgFileChunk =? msgFileStart) with false. change (msgFileChunk =? msgFileChunk) with true. cbv iota.
  unfold handle_chunk. cbn [length]. rewrite length_app, be_bytes_length. rewrite (proj2 (Nat.ltb_ge _ _)) by lia. rewrite Ht.
  change 5%nat with (S 4). cbn [drop]. rewrite ?drop_0.
  rewrite (take_app_length' _ _ 4), (drop_app_length' _ _ 4) by (by rewrite be_bytes_length).
  unfold ack_message. rewrite be_bytes_value. by eexists.
Qed.

Lemma on_end p ts t :
  ts !! p = Some t →
  on_message mem outputDir p streamFile (end_message (sha256_Sum256 (Data t))) ts
  = Some (delete p ts, [WriteFile (Path.Join outputDir (Filename t)) (Data t)]).
Proof.
  intros Ht. unfold on_message, end_message, handleFileTransferMessage. cbn [length]. rewrite bool_decide_eq_true_2 by done.
  cbn [andb negb Nat.eqb]. change (msgFileEnd =? msgFileStart) with false. change (msgFileEnd =? msgFileChunk) with false.
  change (msgFileEnd =? msgFileEnd) with true. cbv iota. unfold handle_end. cbn [length].
  rewrite (proj2 (Nat.ltb_ge _ _)) by (rewrite sha256_length; lia). rewrite Ht.
  change 1%nat with (S 0). cbn [drop]. rewrite ?drop_0. rewrite firstn_all2 by (rewrite sha256_length; lia). by rewrite decide_True.
Qed.

Lemma snd_pairs {A} (p : string) (l : list A) : (pair p <$> l).*2 = l.
Proof. induction l as [|x l IH]; [done |]. cbn. by rewrite IH. Qed.

(** The chunks and the end of a transfer, one after the other. *)
Lemma receive_chunks p reads i ts t :
  ts !! p = Some t →
  let '(err, msgs) := send_chunks ok reads None (Data t) i in
  err = None ∧ ∃ ts', receives (pair p <$> msgs) ts
    = Some (ts', pair p <$> ((λ i, SendAck (ack_message (Z.of_nat i))) <$> seq i (length reads))
                            ++ [WriteFile (Path.Join outputDir (Filename t)) (Data t ++ concat reads)])
    ∧ ts' !! p = None.
Proof.
  revert i ts t. induction reads as [|data reads IH]; intros i ts t Ht; cbn [send_chunks].
  - split; [done |]. exists (delete p ts). cbn [fmap list_fmap]. rewrite receive_one, on_end by done. cbn.
    rewrite app_nil_r. split; [done | apply lookup_delete_eq].
  - destruct (on_chunk p (Z.of_nat i) data ts t Ht) as (t' & E & Hf & Hd).
    specialize (IH (S i) (<[p := t']> ts) t' (lookup_insert_eq _ _ _)). rewrite Hd in IH.
    destruct (send_chunks ok reads None (Data t ++ data) (S i)) as [err msgs]. destruct IH as (He & ts' & E2 & Hts).
    split; [done |]. exists ts'. split; [| done]. rewrite fmap_cons, receive_one, E. cbn [mbind option_bind]. rewrite E2.
    cbn [mbind option_bind length seq concat]. by rewrite Hf, <- app_assoc.
Qed.

End Arrival.

(** ** Where it goes wrong *)

(** A size that is negative finds no memory: one message ends the program of
    whoever receives it. *)
Lemma hostile_size_panics mem out p name size ts :
  (∀ n, n < 0 → mem n = false) → (length name <= 255)%nat → - 2 ^ 63 <= size < 0 →
  on_message mem out p streamFile (start_message name size) ts = None.
Proof.
  intros Hm Hn Hs. unfold on_message, start_message, handleFileTransferMessage. cbn [length].
  rewrite bool_decide_eq_true_2 by done. cbn [andb negb Nat.eqb]. change (msgFileStart =? msgFileStart) with true. cbv iota.
  unfold handle_start. cbn [length nth drop]. rewrite length_app, be_bytes_length, Z.mod_small, Nat2Z.id by lia.
  rewrite (proj2 (Nat.ltb_ge _ _)), (proj2 (Nat.ltb_ge _ _)) by lia.
  change (2 + length name)%nat with (S (S (length name))). cbn [drop]. rewrite drop_app_length.
  rewrite firstn_all2 by (rewrite be_bytes_length; lia).
  assert (be_value (be_bytes 8 size) = size + 2 ^ 64) as ->.
  { rewrite be_value_mod. replace (256 ^ Z.of_nat 8) with (2 ^ 64) by done.
    rewrite <- (Z.mod_add size 1) by lia. rewrite Z.mod_small; lia. }
  rewrite Hm; [done |]. unfold GoInt.wrap64.
  replace (size + 2 ^ 64 + 2 ^ 63) with (size + 2 ^ 63 + 1 * 2 ^ 64) by lia. rewrite Z.mod_add, Z.mod_small by lia. lia.
Qed.

(** The name is taken as it comes: it can lead out of the directory. *)
Example name_leaves_directory : Path.Join (bytes_of "/srv/in") (bytes_of "../../etc/cron.d/x") = bytes_of "/etc/cron.d/x".
Proof. reflexivity. Qed.

(** Two files sent to one peer at once are mixed, and neither is written. *)
Example mixed_transfers :
  let msgs (name data : string) := (sendFileTransfer (λ _, None)
    {| open_err := None; stat := Ok (bytes_of name, 2); reads := [bytes_of data]; read_err := None |}).2 in
  let both := concat (zip_with (λ x y, [x; y]) (msgs "a" "AA") (msgs "b" "BB")) in
  (λ r, r.2) <$> receive (λ n, 0 <=? n) [] (pair "QmA"%string <$> both) ∅
  = Some [("QmA"%string, SendAck (ack_message 0)); ("QmA"%string, SendAck (ack_message 0))].
Proof. vm_compute. reflexivity. Qed.

(** ** Witness *)

Definition small_file : source :=
  {| open_err := None; stat := Ok (bytes_of "x.txt", 4); reads := [bytes_of "ab"; bytes_of "cd"]; read_err := None |}.
Definition two_peers : list (string * list Z) :=
  concat (zip_with (λ x y, [("QmA"%string, x); ("QmB"%string, y)]) (sendFileTransfer (λ _, None) small_file).2
    [start_message (bytes_of "y") 9; chunk_message 7 [1]; [255]; end_message []]).

