(* ===== verification/Exchange.v ===== *)
(** * Two parties that exchange messages

    Two programs that answer each other's messages over their handshake
    stream, and the handshake that the library documents ([doc.go]) between
    two applications.  A message in flight may arrive at any time, in any
    order; none is lost. *)

From S2P Require Import Prelude.

(** ** The exchange

    A party handles a message with an answer of messages and of actions on its
    node, and does things of its own accord. *)

Inductive side := A | B.
Definition other (x : side) : side := match x with A => B | B => A end.
Global Instance side_eq_dec : EqDecision side.
Proof. solve_decision. Defined.
Lemma other_other x : other (other x) = x.
Proof. by destruct x. Qed.
Lemma other_ne x : other x ≠ x.
Proof. by destruct x. Qed.

Record answer (S M D : Type) := { next : S; sends : list M; does : list D }.
Arguments next {S M D}. Arguments sends {S M D}. Arguments does {S M D}.
Arguments Build_answer {S M D}.

(** What handles messages, and what is done without one; [None] when it is not
    enabled. *)
Record party (S M D : Type) := { hear : M → S → answer S M D; moves : list (S → option (answer S M D)) }.
Arguments hear {S M D}. Arguments moves {S M D}.

Section Exchange.
Context {S M D : Type} (parties : side → party S M D).

(** The messages on their way to a side, and all it did so far. *)
Record exchange := { state_of : side → S; to_ : side → list M; did : side → list D }.

Definition upd {T} (x : side) (v : T) (f : side → T) : side → T := λ y, if decide (y = x) then v else f y.
Definition answered (x : side) (inbox : list M) (a : answer S M D) (e : exchange) : exchange :=
  {| state_of := upd x (next a) (state_of e);
     to_ := upd (other x) (to_ e (other x) ++ sends a) (upd x inbox (to_ e));
     did := upd x (did e x ++ does a) (did e) |}.

Inductive exchange_step : exchange → exchange → Prop :=
| step_hear x l1 m l2 e : to_ e x = l1 ++ m :: l2 →
    exchange_step e (answered x (l1 ++ l2) (hear (parties x) m (state_of e x)) e)
| step_move x f a e : f ∈ moves (parties x) → f (state_of e x) = Some a →
    exchange_step e (answered x (to_ e x) a e).

Lemma upd_eq {T} x (v : T) f : upd x v f x = v.
Proof. unfold upd. by rewrite decide_True. Qed.
Lemma upd_ne {T} x y (v : T) f : y ≠ x → upd x v f y = f y.
Proof. intros Hy. unfold upd. by rewrite decide_False. Qed.

(** What a step leaves on each side. *)
Lemma answered_self x inbox a e :
  state_of (answered x inbox a e) x = next a ∧ to_ (answered x inbox a e) x = inbox ∧ did (answered x inbox a e) x = did e x ++ does a.
Proof. unfold answered. cbn. rewrite !upd_eq, upd_ne by (intros E; by destruct x). by rewrite upd_eq. Qed.
Lemma answered_other x inbox a e :
  state_of (answered x inbox a e) (other x) = state_of e (other x)
  ∧ to_ (answered x inbox a e) (other x) = to_ e (other x) ++ sends a
  ∧ did (answered x inbox a e) (other x) = did e (other x).
Proof. unfold answered. cbn. rewrite upd_eq, !upd_ne by apply other_ne. done. Qed.
End Exchange.
Arguments exchange S M D : clear implicits.

(** ** The documented handshake ([doc.go])

    The loop over events says Hello; the loop over messages has one set of
    variables.  [k] is the application's own key. *)

Module Documented.
Inductive message := MsgHello | MsgPubKey (k : list Z) | MsgComplete.
Inductive action := Send_ (p : string) (m : message) | PrepareStreams (p : string) (k : list Z) | FinalizeHandshake (p : string).

Record vars := { peerPubKey : list Z; streamsPrepared : bool; gotComplete : bool }.
Definition no_vars : vars := {| peerPubKey := []; streamsPrepared := false; gotComplete := false |}.

(** A turn of the message loop. *)
Definition on_message (k : list Z) (p : string) (m : message) (v : vars) : vars * list action :=
  let '(v, acts) :=
    match m with
    | MsgHello => (v, [Send_ p (MsgPubKey k)])
    | MsgPubKey k' =>
        ({| peerPubKey := k'; streamsPrepared := true; gotComplete := gotComplete v |}, [PrepareStreams p k'; Send_ p MsgComplete])
    | MsgComplete => ({| peerPubKey := peerPubKey v; streamsPrepared := streamsPrepared v; gotComplete := true |}, [])
    end in
  if streamsPrepared v && gotComplete v
  then ({| peerPubKey := peerPubKey v; streamsPrepared := false; gotComplete := false |}, acts ++ [FinalizeHandshake p])
  else (v, acts).
(** The turn of the event loop for a connected peer. *)
Definition on_connected (p : string) : list action := [Send_ p MsgHello].

(** Between two applications: the peer is the other one, and a flag says that
    the event has been taken. *)
Inductive node_action := Prepare (k : list Z) | Finalize.
Definition sent (acts : list action) : list message := omap (λ a, match a with Send_ _ m => Some m | _ => None end) acts.
Definition done_ (acts : list action) : list node_action :=
  omap (λ a, match a with PrepareStreams _ k => Some (Prepare k) | FinalizeHandshake _ => Some Finalize | Send_ _ _ => None end) acts.

Definition app_state : Type := bool * vars.
Definition app (k : list Z) (p : string) : party app_state message node_action :=
  {| hear m (s : app_state) := let '(v, acts) := on_message k p m s.2 in {| next := (s.1, v); sends := sent acts; does := done_ acts |};
     moves := [λ s : app_state, if s.1 then None
                    else let acts := on_connected p in Some {| next := (true, s.2); sends := sent acts; does := done_ acts |}] |}.

Definition connected : exchange app_state message node_action :=
  {| state_of := λ _, (false, no_vars); to_ := λ _, []; did := λ _, [] |}.

(** *** The invariant *)

Section TwoPhase.
Context (key : side → list Z) (name : side → string).
Notation pair_step := (exchange_step (λ x, app (key x) (name (other x)))).

Definition count (P : message → bool) (l : list message) : nat := length (List.filter P l).
Definition is_hello (m : message) : bool := match m with MsgHello => true | _ => false end.
Definition is_key (m : message) : bool := match m with MsgPubKey _ => true | _ => false end.
Definition is_complete (m : message) : bool := match m with MsgComplete => true | _ => false end.

Definition bit (b : bool) : nat := if b then 1 else 0.
Lemma bit_le b : (bit b ≤ 1)%nat.
Proof. destruct b; cbn; lia. Qed.
Definition said (e : exchange app_state message node_action) (x : side) : nat := bit (state_of e x).1.
(** Of a side: hellos, keys and completions received; it has prepared and
    finalized as often as its actions say. *)
Definition prepares (l : list node_action) : nat := length (List.filter (λ a, match a with Prepare _ => true | _ => false end) l).
Definition finalizes (l : list node_action) : nat := length (List.filter (λ a, match a with Finalize => true | _ => false end) l).

Record inv_at (e : exchange app_state message node_action) (x : side) : Prop := {
  (** every hello the other side said is answered by a key, once *)
  i_hello : (count is_hello (to_ e x) ≤ said e (other x))%nat;
  i_key : (count is_key (to_ e (other x)) + prepares (did e (other x)) + count is_hello (to_ e x) = said e (other x))%nat;
  (** every key that arrived is answered by a completion, once *)
  i_complete : (count is_complete (to_ e (other x)) + bit (gotComplete (state_of e (other x)).2) + finalizes (did e (other x)) = prepares (did e x))%nat;
  i_keys : Forall (λ m, match m with MsgPubKey k => k = key (other x) | _ => True end) (to_ e x);
  (** what it did, and what its variables say of that *)
  i_did : (did e x = [] ∧ streamsPrepared (state_of e x).2 = false)
          ∨ (did e x = [Prepare (key (other x))] ∧ streamsPrepared (state_of e x).2 = true ∧ gotComplete (state_of e x).2 = false)
          ∨ (did e x = [Prepare (key (other x)); Finalize] ∧ streamsPrepared (state_of e x).2 = false ∧ gotComplete (state_of e x).2 = false);
}.
Definition inv (e : exchange app_state message node_action) : Prop := ∀ x, inv_at e x.

Lemma msg_count_app P l1 l2 : count P (l1 ++ l2) = (count P l1 + count P l2)%nat.
Proof. unfold count. by rewrite List.filter_app, length_app. Qed.
Lemma count_cons P m l : count P (m :: l) = (bit (P m) + count P l)%nat.
Proof. unfold count. cbn. by destruct (P m). Qed.
Lemma prepares_app l1 l2 : prepares (l1 ++ l2) = (prepares l1 + prepares l2)%nat.
Proof. unfold prepares. by rewrite List.filter_app, length_app. Qed.
Lemma finalizes_app l1 l2 : finalizes (l1 ++ l2) = (finalizes l1 + finalizes l2)%nat.
Proof. unfold finalizes. by rewrite List.filter_app, length_app. Qed.

(** One side's step, seen from both. *)
Lemma inv_answered e x inbox a :
  inv_at (answered x inbox a e) x → inv_at (answered x inbox a e) (other x) → inv (answered x inbox a e).
Proof. intros Hx Hy y. by destruct x, y. Qed.

Lemma machine_inv_step e e' : inv e → pair_step e e' → inv e'.
Proof.
  intros Hi Hs. destruct Hs as [x l1 m l2 e Hto|x f a e Hf Ha]; pose proof (Hi x) as [H1 H2 H3 H4 H5];
    pose proof (Hi (other x)) as [G1 G2 G3 G4 G5]; rewrite other_other in *; unfold said in *.
  - destruct (state_of e x) as [b [pk sp gc]] eqn:Ex. rewrite Hto in *. rewrite !msg_count_app, !count_cons in *.
    apply Forall_app in H4 as [F1 [Fm F2]%Forall_cons].
    set (a := hear _ m _). destruct (answered_self x (l1 ++ l2) a e) as (S1 & S2 & S3). destruct (answered_other x (l1 ++ l2) a e) as (O1 & O2 & O3).
    apply inv_answered; split; unfold said; rewrite ?other_other, ?S1, ?S2, ?S3, ?O1, ?O2, ?O3, ?msg_count_app; try (apply Forall_app; split; try assumption);
      subst a; cbn [hear app snd fst] in *; unfold on_message in *;
      destruct H5 as [[Ed Es]|[(Ed & Es & Eg)|(Ed & Es & Eg)]], G5 as [[Gd Gs]|[(Gd & Gs & Gg)|(Gd & Gs & Gg)]];
      rewrite Ed, Gd in *; cbn [snd fst streamsPrepared gotComplete peerPubKey] in *; subst;
      destruct m; try destruct gc; cbn in *; subst; try lia; try (exfalso; pose proof (bit_le b); pose proof (bit_le (state_of e (other x)).1); lia); try (by repeat constructor); try (by left; split_and!); try (by right; left; split_and!); try (by right; right; split_and!).
  - destruct (state_of e x) as [b v] eqn:Ex. cbn [moves app] in Hf. apply list_elem_of_singleton in Hf as ->. cbn in Ha.
    destruct b; [done |]. injection Ha as <-.
    match goal with |- inv (answered _ _ ?b _) => set (a := b) end. destruct (answered_self (S := app_state) x (to_ e x) a e) as (S1 & S2 & S3).
    destruct (answered_other (S := app_state) x (to_ e x) a e) as (O1 & O2 & O3).
    apply inv_answered; split; unfold said; rewrite ?other_other, ?S1, ?S2, ?S3, ?O1, ?O2, ?O3, ?msg_count_app, ?app_nil_r;
      try (apply Forall_app; split; try assumption); subst a; cbn in *; try rewrite Ex in *; cbn in *; try lia; try (by repeat constructor); try done.
Qed.

Lemma inv_reachable e : rtc pair_step connected e → inv e.
Proof.
  intros Hr. assert (inv connected) as H0 by (intros x; split; cbn; try lia; [constructor | by left]).
  revert H0. induction Hr as [|e1 e2 e3 Hs _ IH]; [done |]. intros Hi. by apply IH, (machine_inv_step e1).
Qed.

(** What is still to come: a side that has said nothing, and messages. *)
Definition weight (m : message) : nat := match m with MsgHello => 3 | MsgPubKey _ => 2 | MsgComplete => 1 end.
Definition weights (l : list message) : nat := sum_list_with weight l.
Definition left_at (e : exchange app_state message node_action) (x : side) : nat :=
  (4 * (1 - said e x) + weights (to_ e x))%nat.
Definition to_come (e : exchange app_state message node_action) : nat := (left_at e A + left_at e B)%nat.

Lemma to_come_side e x : to_come e = (left_at e x + left_at e (other x))%nat.
Proof. unfold to_come. destruct x; cbn; lia. Qed.

Lemma to_come_step e e' : pair_step e e' → (to_come e' < to_come e)%nat.
Proof.
  intros Hs. destruct Hs as [x l1 m l2 e Hto|x f a e Hf Ha]; rewrite !(to_come_side _ x); unfold left_at, said.
  - set (a := hear _ m _). destruct (answered_self x (l1 ++ l2) a e) as (S1 & S2 & _). destruct (answered_other x (l1 ++ l2) a e) as (O1 & O2 & _).
    rewrite S1, S2, O1, O2, Hto. unfold weights. rewrite !sum_list_with_app. cbn [sum_list_with]. subst a. cbn [hear app].
    destruct (state_of e x) as [b v]. unfold on_message. cbn [snd].
    destruct m; destruct (_ && _); cbn; lia.
  - destruct (state_of e x) as [b v] eqn:Ex. cbn [moves app] in Hf. apply list_elem_of_singleton in Hf as ->. cbn in Ha.
    destruct b; [done |]. injection Ha as <-.
    match goal with |- context[answered _ _ ?b _] => set (a := b) end.
    destruct (answered_self (S := app_state) x (to_ e x) a e) as (S1 & S2 & _).
    destruct (answered_other (S := app_state) x (to_ e x) a e) as (O1 & O2 & _).
    rewrite S1, S2, O1, O2. subst a. unfold weights. rewrite sum_list_with_app. cbn. lia.
Qed.

(** Nothing to do: every message has arrived and every event been taken. *)
Lemma stuck_done e x : (∀ e', ¬ pair_step e e') → to_ e x = [] ∧ said e x = 1%nat.
Proof.
  intros Hn. split.
  - destruct (to_ e x) as [|m l] eqn:E; [done |]. destruct (Hn _ (step_hear _ x [] m l e E)).
  - unfold said. destruct (state_of e x) as [[] v] eqn:E; [done |].
    destruct (Hn (answered x (to_ e x) {| next := (true, v); sends := [MsgHello]; does := [] |} e)).
    eapply step_move; [by apply list_elem_of_singleton | by rewrite E].
Qed.

End TwoPhase.

(** With more than one peer the loop's variables are mixed up: the key of one
    and the completion of another finalize the handshake of the other, whose
    streams are not prepared; and when two peers are prepared the first
    completion makes the loop forget the second. *)
Lemma loop_mixes_peers k p q kp kq v :
  streamsPrepared v = false → gotComplete v = false →
  (on_message k q MsgComplete (on_message k p (MsgPubKey kp) v).1).2 = [FinalizeHandshake q]
  ∧ (let v' := (on_message k q (MsgPubKey kq) (on_message k p (MsgPubKey kp) v).1).1 in
     (on_message k p MsgComplete v').2 = [FinalizeHandshake p]
     ∧ (on_message k q MsgComplete (on_message k p MsgComplete v').1).2 = []).
Proof. intros H1 H2. destruct v as [pk sp gc]. cbn in H1, H2. subst. by cbn. Qed.

(** ** Witness *)

Definition keys (x : side) : list Z := match x with A => [1%Z] | B => [2%Z] end.
Definition names (x : side) : string := match x with A => "QmA" | B => "QmB" end.

(** Both say hello, then the messages arrive, B's last. *)
Ltac arrives x l := eapply nsteps_l; [eapply (step_hear _ x l); reflexivity |].
Ltac moves_ x := eapply nsteps_l; [eapply (step_move _ x); [by apply list_elem_of_singleton | reflexivity] |].
Lemma handshake_run : ∃ e, nsteps (exchange_step (λ x, app (keys x) (names (other x)))) 8 connected e
  ∧ did e A = [Prepare [2%Z]; Finalize].
Proof.
  eexists. split.
  - moves_ A. arrives B (@nil message). arrives A (@nil message). moves_ B. arrives A (@nil message).
    arrives B [MsgComplete]. arrives B (@nil message). arrives A (@nil message). constructor.
  - reflexivity.
Defined.

End Documented.
