(* ===== verification/ExampleHandshake.v ===== *)
(** * The handshake of the example programs ([examples/basic], [simple-chat],
    [rpc], [file-transfer])

    The handler of handshake messages, the goroutine that connects to a peer,
    and how two such programs fare with each other.  The programs differ in
    small things, which a [variant] holds.  What is printed is left out. *)

From S2P Require Import Prelude Errors Validation Json Interfaces Exchange.
Local Open Scope Z_scope.

Definition msgHello : Z := 1.
Definition msgPubKey : Z := 2.
Definition msgComplete : Z := 3.

Record peerState := { name : list Z; gotHello : bool; gotPubKey : bool; peerPubKey : list Z }.
Definition no_state : peerState := {| name := []; gotHello := false; gotPubKey := false; peerPubKey := [] |}.

(** What differs between the programs: does a completion need a hello, is an
    entry made for an empty message, what does a hello carry, which streams are
    asked for, what is noted of the peer; and in the connecting goroutine: is a
    bad address noticed, does a failing send end it, does it look at the state
    before and after it polls. *)
Record variant := {
  needs_hello : bool;
  entry_first : bool;
  greeting : list Z;
  streams : list string;
  peer_metadata : option (gmap string string);
  checks_address : bool;
  checks_sends : bool;
  rereads : bool;
}.
(** The basic example connects to nobody. *)
Definition basic : variant :=
  {| needs_hello := true; entry_first := true; greeting := []; streams := ["messages"%string]; peer_metadata := None;
     checks_address := false; checks_sends := false; rereads := false |}.
Definition simple_chat (myName : list Z) : variant :=
  {| needs_hello := true; entry_first := false; greeting := myName; streams := ["chat"%string];
     peer_metadata := Some {["name"%string := "peer"%string]}; checks_address := true; checks_sends := true; rereads := true |}.
Definition rpc : variant :=
  {| needs_hello := false; entry_first := true; greeting := []; streams := ["rpc"%string]; peer_metadata := None;
     checks_address := false; checks_sends := false; rereads := false |}.
Definition file_transfer : variant :=
  {| needs_hello := false; entry_first := true; greeting := []; streams := ["file-transfer"%string]; peer_metadata := None;
     checks_address := true; checks_sends := false; rereads := false |}.

(** What is asked of the node; a [SendHandshake] is a send on the handshake
    stream. *)
Inductive call := SendHandshake (p : string) (data : list Z) | CompleteHandshake (p : string) (key : list Z) (names : list string).

Section Program.
Context (v : variant) (publicKey : list Z).

Definition hello : list Z := msgHello :: greeting v.
Definition pubKeyMsg : list Z := msgPubKey :: publicKey.

(** ** The handler *)

Definition handleHandshakeMessage (p : string) (data : list Z) (peerStates : gmap string peerState) : gmap string peerState * list call :=
  let state := default no_state (peerStates !! p) in
  let entered := <[p := state]> peerStates in
  match data with
  | [] => (if entry_first v then entered else peerStates, [])
  | t :: rest =>
      if t =? msgHello then
        (<[p := {| name := if (0 <? length rest)%nat then rest else name state; gotHello := true;
                   gotPubKey := gotPubKey state; peerPubKey := peerPubKey state |}]> peerStates,
         [SendHandshake p hello; SendHandshake p pubKeyMsg])
      else if t =? msgPubKey then
        if (0 <? length rest)%nat
        then (<[p := {| name := name state; gotHello := gotHello state; gotPubKey := true; peerPubKey := rest |}]> peerStates, [])
        else (entered, [])
      else if t =? msgComplete then
        if (gotHello state || negb (needs_hello v)) && gotPubKey state
        then (delete p peerStates, [SendHandshake p [msgComplete]; CompleteHandshake p (peerPubKey state) (streams v)])
        else (entered, [])
      else (entered, [])
  end.

(** ** Connecting

    The goroutine is cut at its locks.  It looks a hundred times, without
    waiting, whether the key has come. *)

Inductive phase := Starting | Polling (n : nat) | Rereading | Found | Over.

Definition connect_enter (p : string) (peerStates : gmap string peerState) : gmap string peerState := <[p := no_state]> peerStates.
(** The connection stands; [sent] are the answers of the two sends. *)
Definition connect_send (p : string) (sent : bool * bool) : phase * list call :=
  if checks_sends v && negb sent.1 then (Over, [SendHandshake p hello])
  else if checks_sends v && negb sent.2 then (Over, [SendHandshake p hello; SendHandshake p pubKeyMsg])
  else (if rereads v then Starting else Polling 100, [SendHandshake p hello; SendHandshake p pubKeyMsg]).

Definition key_of (p : string) (peerStates : gmap string peerState) : option (list Z) :=
  state ← peerStates !! p; if gotPubKey state then Some (peerPubKey state) else None.
Definition complete_calls (p : string) (key : list Z) : list call := [SendHandshake p [msgComplete]; CompleteHandshake p key (streams v)].
Definition start_poll (p : string) (peerStates : gmap string peerState) : phase :=
  match peerStates !! p with None => Over | Some _ => Polling 100 end.
Definition poll (p : string) (n : nat) (peerStates : gmap string peerState) : phase * list call :=
  match n with
  | O => (if rereads v then Rereading else Over, [])
  | S n =>
      match key_of p peerStates with
      | Some key => if rereads v then (Rereading, []) else (Found, complete_calls p key)
      | None => (Polling n, [])
      end
  end.
(** [ok]: the handshake could be completed. *)
Definition reread (p : string) (ok : bool) (peerStates : gmap string peerState) : phase * list call :=
  match key_of p peerStates with
  | Some key => (if ok then Found else Over, complete_calls p key)
  | None => (Over, [])
  end.
Definition connect_leave (p : string) (peerStates : gmap string peerState) : gmap string peerState := delete p peerStates.

(** ** The program as a party of an exchange *)

Definition program : Type := phase * gmap string peerState.
Definition sent_to (cs : list call) : list (list Z) := omap (λ c, match c with SendHandshake _ d => Some d | _ => None end) cs.
Definition completed (cs : list call) : list (list Z) := omap (λ c, match c with CompleteHandshake _ k _ => Some k | _ => None end) cs.
Definition answer_of (s : program) (cs : list call) : answer program (list Z) (list Z) :=
  {| next := s; sends := sent_to cs; does := completed cs |}.

(** The next step of the connecting goroutine. *)
Definition goroutine (p : string) (ok : bool) (s : program) : option (answer program (list Z) (list Z)) :=
  match s.1 with
  | Starting => Some (answer_of (start_poll p s.2, s.2) [])
  | Polling n => let '(ph, cs) := poll p n s.2 in Some (answer_of (ph, s.2) cs)
  | Rereading => let '(ph, cs) := reread p ok s.2 in Some (answer_of (ph, s.2) cs)
  | Found => Some (answer_of (Over, connect_leave p s.2) [])
  | Over => None
  end.
Definition example_party (p : string) : party program (list Z) (list Z) :=
  {| hear data (s : program) := let '(states, cs) := handleHandshakeMessage p data s.2 in answer_of (s.1, states) cs;
     moves := [ goroutine p true; goroutine p false ] |}.
End Program.

(** ** Two programs *)

Section Two.
Context (variants : side → variant) (key : side → list Z) (id : side → string).
Notation step := (exchange_step (λ x, example_party (variants x) (key x) (id (other x)))).
Notation state := (exchange program (list Z) (list Z)).

(** A has connected to B and sent its hello and its key. *)
Definition begun : state :=
  let '(ph, cs) := connect_send (variants A) (key A) (id B) (true, true) in
  {| state_of := λ x, match x with A => (ph, connect_enter (id B) ∅) | B => (Over, ∅) end;
     to_ := λ x, match x with A => [] | B => sent_to cs end;
     did := λ _, [] |}.

Definition is_hello (m : list Z) : Prop := head m = Some msgHello.

(** A hello is answered by a hello: there is one under way for ever, and the
    two programs never come to rest. *)
Definition hello_underway (e : state) : Prop := ∃ x m, m ∈ to_ e x ∧ is_hello m.

Lemma hello_answered v k p m s : is_hello m → hello v ∈ sends (hear (example_party v k p) m s).
Proof. unfold is_hello. destruct m as [|t m]; [done |]. intros [= ->]. cbn. by left. Qed.

Lemma hello_step e e' : hello_underway e → step e e' → hello_underway e'.
Proof.
  intros (y & m & Hm & Hh) Hs. destruct Hs as [x l1 m' l2 e Hto|x f a e Hf Ha].
  - set (a := hear _ _ _). destruct (answered_self x (l1 ++ l2) a e) as (_ & S2 & _). destruct (answered_other x (l1 ++ l2) a e) as (_ & O2 & _).
    destruct (decide (y = x)) as [->|Hy].
    + rewrite Hto in Hm. apply elem_of_app in Hm as [Hm|[->|Hm]%elem_of_cons].
      * exists x, m. rewrite S2. split; [apply elem_of_app; by left | done].
      * exists (other x), (hello (variants x)). rewrite O2. split; [| done]. apply elem_of_app. right. by apply hello_answered.
      * exists x, m. rewrite S2. split; [apply elem_of_app; by right | done].
    + assert (y = other x) as -> by (by destruct x, y). exists (other x), m. rewrite O2. split; [apply elem_of_app; by left | done].
  - destruct (answered_self x (to_ e x) a e) as (_ & S2 & _). destruct (answered_other x (to_ e x) a e) as (_ & O2 & _).
    exists y, m. split; [| done]. destruct (decide (y = x)) as [->|Hy]; [by rewrite S2 |].
    assert (y = other x) as -> by (by destruct x, y). rewrite O2. apply elem_of_app. by left.
Qed.

Lemma hello_never_ends e : rtc step begun e → ∃ e', step e e'.
Proof.
  assert (hello_underway begun) as H0.
  { unfold begun, connect_send. cbn [negb fst snd]. rewrite !andb_false_r. cbn. exists B, (hello (variants A)). split; [by left | done]. }
  intros Hr. assert (hello_underway e) as (x & m & [l1 [l2 Hm]]%list_elem_of_split & _).
  { clear -H0 Hr. induction Hr as [|e1 e2 e3 Hs _ IH]; [done |]. eauto using hello_step. }
  eexists. by eapply step_hear.
Qed.

(** Whatever happens, a handshake is completed only with the key that the
    other program sent. *)
Record honest (e : state) (x : side) : Prop := {
  h_keys : Forall (λ m, ∀ rest, m = msgPubKey :: rest → rest = key (other x)) (to_ e x);
  h_state : ∀ st, (state_of e x).2 !! id (other x) = Some st → gotPubKey st = true → peerPubKey st = key (other x);
  h_done : Forall (λ k, k = key (other x)) (did e x);
}.

(** What a program with key [k] asks for when it knows [k'] of its peer. *)
Definition honest_call (v : variant) (k k' : list Z) (c : call) : Prop :=
  match c with
  | SendHandshake _ d => d = hello v ∨ d = pubKeyMsg k ∨ d = [msgComplete]
  | CompleteHandshake _ key _ => key = k'
  end.
Ltac calls_ok := repeat (apply Forall_cons_2; [cbn; auto |]); apply Forall_nil_2.
Lemma honest_calls v k k' (cs : list call) :
  Forall (honest_call v k k') cs →
  Forall (λ k, k = k') (completed cs) ∧ Forall (λ m, ∀ rest, m = msgPubKey :: rest → rest = k) (sent_to cs).
Proof.
  induction 1 as [|c cs Hc _ [IH1 IH2]]; [done |]. destruct c as [p d|p key' names]; cbn in *; split; try done; constructor; try done.
  intros rest ->. unfold hello, pubKeyMsg, msgHello, msgPubKey, msgComplete in Hc. naive_solver.
Qed.

(** A turn of a program that knows no other key of its peer. *)
Lemma honest_hear x m (s : program) :
  let v := variants x in let p := id (other x) in
  (∀ rest, m = msgPubKey :: rest → rest = key (other x)) →
  (∀ st, s.2 !! p = Some st → gotPubKey st = true → peerPubKey st = key (other x)) →
  let a := hear (example_party v (key x) p) m s in
  (∀ st, (next a).2 !! p = Some st → gotPubKey st = true → peerPubKey st = key (other x))
  ∧ Forall (λ k, k = key (other x)) (does a) ∧ Forall (λ m, ∀ rest, m = msgPubKey :: rest → rest = key x) (sends a).
Proof.
  cbv zeta. intros Hm Hs. cbn [hear example_party]. destruct (handleHandshakeMessage _ _ _ _ _) as [states cs] eqn:E.
  unfold answer_of. cbn [next does sends snd].
  enough ((∀ st, states !! id (other x) = Some st → gotPubKey st = true → peerPubKey st = key (other x))
          ∧ Forall (honest_call (variants x) (key x) (key (other x))) cs) as [H1 H2] by (by split; [| apply honest_calls in H2]).
  assert (gotPubKey (default no_state (s.2 !! id (other x))) = true → peerPubKey (default no_state (s.2 !! id (other x))) = key (other x)) as Hd.
  { destruct (s.2 !! id (other x)) as [st|]; [by apply Hs | done]. }
  unfold handleHandshakeMessage in E. destruct (default no_state _) as [nm gh gp pk]. cbn [gotHello gotPubKey name peerPubKey] in *.
  destruct m as [|t rest].
  { destruct (entry_first _); simplify_eq/=; (split; [| constructor]); [| exact Hs]. intros st. rewrite lookup_insert_eq. intros [= <-]. exact Hd. }
  destruct (t =? msgHello).
  { simplify_eq/=. split; [| calls_ok]. intros st. rewrite lookup_insert_eq. intros [= <-]. exact Hd. }
  destruct (t =? msgPubKey) eqn:Et.
  { apply Z.eqb_eq in Et as ->. destruct (0 <? length rest)%nat; simplify_eq/=; (split; [| constructor]); intros st; rewrite lookup_insert_eq; intros [= <-];
      [intros _; by apply Hm | exact Hd]. }
  destruct (t =? msgComplete); [destruct (_ && gp) eqn:Eg |]; simplify_eq/=.
  { apply andb_true_iff in Eg as [_ ->]. split; [intros st; by rewrite lookup_delete_eq |]. calls_ok. }
  all: split; [| constructor]; intros st; rewrite lookup_insert_eq; intros [= <-]; exact Hd.
Qed.

Lemma honest_move x (s : program) f a :
  f ∈ moves (example_party (variants x) (key x) (id (other x))) → f s = Some a →
  (∀ st, s.2 !! id (other x) = Some st → gotPubKey st = true → peerPubKey st = key (other x)) →
  (∀ st, (next a).2 !! id (other x) = Some st → gotPubKey st = true → peerPubKey st = key (other x))
  ∧ Forall (λ k, k = key (other x)) (does a) ∧ Forall (λ m, ∀ rest, m = msgPubKey :: rest → rest = key x) (sends a).
Proof.
  intros Hf Ha Hs. destruct s as [ph states]. cbn in Hs.
  assert (∃ ok, f = goroutine (variants x) (id (other x)) ok) as [ok ->].
  { cbn [moves example_party] in Hf. apply elem_of_cons in Hf as [->|Hf]; [eauto |]. apply list_elem_of_singleton in Hf as ->. eauto. }
  assert (∀ k, key_of (id (other x)) states = Some k → Forall (honest_call (variants x) (key x) (key (other x))) (complete_calls (variants x) (id (other x)) k)) as Hk.
  { unfold key_of. intros k Hk. destruct (states !! id (other x)) as [st|] eqn:E; [| done]. cbn in Hk.
    destruct (gotPubKey st) eqn:Eg; simplify_eq. unfold complete_calls. calls_ok. }
  assert (∃ ph' states' cs, a = answer_of (ph', states') cs ∧ (∀ st, states' !! id (other x) = Some st → gotPubKey st = true → peerPubKey st = key (other x))
          ∧ Forall (honest_call (variants x) (key x) (key (other x))) cs) as (ph' & states' & cs & -> & H1 & H2%honest_calls); [| done].
  unfold goroutine, poll, reread in Ha. cbn [fst snd] in Ha. unfold connect_leave in Ha.
  repeat (case_match; simplify_eq); do 3 eexists; (split; [reflexivity |]); (split; [| by eauto using Forall_nil_2]); try exact Hs.
  intros st. by rewrite lookup_delete_eq.
Qed.

Lemma honest_step e e' : (∀ x, honest e x) → step e e' → ∀ x, honest e' x.
Proof.
  intros Hh Hs.
  assert (∀ x inbox (a : answer program (list Z) (list Z)), (∀ m, m ∈ inbox → m ∈ to_ e x) →
    (∀ st, (next a).2 !! id (other x) = Some st → gotPubKey st = true → peerPubKey st = key (other x)) →
    Forall (λ k, k = key (other x)) (does a) → Forall (λ m, ∀ rest, m = msgPubKey :: rest → rest = key x) (sends a) →
    ∀ y, honest (answered x inbox a e) y) as Hgen.
  { intros x inbox a Hin H1 H2 H3 y. destruct (answered_self (S := program) x inbox a e) as (S1 & S2 & S3).
    destruct (answered_other (S := program) x inbox a e) as (O1 & O2 & O3). pose proof (Hh x) as [K1 K2 K3]. pose proof (Hh (other x)) as [L1 L2 L3].
    destruct (decide (y = x)) as [->|Hy].
    - split; [rewrite S2 | by rewrite S1 | rewrite S3; by apply Forall_app].
      apply Forall_forall. intros m Hm. exact (proj1 (Forall_forall _ _) K1 m (Hin m Hm)).
    - assert (y = other x) as -> by (by destruct x, y). rewrite other_other in *.
      split; rewrite ?O1, ?O2, ?O3, ?other_other; [by apply Forall_app | done | done]. }
  destruct Hs as [x l1 m l2 e Hto|x f a e Hf Ha]; pose proof (Hh x) as [K1 K2 K3].
  - destruct (honest_hear x m (state_of e x)) as (H1 & H2 & H3); [| done |].
    { rewrite Hto in K1. apply Forall_app in K1 as [_ K1]. by apply Forall_inv in K1. }
    apply Hgen; [| done..]. intros m' Hm'. rewrite Hto. rewrite elem_of_app, elem_of_cons. apply elem_of_app in Hm'. naive_solver.
  - destruct (honest_move x (state_of e x) f a Hf Ha K2) as (H1 & H2 & H3). by apply Hgen.
Qed.

Lemma completes_with_right_key e x : rtc step begun e → Forall (λ k, k = key (other x)) (did e x).
Proof.
  intros Hr. assert (∀ x, honest begun x) as H0.
  { unfold begun, connect_send. cbn [negb fst snd]. rewrite !andb_false_r. cbn. intros [|]; split; cbn; try constructor.
    - unfold connect_enter. intros st Hst. rewrite lookup_insert_eq in Hst. by simplify_eq.
    - by intros rest [= <-].
    - constructor; [by intros rest [= <-] | constructor].
    - done. }
  assert (∀ x, honest e x) as Hh; [| apply Hh]. clear -H0 Hr. revert H0. induction Hr as [|e1 e2 e3 Hs _ IH]; [done |].
  intros H0. apply IH. by apply (honest_step e1).
Qed.
End Two.

(** ** Connecting, from the address on

    [info] is what libp2p makes of the address, [connect] and [sent] the
    answers of the node; a program that does not notice a bad address panics. *)

Section Connect.
Context `{Libp2p} (v : variant) (publicKey : list Z).

Inductive node_call := NodeAddPeer (p : string) (addrs : list Multiaddr) (md : option (gmap string string)) | NodeConnect (p : string).

Definition connectToPeer (info : result error (string * list Multiaddr)) (connect : option error) (sent : bool * bool)
    (peerStates : gmap string peerState) : option (gmap string peerState * list node_call * (phase * list call)) :=
  match info with
  | Err _ => if checks_address v then Some (peerStates, [], (Over, [])) else None
  | Ok (p, addrs) =>
      Some (connect_enter p peerStates, [NodeAddPeer p addrs (peer_metadata v); NodeConnect p],
            match connect with Some _ => (Over, []) | None => connect_send v publicKey p sent end)
  end.
End Connect.

(** A bad address panics in the programs that do not look at the error. *)
Lemma bad_address_panics `{Libp2p} e k c sent states :
  connectToPeer rpc k (Err e) c sent states = None
  ∧ is_Some (connectToPeer file_transfer k (Err e) c sent states) ∧ ∀ nm, is_Some (connectToPeer (simple_chat nm) k (Err e) c sent states).
Proof. done. Qed.

(** ** The chat's key and messages *)

Definition PrivateKeySize : nat := 64.

(** The key and what the file holds afterwards; [file] is [None] when it cannot
    be read, [write] says what a failing write leaves in it. *)
Definition loadOrGenerateKey (file : option (list Z)) (generated : result error (list Z)) (write : option (option (list Z)))
    : result error (list Z) * option (list Z) :=
  let generate :=
    match generated with
    | Err e => (Err e, file)
    | Ok priv => (Ok priv, match write with None => Some priv | Some left_over => left_over end)
    end in
  match file with
  | Some data => if (length data =? PrivateKeySize)%nat then (Ok data, file) else generate
  | None => generate
  end.

(** A node keeps its key from one start to the next, once it could be written. *)
Lemma key_kept file priv data file' :
  length priv = PrivateKeySize → loadOrGenerateKey file (Ok priv) None = (Ok data, file') →
  ∀ generated write, loadOrGenerateKey file' generated write = (Ok data, file').
Proof.
  intros Hp Hl generated write. unfold loadOrGenerateKey in Hl.
  assert (file' = Some data ∧ length data = PrivateKeySize) as [-> Hd].
  { destruct file as [d|]; [destruct (length d =? PrivateKeySize)%nat eqn:E |]; simplify_eq; try done. by apply Nat.eqb_eq in E. }
  unfold loadOrGenerateKey. by rewrite (proj2 (Nat.eqb_eq _ _) Hd).
Qed.

(** A file that holds no key, of whatever use it is, is overwritten. *)
Lemma other_file_overwritten data priv :
  length data ≠ PrivateKeySize → (loadOrGenerateKey (Some data) (Ok priv) None).2 = Some priv.
Proof. intros Hd%Nat.eqb_neq. unfold loadOrGenerateKey. by rewrite Hd. Qed.

Section Chat.
Context `{Libp2p}.
(** What is given to [node.Send], if anything. *)
Definition sendMessage (peerIDStr sender content : string) : option (string * string * list Z) :=
  peerID ← peer_Decode peerIDStr; Some (peerID, "chat"%string, bytes_of ("[" +:+ sender +:+ "]: " +:+ content)).
End Chat.

(** ** The programs

    Their turn of the message loop for a handshake message, and their
    goroutines. *)

Definition basic_handshake : list Z → string → list Z → gmap string peerState → gmap string peerState * list call := handleHandshakeMessage basic.
Definition rpc_handshake : list Z → string → list Z → gmap string peerState → gmap string peerState * list call := handleHandshakeMessage rpc.
Definition file_transfer_handshake : list Z → string → list Z → gmap string peerState → gmap string peerState * list call :=
  handleHandshakeMessage file_transfer.
Definition rpc_connecting : string → bool → program → option (answer program (list Z) (list Z)) := goroutine rpc.
Definition file_transfer_connecting : string → bool → program → option (answer program (list Z) (list Z)) := goroutine file_transfer.
Definition chat_connecting (myName : list Z) : string → bool → program → option (answer program (list Z) (list Z)) := goroutine (simple_chat myName).
