(* ===== verification/Flood.v ===== *)
(** * Flooding a message through a network

    Nodes that forward a message to their neighbours the first time they get
    it: a network of them, in which messages arrive in any order, the class of
    what a node has to do, and the theorem that the message reaches every node
    that can be reached, once. *)

From S2P Require Import Prelude.

(** ** The network

    [receive] is what a node does with data from another: its new state, what
    it sends to whom, and what it makes of it for its user. *)

Section Network.
Context {C D U : Type} (receive : string → D → C → option (C * list (string * D) * list U)).

Record network := {
  nodes : gmap string C;
  wire : list (string * string * D);     (** from, to, data *)
  shown : list (string * U);             (** who showed what *)
}.

Definition posted (from : string) (sends : list (string * D)) : list (string * string * D) := (λ x, (from, x.1, x.2)) <$> sends.

Inductive deliver : network → network → Prop :=
| deliver_one s l1 p q d l2 c c' sends us :
    wire s = l1 ++ (p, q, d) :: l2 → nodes s !! q = Some c → receive p d c = Some (c', sends, us) →
    deliver s {| nodes := <[q := c']> (nodes s); wire := l1 ++ l2 ++ posted q sends; shown := shown s ++ (pair q <$> us) |}.

(** The first message arrives, and so on. *)
Definition deliver_first (s : network) : option network :=
  match wire s with
  | [] => None
  | (p, q, d) :: l =>
      c ← nodes s !! q; '(c', sends, us) ← receive p d c;
      Some {| nodes := <[q := c']> (nodes s); wire := l ++ posted q sends; shown := shown s ++ (pair q <$> us) |}
  end.
Fixpoint deliver_firsts (n : nat) (s : network) : option network :=
  match n with O => Some s | S n => deliver_first s ≫= deliver_firsts n end.

Lemma deliver_firsts_steps n s s' : deliver_firsts n s = Some s' → nsteps deliver n s s'.
Proof.
  revert s. induction n as [|n IH]; intros s Hs; cbn in Hs; [simplify_eq; constructor |].
  destruct (deliver_first s) as [s1|] eqn:E; [| done]. econstructor; [| by apply IH].
  unfold deliver_first in E. destruct (wire s) as [|[[p q] d] l] eqn:Ew; [done |].
  destruct (nodes s !! q) as [c|] eqn:Eq; [| done]. cbn in E. destruct (receive p d c) as [[[c' sends] us]|] eqn:Er; [| done].
  cbn in E. simplify_eq. by apply (deliver_one s [] p q d l c).
Qed.
End Network.
Arguments network C D U : clear implicits.

(** ** What a node has to do

    [links] are its neighbours, [knows] says that it has had the message [d]
    before, and [u] is what it shows. *)

Class Floods {C D U} (receive : string → D → C → option (C * list (string * D) * list U)) (d : D) (u : U) := {
  links : C → gset string;
  knows : C → bool;
  flood_known : ∀ p c, knows c = true → receive p d c = Some (c, [], []);
  flood_new : ∀ p c, knows c = false →
    ∃ c' ps, receive p d c = Some (c', (λ q, (q, d)) <$> ps, [u]) ∧ ps ≡ₚ elements (links c ∖ {[p]}) ∧ knows c' = true ∧ links c' = links c;
}.

Section Flooding.
Context {C D U : Type} {receive : string → D → C → option (C * list (string * D) * list U)} {d : D} {u : U} `{!Floods receive d u}.
Context (origin : string) (start : gmap string C).
Notation net := (network C D U).
Notation step := (deliver receive).

(** The neighbours of a node of the network. *)
Definition neighbour (p q : string) : Prop := ∃ c, start !! p = Some c ∧ q ∈ links c.
(** Every neighbour is a node; one node has the message and sent it to all its
    neighbours; the others have never had it. *)
Definition closed : Prop := ∀ p q, neighbour p q → is_Some (start !! q).
Definition released (s : net) : Prop :=
  ∃ c ps, start !! origin = Some c ∧ knows c = true ∧ ps ≡ₚ elements (links c)
    ∧ (∀ q c', start !! q = Some c' → q ≠ origin → knows c' = false)
    ∧ s = {| nodes := start; wire := posted origin ((λ q, (q, d)) <$> ps); shown := [] |}.

(** ** The invariant *)

Definition has_it (s : net) (p : string) : bool := match nodes s !! p with Some c => knows c | None => false end.
Notation has s p := (has_it s p = true).
Record invariant (s : net) : Prop := {
  inv_nodes : ∀ p c, nodes s !! p = Some c → ∃ c0, start !! p = Some c0 ∧ links c = links c0;
  inv_dom : ∀ p, is_Some (start !! p) → is_Some (nodes s !! p);
  inv_wire : ∀ p q d', (p, q, d') ∈ wire s → d' = d ∧ has s p ∧ neighbour p q;
  inv_cover : ∀ p q, has s p → neighbour p q → has s q ∨ (p, q, d) ∈ wire s;
  inv_reach : ∀ p, has s p → rtc neighbour origin p;
  inv_origin : has s origin;
  inv_shown : ∀ p, filter (λ x, x.1 = p) (shown s) = if negb (bool_decide (p = origin)) && has_it s p then [(p, u)] else [];
}.

Lemma released_invariant s : released s → invariant s.
Proof.
  intros (c & ps & Hc & Hk & Hps & Hnew & ->). unfold posted. rewrite <- list_fmap_compose.
  assert (∀ p, has_it {| nodes := start; wire := (λ x, (origin, x, d)) <$> ps; shown := [] |} p = true → p = origin) as Hhas.
  { unfold has_it. cbn. intros p Hp. destruct (start !! p) as [c'|] eqn:E; [| done].
    destruct (decide (p = origin)) as [|N]; [done |]. by rewrite (Hnew p c' E N) in Hp. }
  assert (has_it {| nodes := start; wire := (λ x, (origin, x, d)) <$> ps; shown := [] |} origin = true) as Ho by (unfold has_it; cbn; by rewrite Hc).
  split; try done.
  - intros p c'. cbn. eauto.
  - intros p q d' (x & E & Hx)%list_elem_of_fmap. simplify_eq/=. split_and!; [done | done |]. exists c. split; [done |].
    apply elem_of_elements. by rewrite <- Hps.
  - intros p q ->%Hhas (c' & E & Hq). simplify_eq. right. cbn. apply list_elem_of_fmap. exists q. split; [done |]. by rewrite Hps, elem_of_elements.
  - intros p ->%Hhas. apply rtc_refl.
  - intros p. cbn. destruct (bool_decide_reflect (p = origin)) as [|N]; [done |]. cbn.
    destruct (has_it _ p) eqn:E; [| done]. destruct (N (Hhas p E)).
Qed.

(** ** A delivery *)

Lemma has_insert s q c' w sh p :
  has_it {| nodes := <[q := c']> (nodes s); wire := w; shown := sh |} p = if decide (p = q) then knows c' else has_it s p.
Proof. unfold has_it. cbn. rewrite lookup_insert. repeat case_decide; naive_solver. Qed.

(** A delivery is of the message, from a node that has it to a neighbour. *)
Lemma step_invariant s s' : invariant s → step s s' → invariant s'.
Proof.
  intros Hi Hs. destruct Hs as [s l1 p q d' l2 c c' sends us Hw Hq Hr]. pose proof Hi as [In Id Iw Ic Ir Io Is].
  destruct (Iw p q d') as (-> & Hp & Hn); [rewrite Hw; apply elem_of_app; right; by left |].
  assert (∀ a b e, (a, b, e) ∈ wire s → (a, b, e) = (p, q, d) ∨ (a, b, e) ∈ l1 ++ l2) as Hsplit.
  { intros a b e. rewrite Hw, !elem_of_app, elem_of_cons. naive_solver. }
  assert (∀ a b e, (a, b, e) ∈ l1 ++ l2 → (a, b, e) ∈ wire s) as Hback.
  { intros a b e. rewrite Hw, !elem_of_app, elem_of_cons. naive_solver. }
  destruct (knows c) eqn:Hk.
  - rewrite (flood_known p c Hk) in Hr. simplify_eq. rewrite insert_id by done. cbn [posted fmap list_fmap]. rewrite !app_nil_r.
    assert (has_it s q = true) as Hhq by (unfold has_it; by rewrite Hq).
    split; cbn; try done.
    + intros a b e Hab. by apply Iw, Hback.
    + intros a b Ha Hab. destruct (Ic a b Ha Hab) as [|Hin]; [by left |]. destruct (Hsplit _ _ _ Hin) as [[= -> ->]|]; [by left | by right].
  - destruct (flood_new p c Hk) as (c1 & ps & E & Hps & Hk1 & Hl). rewrite E in Hr. simplify_eq.
    assert (has_it s q = false) as Hhq by (unfold has_it; by rewrite Hq).
    destruct (In q c Hq) as (c0 & Hc0 & Hl0).
    assert (∀ a, has_it s a = true → a ≠ q) as Hne by (intros a Ha ->; by rewrite Hhq in Ha).
    split.
    + intros a x. cbn. rewrite lookup_insert. case_decide; [intros [= <-]; subst; exists c0; by rewrite Hl | apply In].
    + intros a Ha. cbn. rewrite lookup_insert. case_decide; [done | by apply Id].
    + intros a b e Hab. cbn in Hab. rewrite app_assoc in Hab. apply elem_of_app in Hab as [Hab|Hab].
      * destruct (Iw a b e (Hback _ _ _ Hab)) as (-> & Ha & Hn'). split_and!; [done | | done]. rewrite has_insert. by case_decide.
      * unfold posted in Hab. rewrite <- list_fmap_compose in Hab. apply list_elem_of_fmap in Hab as (b' & E' & Hb'). simplify_eq/=.
        split_and!; [done | rewrite has_insert; by rewrite decide_True |]. exists c0. split; [done |]. rewrite <- Hl0.
        rewrite Hps, elem_of_elements in Hb'. set_solver.
    + intros a b Ha Hab. rewrite has_insert in Ha. destruct (decide (b = q)) as [->|Nq]; [left; by rewrite has_insert, decide_True |].
      rewrite has_insert, (decide_False (P := b = q)) by done. cbn. rewrite app_assoc, elem_of_app. destruct (decide (a = q)) as [->|Na].
      * destruct Hab as (c2 & Hc2 & Hb2). simplify_eq. destruct (decide (b = p)) as [->|Nb]; [by left |].
        right. right. unfold posted. rewrite <- list_fmap_compose. apply list_elem_of_fmap. exists b. split; [done |].
        rewrite Hps, elem_of_elements. rewrite <- Hl0 in Hb2. set_solver.
      * destruct (Ic a b Ha Hab) as [|Hin]; [by left |]. right. left. destruct (Hsplit _ _ _ Hin) as [[= -> ->]|]; done.
    + intros a. rewrite has_insert. case_decide as Ha; [intros _; subst a | apply Ir]. eapply rtc_r; [by apply (Ir p) | done].
    + rewrite has_insert. by case_decide.
    + intros a. rewrite has_insert. cbn. rewrite filter_app, Is. rewrite filter_cons, filter_nil. cbn [fst].
      assert (q ≠ origin) by (intros ->; by rewrite Io in Hhq).
      destruct (decide (q = a)) as [<-|N]; [| rewrite (decide_False (P := a = q)) by congruence; by rewrite app_nil_r].
      rewrite Hhq, andb_false_r, decide_True by done. by rewrite bool_decide_eq_false_2, Hk1 by done.
Qed.

(** ** It ends *)

Definition cost (c : C) : nat := if knows c then 0 else size (links c).
Definition total (f : C → nat) (m : gmap string C) : nat := sum_list_with (λ x, f x.2) (map_to_list m).
Definition to_go (s : net) : nat := (length (wire s) + total cost (nodes s))%nat.

Lemma flood_total_delete f m q c : m !! q = Some c → total f m = (f c + total f (delete q m))%nat.
Proof.
  intros Hq. unfold total. rewrite <- (insert_delete_id m q c Hq) at 1.
  rewrite map_to_list_insert by apply lookup_delete_eq. done.
Qed.
Lemma flood_total_insert f m q c c' : m !! q = Some c → (total f (<[q := c']> m) + f c = total f m + f c')%nat.
Proof.
  intros Hq. rewrite (flood_total_delete f m q c Hq), (flood_total_delete f (<[q := c']> m) q c' (lookup_insert_eq _ _ _)).
  rewrite delete_insert_eq. lia.
Qed.

Lemma step_to_go s s' : invariant s → step s s' → (to_go s' < to_go s)%nat.
Proof.
  intros Hi Hs. destruct Hs as [s l1 p q d' l2 c c' sends us Hw Hq Hr].
  destruct (inv_wire _ Hi p q d') as (-> & _ & _); [rewrite Hw; apply elem_of_app; right; by left |].
  unfold to_go. cbn. rewrite Hw. pose proof (flood_total_insert cost (nodes s) q c c' Hq) as Ht.
  unfold posted. rewrite !length_app, length_fmap. cbn [length]. destruct (knows c) eqn:Hk.
  - rewrite (flood_known p c Hk) in Hr. simplify_eq/=. lia.
  - destruct (flood_new p c Hk) as (c1 & ps & E & Hps & Hk1 & Hl). rewrite E in Hr. simplify_eq.
    unfold cost in Ht at 2 4. rewrite Hk, Hk1 in Ht. rewrite length_fmap, Hps. change (length (elements ?X)) with (size X).
    pose proof (subseteq_size (links c ∖ {[p]}) (links c) ltac:(set_solver)). lia.
Qed.

(** ** The theorem *)

Lemma flooded n s0 s :
  closed → released s0 → nsteps step n s0 s →
  (∀ p, (length (filter (λ x, x.1 = p) (shown s)) <= 1)%nat ∧ filter (λ x, x.1 = p) (shown s) ⊆ [(p, u)])
  ∧ (n <= total (λ c, size (links c)) start)%nat
  ∧ ((∀ s', ¬ step s s') → wire s = []
     ∧ ∀ p, (p ≠ origin → rtc neighbour origin p → filter (λ x, x.1 = p) (shown s) = [(p, u)])
            ∧ (p = origin ∨ ¬ rtc neighbour origin p → filter (λ x, x.1 = p) (shown s) = [])).
Proof.
  intros Hcl Hr Hs. pose proof (released_invariant s0 Hr) as H0.
  assert (invariant s ∧ (n + to_go s <= to_go s0)%nat) as [Hi Hn].
  { clear Hr. induction Hs as [|n s1 s2 s3 H1 _ IH]; [split; [done | lia] |].
    destruct (IH (step_invariant _ _ H0 H1)) as [IH1 IH2]. split; [done |]. pose proof (step_to_go _ _ H0 H1). lia. }
  split_and!.
  - intros p. rewrite (inv_shown _ Hi p). destruct (_ && _); cbn; (split; [lia | set_solver]).
  - destruct Hr as (c & ps & Hc & Hk & Hps & _ & ->). unfold to_go in Hn. cbn in Hn. unfold posted in Hn. rewrite !length_fmap, Hps in Hn.
    assert (∀ m : gmap string C, (total cost m <= total (λ c, size (links c)) m)%nat) as Hle.
    { intros m. unfold total. induction (map_to_list m) as [|[k x] l IH]; cbn; [lia |]. unfold cost at 1. destruct (knows x); lia. }
    rewrite (flood_total_delete cost start origin c Hc) in Hn. rewrite (flood_total_delete _ start origin c Hc). assert (cost c = 0%nat) as Ec by (unfold cost; by rewrite Hk). rewrite Ec in Hn.
    specialize (Hle (delete origin start)). change (length (elements (links c))) with (size (links c)) in Hn. lia.
  - intros Hstuck.
    assert (wire s = []) as Hw.
    { destruct (wire s) as [|[[p q] d'] l] eqn:E; [done |]. exfalso. destruct (inv_wire _ Hi p q d') as (-> & _ & Hpq); [rewrite E; by left |].
      destruct (inv_dom _ Hi q (Hcl p q Hpq)) as [c Hc]. destruct (knows c) eqn:Hk.
      - eapply Hstuck, (deliver_one receive s [] p q d l); [exact E | exact Hc | by apply flood_known].
      - destruct (flood_new p c Hk) as (c' & ps & E' & _). eapply Hstuck, (deliver_one receive s [] p q d l); [exact E | exact Hc | exact E']. }
    split; [done |]. intros p. rewrite (inv_shown _ Hi p). split.
    + intros Np Hp. assert (has_it s p = true) as ->; [| by rewrite bool_decide_eq_false_2].
      refine (rtc_ind_r (λ p, has_it s p = true) origin (inv_origin _ Hi) _ p Hp). intros a b _ Hab IH.
      destruct (inv_cover _ Hi a b IH Hab) as [|Hin]; [done |]. rewrite Hw in Hin. by apply not_elem_of_nil in Hin.
    + intros [->|Hp]; [by rewrite bool_decide_eq_true_2 |]. destruct (has_it s p) eqn:E; [| by rewrite andb_false_r].
      by apply (inv_reach _ Hi) in E.
Qed.
End Flooding.

(** Released by a node of a network in which nobody else has the message: what
    is said of the network before. *)
Lemma flooded_from {C D U} {receive : string → D → C → option (C * list (string * D) * list U)} {d : D} {u : U} `{!Floods receive d u}
    (start : gmap string C) o c c' ps n s :
  start !! o = Some c → links c' = links c → knows c' = true →
  (∀ q x, start !! q = Some x → q ≠ o → knows x = false) → closed start → ps ≡ₚ elements (links c) →
  nsteps (deliver receive) n {| nodes := <[o := c']> start; wire := posted o ((λ q, (q, d)) <$> ps); shown := [] |} s →
  (∀ p, (length (filter (λ x, x.1 = p) (shown s)) <= 1)%nat ∧ filter (λ x, x.1 = p) (shown s) ⊆ [(p, u)])
  ∧ (n <= total (λ c, size (links c)) start)%nat
  ∧ ((∀ s', ¬ deliver receive s s') → wire s = []
     ∧ ∀ p, (p ≠ o → rtc (neighbour start) o p → filter (λ x, x.1 = p) (shown s) = [(p, u)])
            ∧ (p = o ∨ ¬ rtc (neighbour start) o p → filter (λ x, x.1 = p) (shown s) = [])).
Proof.
  intros Ho Hl Hk Hnew Hcl Hps Hs.
  assert (∀ p q, neighbour (<[o := c']> start) p q ↔ neighbour start p q) as Hn.
  { intros p q. unfold neighbour. destruct (decide (p = o)) as [->|N]; [| by rewrite lookup_insert_ne by congruence].
    rewrite lookup_insert_eq, Ho. split; intros (x & [= <-] & Hq); eexists; (split; [done |]); by rewrite ?Hl in *. }
  match type of Hs with nsteps _ _ ?first _ => destruct (flooded o (<[o := c']> start) n first s) as (H1 & H2 & H3); [| | exact Hs |] end.
  - intros p q Hpq%Hn. rewrite lookup_insert_is_Some. destruct (decide (o = q)); [by left | right; split; [done |]]. by apply (Hcl p).
  - exists c', ps. rewrite lookup_insert_eq, Hl. split_and!; try done.
    intros q x Hx N. rewrite lookup_insert_ne in Hx by congruence. by apply (Hnew q).
  - split; [exact H1 |]. split.
    + etrans; [exact H2 |]. pose proof (flood_total_insert (λ c, size (links c)) start o c c' Ho) as Ht. cbn in Ht. rewrite Hl in Ht. lia.
    + intros Hstuck. destruct (H3 Hstuck) as [Hw Hp]. split; [exact Hw |]. intros p. destruct (Hp p) as [P1 P2].
      assert (∀ x y, rtc (neighbour start) x y ↔ rtc (neighbour (<[o := c']> start)) x y) as Hr.
      { intros x y. split; apply rtc_subrel; intros ? ?; apply Hn. }
      rewrite Hr. by split.
Qed.
