(* ===== verification/Cluster.v ===== *)
(** * The cluster example ([examples/cluster/main.go])

    Members that find each other by gossip and pass broadcasts on.  Handlers
    are functions on the node's state, cut where a goroutine waits; what they
    ask of the Glueberry node and show on the console is a list of effects.
    Records reached through pointers are values.  A panic is [None]. *)

From S2P Require Import Prelude Errors Validation Json Base64 JsonRead Interfaces Flood.
Local Open Scope Z_scope.

Definition msgHello : Z := 1.
Definition msgPubKey : Z := 2.
Definition msgComplete : Z := 3.
Definition msgGossip : Z := 30.
Definition msgBroadcast : Z := 31.
Definition msgPing : Z := 32.
Definition msgPong : Z := 33.
Definition streamCluster : string := "cluster".

(** ** Messages *)

Record PeerInfo := {
  pi_PeerID : string; pi_Addrs : list string; pi_Name : string; pi_JoinedAt : Z; pi_LastSeen : Z; pi_PublicKey : list Z;
}.
(** A known peer may be [null]. *)
Record GossipMessage := { g_Sender : string; g_KnownPeers : list (option PeerInfo) }.
Record BroadcastMessage := { b_Sender : string; b_Name : string; b_Content : string; b_Timestamp : Z; b_MessageID : string }.

Definition peer_json (p : PeerInfo) : json :=
  JObj (field "peer_id" (jstr (pi_PeerID p)) ++ field "addrs" (JArr (jstr <$> pi_Addrs p)) ++ field "name" (jstr (pi_Name p))
    ++ field "joined_at" (jint (pi_JoinedAt p)) ++ field "last_seen" (jint (pi_LastSeen p))
    ++ omit (length (pi_PublicKey p) =? 0)%nat "public_key" (jbytes (pi_PublicKey p))).
Definition gossip_json (g : GossipMessage) : json :=
  JObj (field "sender" (jstr (g_Sender g)) ++ field "known_peers" (JArr (from_option peer_json JNull <$> g_KnownPeers g))).
Definition broadcast_json (b : BroadcastMessage) : json :=
  JObj (field "sender" (jstr (b_Sender b)) ++ field "name" (jstr (b_Name b)) ++ field "content" (jstr (b_Content b))
    ++ field "timestamp" (jint (b_Timestamp b)) ++ field "message_id" (jstr (b_MessageID b))).
Definition message (tag : Z) (j : json) : list Z := tag :: print compact 0 j.

Definition zero_peer : PeerInfo :=
  {| pi_PeerID := ""; pi_Addrs := []; pi_Name := ""; pi_JoinedAt := 0; pi_LastSeen := 0; pi_PublicKey := [] |}.
Definition peer_fields : fields PeerInfo :=
  let mk id addrs nm joined seen key :=
    {| pi_PeerID := id; pi_Addrs := addrs; pi_Name := nm; pi_JoinedAt := joined; pi_LastSeen := seen; pi_PublicKey := key |} in
  [ ("peer_id", λ p j, x ← read_string (pi_PeerID p) j; Some (mk x (pi_Addrs p) (pi_Name p) (pi_JoinedAt p) (pi_LastSeen p) (pi_PublicKey p)));
    ("addrs", λ p j, x ← read_strings j; Some (mk (pi_PeerID p) x (pi_Name p) (pi_JoinedAt p) (pi_LastSeen p) (pi_PublicKey p)));
    ("name", λ p j, x ← read_string (pi_Name p) j; Some (mk (pi_PeerID p) (pi_Addrs p) x (pi_JoinedAt p) (pi_LastSeen p) (pi_PublicKey p)));
    ("joined_at", λ p j, x ← read_int (pi_JoinedAt p) j; Some (mk (pi_PeerID p) (pi_Addrs p) (pi_Name p) x (pi_LastSeen p) (pi_PublicKey p)));
    ("last_seen", λ p j, x ← read_int (pi_LastSeen p) j; Some (mk (pi_PeerID p) (pi_Addrs p) (pi_Name p) (pi_JoinedAt p) x (pi_PublicKey p)));
    ("public_key", λ p j, x ← read_bytes j; Some (mk (pi_PeerID p) (pi_Addrs p) (pi_Name p) (pi_JoinedAt p) (pi_LastSeen p) x)) ]%string.
Definition read_peer (j : json) : option (option PeerInfo) :=
  match j with JNull => Some None | _ => Some <$> read_struct peer_fields zero_peer j end.
Definition read_gossip : json → option GossipMessage :=
  read_struct [ ("sender", λ g j, x ← read_string (g_Sender g) j; Some {| g_Sender := x; g_KnownPeers := g_KnownPeers g |});
                ("known_peers", λ g j, x ← match j with JArr l => mapM read_peer l | JNull => Some [] | _ => None end;
                                       Some {| g_Sender := g_Sender g; g_KnownPeers := x |}) ]%string
    {| g_Sender := ""; g_KnownPeers := [] |}.

Definition broadcast_fields : fields BroadcastMessage :=
  let mk s n c t i := {| b_Sender := s; b_Name := n; b_Content := c; b_Timestamp := t; b_MessageID := i |} in
  [ ("sender", λ b j, x ← read_string (b_Sender b) j; Some (mk x (b_Name b) (b_Content b) (b_Timestamp b) (b_MessageID b)));
    ("name", λ b j, x ← read_string (b_Name b) j; Some (mk (b_Sender b) x (b_Content b) (b_Timestamp b) (b_MessageID b)));
    ("content", λ b j, x ← read_string (b_Content b) j; Some (mk (b_Sender b) (b_Name b) x (b_Timestamp b) (b_MessageID b)));
    ("timestamp", λ b j, x ← read_int (b_Timestamp b) j; Some (mk (b_Sender b) (b_Name b) (b_Content b) x (b_MessageID b)));
    ("message_id", λ b j, x ← read_string (b_MessageID b) j; Some (mk (b_Sender b) (b_Name b) (b_Content b) (b_Timestamp b) x)) ]%string.
Definition read_broadcast : json → option BroadcastMessage :=
  read_struct broadcast_fields {| b_Sender := ""; b_Name := ""; b_Content := ""; b_Timestamp := 0; b_MessageID := "" |}.

(** ** The node *)

Record handshakeState := { hs_gotPubKey : bool; hs_peerPubKey : list Z; hs_name : list Z }.
Definition no_handshake : handshakeState := {| hs_gotPubKey := false; hs_peerPubKey := []; hs_name := [] |}.

Inductive effect :=
| ESend (p stream : string) (data : list Z)
| EComplete (p : string) (key : list Z) (names : list string)
| EAddPeer (p : string)
| EConnect (p : string)
| EShow (name content : string)     (** a broadcast on the console *)
| EGo (addr : string).              (** a goroutine that connects to the address *)

Section Cluster.
Context `{Libp2p}.

Record ClusterNode := {
  self : string;                               (** [node.PeerID()] *)
  name : string;
  publicKey : list Z;
  members : gmap string PeerInfo;
  handshakes : gmap string handshakeState;
  seenMessages : gmap string bool;
  stopped : bool;                              (** [stopCh] is closed *)
}.

Definition set_members (m : gmap string PeerInfo) (c : ClusterNode) : ClusterNode :=
  {| self := self c; name := name c; publicKey := publicKey c; members := m; handshakes := handshakes c;
     seenMessages := seenMessages c; stopped := stopped c |}.
Definition set_handshakes (h : gmap string handshakeState) (c : ClusterNode) : ClusterNode :=
  {| self := self c; name := name c; publicKey := publicKey c; members := members c; handshakes := h;
     seenMessages := seenMessages c; stopped := stopped c |}.
Definition set_seen (s : gmap string bool) (c : ClusterNode) : ClusterNode :=
  {| self := self c; name := name c; publicKey := publicKey c; members := members c; handshakes := handshakes c;
     seenMessages := s; stopped := stopped c |}.

Definition NewClusterNode (self name : string) (publicKey : list Z) : ClusterNode :=
  {| self := self; name := name; publicKey := publicKey; members := ∅; handshakes := ∅; seenMessages := ∅; stopped := false |}.
(** Closing a closed channel panics. *)
Definition Stop (c : ClusterNode) : option ClusterNode :=
  if stopped c then None
  else Some {| self := self c; name := name c; publicKey := publicKey c; members := members c; handshakes := handshakes c;
               seenMessages := seenMessages c; stopped := true |}.

(** [s[:8]]. *)
Definition prefix8 (s : string) : option string :=
  if (length (bytes_of s) <? 8)%nat then None else Some (string_of (take 8 (bytes_of s))).

Definition Members (c : ClusterNode) : list PeerInfo := (map_to_list (members c)).*2.
Definition member_ids (c : ClusterNode) : list string := elements (dom (members c)).

(** [now] is in seconds. *)
Definition addMember (now : Z) (p : string) (pubKey : list Z) (nm : string) (addrs : list Multiaddr) (c : ClusterNode) : ClusterNode :=
  set_members (<[p := {| pi_PeerID := peer_String p; pi_Addrs := ma_String <$> addrs; pi_Name := nm;
                         pi_JoinedAt := now; pi_LastSeen := now; pi_PublicKey := pubKey |}]> (members c)) c.
Definition removeMember (p : string) (c : ClusterNode) : ClusterNode := set_members (delete p (members c)) c.
Definition touched (now : Z) (m : PeerInfo) : PeerInfo :=
  {| pi_PeerID := pi_PeerID m; pi_Addrs := pi_Addrs m; pi_Name := pi_Name m; pi_JoinedAt := pi_JoinedAt m; pi_LastSeen := now; pi_PublicKey := pi_PublicKey m |}.
Definition touch (now : Z) (p : string) (c : ClusterNode) : ClusterNode := set_members (alter (touched now) p (members c)) c.

(** ** Broadcasting *)

(** [now1] and [now2] are the two readings of the clock, in nanoseconds. *)
Definition new_broadcast (now1 now2 : Z) (content : string) (c : ClusterNode) : option BroadcastMessage :=
  short ← prefix8 (peer_String (self c));
  Some {| b_Sender := peer_String (self c); b_Name := name c; b_Content := content; b_Timestamp := now1;
          b_MessageID := short +:+ "-" +:+ string_of (print_int now2) |}.
Definition Broadcast (now1 now2 : Z) (content : string) (c : ClusterNode) : option (ClusterNode * list effect) :=
  b ← new_broadcast now1 now2 content c;
  let fullMsg := message msgBroadcast (broadcast_json b) in
  Some (set_seen (<[b_MessageID b := true]> (seenMessages c)) c, (λ pid, ESend pid streamCluster fullMsg) <$> member_ids c).

Definition handleBroadcast (from : string) (b : BroadcastMessage) (c : ClusterNode) : ClusterNode * list effect :=
  if default false (seenMessages c !! b_MessageID b) then (c, [])
  else
    let fullMsg := message msgBroadcast (broadcast_json b) in
    (set_seen (<[b_MessageID b := true]> (seenMessages c)) c,
     EShow (b_Name b) (b_Content b)
     :: ((λ pid, ESend pid streamCluster fullMsg) <$> List.filter (λ pid, negb (bool_decide (pid = from))) (member_ids c))).

(** ** Gossip *)

Fixpoint discover (known : list (option PeerInfo)) (c : ClusterNode) : option (list effect) :=
  match known with
  | [] => Some []
  | None :: _ => None
  | Some peerInfo :: known =>
      match peer_Decode (pi_PeerID peerInfo) with
      | None => discover known c
      | Some peerID =>
          if bool_decide (peerID = self c) then discover known c
          else if bool_decide (is_Some (members c !! peerID)) then discover known c
          else
            match pi_Addrs peerInfo with
            | [] => discover known c
            | addr :: _ =>
                _ ← prefix8 (peer_String peerID);
                rest ← discover known c;
                Some (EGo (addr +:+ "/p2p/" +:+ pi_PeerID peerInfo) :: rest)
            end
      end
  end.
Definition handleGossip (now : Z) (from : string) (g : GossipMessage) (c : ClusterNode) : option (ClusterNode * list effect) :=
  let c := touch now from c in
  connects ← discover (g_KnownPeers g) c; Some (c, connects).

Definition sendGossip (now : Z) (addrs : list Multiaddr) (c : ClusterNode) : list effect :=
  let me := {| pi_PeerID := peer_String (self c); pi_Addrs := ma_String <$> addrs; pi_Name := name c; pi_JoinedAt := 0;
               pi_LastSeen := now; pi_PublicKey := [] |} in
  let g := {| g_Sender := peer_String (self c); g_KnownPeers := Some <$> (Members c ++ [me]) |} in
  (λ pid, ESend pid streamCluster (message msgGossip (gossip_json g))) <$> member_ids c.
Definition sendPings (c : ClusterNode) : list effect := (λ pid, ESend pid streamCluster [msgPing]) <$> member_ids c.

(** ** Messages *)

Definition handleClusterMessage (now : Z) (p : string) (data : list Z) (c : ClusterNode) : option (ClusterNode * list effect) :=
  match data with
  | [] => None
  | t :: body =>
      if t =? msgGossip then
        match parse body ≫= read_gossip with None => Some (c, []) | Some g => handleGossip now p g c end
      else if t =? msgBroadcast then
        match parse body ≫= read_broadcast with None => Some (c, []) | Some b => Some (handleBroadcast p b c) end
      else if t =? msgPing then Some (c, [ESend p streamCluster [msgPong]])
      else if t =? msgPong then Some (touch now p c, [])
      else Some (c, [])
  end.

(** The handshake; [ok] is the answer of [CompleteHandshake], [addrs] what the
    peerstore has. *)
Definition handshakeStream : string := "handshake".
Definition helloMsg (c : ClusterNode) : list Z := msgHello :: bytes_of (name c).
Definition pubKeyMsg (c : ClusterNode) : list Z := msgPubKey :: publicKey c.

Definition handleHandshakeMessage (now : Z) (ok : bool) (addrs : list Multiaddr) (p : string) (data : list Z) (c : ClusterNode) : ClusterNode * list effect :=
  let state := default no_handshake (handshakes c !! p) in
  let put st := set_handshakes (<[p := st]> (handshakes c)) c in
  match data with
  | [] => (c, [])
  | t :: rest =>
      if t =? msgHello then
        (put {| hs_gotPubKey := hs_gotPubKey state; hs_peerPubKey := hs_peerPubKey state;
                hs_name := if (0 <? length rest)%nat then rest else hs_name state |},
         [ESend p handshakeStream (helloMsg c); ESend p handshakeStream (pubKeyMsg c)])
      else if t =? msgPubKey then
        (put (if (0 <? length rest)%nat then {| hs_gotPubKey := true; hs_peerPubKey := rest; hs_name := hs_name state |} else state), [])
      else if t =? msgComplete then
        if hs_gotPubKey state then
          let calls := [ESend p handshakeStream [msgComplete]; EComplete p (hs_peerPubKey state) [streamCluster]] in
          if ok then
            let c := addMember now p (hs_peerPubKey state) (string_of (hs_name state)) addrs c in
            (set_handshakes (delete p (handshakes c)) c, calls)
          else (put state, calls)
        else (put state, [])
      else (put state, [])
  end.

(** A turn of the message loop and of the event loop. *)
Definition handleMessages (now : Z) (ok : bool) (addrs : list Multiaddr) (p stream : string) (data : list Z) (c : ClusterNode) : option (ClusterNode * list effect) :=
  if bool_decide (stream = handshakeStream) then Some (handleHandshakeMessage now ok addrs p data c)
  else if bool_decide (stream = streamCluster) && (0 <? length data)%nat then handleClusterMessage now p data c
  else Some (c, []).
Definition handleEvents (disconnected : bool) (p : string) (c : ClusterNode) : ClusterNode :=
  if disconnected then removeMember p c else c.

(** ** Connecting

    [AddrInfoFromP2pAddr] is libp2p's, [connect] the answer of the node. *)
Definition ConnectPeer (AddrInfoFromP2pAddr : Multiaddr → result error (string * list Multiaddr)) (connect : option error) (addrStr : string)
    (c : ClusterNode) : option error * ClusterNode * list effect :=
  match AddrInfoFromP2pAddr <$> NewMultiaddr addrStr with
  | None => (Some (Errorf "invalid address: %w" None), c, [])
  | Some (Err e) => (Some (Errorf "failed to parse peer info: %w" (Some e)), c, [])
  | Some (Ok (p, addrs)) =>
      let c := set_handshakes (<[p := no_handshake]> (handshakes c)) c in
      match connect with
      | Some e => (Some (Errorf "connect failed: %w" (Some e)), c, [EAddPeer p; EConnect p])
      | None => (None, c, [EAddPeer p; EConnect p; ESend p handshakeStream (helloMsg c); ESend p handshakeStream (pubKeyMsg c)])
      end
  end.
(** One look of the goroutine that waits for the key, 50 ms apart, at most a
    hundred times: [Some] when it has come. *)
Definition poll_key (p : string) (c : ClusterNode) : option handshakeState :=
  state ← handshakes c !! p; if hs_gotPubKey state then Some state else None.
Definition finish_connect (now : Z) (p : string) (addrs : list Multiaddr) (state : handshakeState) (c : ClusterNode) : ClusterNode * list effect :=
  let c := addMember now p (hs_peerPubKey state) (string_of (hs_name state)) addrs c in
  (set_handshakes (delete p (handshakes c)) c, [ESend p handshakeStream [msgComplete]; EComplete p (hs_peerPubKey state) [streamCluster]]).
End Cluster.

(** ** What is read of what was written *)

Definition utf8 (s : string) : Prop := to_valid s = s.
(** A broadcast that JSON can carry. *)
Record plain_broadcast (b : BroadcastMessage) : Prop := {
  pb_Sender : utf8 (b_Sender b); pb_Name : utf8 (b_Name b); pb_Content : utf8 (b_Content b);
  pb_MessageID : utf8 (b_MessageID b); pb_Timestamp : GoInt.in_int64 (b_Timestamp b);
}.

Lemma read_broadcast_json b : plain_broadcast b → parse (print compact 0 (broadcast_json b)) ≫= read_broadcast = Some b.
Proof.
  intros [H1 H2 H3 H4 H5]. rewrite parse_print; [| apply compact_ok |].
  2: { unfold broadcast_json. apply (members_app (field _ _)); [auto with json |]. repeat apply members_app; auto with json. }
  cbn [mbind option_bind]. unfold read_broadcast, read_struct, broadcast_json, field. cbn [sanitize app map fst snd foldl mbind option_bind].
  unfold broadcast_fields. cbn [read_field fst snd]. known_fields.
  rewrite !read_jstr. cbn [mbind option_bind]. rewrite !read_jstr. cbn [mbind option_bind]. rewrite !read_jstr. cbn [mbind option_bind].
  rewrite read_jint by done. cbn [mbind option_bind]. rewrite read_jstr. cbn. unfold utf8 in *. rewrite H1, H2, H3, H4. by destruct b.
Qed.

(** ** A broadcast floods the cluster *)

Section Flooding.
Context `{Libp2p} (now : Z).

(** A node of the network of a cluster: what it does with a message of the
    cluster's stream. *)
Definition sent (es : list effect) : list (string * list Z) :=
  omap (λ e, match e with ESend q s d => if bool_decide (s = streamCluster) then Some (q, d) else None | _ => None end) es.
Definition shows (es : list effect) : list (string * string) :=
  omap (λ e, match e with EShow n c => Some (n, c) | _ => None end) es.
Definition cluster_receive (p : string) (data : list Z) (c : ClusterNode) : option (ClusterNode * list (string * list Z) * list (string * string)) :=
  '(c, es) ← handleClusterMessage now p data c; Some (c, sent es, shows es).

Lemma sent_send q d es : sent (ESend q streamCluster d :: es) = (q, d) :: sent es.
Proof. done. Qed.
Lemma sent_all (ids : list string) d : sent ((λ q, ESend q streamCluster d) <$> ids) = (λ q, (q, d)) <$> ids.
Proof. induction ids as [|q ids IH]; [done |]. by rewrite !fmap_cons, sent_send, IH. Qed.
Lemma sent_show n c es : sent (EShow n c :: es) = sent es.
Proof. done. Qed.
Lemma shows_show n c es : shows (EShow n c :: es) = (n, c) :: shows es.
Proof. done. Qed.
Lemma shows_sends (ids : list string) d : shows ((λ q, ESend q streamCluster d) <$> ids) = [].
Proof. by induction ids. Qed.

Context (b : BroadcastMessage) (Hb : plain_broadcast b).
Definition bytes : list Z := message msgBroadcast (broadcast_json b).

Lemma handle_bytes p c : handleClusterMessage now p bytes c = Some (handleBroadcast p b c).
Proof using Hb.
  unfold handleClusterMessage, bytes, message. change (msgBroadcast =? msgGossip) with false.
  change (msgBroadcast =? msgBroadcast) with true. cbv iota. by rewrite read_broadcast_json.
Qed.

#[local] Instance cluster_floods : Floods cluster_receive bytes (b_Name b, b_Content b).
Proof using Hb.
  refine {| links c := dom (members c); knows c := default false (seenMessages c !! b_MessageID b) |}.
  - intros p c Hk. unfold cluster_receive. rewrite handle_bytes. unfold handleBroadcast. by rewrite Hk.
  - intros p c Hk. unfold cluster_receive. rewrite handle_bytes. unfold handleBroadcast. rewrite Hk. cbn [mbind option_bind].
    do 2 eexists. split; [| split; [| split]].
    + rewrite sent_show, shows_show. unfold bytes. rewrite sent_all, shows_sends. reflexivity.
    + unfold member_ids. apply NoDup_Permutation; [apply NoDup_ListNoDup, List.NoDup_filter, NoDup_ListNoDup, NoDup_elements | apply NoDup_elements |].
      intros q. rewrite !list_elem_of_In, List.filter_In, <- !list_elem_of_In, !elem_of_elements.
      rewrite negb_true_iff, bool_decide_eq_false. set_solver.
    + cbn. by rewrite lookup_insert_eq.
    + reflexivity.
Defined.
End Flooding.

(** The members of a node's cluster, and the others that can be reached. *)
Definition joined `{Libp2p} (nodes : gmap string ClusterNode) (p q : string) : Prop :=
  ∃ c, nodes !! p = Some c ∧ is_Some (members c !! q).

(** C10. A broadcast reaches everybody, once.  In a cluster whose members stay what
    they are, every one of them a node, a node broadcasts a content under an
    identifier nobody has seen.  However the messages are delivered, a node
    shows the broadcast at most once and shows nothing else; after at most as
    many deliveries as there are memberships nothing is under way; and then
    every node that can be reached from the first over memberships, itself
    apart, has shown it, with its name and content, and no other node has. *)
Theorem broadcast_reaches_all `{Libp2p} now nodes o c t1 t2 content b c' es n s :
  nodes !! o = Some c → (∀ p q, joined nodes p q → is_Some (nodes !! q)) →
  new_broadcast t1 t2 content c = Some b → plain_broadcast b →
  (∀ q c, nodes !! q = Some c → seenMessages c !! b_MessageID b = None) →
  Broadcast t1 t2 content c = Some (c', es) →
  nsteps (deliver (cluster_receive now)) n {| nodes := <[o := c']> nodes; wire := posted o (sent es); shown := [] |} s →
  let u := (name c, content) in
  (∀ p, (length (filter (λ x, x.1 = p) (shown s)) <= 1)%nat ∧ filter (λ x, x.1 = p) (shown s) ⊆ [(p, u)])
  ∧ (n <= sum_list_with (λ x, size (dom (members x.2))) (map_to_list nodes))%nat
  ∧ ((∀ s', ¬ deliver (cluster_receive now) s s') → wire s = []
     ∧ ∀ p, (p ≠ o → rtc (joined nodes) o p → filter (λ x, x.1 = p) (shown s) = [(p, u)])
            ∧ (p = o ∨ ¬ rtc (joined nodes) o p → filter (λ x, x.1 = p) (shown s) = [])).
Proof.
  intros Ho Hcl Hnb Hb Hfresh HB Hs. cbv zeta.
  unfold Broadcast in HB. rewrite Hnb in HB. cbn [mbind option_bind] in HB. injection HB as <- <-.
  assert (b_Name b = name c ∧ b_Content b = content) as [En Ec].
  { unfold new_broadcast in Hnb. destruct (prefix8 _); [| done]. by simplify_eq/=. }
  set (c1 := set_seen _ c) in *.
  assert (∀ p q, neighbour (Floods0 := cluster_floods now b Hb) nodes p q ↔ joined nodes p q) as Hn.
  { intros p q. unfold neighbour, joined. cbn [links cluster_floods]. by setoid_rewrite elem_of_dom. }
  rewrite sent_all in Hs.
  destruct (flooded_from (Floods0 := cluster_floods now b Hb) nodes o c c1 (member_ids c) n s) as (H1 & H2 & H3); try done.
  - cbn. by rewrite lookup_insert_eq.
  - intros q x Hx N. cbn. by rewrite (Hfresh q x Hx).
  - intros p q Hpq%Hn. by apply (Hcl p).
  - rewrite <- En, <- Ec. split; [exact H1 |]. split; [exact H2 |]. intros Hstuck. destruct (H3 Hstuck) as [Hw Hp]. split; [exact Hw |].
    assert (∀ x y, rtc (joined nodes) x y ↔ rtc (neighbour (Floods0 := cluster_floods now b Hb) nodes) x y) as Hr.
    { intros x y. split; apply rtc_subrel; intros ? ?; apply Hn. }
    intros p. rewrite Hr. apply Hp.
Qed.

(** ** Where it goes wrong *)

(** A gossip that lists [null] ends the program of whoever receives it. *)
Lemma null_peer_panics `{Libp2p} now p body g rest c :
  parse body ≫= read_gossip = Some g → g_KnownPeers g = None :: rest → handleClusterMessage now p (msgGossip :: body) c = None.
Proof.
  intros Hg Hk. unfold handleClusterMessage. change (msgGossip =? msgGossip) with true. cbv iota. rewrite Hg.
  unfold handleGossip. by rewrite Hk.
Qed.
Example null_peer : parse (bytes_of "{}") ≫= read_gossip = Some {| g_Sender := ""; g_KnownPeers := [] |}
  ∧ (g_KnownPeers <$> (parse (print compact 0 (JObj (field "known_peers" (JArr [JNull])))) ≫= read_gossip)) = Some [None].
Proof. split; vm_compute; reflexivity. Qed.

(** The identifier of a broadcast has the first eight characters of the peer's
    and the time: peers that agree in these make the same one at the same
    time, and of two broadcasts under it a node that has seen one drops the
    other. *)
Lemma identifiers_collide `{Libp2p} t1 t1' t2 content content' c c' b b' from x :
  prefix8 (peer_String (self c)) = prefix8 (peer_String (self c')) →
  new_broadcast t1 t2 content c = Some b → new_broadcast t1' t2 content' c' = Some b' →
  (handleBroadcast from b' (handleBroadcast from b x).1).2 = [].
Proof.
  unfold new_broadcast. intros E Hb Hb'. rewrite <- E in Hb'. destruct (prefix8 _); [| done]. cbn in Hb, Hb'. simplify_eq.
  unfold handleBroadcast at 2. cbn [b_MessageID]. destruct (default false _) eqn:Es; cbn [fst].
  - unfold handleBroadcast. cbn [b_MessageID]. by rewrite Es.
  - unfold handleBroadcast. cbn [b_MessageID seenMessages set_seen]. by rewrite lookup_insert_eq.
Qed.

Lemma stop_twice_panics `{Libp2p} c c' : Stop c = Some c' → Stop c' = None.
Proof. unfold Stop. destruct (stopped c); [done |]. by intros [= <-]. Qed.

(** ** Witness: three nodes in a row *)

Module ClusterWitness.
#[local] Existing Instance plain_libp2p.

Definition member (p : string) : PeerInfo :=
  {| pi_PeerID := p; pi_Addrs := []; pi_Name := p; pi_JoinedAt := 0; pi_LastSeen := 0; pi_PublicKey := [] |}.
Definition node_with (p nm : string) (ms : list string) : ClusterNode :=
  set_members (list_to_map ((λ m, (m, member m)) <$> ms)) (NewClusterNode p nm [1]).
Definition idA : string := "12D3KooWA".
Definition idB : string := "12D3KooWB".
Definition idC : string := "12D3KooWC".
Definition row : gmap string ClusterNode :=
  {[ idA := node_with idA "alice" [idB]; idB := node_with idB "bob" [idA; idC]; idC := node_with idC "carol" [idB] ]}.
Definition alice : ClusterNode := node_with idA "alice" [idB].
Definition hi : BroadcastMessage :=
  {| b_Sender := idA; b_Name := "alice"; b_Content := "hi"; b_Timestamp := 5; b_MessageID := "12D3KooW-7" |}.
Definition sent_hi : network ClusterNode (list Z) (string * string) :=
  {| nodes := <[idA := set_seen (<["12D3KooW-7"%string := true]> ∅) alice]> row;
     wire := [(idA, idB, message msgBroadcast (broadcast_json hi))]; shown := [] |}.
Definition all_heard : network ClusterNode (list Z) (string * string) :=
  default sent_hi (deliver_firsts (cluster_receive 9) 2 sent_hi).

Lemma row_members p c : row !! p = Some c → c ∈ [alice; node_with idB "bob" [idA; idC]; node_with idC "carol" [idB]].
Proof.
  unfold row. rewrite lookup_insert. case_decide; [intros [= <-]; by left |].
  rewrite lookup_insert. case_decide; [intros [= <-]; right; by left |].
  rewrite lookup_singleton_Some. intros [_ <-]. right. right. by left.
Qed.

Lemma row_closed p q : joined row p q → is_Some (row !! q).
Proof.
  intros (c & Hc%row_members & Hq). assert (q ∈ [idA; idB; idC]) as Hin.
  { apply elem_of_dom in Hq. assert (∀ x, x ∈ dom (members c) → x ∈ [idA; idB; idC]) as Hd; [| by apply Hd].
    intros x. rewrite <- elem_of_elements.
    repeat (apply elem_of_cons in Hc as [->|Hc]; [vm_compute elements; set_solver |]). by apply not_elem_of_nil in Hc. }
  repeat (apply elem_of_cons in Hin as [->|Hin]; [vm_compute; by eexists |]). by apply not_elem_of_nil in Hin.
Qed.

Lemma broadcast_reaches_all_witness :
  nsteps (deliver (cluster_receive 9)) 2 sent_hi all_heard
  ∧ filter (λ x, x.1 = idC) (shown all_heard) ⊆ [(idC, ("alice"%string, "hi"%string))]
  ∧ shown all_heard = [(idB, ("alice"%string, "hi"%string)); (idC, ("alice"%string, "hi"%string))].
Proof.
  assert (nsteps (deliver (cluster_receive 9)) 2 sent_hi all_heard) as Hs.
  { apply deliver_firsts_steps. vm_compute. reflexivity. }
  split; [exact Hs |]. split; [| vm_compute; reflexivity].
  refine (proj2 (proj1 (broadcast_reaches_all 9 row idA alice 5 7 "hi" hi (set_seen (<["12D3KooW-7"%string := true]> ∅) alice)
    [ESend idB streamCluster (message msgBroadcast (broadcast_json hi))] 2 all_heard _ row_closed _ _ _ _ _) idC)).
  - reflexivity.
  - vm_compute. reflexivity.
  - split; try (vm_compute; reflexivity). vm_compute. split; discriminate.
  - intros q c Hc%row_members. repeat (apply elem_of_cons in Hc as [->|Hc]; [reflexivity |]). by apply not_elem_of_nil in Hc.
  - vm_compute. reflexivity.
  - exact Hs.
Defined.
End ClusterWitness.
