(* ===== verification/Rpc.v ===== *)
(** * Remote calls over a stream ([examples/rpc/main.go])

    A client numbers its calls and keeps a channel for each that is under way;
    a server answers a request with the result of the handler of its method.
    A method is cut at the client's lock and where it waits, so that any number
    of calls and of responses interleave.  A [json.RawMessage] is the JSON
    value it spells, [None] when it is empty.  The handshake is that of
    [ExampleHandshake]. *)

From S2P Require Import Prelude Errors Validation Json Rfc3339 JsonRead.
Local Open Scope Z_scope.

Definition msgRequest : Z := 20.
Definition msgResponse : Z := 21.
Definition streamRPC : string := "rpc".

(** ** Messages *)

Record RPCRequest := { q_ID : Z; q_Method : string; q_Params : option json }.
Record RPCError := { e_Code : Z; e_Message : string }.
Record RPCResponse := { p_ID : Z; p_Result : option json; p_Error : option RPCError }.

Definition request_json (r : RPCRequest) : json :=
  JObj (field "id" (jint (q_ID r)) ++ field "method" (jstr (q_Method r)) ++ from_option (field "params") [] (q_Params r)).
Definition error_json (e : RPCError) : json := JObj (field "code" (jint (e_Code e)) ++ field "message" (jstr (e_Message e))).
Definition response_json (r : RPCResponse) : json :=
  JObj (field "id" (jint (p_ID r)) ++ from_option (field "result") [] (p_Result r)
    ++ from_option (λ e, field "error" (error_json e)) [] (p_Error r)).
Definition rpc_bytes (tag : Z) (j : json) : list Z := tag :: print compact 0 j.

Definition request_fields : fields RPCRequest :=
  [ ("id", λ r j, x ← read_uint 64 (q_ID r) j; Some {| q_ID := x; q_Method := q_Method r; q_Params := q_Params r |});
    ("method", λ r j, x ← read_string (q_Method r) j; Some {| q_ID := q_ID r; q_Method := x; q_Params := q_Params r |});
    ("params", λ r j, Some {| q_ID := q_ID r; q_Method := q_Method r; q_Params := Some j |}) ]%string.
Definition read_request : json → option RPCRequest := read_struct request_fields {| q_ID := 0; q_Method := ""; q_Params := None |}.

Definition error_fields : fields RPCError :=
  [ ("code", λ e j, x ← read_int (e_Code e) j; Some {| e_Code := x; e_Message := e_Message e |});
    ("message", λ e j, x ← read_string (e_Message e) j; Some {| e_Code := e_Code e; e_Message := x |}) ]%string.
(** A pointer: [null] is nil. *)
Definition read_error (j : json) : option (option RPCError) :=
  match j with JNull => Some None | _ => Some <$> read_struct error_fields {| e_Code := 0; e_Message := "" |} j end.
Definition response_fields : fields RPCResponse :=
  [ ("id", λ r j, x ← read_uint 64 (p_ID r) j; Some {| p_ID := x; p_Result := p_Result r; p_Error := p_Error r |});
    ("result", λ r j, Some {| p_ID := p_ID r; p_Result := Some j; p_Error := p_Error r |});
    ("error", λ r j, x ← read_error j; Some {| p_ID := p_ID r; p_Result := p_Result r; p_Error := x |}) ]%string.
Definition read_response : json → option RPCResponse := read_struct response_fields {| p_ID := 0; p_Result := None; p_Error := None |}.

(** ** The client *)

Record RPCClient := {
  nextID : Z;
  pending : gmap Z nat;                  (** the number of a channel *)
  chans : list (list RPCResponse);       (** channels of one place *)
}.
Definition NewRPCClient : RPCClient := {| nextID := 0; pending := ∅; chans := [] |}.

(** What a call returns: the result, an error the server reported, or an error
    of its own. *)
Inductive outcome := Result (r : option json) | Refused (code : Z) (message : string) | Failed (e : error).

Definition outcome_of (resp : RPCResponse) : outcome :=
  match p_Error resp with Some e => Refused (e_Code e) (e_Message e) | None => Result (p_Result resp) end.

(** [params] is [nil], or what [json.Marshal] makes of the parameters. *)
Record call := { c_peer : string; c_method : string; c_params : option (result error json) }.

Definition call_id (c : RPCClient) : Z * RPCClient :=
  let id := (nextID c + 1) mod 2 ^ 64 in (id, {| nextID := id; pending := pending c; chans := chans c |}).
Definition call_register (id : Z) (c : RPCClient) : nat * RPCClient :=
  let respCh := length (chans c) in
  (respCh, {| nextID := nextID c; pending := <[id := respCh]> (pending c); chans := chans c ++ [[]] |}).
Definition call_message (id : Z) (k : call) : result error (list Z) :=
  match c_params k with
  | Some (Err e) => Err (Errorf "failed to marshal params: %w" (Some e))
  | Some (Ok j) => Ok (rpc_bytes msgRequest (request_json {| q_ID := id; q_Method := c_method k; q_Params := Some j |}))
  | None => Ok (rpc_bytes msgRequest (request_json {| q_ID := id; q_Method := c_method k; q_Params := None |}))
  end.
Definition call_receive (respCh : nat) (c : RPCClient) : option (RPCResponse * RPCClient) :=
  match chans c !! respCh with
  | Some (r :: l) => Some (r, {| nextID := nextID c; pending := pending c; chans := <[respCh := l]> (chans c) |})
  | _ => None
  end.
Definition call_cleanup (id : Z) (c : RPCClient) : RPCClient :=
  {| nextID := nextID c; pending := delete id (pending c); chans := chans c |}.

(** A call from where it is to where it next gives way. *)
Inductive phase :=
| Entered
| Numbered (id : Z)
| Registered (id : Z) (respCh : nat)
| Waiting (id : Z) (respCh : nat)
| Leaving (id : Z) (respCh : nat) (o : outcome)
| Returned (id : Z) (respCh : nat) (o : outcome).

(** What the surroundings say: nothing in particular, that the send fails, or
    that the context is done. *)
Inductive happening := Proceed | SendFails (e : error) | ContextDone (e : error).

Definition Call (k : call) (h : happening) (ph : phase) (c : RPCClient) : option (phase * RPCClient * list (string * list Z)) :=
  match ph, h with
  | Entered, Proceed => let (id, c) := call_id c in Some (Numbered id, c, [])
  | Numbered id, Proceed => let (respCh, c) := call_register id c in Some (Registered id respCh, c, [])
  | Registered id respCh, _ =>
      match call_message id k, h with
      | Err e, Proceed => Some (Leaving id respCh (Failed e), c, [])
      | Ok msg, Proceed => Some (Waiting id respCh, c, [(c_peer k, msg)])
      | Ok msg, SendFails e => Some (Leaving id respCh (Failed (Errorf "failed to send request: %w" (Some e))), c, [])
      | _, _ => None
      end
  | Waiting id respCh, Proceed => '(resp, c) ← call_receive respCh c; Some (Leaving id respCh (outcome_of resp), c, [])
  | Waiting id respCh, ContextDone e => Some (Leaving id respCh (Failed e), c, [])
  | Leaving id respCh o, Proceed => Some (Returned id respCh o, call_cleanup id c, [])
  | _, _ => None
  end.

(** A response: the channel of its call is looked up under the lock, and
    offered the response. *)
Definition response_lookup (data : list Z) (c : RPCClient) : option (nat * RPCResponse) :=
  resp ← parse data ≫= read_response; ch ← pending c !! p_ID resp; Some (ch, resp).
Definition response_offer (ch : nat) (resp : RPCResponse) (c : RPCClient) : RPCClient :=
  match chans c !! ch with
  | Some [] => {| nextID := nextID c; pending := pending c; chans := <[ch := [resp]]> (chans c) |}
  | _ => c
  end.
Definition HandleResponse (data : list Z) (c : RPCClient) : RPCClient :=
  match response_lookup data c with Some (ch, resp) => response_offer ch resp c | None => c end.

(** ** The server

    A handler gives an error's text, or a value, [None] for one that
    [json.Marshal] refuses. *)

Definition RPCHandler : Type := option json → result string (option json).
Definition RPCServer : Type := gmap string RPCHandler.
Definition NewRPCServer : RPCServer := ∅.
Definition Register (method : string) (handler : RPCHandler) (s : RPCServer) : RPCServer := <[method := handler]> s.

Definition response_message (r : RPCResponse) : list Z := rpc_bytes msgResponse (response_json r).
Definition sendError (reqID code : Z) (message : string) : list Z :=
  response_message {| p_ID := reqID; p_Result := None; p_Error := Some {| e_Code := code; e_Message := message |} |}.
Definition sendResult (reqID : Z) (result : option json) : list Z :=
  match result with
  | None => sendError reqID (-32603) "Internal error"
  | Some j => response_message {| p_ID := reqID; p_Result := Some j; p_Error := None |}
  end.
(** The message it sends back. *)
Definition HandleRequest (s : RPCServer) (data : list Z) : list Z :=
  match parse data ≫= read_request with
  | None => sendError 0 (-32700) "Parse error"
  | Some req =>
      match s !! q_Method req with
      | None => sendError (q_ID req) (-32601) ("Method not found: " +:+ q_Method req)
      | Some handler =>
          match handler (q_Params req) with
          | Err e => sendError (q_ID req) (-32000) e
          | Ok result => sendResult (q_ID req) result
          end
      end
  end.

(** A message of the stream: what it has the program send back, and the
    client. *)
Definition on_rpc_message (s : RPCServer) (data : list Z) (c : RPCClient) : option (list Z) * RPCClient :=
  match data with
  | t :: ((_ :: _) as body) =>
      if t =? msgRequest then (Some (HandleRequest s body), c)
      else if t =? msgResponse then (None, HandleResponse body c)
      else (None, c)
  | _ => (None, c)
  end.

(** *** The methods of the example

    [invalid] is the text of the error of [json.Unmarshal]. *)
Definition invalid_params (invalid : option json → string) (params : option json) : result string (option json) :=
  Err ("invalid params: " +:+ invalid params)%string.
Definition echo (invalid : option json → string) : RPCHandler := λ params,
  match params ≫= read_struct [("message"%string, λ s j, read_string s j)] ""%string with
  | None => invalid_params invalid params
  | Some message => Ok (Some (JObj (field "echo" (jstr message))))
  end.
Definition add_fields : fields (Z * Z) :=
  [ ("a", λ p j, x ← read_int p.1 j; Some (x, p.2)); ("b", λ p j, x ← read_int p.2 j; Some (p.1, x)) ]%string.
Definition add (invalid : option json → string) : RPCHandler := λ params,
  match params ≫= read_struct add_fields (0, 0) with
  | None => invalid_params invalid params
  | Some (a, b) => Ok (Some (JObj (field "sum" (jint (GoInt.wrap64 (a + b))))))
  end.
(** The time in its zone, in minutes, and the start of the node's identifier. *)
Definition getTime (now : time) (zone unix : Z) (id8 : string) : RPCHandler := λ _,
  Ok (Some (JObj (field "time" (JStr (RFC3339 zone now)) ++ field "unix" (jint unix) ++ field "peer_id" (jstr id8)))).
Definition getPeers (peers : list string) : RPCHandler := λ _,
  Ok (Some (JObj (field "count" (jint (Z.of_nat (length peers))) ++ field "peers" (JArr (jstr <$> peers))))).
Definition example_server (invalid : option json → string) (now : time) (zone unix : Z) (id8 : string) (peers : list string) : RPCServer :=
  Register "getPeers" (getPeers peers) (Register "getTime" (getTime now zone unix id8)
    (Register "add" (add invalid) (Register "echo" (echo invalid) NewRPCServer))).

(** The peer the console's commands go to: the last that was established and
    has not been disconnected. *)
Inductive peer_event := PeerEstablished (p : string) | PeerDisconnected (p : string).
Definition on_event (e : peer_event) (connectedPeer : string) : string :=
  match e with
  | PeerEstablished p => p
  | PeerDisconnected p => if String.eqb connectedPeer p then "" else connectedPeer
  end.

(** ** What is read of what is written *)

Definition sanitized (params : option json) : option json := sanitize <$> params.
Definition printable (j : option json) : Prop := match j with Some j => well_formed j | None => True end.

Lemma read_request_json r : 0 <= q_ID r < 2 ^ 64 → printable (q_Params r) →
  parse (print compact 0 (request_json r)) ≫= read_request
  = Some {| q_ID := q_ID r; q_Method := to_valid (q_Method r); q_Params := sanitized (q_Params r) |}.
Proof.
  intros Hid Hp. rewrite parse_print; [| apply compact_ok |].
  2: { unfold request_json. apply (members_app (field _ _)); [auto with json |]. apply members_app; [auto with json |].
       destruct (q_Params r); [by apply field_ok | done]. }
  cbn [mbind option_bind]. unfold read_request, read_struct, request_json, field. destruct r as [id m [j|]]; cbn [q_ID q_Method q_Params] in *.
  all: cbn [from_option sanitize app map fst snd foldl mbind option_bind]; unfold request_fields; cbn [read_field fst snd]; known_fields;
    rewrite read_juint by lia; cbn [mbind option_bind]; by rewrite read_jstr.
Qed.

Definition sanitized_error (e : RPCError) : RPCError := {| e_Code := e_Code e; e_Message := to_valid (e_Message e) |}.
Lemma read_error_json e : in_int64 (e_Code e) → read_error (sanitize (error_json e)) = Some (Some (sanitized_error e)).
Proof.
  intros Hc. unfold error_json, field. cbn [sanitize app map fst snd]. unfold read_error, read_struct. cbn [foldl mbind option_bind].
  unfold error_fields. cbn [read_field fst snd]. known_fields. rewrite read_jint by done. cbn [mbind option_bind]. by rewrite read_jstr.
Qed.
Definition code_ok (e : option RPCError) : Prop := match e with Some e => in_int64 (e_Code e) | None => True end.
Lemma read_response_json r : 0 <= p_ID r < 2 ^ 64 → printable (p_Result r) → code_ok (p_Error r) →
  parse (print compact 0 (response_json r)) ≫= read_response
  = Some {| p_ID := p_ID r; p_Result := sanitized (p_Result r); p_Error := sanitized_error <$> p_Error r |}.
Proof.
  intros Hid Hp He. rewrite parse_print; [| apply compact_ok |].
  2: { unfold response_json. apply (members_app (field _ _)); [auto with json |]. apply members_app.
       - destruct (p_Result r); [by apply field_ok | done].
       - destruct (p_Error r) as [e|]; [| done]. apply field_ok. unfold error_json. apply (members_app (field _ _)); auto with json. }
  cbn [mbind option_bind]. unfold read_response, read_struct, response_json, field.
  destruct r as [id [j|] [e|]]; cbn [p_ID p_Result p_Error fmap option_fmap option_map sanitized] in *.
  all: cbn [from_option app]; cbn -[error_json response_fields jint]; unfold response_fields; cbn [read_field fst snd]; known_fields;
    rewrite read_juint by lia; cbn [mbind option_bind]; by rewrite ?read_error_json.
Qed.

(** ** Any number of calls

    One client and its servers; the messages on their way may arrive in any
    order, a response that has found its channel is offered later, and the
    calls are anywhere in between. *)

Section Calls.
Context (servers : string → RPCServer).

Record rpc := {
  client : RPCClient;
  under_way : list (call * phase);
  to_servers : list (string * list Z);
  to_client : list (list Z);
  handling : list (nat * RPCResponse);
}.
Definition rpc_start : rpc := {| client := NewRPCClient; under_way := []; to_servers := []; to_client := []; handling := [] |}.

Inductive rpc_step : rpc → rpc → Prop :=
| rpc_call s k : printable (match c_params k with Some (Ok j) => Some j | _ => None end) →
    rpc_step s {| client := client s; under_way := under_way s ++ [(k, Entered)]; to_servers := to_servers s;
                  to_client := to_client s; handling := handling s |}
| rpc_advance s i k ph h ph' c' sends : under_way s !! i = Some (k, ph) → Call k h ph (client s) = Some (ph', c', sends) →
    rpc_step s {| client := c'; under_way := <[i := (k, ph')]> (under_way s); to_servers := to_servers s ++ sends;
                  to_client := to_client s; handling := handling s |}
| rpc_serve s l1 p t b data l2 response : to_servers s = l1 ++ (p, t :: b :: data) :: l2 →
    (on_rpc_message (servers p) (t :: b :: data) NewRPCClient).1 = Some response →
    rpc_step s {| client := client s; under_way := under_way s; to_servers := l1 ++ l2;
                  to_client := to_client s ++ [response]; handling := handling s |}
| rpc_respond s l1 data l2 : to_client s = l1 ++ (msgResponse :: data) :: l2 →
    rpc_step s {| client := client s; under_way := under_way s; to_servers := to_servers s; to_client := l1 ++ l2;
                  handling := handling s ++ option_list (response_lookup data (client s)) |}
| rpc_offer s l1 ch resp l2 : handling s = l1 ++ (ch, resp) :: l2 →
    rpc_step s {| client := response_offer ch resp (client s); under_way := under_way s; to_servers := to_servers s;
                  to_client := to_client s; handling := l1 ++ l2 |}.

(** What a call should return: what the server's handler of the method gives
    for the parameters, as they arrive. *)
Definition answer (k : call) : outcome :=
  let method := to_valid (c_method k) in
  match servers (c_peer k) !! method with
  | None => Refused (-32601) (to_valid ("Method not found: " +:+ method))
  | Some handler =>
      match handler (match c_params k with Some (Ok j) => Some (sanitize j) | _ => None end) with
      | Err e => Refused (-32000) (to_valid e)
      | Ok None => Refused (-32603) "Internal error"
      | Ok (Some j) => Result (Some (sanitize j))
      end
  end.
(** Handlers give values that JSON can carry. *)
Definition handlers_print : Prop := ∀ p m handler params j,
  servers p !! m = Some handler → handler params = Ok (Some j) → well_formed j.

(** *** A request and its response *)

Context (Hprint : handlers_print).

(** The response to a request has its number and its answer. *)
Definition answers_call (k : call) (id : Z) (data : list Z) : Prop :=
  ∃ resp, parse data ≫= read_response = Some resp ∧ p_ID resp = id ∧ outcome_of resp = answer k.

Lemma sendError_read id code message : 0 <= id < 2 ^ 64 → in_int64 code →
  ∃ data resp, sendError id code message = msgResponse :: data ∧ parse data ≫= read_response = Some resp
    ∧ p_ID resp = id ∧ outcome_of resp = Refused code (to_valid message).
Proof.
  intros Hid Hc. unfold sendError, response_message, rpc_bytes. do 2 eexists. split; [done |]. split; [by rewrite read_response_json |]. done.
Qed.
Lemma sendResult_read id result : 0 <= id < 2 ^ 64 → printable result →
  ∃ data resp, sendResult id result = msgResponse :: data ∧ parse data ≫= read_response = Some resp ∧ p_ID resp = id
    ∧ outcome_of resp = match result with Some j => Result (Some (sanitize j)) | None => Refused (-32603) "Internal error" end.
Proof.
  intros Hid Hp. destruct result as [j|]; cbn [sendResult].
  - unfold response_message, rpc_bytes. do 2 eexists. split; [done |]. split; [by rewrite read_response_json |]. done.
  - destruct (sendError_read id (-32603) "Internal error" Hid) as (d & r & ? & ? & ? & E); [unfold in_int64, minInt64, maxInt64; lia |].
    by exists d, r.
Qed.

Definition call_printable (k : call) : Prop := printable (match c_params k with Some (Ok j) => Some j | _ => None end).

(** A call's message is read as its request. *)
Definition is_request (id : Z) (msg : list Z) : Prop :=
  ∃ body req, msg = msgRequest :: body ∧ parse body ≫= read_request = Some req ∧ q_ID req = id.
Definition arriving (k : call) : option json := match c_params k with Some (Ok j) => Some (sanitize j) | _ => None end.
Lemma message_read k id msg :
  0 <= id < 2 ^ 64 → call_printable k → call_message id k = Ok msg →
  ∃ body, msg = msgRequest :: body
    ∧ parse body ≫= read_request = Some {| q_ID := id; q_Method := to_valid (c_method k); q_Params := arriving k |}.
Proof.
  intros Hid Hp Hm. unfold call_message, call_printable, arriving in *.
  destruct (c_params k) as [[e|j]|]; simplify_eq; eexists; (split; [done |]); by rewrite read_request_json.
Qed.

Lemma request_answered k id msg :
  0 <= id < 2 ^ 64 → call_printable k → call_message id k = Ok msg →
  ∃ data body, msg = msgRequest :: data ∧ HandleRequest (servers (c_peer k)) data = msgResponse :: body ∧ answers_call k id body.
Proof.
  intros Hid Hp Hm. destruct (message_read k id msg Hid Hp Hm) as (data & -> & Hr). exists data. unfold HandleRequest. rewrite Hr.
  cbn [q_ID q_Method q_Params]. unfold answers_call, answer. fold (arriving k).
  assert (∀ code m, -40000 <= code <= 40000 → ∃ body, msgRequest :: data = msgRequest :: data ∧ sendError id code m = msgResponse :: body
     ∧ ∃ resp, parse body ≫= read_response = Some resp ∧ p_ID resp = id ∧ outcome_of resp = Refused code (to_valid m)) as Herr.
  { intros code m Hc. destruct (sendError_read id code m Hid) as (d & r & ? & ? & ? & ?); [unfold in_int64, minInt64, maxInt64; lia |]. eauto 10. }
  destruct (servers (c_peer k) !! to_valid (c_method k)) as [handler|] eqn:Es; [| apply Herr; lia].
  destruct (handler _) as [e|result] eqn:Eh; [apply Herr; lia |].
  destruct (sendResult_read id result Hid) as (d & r & ? & ? & ? & E); [destruct result; [by eapply Hprint | done] |].
  exists d. split_and!; try done. exists r. rewrite E. by destruct result.
Qed.

(** *** The calls and their numbers *)

Definition id_of (ph : phase) : option Z :=
  match ph with Entered => None | Numbered id | Registered id _ | Waiting id _ | Leaving id _ _ | Returned id _ _ => Some id end.
Definition ch_of (ph : phase) : option nat :=
  match ph with Entered | Numbered _ => None | Registered _ ch | Waiting _ ch | Leaving _ ch _ | Returned _ ch _ => Some ch end.
Definition is_registered (ph : phase) : bool := match ph with Registered _ _ | Waiting _ _ | Leaving _ _ _ => true | _ => false end.

Notation calls := (list (call * phase)).
Definition has_id (l : calls) (k : call) (id : Z) : Prop := ∃ i ph, l !! i = Some (k, ph) ∧ id_of ph = Some id.
Definition has_ch (l : calls) (k : call) (ch : nat) : Prop := ∃ i ph, l !! i = Some (k, ph) ∧ ch_of ph = Some ch.

(** Numbers are those given out so far, and each has one call; so are
    channels. *)
Record slots (next : Z) (nch : nat) (l : calls) : Prop := {
  sl_plain : ∀ k ph, (k, ph) ∈ l → call_printable k;
  sl_ids : ∀ i k ph id, l !! i = Some (k, ph) → id_of ph = Some id → 1 <= id <= next;
  sl_id_once : ∀ i j k k' ph ph' id, l !! i = Some (k, ph) → l !! j = Some (k', ph') → id_of ph = Some id → id_of ph' = Some id → i = j;
  sl_chs : ∀ i k ph ch, l !! i = Some (k, ph) → ch_of ph = Some ch → (ch < nch)%nat;
  sl_ch_once : ∀ i j k k' ph ph' ch, l !! i = Some (k, ph) → l !! j = Some (k', ph') → ch_of ph = Some ch → ch_of ph' = Some ch → i = j;
}.

Lemma lookup_snoc_Some {A} (l : list A) x i y : (l ++ [x]) !! i = Some y → l !! i = Some y ∨ (i = length l ∧ y = x).
Proof. intros [?|[? H]]%lookup_app_Some; [by left |]. apply list_lookup_singleton_Some in H as [? ?]. right. split; [lia | done]. Qed.

Lemma slots_new next nch l k : slots next nch l → call_printable k → slots next nch (l ++ [(k, Entered)]).
Proof.
  intros [P I Io C Co] Hk. split.
  - intros k' ph [H|H]%elem_of_app; [by eapply P |]. apply list_elem_of_singleton in H. by simplify_eq.
  - intros i k' ph id [H|[_ H]]%lookup_snoc_Some Hi; [by eapply I | by simplify_eq].
  - intros i j k1 k2 ph ph' id [H|[_ H]]%lookup_snoc_Some [H'|[_ H']]%lookup_snoc_Some; simplify_eq/=; try done. by eapply Io.
  - intros i k' ph ch [H|[_ H]]%lookup_snoc_Some Hi; [by eapply C | by simplify_eq].
  - intros i j k1 k2 ph ph' ch [H|[_ H]]%lookup_snoc_Some [H'|[_ H']]%lookup_snoc_Some; simplify_eq/=; try done. by eapply Co.
Qed.

(** A call keeps its number and its channel, or gets new ones. *)
Lemma slots_step next next' nch nch' l i k ph ph' :
  slots next nch l → l !! i = Some (k, ph) → next <= next' → (nch <= nch')%nat →
  (∀ id, id_of ph' = Some id → id_of ph = Some id ∨ (next < id <= next' ∧ 1 <= id)) →
  (∀ ch, ch_of ph' = Some ch → ch_of ph = Some ch ∨ (nch <= ch < nch')%nat) →
  slots next' nch' (<[i := (k, ph')]> l).
Proof.
  intros [P I Io C Co] Hl Hn Hc Hid Hch.
  assert (∀ j x, <[i := (k, ph')]> l !! j = Some x → (j = i ∧ x = (k, ph')) ∨ (j ≠ i ∧ l !! j = Some x)) as Hins.
  { intros j x [(-> & <- & _)|[? ?]]%list_lookup_insert_Some; [by left | right; naive_solver]. }
  split.
  - intros k' ph1 (j & Hj)%list_elem_of_lookup. apply Hins in Hj as [[-> ?]|[_ Hj]]; simplify_eq; [by eapply P, list_elem_of_lookup_2 |].
    by eapply P, list_elem_of_lookup_2.
  - intros j k' ph1 id Hj Hi. apply Hins in Hj as [[-> ?]|[_ Hj]]; simplify_eq.
    + destruct (Hid id Hi) as [Hi'|?]; [| lia]. specialize (I _ _ _ _ Hl Hi'). lia.
    + specialize (I _ _ _ _ Hj Hi). lia.
  - intros j1 j2 k1 k2 p1 p2 id H1 H2 E1 E2. apply Hins in H1 as [[-> ?]|[N1 H1]], H2 as [[-> ?]|[N2 H2]]; simplify_eq; try done.
    + destruct (Hid id E1) as [E|?]; [by eapply Io |]. specialize (I _ _ _ _ H2 E2). lia.
    + destruct (Hid id E2) as [E|?]; [by eapply Io |]. specialize (I _ _ _ _ H1 E1). lia.
    + by eapply Io.
  - intros j k' ph1 ch Hj Hi. apply Hins in Hj as [[-> ?]|[_ Hj]]; simplify_eq.
    + destruct (Hch ch Hi) as [Hi'|?]; [| lia]. specialize (C _ _ _ _ Hl Hi'). lia.
    + specialize (C _ _ _ _ Hj Hi). lia.
  - intros j1 j2 k1 k2 p1 p2 ch H1 H2 E1 E2. apply Hins in H1 as [[-> ?]|[N1 H1]], H2 as [[-> ?]|[N2 H2]]; simplify_eq; try done.
    + destruct (Hch ch E1) as [E|?]; [by eapply Co |]. specialize (C _ _ _ _ H2 E2). lia.
    + destruct (Hch ch E2) as [E|?]; [by eapply Co |]. specialize (C _ _ _ _ H1 E1). lia.
    + by eapply Co.
Qed.

Lemma has_id_app l x k id : has_id l k id → has_id (l ++ [x]) k id.
Proof. intros (i & ph & H & E). exists i, ph. split; [by apply lookup_app_l_Some | done]. Qed.
Lemma has_ch_app l x k ch : has_ch l k ch → has_ch (l ++ [x]) k ch.
Proof. intros (i & ph & H & E). exists i, ph. split; [by apply lookup_app_l_Some | done]. Qed.
Lemma has_id_insert l i k ph ph' k1 id :
  l !! i = Some (k, ph) → (∀ id, id_of ph = Some id → id_of ph' = Some id) → has_id l k1 id → has_id (<[i := (k, ph')]> l) k1 id.
Proof.
  intros Hl Hid (j & ph1 & H & E). destruct (decide (i = j)) as [<-|N].
  - simplify_eq. exists i, ph'. rewrite list_lookup_insert_eq by (by eapply lookup_lt_Some). auto.
  - exists j, ph1. by rewrite list_lookup_insert_ne.
Qed.
Lemma has_ch_insert l i k ph ph' k1 ch :
  l !! i = Some (k, ph) → (∀ ch, ch_of ph = Some ch → ch_of ph' = Some ch) → has_ch l k1 ch → has_ch (<[i := (k, ph')]> l) k1 ch.
Proof.
  intros Hl Hid (j & ph1 & H & E). destruct (decide (i = j)) as [<-|N].
  - simplify_eq. exists i, ph'. rewrite list_lookup_insert_eq by (by eapply lookup_lt_Some). auto.
  - exists j, ph1. by rewrite list_lookup_insert_ne.
Qed.

(** *** The invariant *)

Definition responds (id : Z) (data : list Z) : Prop :=
  ∃ body resp, data = msgResponse :: body ∧ parse body ≫= read_response = Some resp ∧ p_ID resp = id.
(** Where the answer to a waiting call is. *)
Definition on_its_way (s : rpc) (id : Z) (ch : nat) : Prop :=
  (∃ p msg, (p, msg) ∈ to_servers s ∧ is_request id msg) ∨ (∃ data, data ∈ to_client s ∧ responds id data)
  ∨ (∃ resp, (ch, resp) ∈ handling s) ∨ (∃ resp l, chans (client s) !! ch = Some (resp :: l)).
Definition outcome_ok (k : call) (ph : phase) : Prop :=
  match ph with Leaving _ _ o | Returned _ _ o => o = answer k ∨ ∃ e, o = Failed e | _ => True end.

Record rpc_inv (n : nat) (s : rpc) : Prop := {
  ri_next : 0 <= nextID (client s) <= Z.of_nat n;
  ri_slots : slots (nextID (client s)) (length (chans (client s))) (under_way s);
  ri_pending : ∀ id ch, pending (client s) !! id = Some ch ↔
    ∃ i k ph, under_way s !! i = Some (k, ph) ∧ is_registered ph = true ∧ id_of ph = Some id ∧ ch_of ph = Some ch;
  ri_requests : ∀ p d, (p, d) ∈ to_servers s → ∃ k id, has_id (under_way s) k id ∧ p = c_peer k ∧ call_message id k = Ok d;
  ri_responses : ∀ d, d ∈ to_client s → ∃ k id body, has_id (under_way s) k id ∧ d = msgResponse :: body ∧ answers_call k id body;
  ri_handling : ∀ ch r, (ch, r) ∈ handling s → ∃ k, has_ch (under_way s) k ch ∧ outcome_of r = answer k;
  ri_chans : ∀ ch l r, chans (client s) !! ch = Some l → r ∈ l → ∃ k, has_ch (under_way s) k ch ∧ outcome_of r = answer k;
  ri_outcomes : ∀ k ph, (k, ph) ∈ under_way s → outcome_ok k ph;
  ri_waiting : ∀ k id ch, (k, Waiting id ch) ∈ under_way s → on_its_way s id ch;
}.

Lemma start_inv : rpc_inv 0 rpc_start.
Proof.
  split; cbn; try (by intros ? ?%not_elem_of_nil); try (by intros ? ? ?%not_elem_of_nil); try (by intros ? ? ? ?%not_elem_of_nil); try done.
  - split; try done. by intros ? ? ?%not_elem_of_nil.
  - intros id ch. split; [done |]. by intros (?&?&?&?&?).
Qed.

Lemma elem_insert {A} (l : list A) i x y : x ∈ <[i := y]> l → x = y ∨ x ∈ l.
Proof.
  intros (j & Hj)%list_elem_of_lookup. apply list_lookup_insert_Some in Hj as [(_ & -> & _)|[_ Hj]]; [by left | right].
  by eapply list_elem_of_lookup_2.
Qed.
Lemma elem_split {A} (l1 l2 : list A) x y : y ∈ l1 ++ x :: l2 → y = x ∨ y ∈ l1 ++ l2.
Proof. rewrite !elem_of_app, elem_of_cons. naive_solver. Qed.
Lemma elem_join {A} (l1 l2 : list A) x y : y ∈ l1 ++ l2 → y ∈ l1 ++ x :: l2.
Proof. rewrite !elem_of_app, elem_of_cons. naive_solver. Qed.

Lemma has_id_range n s k id : rpc_inv n s → Z.of_nat n < 2 ^ 64 → has_id (under_way s) k id → 0 <= id < 2 ^ 64 ∧ call_printable k.
Proof.
  intros Hi Hn (i & ph & Hl & Hid). pose proof (ri_next _ _ Hi). pose proof (sl_ids _ _ _ (ri_slots _ _ Hi) _ _ _ _ Hl Hid).
  split; [lia |]. by eapply (sl_plain _ _ _ (ri_slots _ _ Hi)), list_elem_of_lookup_2.
Qed.

Lemma inv_serve n s l1 p t b data l2 response :
  rpc_inv n s → Z.of_nat n < 2 ^ 64 → to_servers s = l1 ++ (p, t :: b :: data) :: l2 →
  (on_rpc_message (servers p) (t :: b :: data) NewRPCClient).1 = Some response →
  rpc_inv (S n) {| client := client s; under_way := under_way s; to_servers := l1 ++ l2;
                   to_client := to_client s ++ [response]; handling := handling s |}.
Proof.
  intros Hi Hn Hto Hr. pose proof Hi as [N Sl Pe Rq Rs Ha Ch Ou Wa].
  destruct (Rq p (t :: b :: data)) as (k & id & Hk & -> & Hm); [rewrite Hto; apply elem_of_app; right; by left |].
  destruct (has_id_range n s k id Hi Hn Hk) as [Hid Hp].
  destruct (request_answered k id _ Hid Hp Hm) as (data' & body & E & Hresp & Hans).
  destruct (message_read k id _ Hid Hp Hm) as (data2 & E2 & Hreq). simplify_eq.
  cbn [on_rpc_message] in Hr. change (msgRequest =? msgRequest) with true in Hr. cbn [fst] in Hr. rewrite Hresp in Hr. simplify_eq.
  split; cbn; try done.
  - lia.
  - intros q d Hq. apply Rq. rewrite Hto. by apply elem_join.
  - intros d [Hd|Hd%list_elem_of_singleton]%elem_of_app; [by apply Rs |]. subst d. eauto 10.
  - intros k' id' ch' Hw. destruct (Wa _ _ _ Hw) as [(q & msg & Hx & Hq)|[(d & Hd & ?)|[?|?]]]; [| | by right; right; left | by right; right; right].
    + rewrite Hto in Hx. apply elem_split in Hx as [Hx|Hx]; [| left; eauto]. simplify_eq.
      destruct Hq as (body1 & req1 & [= <-] & Hq & <-). rewrite Hreq in Hq. simplify_eq. cbn.
      right. left. exists (msgResponse :: body). split; [apply elem_of_app; right; by left |].
      destruct Hans as (resp & ? & ? & _). exists body, resp. auto.
    + right. left. exists d. split; [apply elem_of_app; by left | done].
Qed.

Lemma inv_respond n s l1 data l2 :
  rpc_inv n s → to_client s = l1 ++ (msgResponse :: data) :: l2 →
  rpc_inv (S n) {| client := client s; under_way := under_way s; to_servers := to_servers s; to_client := l1 ++ l2;
                   handling := handling s ++ option_list (response_lookup data (client s)) |}.
Proof.
  intros Hi Hto. pose proof Hi as [N Sl Pe Rq Rs Ha Ch Ou Wa].
  destruct (Rs (msgResponse :: data)) as (k & id & body & Hk & [= <-] & (resp & Hread & <- & Hans)); [rewrite Hto; apply elem_of_app; right; by left |].
  unfold response_lookup. rewrite Hread. cbn [mbind option_bind].
  split; cbn; try done.
  - lia.
  - intros d Hd. apply Rs. rewrite Hto. by apply elem_join.
  - intros ch r [H|H]%elem_of_app; [by apply Ha |]. destruct (pending (client s) !! p_ID resp) as [ch1|] eqn:Ep; cbn in H.
    + apply list_elem_of_singleton in H as [= -> ->]. exists k. split; [| done]. apply Pe in Ep as (i & k' & ph & Hl & _ & Hid & Hch).
      destruct Hk as (j & ph' & Hl' & Hid'). pose proof (sl_id_once _ _ _ Sl _ _ _ _ _ _ _ Hl Hl' Hid Hid'). simplify_eq. by exists j, ph'.
    + by apply not_elem_of_nil in H.
  - intros k' id' ch' Hw. destruct (Wa _ _ _ Hw) as [?|[(d & Hd & Hr)|[(r & Hr)|?]]]; [by left | | | by right; right; right].
    + rewrite Hto in Hd. apply elem_split in Hd as [->|Hd]; [| right; left; eauto].
      destruct Hr as (body1 & resp1 & [= <-] & Hr & <-). rewrite Hread in Hr. simplify_eq. right. right. left. exists resp1.
      assert (pending (client s) !! p_ID resp1 = Some ch') as ->.
      { apply Pe. apply list_elem_of_lookup in Hw as [i Hl]. by exists i, k', (Waiting (p_ID resp1) ch'). }
      apply elem_of_app. right. by left.
    + right. right. left. exists r. apply elem_of_app. by left.
Qed.

Lemma inv_offer n s l1 ch resp l2 :
  rpc_inv n s → handling s = l1 ++ (ch, resp) :: l2 →
  rpc_inv (S n) {| client := response_offer ch resp (client s); under_way := under_way s; to_servers := to_servers s;
                   to_client := to_client s; handling := l1 ++ l2 |}.
Proof.
  intros Hi Hto. pose proof Hi as [N Sl Pe Rq Rs Ha Ch Ou Wa].
  destruct (Ha ch resp) as (k & Hk & Hans); [rewrite Hto; apply elem_of_app; right; by left |].
  assert (nextID (response_offer ch resp (client s)) = nextID (client s) ∧ pending (response_offer ch resp (client s)) = pending (client s)
    ∧ length (chans (response_offer ch resp (client s))) = length (chans (client s))) as (E1 & E2 & E3).
  { unfold response_offer. repeat case_match; try done. cbn. by rewrite length_insert. }
  assert (∀ ch' l, chans (response_offer ch resp (client s)) !! ch' = Some l → chans (client s) !! ch' = Some l ∨ (ch' = ch ∧ l = [resp])) as Hnew.
  { intros ch' l. unfold response_offer. repeat case_match; try by left. cbn.
    intros [(-> & <- & _)|[_ ?]]%list_lookup_insert_Some; [by right | by left]. }
  assert (∀ ch' r l, chans (client s) !! ch' = Some (r :: l) → chans (response_offer ch resp (client s)) !! ch' = Some (r :: l)) as Hold.
  { intros ch' r l Hc. unfold response_offer. repeat case_match; try done. cbn. rewrite list_lookup_insert_ne; [done |]. intros ->. by rewrite Hc in *. }
  split; cbn; try done.
  - rewrite E1. lia.
  - by rewrite E1, E3.
  - by rewrite E2.
  - intros ch' r Hr. apply Ha. rewrite Hto. by apply elem_join.
  - intros ch' l r [Hl|[-> ->]]%Hnew Hr; [by eapply Ch |]. apply list_elem_of_singleton in Hr as ->. eauto.
  - intros k' id' ch' Hw. destruct (Wa _ _ _ Hw) as [?|[?|[(r & Hr)|(r & l & Hc)]]]; [by left | by right; left | |].
    + rewrite Hto in Hr. apply elem_split in Hr as [[= -> ->]|Hr]; [| right; right; left; eauto]. right. right. right. cbn.
      apply list_elem_of_lookup in Hw as [i Hl]. pose proof (sl_chs _ _ _ Sl _ _ _ _ Hl eq_refl) as Hlt.
      unfold response_offer. destruct (lookup_lt_is_Some_2 _ _ Hlt) as [[|r1 l'] Hc]; rewrite Hc; [| eauto].
      cbn. rewrite list_lookup_insert_eq by done. eauto.
    + right. right. right. eauto.
Qed.

(** A call moves on. *)
Lemma inv_move n s i k ph ph' c' sends :
  let c := client s in
  rpc_inv n s → under_way s !! i = Some (k, ph) →
  nextID c <= nextID c' <= Z.of_nat (S n) → (length (chans c) <= length (chans c'))%nat →
  (∀ id, id_of ph = Some id → id_of ph' = Some id) → (∀ ch, ch_of ph = Some ch → ch_of ph' = Some ch) →
  (∀ id, id_of ph' = Some id → id_of ph = Some id ∨ nextID c < id <= nextID c') →
  (∀ ch, ch_of ph' = Some ch → ch_of ph = Some ch ∨ (length (chans c) <= ch < length (chans c'))%nat) →
  (∀ id ch, pending c' !! id = Some ch ↔
     (is_registered ph' = true ∧ id_of ph' = Some id ∧ ch_of ph' = Some ch)
     ∨ (pending c !! id = Some ch ∧ ¬ (is_registered ph = true ∧ id_of ph = Some id))) →
  (∀ p d, (p, d) ∈ sends → p = c_peer k ∧ ∃ id, id_of ph' = Some id ∧ call_message id k = Ok d) →
  (∀ ch l r, chans c' !! ch = Some l → r ∈ l → ∃ l0, chans c !! ch = Some l0 ∧ r ∈ l0) →
  (∀ ch r l, ch_of ph ≠ Some ch → chans c !! ch = Some (r :: l) → chans c' !! ch = Some (r :: l)) →
  outcome_ok k ph' →
  let s' := {| client := c'; under_way := <[i := (k, ph')]> (under_way s); to_servers := to_servers s ++ sends;
               to_client := to_client s; handling := handling s |} in
  (∀ id ch, ph' = Waiting id ch → on_its_way s' id ch) → rpc_inv (S n) s'.
Proof.
  intros c Hi Hl Hn Hlen Kid Kch Nid Nch Hpe Hsend Hch Hkeep Hout s' Hw. subst c. pose proof Hi as [N Sl Pe Rq Rs Ha Ch Ou Wa].
  assert (∀ k1 id, has_id (under_way s) k1 id → has_id (under_way s') k1 id) as Mid by (intros k1 id; by apply has_id_insert with ph).
  assert (∀ k1 ch, has_ch (under_way s) k1 ch → has_ch (under_way s') k1 ch) as Mch by (intros k1 ch; by apply has_ch_insert with ph).
  pose proof (lookup_lt_Some _ _ _ Hl) as Hlt. split; subst s'; cbn in *.
  - lia.
  - eapply slots_step; [exact Sl | exact Hl | lia | lia | | exact Nch]. intros id E. destruct (Nid id E); [by left | right; lia].
  - intros id ch. rewrite Hpe. split.
    + intros [(H1 & H2 & H3)|[Hp Hno]]; [exists i, k, ph'; by rewrite list_lookup_insert_eq |].
      apply Pe in Hp as (j & k1 & ph1 & H1 & H2 & H3 & H4). exists j, k1, ph1. rewrite list_lookup_insert_ne; [done |].
      intros ->. simplify_eq. by destruct Hno.
    + intros (j & k1 & ph1 & H1 & H2 & H3 & H4). destruct (decide (i = j)) as [<-|Nj].
      * rewrite list_lookup_insert_eq in H1 by done. simplify_eq. by left.
      * rewrite list_lookup_insert_ne in H1 by done. right. split; [apply Pe; eauto 10 |]. intros [_ E].
        destruct Nj. by eapply (sl_id_once _ _ _ Sl).
  - intros p d [Hd|Hd]%elem_of_app; [destruct (Rq p d Hd) as (k1 & id & ? & ?); eauto |].
    destruct (Hsend p d Hd) as [-> (id & E1 & E2)]. exists k, id. split; [| done]. exists i, ph'. by rewrite list_lookup_insert_eq.
  - intros d Hd. destruct (Rs d Hd) as (k1 & id & body & ? & ?). eauto 10.
  - intros ch r Hr. destruct (Ha ch r Hr) as (k1 & ? & ?). eauto.
  - intros ch l r H1 H2. destruct (Hch ch l r H1 H2) as (l0 & H3 & H4). destruct (Ch ch l0 r H3 H4) as (k1 & ? & ?). eauto.
  - intros k1 ph1 [?|?]%elem_insert; [by simplify_eq | by apply Ou].
  - intros k1 id ch (j & Hj)%list_elem_of_lookup. destruct (decide (i = j)) as [<-|Nj].
    + rewrite list_lookup_insert_eq in Hj by done. simplify_eq. by apply Hw.
    + rewrite list_lookup_insert_ne in Hj by done. pose proof (list_elem_of_lookup_2 _ _ _ Hj) as Hin.
      destruct (Wa _ _ _ Hin) as [(p & msg & Hx & ?)|[?|[?|(r & l & Hc)]]]; [| by right; left | by right; right; left |].
      * left. exists p, msg. cbn. split; [apply elem_of_app; by left | done].
      * right. right. right. exists r, l. cbn. apply Hkeep; [| done]. intros E. destruct Nj. by eapply (sl_ch_once _ _ _ Sl).
Qed.

(** A call whose number and channel stay, and the client's table with them. *)
Lemma inv_stay n s i k ph ph' sends c' :
  rpc_inv n s → under_way s !! i = Some (k, ph) → nextID c' = nextID (client s) → pending c' = pending (client s) →
  length (chans c') = length (chans (client s)) →
  id_of ph' = id_of ph → ch_of ph' = ch_of ph → is_registered ph' = true → is_registered ph = true →
  (∀ p d, (p, d) ∈ sends → p = c_peer k ∧ ∃ id, id_of ph' = Some id ∧ call_message id k = Ok d) →
  (∀ ch l r, chans c' !! ch = Some l → r ∈ l → ∃ l0, chans (client s) !! ch = Some l0 ∧ r ∈ l0) →
  (∀ ch r l, ch_of ph ≠ Some ch → chans (client s) !! ch = Some (r :: l) → chans c' !! ch = Some (r :: l)) →
  outcome_ok k ph' →
  let s' := {| client := c'; under_way := <[i := (k, ph')]> (under_way s); to_servers := to_servers s ++ sends;
               to_client := to_client s; handling := handling s |} in
  (∀ id ch, ph' = Waiting id ch → on_its_way s' id ch) → rpc_inv (S n) s'.
Proof.
  intros Hi Hl E1 E2 E3 E4 E5 R R' Hs Hc Hk Ho s' Hw. pose proof (ri_next _ _ Hi). apply (inv_move n s i k ph); try done.
  - rewrite E1. lia.
  - by rewrite E3.
  - by rewrite E4.
  - by rewrite E5.
  - rewrite E4. by left.
  - rewrite E5. by left.
  - intros id ch. rewrite E2, E4, E5, R, R'. split.
    + intros Hp. destruct (decide (id_of ph = Some id)) as [E|]; [left | right; naive_solver]. split_and!; try done.
      apply (ri_pending _ _ Hi) in Hp as (j & k1 & ph1 & H1 & H2 & H3 & H4).
      pose proof (sl_id_once _ _ _ (ri_slots _ _ Hi) _ _ _ _ _ _ _ Hl H1 E H3). by simplify_eq.
    + intros [(_ & H1 & H2)|[? _]]; [| done]. apply (ri_pending _ _ Hi). by exists i, k, ph.
Qed.

Ltac no_elem := try (by intros ? ? ?%not_elem_of_nil).

Lemma inv_advance n s i k ph h ph' c' sends :
  rpc_inv n s → Z.of_nat (S n) < 2 ^ 64 → under_way s !! i = Some (k, ph) → Call k h ph (client s) = Some (ph', c', sends) →
  rpc_inv (S n) {| client := c'; under_way := <[i := (k, ph')]> (under_way s); to_servers := to_servers s ++ sends;
                   to_client := to_client s; handling := handling s |}.
Proof.
  intros Hi Hn Hl Hc. pose proof Hi as [N Sl Pe Rq Rs Ha Ch Ou Wa]. pose proof (lookup_lt_Some _ _ _ Hl) as Hlt.
  assert (call_printable k) as Hp by (by eapply (sl_plain _ _ _ Sl), list_elem_of_lookup_2).
  destruct ph as [|id|id ch|id ch|id ch o|id ch o]; [destruct h| destruct h| | | destruct h |]; try done; cbn in Hc.
  - simplify_eq. rewrite Z.mod_small by lia. eapply inv_move; [exact Hi | exact Hl |..]; cbn; no_elem; try done; try lia; eauto.
    + intros id [= <-]. right. lia.
    + intros id ch. split; [intros Hq; right; split; [done | by intros [? _]] | by intros [[? _]|[? _]]].
  - simplify_eq. eapply inv_move; [exact Hi | exact Hl |..]; cbn; no_elem; try done; try lia; eauto.
    + rewrite length_app. lia.
    + rewrite length_app. cbn. intros ch [= <-]. right. lia.
    + intros id' ch. rewrite lookup_insert_Some. split.
      * intros [[-> <-]|[? ?]]; [by left |]. right. split; [done |]. by intros [? _].
      * intros [(_ & [= <-] & [= <-])|[Hq _]]; [by left |]. right. split; [| done]. intros ->.
        apply Pe in Hq as (j & k1 & ph1 & H1 & H2 & H3 & H4). pose proof (sl_id_once _ _ _ Sl _ _ _ _ _ _ _ Hl H1 eq_refl H3). by simplify_eq.
    + intros ch l r [Hch|[_ ->]]%lookup_snoc_Some Hr; [by eexists | by apply not_elem_of_nil in Hr].
    + intros ch r l _ Hch. by apply lookup_app_l_Some.
  - destruct (call_message id k) as [e|msg] eqn:Em; destruct h; simplify_eq;
      (eapply inv_stay; [exact Hi | exact Hl |..]; cbn; no_elem; try done; eauto).
    + intros p d [= -> ->]%list_elem_of_singleton. eauto.
    + intros id' ch' [= <- <-]. left. exists (c_peer k), msg. cbn. split; [apply elem_of_app; right; by left |].
      pose proof (sl_ids _ _ _ Sl _ _ _ _ Hl eq_refl). destruct (message_read k id msg ltac:(lia) Hp Em) as (body & -> & Hr).
      by do 2 eexists.
  - destruct h; simplify_eq; [| eapply inv_stay; [exact Hi | exact Hl |..]; cbn; no_elem; try done; eauto].
    destruct (call_receive ch (client s)) as [[resp c]|] eqn:Er; [| done]. cbn in Hc. simplify_eq.
    unfold call_receive in Er. destruct (chans (client s) !! ch) as [[|r l]|] eqn:Ec; [done | | done]. simplify_eq.
    destruct (Ch ch (resp :: l) resp Ec ltac:(by left)) as (k1 & (j & ph1 & H1 & H2) & Hans).
    pose proof (sl_ch_once _ _ _ Sl _ _ _ _ _ _ _ Hl H1 eq_refl H2). simplify_eq.
    eapply inv_stay; [exact Hi | exact Hl |..]; cbn; no_elem; try done; eauto.
    + by rewrite length_insert.
    + intros ch' l' r [(-> & <- & _)|[_ ?]]%list_lookup_insert_Some Hr; [| eauto]. eexists. split; [done |]. by right.
    + intros ch' r l' Hne Hc'. rewrite list_lookup_insert_ne; [done |]. congruence.
  - simplify_eq. eapply inv_move; [exact Hi | exact Hl |..]; cbn; no_elem; try done; try lia; eauto.
    + intros id' ch'. rewrite lookup_delete_Some. split; [intros [Hne Hq]; right; split; [done |]; intros [_ [= E]]; done |].
      intros [[? _]|[Hq Hne]]; [done |]. split; [| done]. intros ->. by destruct Hne.
    + apply (Ou k (Leaving id ch o)). by eapply list_elem_of_lookup_2.
Qed.

Lemma inv_new_call n s k : rpc_inv n s → call_printable k →
  rpc_inv (S n) {| client := client s; under_way := under_way s ++ [(k, Entered)]; to_servers := to_servers s;
                   to_client := to_client s; handling := handling s |}.
Proof.
  intros Hi Hk. pose proof Hi as [N Sl Pe Rq Rs Ha Ch Ou Wa].
  split; cbn.
  - lia.
  - by apply slots_new.
  - intros id ch. rewrite Pe. split; [intros (i & k1 & ph & H & ?); exists i, k1, ph; split; [by apply lookup_app_l_Some | done] |].
    intros (i & k1 & ph & [H|[_ H]]%lookup_snoc_Some & H2 & ?); [by exists i, k1, ph | by simplify_eq].
  - intros p d Hd. destruct (Rq p d Hd) as (k1 & id & ? & ?). eauto using has_id_app.
  - intros d Hd. destruct (Rs d Hd) as (k1 & id & body & ? & ?). eauto 10 using has_id_app.
  - intros ch r Hr. destruct (Ha ch r Hr) as (k1 & ? & ?). eauto using has_ch_app.
  - intros ch l r H1 H2. destruct (Ch ch l r H1 H2) as (k1 & ? & ?). eauto using has_ch_app.
  - intros k1 ph [H|[= -> ->]%list_elem_of_singleton]%elem_of_app; [by apply Ou | done].
  - intros k1 id ch [H|?%list_elem_of_singleton]%elem_of_app; [by eapply Wa | done].
Qed.

Lemma inv_execution n s : nsteps rpc_step n rpc_start s → Z.of_nat n < 2 ^ 64 → rpc_inv n s.
Proof.
  revert s. induction n as [|n IH]; intros s Hs Hn; [inversion Hs; subst; apply start_inv |].
  apply nsteps_inv_r in Hs as (s1 & Hs1 & Hs). specialize (IH s1 Hs1 ltac:(lia)).
  destruct Hs; eauto using inv_new_call, inv_respond, inv_offer.
  - by eapply inv_advance.
  - eapply inv_serve; eauto. lia.
Qed.

(** *** Every execution ends *)

Definition phase_cost (ph : phase) : nat :=
  match ph with Entered => 8 | Numbered _ => 7 | Registered _ _ => 6 | Waiting _ _ => 2 | Leaving _ _ _ => 1 | Returned _ _ _ => 0 end.
Definition rpc_to_go (s : rpc) : nat :=
  (sum_list_with (λ x, phase_cost x.2) (under_way s) + 3 * length (to_servers s) + 2 * length (to_client s) + length (handling s))%nat.

Lemma sum_insert {A} (f : A → nat) (l : list A) i x y :
  l !! i = Some x → (sum_list_with f (<[i := y]> l) + f x = sum_list_with f l + f y)%nat.
Proof.
  revert i. induction l as [|z l IH]; intros [|i] Hl; [done | done | |].
  - cbn in *. simplify_eq. lia.
  - specialize (IH i Hl). change (<[S i := y]> (z :: l)) with (z :: <[i := y]> l). cbn [sum_list_with]. lia.
Qed.
Lemma Call_cost k h ph c ph' c' sends : Call k h ph c = Some (ph', c', sends) → (phase_cost ph' + 3 * length sends < phase_cost ph)%nat.
Proof.
  destruct ph, h; cbn [Call phase_cost]; intros Hc; try destruct (call_receive _ c) as [[? ?]|]; repeat case_match; simplify_eq/=; lia.
Qed.

Lemma rpc_ends n s : nsteps rpc_step n rpc_start s → (n + rpc_to_go s <= 9 * length (under_way s))%nat.
Proof.
  revert s. induction n as [|n IH]; intros s Hs; [inversion Hs; subst; done |].
  apply nsteps_inv_r in Hs as (s1 & Hs1 & Hs). specialize (IH s1 Hs1). unfold rpc_to_go in *.
  destruct Hs as [s k _|s i k ph h ph' c' sends Hl Hc|s l1 p t b data l2 response Hto _|s l1 data l2 Hto|s l1 ch resp l2 Hto]; cbn [under_way to_servers to_client handling client].
  - rewrite sum_list_with_app, length_app. cbn [sum_list_with length phase_cost snd]. lia.
  - rewrite length_app, length_insert. pose proof (Call_cost _ _ _ _ _ _ _ Hc).
    pose proof (sum_insert (λ x, phase_cost x.2) _ _ _ (k, ph') Hl) as E. cbn [snd] in E. lia.
  - rewrite Hto in IH. rewrite !length_app in *. cbn [length] in *. lia.
  - rewrite Hto in IH. rewrite !length_app in *. cbn [length] in *. assert (∀ o : option (nat * RPCResponse), (length (option_list o) <= 1)%nat) as Ho by (intros [x|]; [reflexivity | apply Nat.le_0_l]).
    specialize (Ho (response_lookup data (client s))). lia.
  - rewrite Hto in IH. rewrite !length_app in *. cbn [length] in *. lia.
Qed.

(** Whatever is under way can be handled. *)
Lemma rpc_handled n s : rpc_inv n s → Z.of_nat n < 2 ^ 64 → to_servers s ≠ [] ∨ to_client s ≠ [] ∨ handling s ≠ [] →
  ∃ s', rpc_step s s' ∧ under_way s' = under_way s.
Proof.
  intros Hi Hn Hw. destruct (handling s) as [|[ch resp] l] eqn:Eh; [| eexists; split; [by apply (rpc_offer s [] ch resp l) | done]].
  destruct (to_client s) as [|d l] eqn:Ec.
  - destruct (to_servers s) as [|[p d] l] eqn:Et; [naive_solver |].
    destruct (ri_requests _ _ Hi p d) as (k & id & Hk & -> & Hm); [rewrite Et; by left |].
    destruct (has_id_range n s k id Hi Hn Hk) as [Hid Hp]. destruct (request_answered k id d Hid Hp Hm) as (data & body & -> & Hr & _).
    destruct data as [|b data]; [by destruct (message_read k id _ Hid Hp Hm) as (x & [= <-] & Hread) |].
    eexists. split; [eapply (rpc_serve s [] (c_peer k) msgRequest b data l); [done | reflexivity] | done].
  - destruct (ri_responses _ _ Hi d) as (k & id & body & _ & -> & _); [rewrite Ec; by left |].
    eexists. split; [by apply (rpc_respond s [] body l) | done].
Qed.
End Calls.


(** ** Where it goes wrong *)

(** A client does not ask who answers: a response under the number of a call
    reaches it from anybody. *)
Lemma anybody_answers id ch resp c :
  0 <= id < 2 ^ 64 → pending c !! id = Some ch → chans c !! ch = Some [] → p_ID resp = id → printable (p_Result resp) → code_ok (p_Error resp) →
  ∃ resp' c', call_receive ch (HandleResponse (print compact 0 (response_json resp)) c) = Some (resp', c')
    ∧ p_Result resp' = sanitized (p_Result resp) ∧ p_Error resp' = sanitized_error <$> p_Error resp.
Proof.
  intros Hid Hp Hc Hr H1 H2. unfold HandleResponse, response_lookup. rewrite read_response_json by (by rewrite ?Hr).
  cbn [mbind option_bind p_ID]. rewrite Hr, Hp. cbn [mbind option_bind]. unfold response_offer. rewrite Hc.
  unfold call_receive. cbn [chans]. rewrite list_lookup_insert_eq by (by eapply lookup_lt_Some). by do 2 eexists.
Qed.

(** A request that cannot be read is answered under the number 0, which no
    call has; its call waits until its context is done. *)
Lemma parse_error_unheard s data c :
  parse data ≫= read_request = None → pending c !! 0 = None →
  ∃ body, HandleRequest s data = msgResponse :: body ∧ HandleResponse body c = c.
Proof.
  intros Hd Hp. unfold HandleRequest. rewrite Hd. unfold sendError, response_message, rpc_bytes. eexists. split; [done |].
  unfold HandleResponse, response_lookup. rewrite read_response_json by done. cbn [mbind option_bind p_ID]. by rewrite Hp.
Qed.

(** A sum wraps. *)
Example add_wraps : add (λ _, "") (Some (JObj (field "a" (jint maxInt64) ++ field "b" (jint 1)))) = Ok (Some (JObj (field "sum" (jint minInt64)))).
Proof. vm_compute. reflexivity. Qed.

(** ** Witness: two calls that cross *)

Module RpcWitness.

(** A given interleaving: the first of the messages under way is handled. *)
Inductive move := MCall (k : call) | MAdvance (i : nat) (h : happening) | MServe | MRespond | MOffer.
Definition rpc_move (servers : string → RPCServer) (m : move) (s : rpc) : option rpc :=
  match m with
  | MCall k => Some {| client := client s; under_way := under_way s ++ [(k, Entered)]; to_servers := to_servers s; to_client := to_client s; handling := handling s |}
  | MAdvance i h =>
      '(k, ph) ← under_way s !! i; '(ph', c', sends) ← Call k h ph (client s);
      Some {| client := c'; under_way := <[i := (k, ph')]> (under_way s); to_servers := to_servers s ++ sends; to_client := to_client s; handling := handling s |}
  | MServe =>
      match to_servers s with
      | (p, t :: b :: data) :: l =>
          response ← (on_rpc_message (servers p) (t :: b :: data) NewRPCClient).1;
          Some {| client := client s; under_way := under_way s; to_servers := l; to_client := to_client s ++ [response]; handling := handling s |}
      | _ => None
      end
  | MRespond =>
      match to_client s with
      | (t :: data) :: l =>
          if t =? msgResponse then
            Some {| client := client s; under_way := under_way s; to_servers := to_servers s; to_client := l;
                    handling := handling s ++ option_list (response_lookup data (client s)) |}
          else None
      | _ => None
      end
  | MOffer =>
      match handling s with
      | (ch, resp) :: l =>
          Some {| client := response_offer ch resp (client s); under_way := under_way s; to_servers := to_servers s; to_client := to_client s; handling := l |}
      | [] => None
      end
  end.
Fixpoint rpc_moves (servers : string → RPCServer) (l : list move) (s : rpc) : option rpc :=
  match l with [] => Some s | m :: l => rpc_move servers m s ≫= rpc_moves servers l end.
Definition move_printable (m : move) : Prop := match m with MCall k => call_printable k | _ => True end.

Lemma rpc_move_step servers m s s' : move_printable m → rpc_move servers m s = Some s' → rpc_step servers s s'.
Proof.
  intros Hm. destruct m as [k|i h| | |]; cbn [rpc_move].
  - intros [= <-]. by apply rpc_call.
  - destruct (under_way s !! i) as [[k ph]|] eqn:El; [| done]. cbn [mbind option_bind]. destruct (Call k h ph (client s)) as [[[ph' c'] sends]|] eqn:Ec; [| done].
    cbn [mbind option_bind]. intros [= <-]. by eapply rpc_advance.
  - destruct (to_servers s) as [|[p [|t [|b data]]] l] eqn:Et; [done | done | done |].
    destruct ((on_rpc_message (servers p) (t :: b :: data) NewRPCClient).1) as [response|] eqn:Er; [| done]. intros [= <-].
    by apply (rpc_serve servers s [] p t b data l).
  - destruct (to_client s) as [|[|t data] l] eqn:Et; [done | done |]. destruct (Z.eqb_spec t msgResponse) as [->|]; [| done]. intros [= <-].
    by apply (rpc_respond servers s [] data l).
  - destruct (handling s) as [|[ch resp] l] eqn:Et; [done |]. intros [= <-]. by apply (rpc_offer servers s [] ch resp l).
Qed.
Lemma rpc_moves_steps servers l s s' : Forall move_printable l → rpc_moves servers l s = Some s' → nsteps (rpc_step servers) (length l) s s'.
Proof.
  intros Hl. revert s. induction Hl as [|m l Hm _ IH]; intros s; cbn; [intros [= <-]; constructor |].
  destruct (rpc_move servers m s) as [s1|] eqn:E; [| done]. cbn. intros Hs. econstructor; [by eapply rpc_move_step | by apply IH].
Qed.

Definition invalid (_ : option json) : string := "unexpected end of JSON input".
Definition server : RPCServer := Register "add" (add invalid) (Register "echo" (echo invalid) NewRPCServer).
Definition servers (p : string) : RPCServer := if String.eqb p "B" then server else NewRPCServer.
Lemma servers_print : handlers_print servers.
Proof.
  intros p m handler params j. unfold servers. destruct (String.eqb p "B"); [| done]. unfold server, Register. intros H.
  apply (lookup_insert_Some (M := gmap string)) in H as [[_ <-]|[_ H]]; [| apply (lookup_insert_Some (M := gmap string)) in H as [[_ <-]|[_ H]]; [| done]].
  - unfold add, invalid_params. destruct (_ ≫= _) as [[a b]|]; [| done]. intros [= <-]. apply field_ok. apply jint_well_formed, wrap64_range.
  - unfold echo, invalid_params. destruct (_ ≫= _) as [x|]; [| done]. intros [= <-]. apply field_ok. auto with json.
Qed.

Definition add_2_3 : call := {| c_peer := "B"; c_method := "add"; c_params := Some (Ok (JObj (field "a" (jint 2) ++ field "b" (jint 3)))) |}.
Definition unknown : call := {| c_peer := "C"; c_method := "add"; c_params := None |}.
Lemma add_2_3_printable : call_printable add_2_3.
Proof. apply (members_app (field _ _)); apply field_ok, jint_well_formed; vm_compute; by split. Qed.
(** Both are sent; the second is answered first; the first is answered. *)
Definition crossing : list move :=
  [MCall add_2_3; MAdvance 0 Proceed; MCall unknown; MAdvance 1 Proceed; MAdvance 1 Proceed; MAdvance 0 Proceed; MAdvance 1 Proceed; MAdvance 0 Proceed;
   MServe; MServe; MRespond; MRespond; MOffer; MOffer; MAdvance 0 Proceed; MAdvance 1 Proceed; MAdvance 1 Proceed; MAdvance 0 Proceed].
Definition crossed : rpc := default rpc_start (rpc_moves servers crossing rpc_start).

End RpcWitness.
