(* ===== verification/Blockchain.v ===== *)
(** * The blockchain example ([examples/blockberry-integration/main.go])

    A node that lets in peers of its own chain only, gossips transactions and
    proposes blocks.  Its message loop, its event loop, the goroutines that
    gossip and the commands of its user run interleaved, each cut at its locks
    and at its calls of the Glueberry node.  A handshake in progress is an
    object that the handler keeps a pointer to: a cell, under its peer and a
    number.  Peers and transactions are values.  Of what is printed, the line
    for a new transaction is kept, because it can panic; a panic sets a flag.
    The state also has what [node.Messages()] gave so far. *)

From S2P Require Import Prelude Errors Validation Json JsonRead Interfaces Proc RelyGuarantee Exchange Flood.
Local Open Scope Z_scope.

Definition msgHelloRequest : Z := 1.
Definition msgHelloResponse : Z := 2.
Definition msgHelloFinalize : Z := 3.
Definition streamConsensus : string := "consensus".
Definition streamMempool : string := "mempool".
Definition streamSync : string := "sync".
Definition streamHandshake : string := "handshake".
Definition chain_streams : list string := [streamConsensus; streamMempool; streamSync].
Definition protocolVersion : Z := 1.

(** ** Messages *)

Record HelloMessage := {
  h_Version : Z; h_GenesisHash : string; h_ChainID : string; h_NodeID : string; h_Height : Z;
  h_PublicKey : option (list Z);      (** nil, or bytes *)
}.
Record ConsensusMessage := {
  m_Type : string; m_Height : Z; m_Round : Z; m_BlockHash : string; m_Signature : list Z; m_Sender : string;
}.
Record Transaction := { t_Hash : string; t_Data : option (list Z); t_Timestamp : Z }.
Record SyncRequest := { s_FromHeight : Z; s_ToHeight : Z }.

(** A nil slice is [null]. *)
Definition jslice (b : option (list Z)) : json := from_option jbytes JNull b.
Definition read_slice (j : json) : option (option (list Z)) := match j with JNull => Some None | _ => Some <$> read_bytes j end.

Definition hello_json (h : HelloMessage) : json :=
  JObj (field "version" (jint (h_Version h)) ++ field "genesis_hash" (jstr (h_GenesisHash h)) ++ field "chain_id" (jstr (h_ChainID h))
    ++ field "node_id" (jstr (h_NodeID h)) ++ field "height" (jint (h_Height h)) ++ field "public_key" (jslice (h_PublicKey h))).
Definition consensus_json (m : ConsensusMessage) : json :=
  JObj (field "type" (jstr (m_Type m)) ++ field "height" (jint (m_Height m)) ++ field "round" (jint (m_Round m))
    ++ omit (String.eqb (m_BlockHash m) "") "block_hash" (jstr (m_BlockHash m))
    ++ omit (length (m_Signature m) =? 0)%nat "signature" (jbytes (m_Signature m)) ++ field "sender" (jstr (m_Sender m))).
Definition transaction_json (t : Transaction) : json :=
  JObj (field "hash" (jstr (t_Hash t)) ++ field "data" (jslice (t_Data t)) ++ field "timestamp" (jint (t_Timestamp t))).
Definition chain_bytes (tag : Z) (j : json) : list Z := tag :: print compact 0 j.

Definition hello_fields : fields HelloMessage :=
  let mk v g c n h k := {| h_Version := v; h_GenesisHash := g; h_ChainID := c; h_NodeID := n; h_Height := h; h_PublicKey := k |} in
  [ ("version", λ h j, x ← read_uint 32 (h_Version h) j; Some (mk x (h_GenesisHash h) (h_ChainID h) (h_NodeID h) (h_Height h) (h_PublicKey h)));
    ("genesis_hash", λ h j, x ← read_string (h_GenesisHash h) j; Some (mk (h_Version h) x (h_ChainID h) (h_NodeID h) (h_Height h) (h_PublicKey h)));
    ("chain_id", λ h j, x ← read_string (h_ChainID h) j; Some (mk (h_Version h) (h_GenesisHash h) x (h_NodeID h) (h_Height h) (h_PublicKey h)));
    ("node_id", λ h j, x ← read_string (h_NodeID h) j; Some (mk (h_Version h) (h_GenesisHash h) (h_ChainID h) x (h_Height h) (h_PublicKey h)));
    ("height", λ h j, x ← read_uint 64 (h_Height h) j; Some (mk (h_Version h) (h_GenesisHash h) (h_ChainID h) (h_NodeID h) x (h_PublicKey h)));
    ("public_key", λ h j, x ← read_slice j; Some (mk (h_Version h) (h_GenesisHash h) (h_ChainID h) (h_NodeID h) (h_Height h) x)) ]%string.
Definition read_hello : json → option HelloMessage :=
  read_struct hello_fields {| h_Version := 0; h_GenesisHash := ""; h_ChainID := ""; h_NodeID := ""; h_Height := 0; h_PublicKey := None |}.
Definition consensus_fields : fields ConsensusMessage :=
  let mk t h r b s f := {| m_Type := t; m_Height := h; m_Round := r; m_BlockHash := b; m_Signature := s; m_Sender := f |} in
  [ ("type", λ m j, x ← read_string (m_Type m) j; Some (mk x (m_Height m) (m_Round m) (m_BlockHash m) (m_Signature m) (m_Sender m)));
    ("height", λ m j, x ← read_uint 64 (m_Height m) j; Some (mk (m_Type m) x (m_Round m) (m_BlockHash m) (m_Signature m) (m_Sender m)));
    ("round", λ m j, x ← read_uint 32 (m_Round m) j; Some (mk (m_Type m) (m_Height m) x (m_BlockHash m) (m_Signature m) (m_Sender m)));
    ("block_hash", λ m j, x ← read_string (m_BlockHash m) j; Some (mk (m_Type m) (m_Height m) (m_Round m) x (m_Signature m) (m_Sender m)));
    ("signature", λ m j, x ← read_bytes j; Some (mk (m_Type m) (m_Height m) (m_Round m) (m_BlockHash m) x (m_Sender m)));
    ("sender", λ m j, x ← read_string (m_Sender m) j; Some (mk (m_Type m) (m_Height m) (m_Round m) (m_BlockHash m) (m_Signature m) x)) ]%string.
Definition read_consensus : json → option ConsensusMessage :=
  read_struct consensus_fields {| m_Type := ""; m_Height := 0; m_Round := 0; m_BlockHash := ""; m_Signature := []; m_Sender := "" |}.
Definition transaction_fields : fields Transaction :=
  let mk h d t := {| t_Hash := h; t_Data := d; t_Timestamp := t |} in
  [ ("hash", λ t j, x ← read_string (t_Hash t) j; Some (mk x (t_Data t) (t_Timestamp t)));
    ("data", λ t j, x ← read_slice j; Some (mk (t_Hash t) x (t_Timestamp t)));
    ("timestamp", λ t j, x ← read_int (t_Timestamp t) j; Some (mk (t_Hash t) (t_Data t) x)) ]%string.
Definition read_transaction : json → option Transaction := read_struct transaction_fields {| t_Hash := ""; t_Data := None; t_Timestamp := 0 |}.
Definition sync_fields : fields SyncRequest :=
  [ ("from_height", λ s j, x ← read_uint 64 (s_FromHeight s) j; Some {| s_FromHeight := x; s_ToHeight := s_ToHeight s |});
    ("to_height", λ s j, x ← read_uint 64 (s_ToHeight s) j; Some {| s_FromHeight := s_FromHeight s; s_ToHeight := x |}) ]%string.
Definition read_sync : json → option SyncRequest := read_struct sync_fields {| s_FromHeight := 0; s_ToHeight := 0 |}.

(** ** The node *)

Record PeerState := { ps_NodeID : string; ps_Height : Z; ps_IsOutbound : bool; ps_Score : Z; ps_LastSeen : time }.
Record handshakeProgress := {
  gotHello : bool; sentHello : bool; peerInfo : option HelloMessage; peerPubKey : option (list Z);
}.
Definition no_progress : handshakeProgress := {| gotHello := false; sentHello := false; peerInfo := None; peerPubKey := None |}.

(** What does not change; [short] is the start of the node's identifier,
    [node.PeerID().String()[:8]]. *)
Record identity := { short : string; chainID : string; genesis : string; publicKey : option (list Z) }.

Record BlockchainNode := {
  height : Z;
  chain_peers : gmap string PeerState;
  handshakes : gmap string nat;                          (** the number of the peer's cell *)
  cells : gmap (string * nat) handshakeProgress;
  next_cell : nat;
  mempool : gmap string Transaction;
  panicked : bool;
  arrived : list (string * string * list Z);             (** peer, stream, data *)
}.

Definition set_height (h : Z) (s : BlockchainNode) : BlockchainNode :=
  {| height := h; chain_peers := chain_peers s; handshakes := handshakes s; cells := cells s; next_cell := next_cell s;
     mempool := mempool s; panicked := panicked s; arrived := arrived s |}.
Definition set_peers (f : gmap string PeerState → gmap string PeerState) (s : BlockchainNode) : BlockchainNode :=
  {| height := height s; chain_peers := f (chain_peers s); handshakes := handshakes s; cells := cells s; next_cell := next_cell s;
     mempool := mempool s; panicked := panicked s; arrived := arrived s |}.
Definition set_handshakes (f : gmap string nat → gmap string nat) (s : BlockchainNode) : BlockchainNode :=
  {| height := height s; chain_peers := chain_peers s; handshakes := f (handshakes s); cells := cells s; next_cell := next_cell s;
     mempool := mempool s; panicked := panicked s; arrived := arrived s |}.
Definition set_cells (f : gmap (string * nat) handshakeProgress → gmap (string * nat) handshakeProgress) (s : BlockchainNode) : BlockchainNode :=
  {| height := height s; chain_peers := chain_peers s; handshakes := handshakes s; cells := f (cells s); next_cell := next_cell s;
     mempool := mempool s; panicked := panicked s; arrived := arrived s |}.
Definition set_mempool (f : gmap string Transaction → gmap string Transaction) (s : BlockchainNode) : BlockchainNode :=
  {| height := height s; chain_peers := chain_peers s; handshakes := handshakes s; cells := cells s; next_cell := next_cell s;
     mempool := f (mempool s); panicked := panicked s; arrived := arrived s |}.
Definition panic (s : BlockchainNode) : BlockchainNode :=
  {| height := height s; chain_peers := chain_peers s; handshakes := handshakes s; cells := cells s; next_cell := next_cell s;
     mempool := mempool s; panicked := true; arrived := arrived s |}.

Definition NewBlockchainNode : BlockchainNode :=
  {| height := 1; chain_peers := ∅; handshakes := ∅; cells := ∅; next_cell := 0; mempool := ∅; panicked := false; arrived := [] |}.

(** What is asked of the Glueberry node, the console and the clock, and the
    answers. *)
Inductive chain_query :=
| QMessage | QEvent
| QSend (p stream : string) (data : list Z)
| QDisconnect (p : string)
| QPrepareStreams (p : string) (key : option (list Z)) (names : list string)
| QFinalizeHandshake (p : string)
| QIsOutbound (p : string)
| QAddPeer (p : string)
| QConnect (p : string)
| QShowTx (hash : list Z)
| QNow.
Definition chain_answer (q : chain_query) : Type :=
  match q with
  | QMessage => option (string * string * list Z)
  | QEvent => option (string * bool)        (** the peer, and whether it is disconnected *)
  | QIsOutbound _ => bool
  | QShowTx _ => unit
  | QNow => time
  | _ => option error
  end.
Inductive chain_proc :=
| PMessages | PEvents | PRegossip (from : string) (data : list Z)
| PStart | PConnect (addrStr : string) | PBroadcast (tx : Transaction) | PPropose | PSetHeight (h : Z).

Section Node.
Context `{Libp2p} (b : identity) (AddrInfoFromP2pAddr : Multiaddr → result error (string * list Multiaddr)).
Notation code := (prog (S := BlockchainNode) (P := chain_proc) (Q := chain_query) (R := chain_answer)) (only parsing).

Definition Height : ST BlockchainNode Z := st_gets height.
Definition SetHeight (h : Z) : ST BlockchainNode unit := st_modify (set_height h).
Definition Peers (s : BlockchainNode) : gmap string PeerState := chain_peers s.

(** [node.Send] to each; failures are ignored. *)
Fixpoint send_all (ids : list string) (stream : string) (data : list Z) : code unit :=
  match ids with
  | [] => mret tt
  | pid :: ids => _ ← (ask (QSend pid stream data) : code (option error)); send_all ids stream data
  end.
Definition peer_ids : ST BlockchainNode (list string) := st_gets (λ s, elements (dom (chain_peers s))).

(** ** The handshake *)

(** A new progress of a peer; gives its cell. *)
Definition new_progress (p : string) : ST BlockchainNode nat := λ s,
  (next_cell s,
   {| height := height s; chain_peers := chain_peers s; handshakes := <[p := next_cell s]> (handshakes s);
      cells := <[(p, next_cell s) := no_progress]> (cells s); next_cell := S (next_cell s); mempool := mempool s;
      panicked := panicked s; arrived := arrived s |}).
(** The one there is, or a new one. *)
Definition enter_progress (p : string) : ST BlockchainNode nat := λ s,
  match handshakes s !! p with Some n => (n, s) | None => new_progress p s end.
Definition mark_sent (p : string) : ST BlockchainNode unit := st_modify (λ s,
  match handshakes s !! p with
  | Some n => set_cells (alter (λ pr, {| gotHello := gotHello pr; sentHello := true; peerInfo := peerInfo pr; peerPubKey := peerPubKey pr |}) (p, n)) s
  | None => s
  end).
Definition note_hello (l : string * nat) (hello : HelloMessage) : ST BlockchainNode unit := st_modify
  (set_cells (alter (λ pr, {| gotHello := true; sentHello := sentHello pr; peerInfo := Some hello; peerPubKey := h_PublicKey hello |}) l)).
Definition progress_at (l : string * nat) : ST BlockchainNode handshakeProgress := st_gets (λ s, default no_progress (cells s !! l)).

Definition hello_of (h : Z) : HelloMessage :=
  {| h_Version := protocolVersion; h_GenesisHash := genesis b; h_ChainID := chainID b; h_NodeID := short b; h_Height := h; h_PublicKey := publicKey b |}.
Definition sendHello (tag : Z) (p : string) : code (option error) :=
  h ← atomic Height; _ ← atomic (mark_sent p);
  (ask (QSend p streamHandshake (chain_bytes tag (hello_json (hello_of h)))) : code (option error)).
Definition sendHelloRequest : string → code (option error) := sendHello msgHelloRequest.
Definition sendHelloResponse : string → code (option error) := sendHello msgHelloResponse.
Definition sendHelloFinalize (p : string) : code (option error) := ask (QSend p streamHandshake [msgHelloFinalize]).

Definition on_request (p : string) (n : nat) (hello : HelloMessage) : code unit :=
  if negb (bool_decide (h_GenesisHash hello = genesis b)) then _ ← (ask (QDisconnect p) : code (option error)); mret tt
  else if negb (bool_decide (h_ChainID hello = chainID b)) then _ ← (ask (QDisconnect p) : code (option error)); mret tt
  else _ ← atomic (note_hello (p, n) hello); _ ← sendHelloResponse p; mret tt.
Definition on_response (p : string) (n : nat) (hello : HelloMessage) : code unit :=
  if negb (bool_decide (h_GenesisHash hello = genesis b ∧ h_ChainID hello = chainID b)) then _ ← (ask (QDisconnect p) : code (option error)); mret tt
  else
    _ ← atomic (note_hello (p, n) hello);
    err ← (ask (QPrepareStreams p (h_PublicKey hello) chain_streams) : code (option error));
    match err with Some _ => mret tt | None => _ ← sendHelloFinalize p; mret tt end.
(** The peer's entry; a nil [peerInfo] panics. *)
Definition add_chain_peer (l : string * nat) (outbound : bool) (now : time) : ST BlockchainNode unit := st_modify (λ s,
  match cells s !! l ≫= peerInfo with
  | Some hello => set_peers <[l.1 := {| ps_NodeID := h_NodeID hello; ps_Height := h_Height hello; ps_IsOutbound := outbound; ps_Score := 100; ps_LastSeen := now |}]> s
  | None => panic s
  end).
Definition on_finalize (p : string) (n : nat) : code unit :=
  pr ← atomic (progress_at (p, n));
  if negb (gotHello pr) then mret tt
  else
    err ← (if sentHello pr && bool_decide (is_Some (peerPubKey pr)) then
             err ← (ask (QPrepareStreams p (peerPubKey pr) chain_streams) : code (option error));
             match err with
             | Some e => mret (Some e)
             | None => _ ← sendHelloFinalize p; mret None
             end
           else mret None);
    match err with
    | Some _ => mret tt
    | None =>
        err ← (ask (QFinalizeHandshake p) : code (option error));
        match err with
        | Some _ => mret tt
        | None =>
            isOutbound ← (ask (QIsOutbound p) : code bool); now ← (ask QNow : code time);
            _ ← atomic (add_chain_peer (p, n) isOutbound now);
            atomic (st_modify (set_handshakes (delete p)))
        end
    end.

Definition handleHandshakeMessage (p : string) (data : list Z) : code unit :=
  match data with
  | [] => mret tt
  | t :: body =>
      n ← atomic (enter_progress p);
      if t =? msgHelloRequest then match parse body ≫= read_hello with None => mret tt | Some hello => on_request p n hello end
      else if t =? msgHelloResponse then match parse body ≫= read_hello with None => mret tt | Some hello => on_response p n hello end
      else if t =? msgHelloFinalize then on_finalize p n
      else mret tt
  end.

(** [AddrInfoFromP2pAddr] is libp2p's. *)
Definition Connect (addrStr : string) : code (option error) :=
  match AddrInfoFromP2pAddr <$> NewMultiaddr addrStr with
  | None => mret (Some (Errorf "invalid address: %w" None))
  | Some (Err e) => mret (Some (Errorf "failed to parse peer info: %w" (Some e)))
  | Some (Ok (p, _)) =>
      _ ← atomic (new_progress p);
      _ ← (ask (QAddPeer p) : code (option error));
      err ← (ask (QConnect p) : code (option error));
      match err with
      | Some e => mret (Some (Errorf "connect failed: %w" (Some e)))
      | None =>
          err ← sendHelloRequest p;
          mret (match err with Some e => Some (Errorf "failed to send hello: %w" (Some e)) | None => None end)
      end
  end.

(** ** The other streams *)

Definition handleConsensusMessage (p : string) (data : list Z) : code unit :=
  if (length data <? 2)%nat then mret tt
  else match parse (drop 1 data) ≫= read_consensus with
       | None => mret tt
       | Some _ =>
           now ← (ask QNow : code time);
           atomic (st_modify (set_peers (alter (λ ps, {| ps_NodeID := ps_NodeID ps; ps_Height := ps_Height ps; ps_IsOutbound := ps_IsOutbound ps;
                                                          ps_Score := ps_Score ps; ps_LastSeen := now |}) p)))
       end.

(** Under the lock of the mempool: a new transaction is kept, and the start of
    its hash printed; [tx.Hash[:8]] of a shorter one panics. *)
Definition add_transaction (tx : Transaction) : ST BlockchainNode (option (list Z)) := λ s,
  match mempool s !! t_Hash tx with
  | Some _ => (None, s)
  | None =>
      let s := set_mempool <[t_Hash tx := tx]> s in
      if (length (bytes_of (t_Hash tx)) <? 8)%nat then (None, panic s) else (Some (take 8 (bytes_of (t_Hash tx))), s)
  end.
Definition handleMempoolMessage (p : string) (data : list Z) : code unit :=
  if (length data <? 2)%nat then mret tt
  else match parse (drop 1 data) ≫= read_transaction with
       | None => mret tt
       | Some tx =>
           shown ← atomic (add_transaction tx);
           match shown with
           | None => mret tt
           | Some hash => _ ← (ask (QShowTx hash) : code unit); go (PRegossip p data)
           end
       end.
Definition regossip (from : string) (data : list Z) : code unit :=
  ids ← atomic peer_ids; send_all (List.filter (λ pid, negb (bool_decide (pid = from))) ids) streamMempool data.
(** A request is read, and only printed. *)
Definition handleSyncMessage (p : string) (data : list Z) : code unit :=
  if (length data <? 2)%nat then mret tt
  else match parse (drop 1 data) ≫= read_sync with None => mret tt | Some _ => mret tt end.

Definition BroadcastTransaction (tx : Transaction) : code unit :=
  _ ← atomic (st_modify (set_mempool <[t_Hash tx := tx]>));
  ids ← atomic peer_ids; send_all ids streamMempool (chain_bytes 1 (transaction_json tx)).
Definition proposal (h : Z) : ConsensusMessage :=
  let next := (h + 1) mod 2 ^ 64 in
  {| m_Type := "proposal"; m_Height := next; m_Round := 0; m_BlockHash := "block-" +:+ string_of (print_int next); m_Signature := []; m_Sender := short b |}.
Definition ProposeBlock : code unit :=
  h ← atomic Height;
  ids ← atomic peer_ids; send_all ids streamConsensus (chain_bytes 1 (consensus_json (proposal h))).

(** ** The loops *)

Definition handle_message (p stream : string) (data : list Z) : code unit :=
  if String.eqb stream streamHandshake then handleHandshakeMessage p data
  else if String.eqb stream streamConsensus then handleConsensusMessage p data
  else if String.eqb stream streamMempool then handleMempoolMessage p data
  else if String.eqb stream streamSync then handleSyncMessage p data
  else mret tt.
Definition handleMessages : code unit :=
  msg ← (ask QMessage : code (option (string * string * list Z)));
  match msg with
  | None => mret tt
  | Some (p, stream, data) => _ ← handle_message p stream data; go PMessages
  end.
Definition on_disconnected (p : string) : code unit :=
  _ ← atomic (st_modify (set_peers (delete p))); atomic (st_modify (set_handshakes (delete p))).
Definition handleEvents : code unit :=
  event ← (ask QEvent : code (option (string * bool)));
  match event with
  | None => mret tt
  | Some (p, disconnected) =>
      _ ← (if (disconnected : bool) then on_disconnected p else mret tt); go PEvents
  end.
Definition Start : code unit := _ ← go PMessages; go PEvents.

Definition chain_body (c : chain_proc) : code unit :=
  match c with
  | PMessages => handleMessages
  | PEvents => handleEvents
  | PRegossip from data => regossip from data
  | PStart => Start
  | PConnect addrStr => _ ← Connect addrStr; mret tt
  | PBroadcast tx => BroadcastTransaction tx
  | PPropose => ProposeBlock
  | PSetHeight h => atomic (SetHeight h)
  end.
End Node.

(** ** Who is let in

    In every interleaving. *)

Section Safety.
Context `{Libp2p} (b : identity) (AddrInfoFromP2pAddr : Multiaddr → result error (string * list Multiaddr)).
Notation code := (prog (S := BlockchainNode) (P := chain_proc) (Q := chain_query) (R := chain_answer)) (only parsing).

(** The message loop is given messages that have arrived; the user may do
    anything at any time. *)
Definition chain_answers (s : BlockchainNode) (q : chain_query) : chain_answer q → Prop :=
  match q with QMessage => λ a, match a with Some m => m ∈ arrived s | None => True end | _ => λ _, True end.
Definition arrive (m : string * string * list Z) (s : BlockchainNode) : BlockchainNode :=
  {| height := height s; chain_peers := chain_peers s; handshakes := handshakes s; cells := cells s; next_cell := next_cell s;
     mempool := mempool s; panicked := panicked s; arrived := arrived s ++ [m] |}.
Definition chain_env (s s' : BlockchainNode) : Prop := ∃ m, s' = arrive m s.
Notation chain_step := (step (chain_body b AddrInfoFromP2pAddr) (λ _ _, True) chain_answers chain_env).

(** A hello of the node's own chain came from the peer. *)
Definition heard (s : BlockchainNode) (p : string) (hello : HelloMessage) : Prop :=
  h_GenesisHash hello = genesis b ∧ h_ChainID hello = chainID b
  ∧ ∃ t body, (p, streamHandshake, t :: body) ∈ arrived s ∧ (t = msgHelloRequest ∨ t = msgHelloResponse) ∧ parse body ≫= read_hello = Some hello.
(** A transaction whose hash is too short to be printed came from some peer. *)
Definition short_transaction (s : BlockchainNode) : Prop :=
  ∃ p data tx, (p, streamMempool, data) ∈ arrived s ∧ parse (drop 1 data) ≫= read_transaction = Some tx ∧ (length (bytes_of (t_Hash tx)) < 8)%nat.

Record chain_inv (s : BlockchainNode) : Prop := {
  ci_peers : ∀ p ps, chain_peers s !! p = Some ps → ∃ hello, heard s p hello ∧ ps_NodeID ps = h_NodeID hello ∧ ps_Height ps = h_Height hello;
  ci_cells : ∀ l pr, cells s !! l = Some pr → match peerInfo pr with Some hello => heard s l.1 hello | None => gotHello pr = false end;
  ci_new : ∀ p n, is_Some (cells s !! (p, n)) → (n < next_cell s)%nat;
  ci_panic : panicked s = true → short_transaction s;
}.
(** What has arrived stays, and so does a hello in its cell. *)
Record chain_evolves (s s' : BlockchainNode) : Prop := {
  ce_arrived : arrived s ⊆ arrived s';
  ce_cells : ∀ l pr, cells s !! l = Some pr → is_Some (peerInfo pr) → ∃ pr', cells s' !! l = Some pr' ∧ is_Some (peerInfo pr');
}.
#[local] Instance chain_evolves_preorder : PreOrder chain_evolves.
Proof.
  split; [intros s; split; [done | eauto] |]. intros s1 s2 s3 [A1 C1] [A2 C2]. split; [by etrans |].
  intros l pr H1 H2. destruct (C1 l pr H1 H2) as (pr' & ? & ?). eauto.
Qed.
Lemma heard_evolves s s' p hello : arrived s ⊆ arrived s' → heard s p hello → heard s' p hello.
Proof. intros A (? & ? & t & body & ? & ? & ?). repeat split; eauto 10. Qed.
Lemma short_evolves s s' : arrived s ⊆ arrived s' → short_transaction s → short_transaction s'.
Proof. intros A (p & data & tx & ? & ? & ?). exists p, data, tx. auto. Qed.

Notation sections_keep := (keeps chain_inv chain_evolves).
Notation run_holds := (holds chain_answers chain_inv chain_evolves (λ _ _, True)).

(** A section that leaves cells, peers, what arrived and the flag alone, or
    removes peers and handshakes. *)
Lemma keep_quiet s s' :
  cells s' = cells s → next_cell s' = next_cell s → panicked s' = panicked s → arrived s' = arrived s →
  (∀ p ps', chain_peers s' !! p = Some ps' → ∃ ps, chain_peers s !! p = Some ps ∧ ps_NodeID ps = ps_NodeID ps' ∧ ps_Height ps = ps_Height ps') →
  sections_keep s s'.
Proof.
  intros E1 E2 E3 E4 Hp [P C N F]. split; [split |].
  - intros p ps' H1. destruct (Hp p ps' H1) as (ps & H2 & E5 & E6). destruct (P p ps H2) as (hello & Hh & ? & ?).
    exists hello. split; [eapply heard_evolves; [| done]; by rewrite E4 |]. split; congruence.
  - intros l pr. rewrite E1. intros Hl. specialize (C l pr Hl). destruct (peerInfo pr); [| done]. eapply heard_evolves; [| done]. by rewrite E4.
  - rewrite E1, E2. apply N.
  - rewrite E3. intros Hf. eapply short_evolves; [| by apply F]. by rewrite E4.
  - split; [by rewrite E4 | rewrite E1; eauto].
Qed.

Lemma new_progress_keeps p s : sections_keep s (new_progress p s).2.
Proof.
  intros [P C N F]. cbn. split; [split; cbn |]; try done.
  - intros l pr. rewrite lookup_insert_Some. intros [[<- <-]|[_ ?]]; [done | by apply C].
  - intros q n [x Hx]. apply lookup_insert_Some in Hx as [[[= <- <-] _]|[_ Hx]]; [lia |]. specialize (N q n ltac:(eauto)). lia.
  - split; [done |]. cbn. intros l pr Hl Hs. exists pr. split; [| done]. rewrite lookup_insert_ne; [done |]. intros <-.
    specialize (N p (next_cell s) ltac:(eauto)). lia.
Qed.
Lemma enter_progress_keeps p s : sections_keep s (enter_progress p s).2.
Proof. unfold enter_progress. destruct (handshakes s !! p) as [n|]; [by split | apply new_progress_keeps]. Qed.
(** A change of a cell that keeps its hello, or puts one that was heard. *)
Lemma alter_cell_keeps f l s :
  (∀ pr, peerInfo (f pr) = peerInfo pr ∧ gotHello (f pr) = gotHello pr ∨ ∃ hello, peerInfo (f pr) = Some hello ∧ heard s l.1 hello) →
  sections_keep s (set_cells (alter f l) s).
Proof.
  intros Hf [P C N F]. split; [split; cbn |]; try done.
  - intros l' pr'. rewrite lookup_alter_Some. intros [(-> & pr & Hl & ->)|[_ ?]]; [| by apply C].
    destruct (Hf pr) as [[-> ->]|(hello & -> & ?)]; [by apply C | done].
  - intros p n [x Hx]. apply lookup_alter_Some in Hx as [(E & y & Hy & _)|[_ Hx]]; apply (N p n); [subst l |]; eauto.
  - split; [done |]. cbn. intros l' pr Hl Hs. destruct (decide (l = l')) as [<-|Nl]; [| exists pr; by rewrite lookup_alter_ne].
    exists (f pr). rewrite lookup_alter_eq, Hl. split; [done |]. destruct (Hf pr) as [[-> _]|(hello & -> & _)]; [done | by eexists].
Qed.
Lemma mark_sent_keeps p s : sections_keep s (mark_sent p s).2.
Proof. cbn. destruct (handshakes s !! p); [| by split]. apply alter_cell_keeps. intros pr. by left. Qed.
Lemma note_hello_keeps l hello s : heard s l.1 hello → sections_keep s (note_hello l hello s).2.
Proof. intros Hh. apply alter_cell_keeps. intros pr. right. by exists hello. Qed.
Lemma delete_peer_keeps p s : sections_keep s (set_peers (delete p) s).
Proof. apply keep_quiet; try done. cbn. intros q ps [_ Hq]%lookup_delete_Some. eauto. Qed.

(** The invariant of the code, from a moment when the message it handles has
    arrived. *)
Create HintDb chain.
Lemma keeps_gets {X} (f : BlockchainNode → X) s : sections_keep s (st_gets f s).2.
Proof. by split. Qed.
Lemma keeps_handshakes f s : sections_keep s (set_handshakes f s).
Proof. apply keep_quiet; try done. by eauto. Qed.
Lemma keeps_mempool f s : sections_keep s (set_mempool f s).
Proof. apply keep_quiet; try done. by eauto. Qed.
Lemma keeps_height h s : sections_keep s (set_height h s).
Proof. apply keep_quiet; try done. by eauto. Qed.
Lemma keeps_seen f p s :
  (∀ ps, ps_NodeID (f ps) = ps_NodeID ps ∧ ps_Height (f ps) = ps_Height ps) → sections_keep s (set_peers (alter f p) s).
Proof.
  intros Hf. apply keep_quiet; try done. cbn. intros q ps'. rewrite lookup_alter_Some. intros [(-> & ps & ? & ->)|[_ ?]]; [| by eauto].
  destruct (Hf ps). eauto.
Qed.
Hint Resolve keeps_gets keeps_handshakes keeps_mempool keeps_height delete_peer_keeps mark_sent_keeps enter_progress_keeps new_progress_keeps : chain.

(** Code whose sections keep the invariant whatever is known. *)
Lemma respects_section {X} (f : ST BlockchainNode X) : (∀ s, sections_keep s (f s).2) → respects sections_keep (atomic f : code X).
Proof. by split. Qed.
Lemma respects_send_all ids stream data : respects sections_keep (send_all ids stream data).
Proof. induction ids as [|p ids IH]; cbn; [done |]. by intros _. Qed.
Hint Resolve respects_send_all : chain.
Ltac respects_code :=
  repeat first
    [ exact I
    | match goal with |- respects _ (ask _) => by intros ? end
    | progress eauto with chain
    | apply respects_bind; intros
    | apply respects_section; intros; solve [eauto with chain | cbn; eauto with chain]
    | case_match ].

Lemma respects_sendHello tag p : respects sections_keep (sendHello b tag p).
Proof. unfold sendHello, Height. respects_code. Qed.
Hint Resolve respects_sendHello : chain.
Lemma respects_Connect addrStr : respects sections_keep (Connect b AddrInfoFromP2pAddr addrStr).
Proof. unfold Connect, sendHelloRequest. respects_code. Qed.
Lemma respects_consensus p data : respects sections_keep (handleConsensusMessage p data).
Proof. unfold handleConsensusMessage. respects_code. apply respects_section. intros s. by apply keeps_seen. Qed.
Lemma respects_regossip from data : respects sections_keep (regossip from data).
Proof. unfold regossip, peer_ids. respects_code. Qed.
Lemma respects_broadcast tx : respects sections_keep (BroadcastTransaction tx).
Proof. unfold BroadcastTransaction, peer_ids. respects_code. Qed.
Lemma respects_propose : respects sections_keep (ProposeBlock b).
Proof. unfold ProposeBlock, peer_ids, Height. respects_code. Qed.
Lemma respects_disconnected p : respects sections_keep (on_disconnected p).
Proof. unfold on_disconnected. respects_code. Qed.
Lemma respects_sync p data : respects sections_keep (handleSyncMessage p data).
Proof. unfold handleSyncMessage. respects_code. Qed.

Lemma holds_quiet {X} (m : code X) s : respects sections_keep m → run_holds m (λ _ _, True) s.
Proof.
  intros Hm. eapply holds_weaken; [| apply (holds_respects chain_answers chain_inv chain_evolves (λ _ _, True)); [by intros ? ? ? | apply _ | exact Hm |]]; [done |].
  clear. induction m; cbn; auto.
Qed.
Lemma holds_chain_section {X Y} (f : ST BlockchainNode X) (k : X → code Y) post s :
  (∀ s1, chain_evolves s s1 → chain_inv s1 → sections_keep s1 (f s1).2
     ∧ (chain_inv (f s1).2 → chain_evolves s1 (f s1).2 → run_holds (k (f s1).1) post (f s1).2)) →
  run_holds (bind k (atomic f)) post s.
Proof. intros Hf. apply holds_bind, holds_atomic. intros s1 E1 I1. destruct (Hf s1 E1 I1) as [Hk Hp]. destruct (Hk I1). auto. Qed.

(** *** A message that has arrived *)

Lemma on_request_holds p n hello s :
  (h_GenesisHash hello = genesis b → h_ChainID hello = chainID b → heard s p hello) →
  run_holds (on_request b p n hello) (λ _ _, True) s.
Proof.
  intros Hh. unfold on_request. case_bool_decide as E1; [| apply holds_quiet; respects_code]. case_bool_decide as E2; [| apply holds_quiet; respects_code].
  cbn [negb]. apply holds_chain_section. intros s1 [A1 _] _. split.
  - apply note_hello_keeps. eapply heard_evolves; [exact A1 | auto].
  - intros _ _. apply holds_quiet. unfold sendHelloResponse. respects_code.
Qed.
Lemma on_response_holds p n hello s :
  (h_GenesisHash hello = genesis b → h_ChainID hello = chainID b → heard s p hello) →
  run_holds (on_response b p n hello) (λ _ _, True) s.
Proof.
  intros Hh. unfold on_response. case_bool_decide as E; [| apply holds_quiet; respects_code]. cbn [negb]. apply holds_chain_section.
  intros s1 [A1 _] _. split.
  - apply note_hello_keeps. eapply heard_evolves; [exact A1 | naive_solver].
  - intros _ _. apply holds_quiet. unfold sendHelloFinalize. respects_code.
Qed.

(** A cell that has a hello. *)
Definition has_hello (l : string * nat) (s : BlockchainNode) : Prop := ∃ pr, cells s !! l = Some pr ∧ is_Some (peerInfo pr).
Lemma has_hello_evolves l s s' : chain_evolves s s' → has_hello l s → has_hello l s'.
Proof. intros [_ C] (pr & ? & ?). by eapply C. Qed.
Lemma add_chain_peer_keeps l outbound now s : has_hello l s → sections_keep s (add_chain_peer l outbound now s).2.
Proof.
  intros (pr & Hl & [hello Hp]) Hi. unfold add_chain_peer. cbn. rewrite Hl. cbn. rewrite Hp. pose proof Hi as [P C N F].
  split; [split; try done | split; [done | cbn; eauto]]. cbn. intros q ps. rewrite lookup_insert_Some. intros [[<- <-]|[_ ?]]; [| by apply P].
  exists hello. specialize (C l pr Hl). by rewrite Hp in C.
Qed.

Lemma finish_holds l p s : has_hello l s → run_holds (
    err ← (ask (QFinalizeHandshake p) : code (option error));
    match err with
    | Some _ => mret tt
    | None =>
        isOutbound ← (ask (QIsOutbound p) : code bool); now ← (ask QNow : code time);
        _ ← atomic (add_chain_peer l isOutbound now);
        atomic (st_modify (set_handshakes (delete p)))
    end) (λ _ _, True) s.
Proof.
  intros Hh. intros err s1 E1 _ _. destruct err; [done |]. intros out s2 E2 _ _. intros now s3 E3 _ _. cbn.
  intros s4 E4 I4. assert (has_hello l s4) as H4.
  { eapply has_hello_evolves; [exact E4 |]. eapply has_hello_evolves; [exact E3 |]. eapply has_hello_evolves; [exact E2 |].
    by eapply has_hello_evolves. }
  destruct (add_chain_peer_keeps l out now s4 H4 I4) as [I5 E5]. split; [exact I5 |]. split; [exact E5 |].
  intros s6 E6 I6. destruct (keeps_handshakes (delete p) s6 I6). by split_and!.
Qed.

Lemma on_finalize_holds p n s : run_holds (on_finalize p n) (λ _ _, True) s.
Proof.
  unfold on_finalize. apply holds_chain_section. intros s1 E1 I1. split; [apply keeps_gets |]. intros _ _. cbn [progress_at st_gets fst snd].
  destruct (cells s1 !! (p, n)) as [pr|] eqn:El; cbn [default from_option id]; [| done].
  destruct (gotHello pr) eqn:Eg; cbn [negb]; [| done].
  assert (has_hello (p, n) s1) as Hh.
  { exists pr. split; [done |]. pose proof (ci_cells _ I1 _ _ El) as C. destruct (peerInfo pr); [by eexists | congruence]. }
  destruct (sentHello pr && bool_decide (is_Some (peerPubKey pr))); [| by apply (finish_holds (p, n))].
  intros err s2 E2 _ _. destruct err; [done |]. intros err s3 E3 _ _. apply (finish_holds (p, n)).
  eapply has_hello_evolves; [exact E3 |]. by eapply has_hello_evolves.
Qed.

Lemma handshake_holds p data s : (p, streamHandshake, data) ∈ arrived s → run_holds (handleHandshakeMessage b p data) (λ _ _, True) s.
Proof.
  intros Hin. unfold handleHandshakeMessage. destruct data as [|t body]; [done |]. apply holds_chain_section. intros s1 E1 I1.
  split; [apply enter_progress_keeps |]. intros _ E2. set (n := (enter_progress p s1).1). set (s2 := (enter_progress p s1).2) in *.
  assert (arrived s ⊆ arrived s2) as A2 by (etrans; [apply E1 | apply E2]).
  destruct (Z.eqb_spec t msgHelloRequest) as [->|]; [| destruct (Z.eqb_spec t msgHelloResponse) as [->|]; [| destruct (t =? msgHelloFinalize); [apply on_finalize_holds | done]]].
  - destruct (parse body ≫= read_hello) as [hello|] eqn:Eh; [| done]. apply on_request_holds. intros G1 G2. repeat split; try done. eauto 10.
  - destruct (parse body ≫= read_hello) as [hello|] eqn:Eh; [| done]. apply on_response_holds. intros G1 G2. repeat split; try done. eauto 10.
Qed.

Lemma add_transaction_keeps tx s :
  ((length (bytes_of (t_Hash tx)) < 8)%nat → short_transaction s) → sections_keep s (add_transaction tx s).2.
Proof.
  intros Hs Hi. unfold add_transaction. destruct (mempool s !! t_Hash tx); [by split |].
  destruct (keeps_mempool <[t_Hash tx := tx]> s Hi) as [I1 E1]. destruct (Nat.ltb_spec (length (bytes_of (t_Hash tx))) 8); cbn [snd]; [| done].
  destruct I1 as [P C N F], E1 as [A1 C1]. split; [split; try done; intros _; by apply Hs | by split].
Qed.
Lemma mempool_holds p data s : (p, streamMempool, data) ∈ arrived s → run_holds (handleMempoolMessage p data) (λ _ _, True) s.
Proof.
  intros Hin. unfold handleMempoolMessage. destruct (length data <? 2)%nat; [done |].
  destruct (parse (drop 1 data) ≫= read_transaction) as [tx|] eqn:Et; [| done]. apply holds_chain_section. intros s1 [A1 _] _. split.
  - apply add_transaction_keeps. intros Hl. exists p, data, tx. auto.
  - intros _ _. destruct (add_transaction tx s1).1; [| done]. intros ? ? ? ? ?. by split.
Qed.

Lemma holds_and_go {X} (m : code X) (k : code unit) s :
  (∀ s', run_holds k (λ _ _, True) s') → run_holds m (λ _ _, True) s → run_holds (bind (λ _, k) m) (λ _ _, True) s.
Proof. intros Hk Hm. apply holds_bind. eapply holds_weaken; [| exact Hm]. intros x s' _. apply Hk. Qed.

Lemma chain_body_holds c s : run_holds (chain_body b AddrInfoFromP2pAddr c) (λ _ _, True) s.
Proof.
  destruct c as [| |from data| |addrStr|tx| |h]; cbn [chain_body].
  - intros [[[p stream] data]|] s1 E1 _ Ha; [| done]. cbn in Ha. apply holds_and_go; [by split |].
    unfold handle_message. destruct (String.eqb_spec stream streamHandshake) as [->|]; [by apply handshake_holds |].
    destruct (String.eqb stream streamConsensus); [apply holds_quiet, respects_consensus |].
    destruct (String.eqb_spec stream streamMempool) as [->|]; [by apply mempool_holds |].
    destruct (String.eqb stream streamSync); [apply holds_quiet, respects_sync | done].
  - intros [[p dis]|] s1 E1 _ _; [| done]. apply holds_and_go; [by split |].
    destruct dis; [apply holds_quiet, respects_disconnected | done].
  - apply holds_quiet, respects_regossip.
  - by repeat split.
  - apply holds_and_go; [done |]. apply holds_quiet, respects_Connect.
  - apply holds_quiet, respects_broadcast.
  - apply holds_quiet, respects_propose.
  - apply holds_quiet. apply respects_section. intros s'. apply keeps_height.
Qed.

Lemma new_node_inv : chain_inv NewBlockchainNode.
Proof. split; try done. by intros p n [? ?]. Qed.
Lemma env_keeps_chain s s' : chain_inv s → chain_env s s' → chain_inv s' ∧ chain_evolves s s'.
Proof.
  intros [P C N F] (m & ->). assert (arrived s ⊆ arrived (arrive m s)) as A by (intros x ?; apply elem_of_app; by left).
  split; [split; cbn; try done | split; [done | cbn; eauto]].
  - intros p ps Hp. destruct (P p ps Hp) as (hello & ? & ?). eauto using heard_evolves.
  - intros l pr Hl. specialize (C l pr Hl). destruct (peerInfo pr); [| done]. by eapply heard_evolves.
  - intros Hf. eapply short_evolves; [exact A | auto].
Qed.

(** C12. Only peers of the node's own chain are let in.  In every interleaving
    of the message loop, the event loop, connecting, gossiping and proposing,
    whatever arrives and whatever the Glueberry node answers, every peer among
    the node's peers has sent a hello with the node's own genesis hash and
    chain identifier, and is entered with the identifier and the height of that
    hello; and nothing makes the node panic but a transaction whose hash is
    shorter than eight bytes (no nil hello is read). *)
Theorem only_own_chain s :
  rtc chain_step {| shared := NewBlockchainNode; gos := [] |} s →
  (∀ p ps, chain_peers (shared s) !! p = Some ps →
     ∃ hello, heard (shared s) p hello ∧ ps_NodeID ps = h_NodeID hello ∧ ps_Height ps = h_Height hello)
  ∧ (panicked (shared s) = true → short_transaction (shared s)).
Proof.
  intros Hr. assert (good chain_answers chain_inv chain_evolves (λ _ _, True) s) as [Hi _].
  { eapply (execution_good chain_answers chain_inv chain_evolves (λ _ _, True));
      [by intros ? ? ? | apply _ | | done | apply env_keeps_chain | exact Hr | split; [apply new_node_inv | constructor]].
    intros c s' _. apply chain_body_holds. }
  split; [apply (ci_peers _ Hi) | apply (ci_panic _ Hi)].
Qed.
End Safety.

(** ** What is read of what is written *)

Definition utf8_string (s : string) : Prop := to_valid s = s.
Definition bytes_ok (k : option (list Z)) : Prop := match k with Some k => Forall is_byte k | None => True end.
Lemma read_jslice k : bytes_ok k → read_slice (sanitize (jslice k)) = Some k.
Proof. destruct k as [k|]; [| done]. intros Hk. change (Some <$> read_bytes (sanitize (jbytes k)) = Some (Some k)). by rewrite read_jbytes. Qed.
Lemma jslice_well_formed k : bytes_ok k → well_formed (jslice k).
Proof. destruct k; [apply jbytes_well_formed | done]. Qed.

Record plain_hello (h : HelloMessage) : Prop := {
  ph_Version : 0 <= h_Version h < 2 ^ 32; ph_Genesis : utf8_string (h_GenesisHash h); ph_Chain : utf8_string (h_ChainID h);
  ph_Node : utf8_string (h_NodeID h); ph_Height : 0 <= h_Height h < 2 ^ 64; ph_Key : bytes_ok (h_PublicKey h);
}.
Lemma read_hello_json h : plain_hello h → parse (print compact 0 (hello_json h)) ≫= read_hello = Some h.
Proof.
  intros [H1 H2 H3 H4 H5 H6]. rewrite parse_print; [| apply compact_ok |].
  2: { assert (0 <= h_Version h < 2 ^ 64) by lia. unfold hello_json. apply (members_app (field _ _)); [auto with json |].
       repeat apply members_app; auto using jslice_well_formed with json. }
  cbn [mbind option_bind]. unfold read_hello, read_struct, hello_json, field. cbn [sanitize app map fst snd foldl mbind option_bind].
  unfold hello_fields. cbn [read_field fst snd]. known_fields. rewrite read_juint by lia. cbn [mbind option_bind].
  rewrite !read_jstr. cbn [mbind option_bind]. rewrite !read_jstr. cbn [mbind option_bind]. rewrite !read_jstr. cbn [mbind option_bind].
  rewrite read_juint by lia. cbn [mbind option_bind]. rewrite read_jslice by done. cbn. unfold utf8_string in *. rewrite H2, H3, H4. by destruct h.
Qed.

Record plain_transaction (t : Transaction) : Prop := {
  pt_Hash : utf8_string (t_Hash t); pt_Data : bytes_ok (t_Data t); pt_Timestamp : GoInt.in_int64 (t_Timestamp t);
}.
Lemma read_transaction_json t : plain_transaction t → parse (print compact 0 (transaction_json t)) ≫= read_transaction = Some t.
Proof.
  intros [H1 H2 H3]. rewrite parse_print; [| apply compact_ok |].
  2: { unfold transaction_json. apply (members_app (field _ _)); [auto with json |]. repeat apply members_app; auto using jslice_well_formed with json. }
  cbn [mbind option_bind]. unfold read_transaction, read_struct, transaction_json, field. cbn [sanitize app map fst snd foldl mbind option_bind].
  unfold transaction_fields. cbn [read_field fst snd]. known_fields. rewrite !read_jstr. cbn [mbind option_bind]. rewrite read_jslice by done.
  cbn [mbind option_bind]. rewrite read_jint by done. cbn. unfold utf8_string in *. rewrite H1. by destruct t.
Qed.

(** ** Two nodes of one chain shake hands *)

Section Handshake.
Context `{Libp2p} (me : side → identity) (id : side → string) (key : side → list Z).

(** A Glueberry node that lets everything through. *)
Definition willing (out : bool) (now : time) (q : chain_query) : chain_answer q :=
  match q with QMessage | QEvent => None | QIsOutbound _ => out | QShowTx _ => tt | QNow => now | _ => None end.
Definition handshakes_sent (l : list chain_query) : list (list Z) :=
  omap (λ q, match q with QSend _ stream d => if String.eqb stream streamHandshake then Some d else None | _ => None end) l.
Inductive chain_action := Prepared (key : option (list Z)) | Finalized | Dropped.
Definition chain_done (l : list chain_query) : list chain_action :=
  omap (λ q, match q with QPrepareStreams _ k _ => Some (Prepared k) | QFinalizeHandshake _ => Some Finalized | QDisconnect _ => Some Dropped | _ => None end) l.
Definition outbound (x : side) : bool := match x with A => true | B => false end.
Definition chain_party (now : time) (x : side) : party BlockchainNode (list Z) chain_action :=
  {| hear data s :=
       let o := run (willing (outbound x) now) (handleHandshakeMessage (me x) (id (other x)) data) s in
       {| next := final o; sends := handshakes_sent (calls o); does := chain_done (calls o) |};
     moves := [] |}.
(** A has connected to B. *)
Definition connecting (now : time) (addr : string) (info : Multiaddr → result error (string * list Multiaddr)) : exchange BlockchainNode (list Z) chain_action :=
  let o := run (willing true now) (Connect (me A) info addr) NewBlockchainNode in
  {| state_of := λ x, match x with A => final o | B => NewBlockchainNode end;
     to_ := λ x, match x with A => [] | B => handshakes_sent (calls o) end; did := λ _, [] |}.

Context (same_genesis : genesis (me A) = genesis (me B)) (same_chain : chainID (me A) = chainID (me B)).
Context (has_key : ∀ x, publicKey (me x) = Some (key x)) (plain : ∀ x, plain_hello (hello_of (me x) 1)).

Definition hello_bytes (x : side) : list Z := print compact 0 (hello_json (hello_of (me x) 1)).
Lemma hello_read x : parse (hello_bytes x) ≫= read_hello = Some (hello_of (me x) 1).
Proof. apply read_hello_json, plain. Qed.

(** A node that knows nothing but the handshake with the other side. *)
Definition node_at (ps : gmap string PeerState) (hs : gmap string nat) (cs : gmap (string * nat) handshakeProgress) (n : nat) : BlockchainNode :=
  {| height := 1; chain_peers := ps; handshakes := hs; cells := cs; next_cell := n; mempool := ∅; panicked := false; arrived := [] |}.
Definition greeted (x : side) : handshakeProgress :=
  {| gotHello := true; sentHello := true; peerInfo := Some (hello_of (me (other x)) 1); peerPubKey := Some (key (other x)) |}.
Definition entry_of (now : time) (x : side) : PeerState :=
  {| ps_NodeID := short (me (other x)); ps_Height := 1; ps_IsOutbound := outbound x; ps_Score := 100; ps_LastSeen := now |}.

Definition waiting_A : BlockchainNode :=
  node_at ∅ (<[id B := 0%nat]> ∅) (<[(id B, 0%nat) := {| gotHello := false; sentHello := true; peerInfo := None; peerPubKey := None |}]> ∅) 1.
Definition greeted_node (x : side) : BlockchainNode :=
  node_at ∅ (<[id (other x) := 0%nat]> ∅) (<[(id (other x), 0%nat) := greeted x]> ∅) 1.
Definition joined_node (now : time) (x : side) : BlockchainNode :=
  node_at (<[id (other x) := entry_of now x]> ∅) ∅ (<[(id (other x), 0%nat) := greeted x]> ∅) 1.
Definition left_over_B (now : time) : BlockchainNode :=
  node_at (<[id A := entry_of now B]> ∅) (<[id A := 1%nat]> ∅) (<[(id A, 1%nat) := no_progress]> (<[(id A, 0%nat) := greeted B]> ∅)) 2.

Lemma same x y : genesis (me x) = genesis (me y) ∧ chainID (me x) = chainID (me y).
Proof using same_genesis same_chain. by destruct x, y. Qed.

(** What a node makes of each message, and what it asks for. *)
Notation outcome_is o s cs := (o = {| value := tt; final := s; spawned := []; calls := cs |}).
Notation handled x now data s := (run (willing (outbound x) now) (handleHandshakeMessage (me x) (id (other x)) data) s).
Ltac look := repeat first
  [ rewrite lookup_insert_eq | rewrite alter_insert_eq | rewrite delete_insert_eq | rewrite lookup_empty
  | progress unfold set_cells, set_handshakes, set_peers
  | progress cbn -[hello_bytes chain_bytes hello_json insert lookup alter delete empty] ].
Ltac of_own_chain x y := destruct (same x y) as [-> ->]; rewrite ?bool_decide_eq_true_2 by done; cbn [negb].

Lemma A_connects now info addr m rest : NewMultiaddr addr = Some m → info m = Ok (id B, rest) →
  run (willing true now) (Connect (me A) info addr) NewBlockchainNode
  = {| value := None; final := waiting_A; spawned := [];
       calls := [QAddPeer (id B); QConnect (id B); QSend (id B) streamHandshake (msgHelloRequest :: hello_bytes A)] |}.
Proof using Type.
  intros Ha Hi. unfold Connect. rewrite Ha. cbn [fmap option_fmap option_map]. rewrite Hi. cbn -[hello_bytes chain_bytes hello_json insert lookup alter delete empty].
  unfold new_progress, enter_progress. look. reflexivity.
Qed.

Lemma B_requested now : outcome_is (handled B now (msgHelloRequest :: hello_bytes A) NewBlockchainNode)
  (greeted_node B) [QSend (id A) streamHandshake (msgHelloResponse :: hello_bytes B)].
Proof using same_genesis same_chain has_key plain.
  unfold handleHandshakeMessage. rewrite hello_read. unfold enter_progress. look. unfold on_request. cbn [hello_of h_GenesisHash h_ChainID].
  of_own_chain A B. look. unfold greeted_node, greeted. cbn [other]. by rewrite has_key.
Qed.

Lemma A_answered now : outcome_is (handled A now (msgHelloResponse :: hello_bytes B) waiting_A)
  (greeted_node A) [QPrepareStreams (id B) (Some (key B)) chain_streams; QSend (id B) streamHandshake [msgHelloFinalize]].
Proof using same_genesis same_chain has_key plain.
  unfold handleHandshakeMessage. rewrite hello_read. unfold enter_progress, waiting_A. look. unfold on_response. cbn [hello_of h_GenesisHash h_ChainID].
  of_own_chain B A. look. unfold greeted_node, greeted. cbn [other h_PublicKey hello_of]. by rewrite has_key.
Qed.
(** A side that has a hello finalizes, whoever it is. *)
Lemma finalized now x : outcome_is (handled x now [msgHelloFinalize] (greeted_node x)) (joined_node now x)
  [QPrepareStreams (id (other x)) (Some (key (other x))) chain_streams; QSend (id (other x)) streamHandshake [msgHelloFinalize];
   QFinalizeHandshake (id (other x)); QIsOutbound (id (other x)); QNow].
Proof using Type.
  unfold handleHandshakeMessage, enter_progress, on_finalize, progress_at, greeted_node. look. unfold add_chain_peer. look. done.
Qed.
(** The initiator's second finalize finds nothing to finish, and leaves a
    progress behind. *)
Lemma finalize_left_over now : outcome_is (handled B now [msgHelloFinalize] (joined_node now B)) (left_over_B now) [].
Proof using Type. unfold handleHandshakeMessage, enter_progress, on_finalize, progress_at, joined_node, left_over_B. look. done. Qed.

(** The points of the exchange. *)
Notation state := (exchange BlockchainNode (list Z) chain_action).
Definition prepares (x : side) : chain_action := Prepared (Some (key (other x))).
Definition points (now : time) : list (BlockchainNode * list (list Z) * list chain_action * BlockchainNode * list (list Z) * list chain_action) :=
  let fin := [msgHelloFinalize] in
  [ (waiting_A, [], [], NewBlockchainNode, [msgHelloRequest :: hello_bytes A], []);
    (waiting_A, [msgHelloResponse :: hello_bytes B], [], greeted_node B, [], []);
    (greeted_node A, [], [prepares A], greeted_node B, [fin], []);
    (greeted_node A, [fin], [prepares A], joined_node now B, [], [prepares B; Finalized]);
    (joined_node now A, [], [prepares A; prepares A; Finalized], joined_node now B, [fin], [prepares B; Finalized]);
    (joined_node now A, [], [prepares A; prepares A; Finalized], left_over_B now, [], [prepares B; Finalized]) ].
Definition at_point (e : state) (x : BlockchainNode * list (list Z) * list chain_action * BlockchainNode * list (list Z) * list chain_action) : Prop :=
  let '(sA, mA, dA, sB, mB, dB) := x in
  state_of e A = sA ∧ to_ e A = mA ∧ did e A = dA ∧ state_of e B = sB ∧ to_ e B = mB ∧ did e B = dB.

Lemma one_message {T} (l1 l2 : list T) x y : [x] = l1 ++ y :: l2 → l1 = [] ∧ y = x ∧ l2 = [].
Proof. destruct l1 as [|z l1]; cbn; [by intros [= -> ->] |]. destruct l1; by intros [= -> ]. Qed.

(** When one message is under way, a step is its arrival. *)
Lemma sole_step now (e e' : state) z m :
  to_ e z = [m] → to_ e (other z) = [] → exchange_step (chain_party now) e e' →
  let a := hear (chain_party now z) m (state_of e z) in
  (state_of e' z = next a ∧ to_ e' z = [] ∧ did e' z = did e z ++ does a)
  ∧ state_of e' (other z) = state_of e (other z) ∧ to_ e' (other z) = sends a ∧ did e' (other z) = did e (other z).
Proof using Type.
  intros Hz Ho Hs. destruct Hs as [z' l1 m' l2 e Hto|z' f a e Hf _]; [| by apply not_elem_of_nil in Hf].
  destruct (decide (z' = z)) as [->|N].
  - rewrite Hz in Hto. apply one_message in Hto as (-> & -> & ->). cbv zeta.
    pose proof (answered_self z ([] ++ []) (hear (chain_party now z) m (state_of e z)) e) as S1.
    pose proof (answered_other z ([] ++ []) (hear (chain_party now z) m (state_of e z)) e) as O1. rewrite Ho in O1. by split.
  - assert (z' = other z) as -> by (by destruct z, z'). rewrite Ho in Hto. by destruct l1.
Qed.
Lemma silent_step now (e e' : state) z : to_ e z = [] → to_ e (other z) = [] → ¬ exchange_step (chain_party now) e e'.
Proof using Type.
  intros Hz Ho Hs. destruct Hs as [z' l1 m l2 e Hto|z' f a e Hf _]; [| by apply not_elem_of_nil in Hf].
  destruct (decide (z' = z)) as [->|N]; [rewrite Hz in Hto; by destruct l1 |].
  assert (z' = other z) as -> by (by destruct z, z'). rewrite Ho in Hto. by destruct l1.
Qed.

Lemma point_step now n e e' x :
  points now !! n = Some x → at_point e x → exchange_step (chain_party now) e e' →
  ∃ y, points now !! S n = Some y ∧ at_point e' y.
Proof using same_genesis same_chain has_key plain.
  intros Hn He Hs. destruct n as [|[|[|[|[|[|n]]]]]]; unfold points in Hn; cbn -[hello_bytes] in Hn; [injection Hn as <- .. | done]; destruct He as (E1 & E2 & E3 & E4 & E5 & E6).
  6: by apply (silent_step now e e' A) in Hs.
  all: first [ destruct (sole_step now e e' A _ E2 E5 Hs) as [(S1 & S2 & S3) (O1 & O2 & O3)]
             | destruct (sole_step now e e' B _ E5 E2 Hs) as [(S1 & S2 & S3) (O1 & O2 & O3)] ];
    eexists; (split; [reflexivity |]); unfold at_point; cbn [hear chain_party next sends does] in *;
    rewrite ?E1, ?E4 in S1, S3, O2.
  1: rewrite B_requested in S1, S3, O2. 2: rewrite A_answered in S1, S3, O2. 3: rewrite (finalized now B) in S1, S3, O2.
  4: rewrite (finalized now A) in S1, S3, O2. 5: rewrite finalize_left_over in S1, S3, O2.
  all: cbn [other] in *; rewrite ?E1, ?E3, ?E4, ?E6 in *; by rewrite S1, S2, S3, O1, O2, O3.
Qed.

(** However it goes, the handshake of two nodes of one chain is at one of six
    points, one after the other; at the last nothing is under way, each has the
    other among its peers, with what the other said, and both have finalized;
    the initiator has prepared its streams twice, and the responder is left
    with a handshake that nothing will finish. *)
Lemma own_chain_handshake now n addr info m rest e :
  NewMultiaddr addr = Some m → info m = Ok (id B, rest) →
  nsteps (exchange_step (chain_party now)) n (connecting now addr info) e →
  ∃ x, points now !! n = Some x ∧ at_point e x.
Proof using same_genesis same_chain has_key plain.
  intros Ha Hi. revert e. induction n as [|n IH]; intros e Hs.
  - inversion Hs; subst. eexists. split; [reflexivity |]. unfold connecting. rewrite (A_connects now info addr m rest Ha Hi). repeat split.
  - apply nsteps_inv_r in Hs as (e1 & Hs1 & Hs). destruct (IH e1 Hs1) as (x & Hx & Hp). by eapply point_step.
Qed.
End Handshake.

(** A node of another chain is sent away, and nothing else happens but that
    its progress is noted. *)
Lemma other_chain_refused `{Libp2p} b now out p hello s :
  plain_hello hello → h_GenesisHash hello ≠ genesis b ∨ h_ChainID hello ≠ chainID b →
  let o := run (willing out now) (handleHandshakeMessage b p (msgHelloRequest :: print compact 0 (hello_json hello))) s in
  let o' := run (willing out now) (handleHandshakeMessage b p (msgHelloResponse :: print compact 0 (hello_json hello))) s in
  calls o = [QDisconnect p] ∧ final o = (enter_progress p s).2 ∧ calls o' = [QDisconnect p] ∧ final o' = (enter_progress p s).2.
Proof.
  intros Hh Hne. unfold handleHandshakeMessage. rewrite !read_hello_json by done. cbv zeta.
  change (msgHelloRequest =? msgHelloRequest) with true. change (msgHelloResponse =? msgHelloRequest) with false.
  change (msgHelloResponse =? msgHelloResponse) with true. cbv iota. unfold mbind, prog_bind, atomic. cbn [bind run].
  destruct (enter_progress p s) as [n s1]. unfold on_request, on_response. cbn [fst snd].
  rewrite (bool_decide_eq_false_2 (h_GenesisHash hello = genesis b ∧ h_ChainID hello = chainID b)) by naive_solver. cbn [negb].
  case_bool_decide; [rewrite (bool_decide_eq_false_2 (h_ChainID hello = chainID b)) by naive_solver |]; done.
Qed.

(** ** A transaction floods the network *)

Section Gossip.
Context `{Libp2p} (b : identity) (info : Multiaddr → result error (string * list Multiaddr)).

(** A message of the mempool's stream, and the goroutine it starts; [None]
    when it panics. *)
Definition finish (o : outcome (S := BlockchainNode) (P := chain_proc) (Q := chain_query) unit) : BlockchainNode * list chain_query :=
  foldl (λ acc c, let o := run (willing false 0) (chain_body b info c) acc.1 in (final o, acc.2 ++ calls o)) (final o, calls o) (spawned o).
Definition mempool_sent (l : list chain_query) : list (string * list Z) :=
  omap (λ q, match q with QSend p stream d => if String.eqb stream streamMempool then Some (p, d) else None | _ => None end) l.
Definition transactions_shown (l : list chain_query) : list (list Z) := omap (λ q, match q with QShowTx h => Some h | _ => None end) l.
Definition mempool_receive (p : string) (data : list Z) (s : BlockchainNode) : option (BlockchainNode * list (string * list Z) * list (list Z)) :=
  let '(s', cs) := finish (run (willing false 0) (handleMempoolMessage p data) s) in
  if panicked s' && negb (panicked s) then None else Some (s', mempool_sent cs, transactions_shown cs).

Lemma run_send_all ids stream data s :
  run (willing false 0) (send_all ids stream data) s
  = {| value := tt; final := s; spawned := []; calls := (λ q, QSend q stream data) <$> ids |}.
Proof using Type.
  induction ids as [|q ids IH]; [done |]. cbn [send_all fmap list_fmap]. unfold mbind, prog_bind, ask. cbn [bind run]. by rewrite IH.
Qed.
Lemma sent_sends ids data : mempool_sent ((λ q, QSend q streamMempool data) <$> ids) = (λ q, (q, data)) <$> ids.
Proof using Type. induction ids as [|q ids IH]; [done |]. cbn [fmap list_fmap]. unfold mempool_sent in *. cbn [omap list_omap]. cbn. by rewrite IH. Qed.
Lemma sends_shown ids data : transactions_shown ((λ q, QSend q streamMempool data) <$> ids) = [].
Proof using Type. by induction ids. Qed.

Context (tx : Transaction).
Definition transaction_bytes : list Z := chain_bytes 1 (transaction_json tx).
(** What the handler does with it. *)
Lemma handle_transaction_bytes p : plain_transaction tx →
  handleMempoolMessage p transaction_bytes
  = (shown ← atomic (add_transaction tx);
     match shown with None => mret tt | Some hash => _ ← (ask (QShowTx hash) : prog unit); go (PRegossip p transaction_bytes) end).
Proof using Type.
  intros Htx. unfold handleMempoolMessage. assert ((length transaction_bytes <? 2)%nat = false) as ->.
  { apply Nat.ltb_ge. unfold transaction_bytes, chain_bytes. destruct (print compact 0 (transaction_json tx)) eqn:E; [| cbn; lia].
    pose proof (read_transaction_json tx Htx) as R. by rewrite E in R. }
  change (drop 1 transaction_bytes) with (print compact 0 (transaction_json tx)). by rewrite read_transaction_json.
Qed.

Context (Htx : plain_transaction tx) (Hlong : (8 <= length (bytes_of (t_Hash tx)))%nat).
Lemma run_transaction p s :
  run (willing false 0) (handleMempoolMessage p transaction_bytes) s
  = match mempool s !! t_Hash tx with
    | Some _ => {| value := tt; final := s; spawned := []; calls := [] |}
    | None => {| value := tt; final := set_mempool <[t_Hash tx := tx]> s; spawned := [PRegossip p transaction_bytes];
                 calls := [QShowTx (take 8 (bytes_of (t_Hash tx)))] |}
    end.
Proof using Htx Hlong.
  rewrite (handle_transaction_bytes p Htx).
  unfold mbind, prog_bind, atomic. cbn [bind run]. unfold add_transaction. destruct (mempool s !! t_Hash tx); [done |].
  apply Nat.ltb_ge in Hlong. by rewrite Hlong.
Qed.

#[local] Instance chain_floods : Floods mempool_receive transaction_bytes (take 8 (bytes_of (t_Hash tx))).
Proof using Htx Hlong.
  refine {| links s := dom (chain_peers s); knows s := bool_decide (is_Some (mempool s !! t_Hash tx)) |}.
  - intros p s [x Hx]%bool_decide_eq_true. unfold mempool_receive. rewrite run_transaction, Hx. cbn. by rewrite andb_negb_r.
  - intros p s Hk%bool_decide_eq_false. unfold mempool_receive. rewrite run_transaction.
    destruct (mempool s !! t_Hash tx) as [x|]; [by destruct Hk |]. unfold finish. cbn [final spawned calls foldl fst snd].
    change (chain_body b info (PRegossip p transaction_bytes)) with (regossip p transaction_bytes). unfold regossip, mbind, prog_bind, atomic.
    cbn [bind run peer_ids st_gets fst snd]. rewrite run_send_all. cbn [final calls panicked set_mempool]. rewrite andb_negb_r.
    do 2 eexists. split; [| split; [| split]].
    + change (mempool_sent ([QShowTx ?h] ++ ?l)) with (mempool_sent l). rewrite sent_sends.
      change (transactions_shown ([QShowTx ?h] ++ ?l)) with (h :: transactions_shown l). by rewrite sends_shown.
    + apply NoDup_Permutation; [apply NoDup_ListNoDup, List.NoDup_filter, NoDup_ListNoDup, NoDup_elements | apply NoDup_elements |].
      intros q. rewrite !list_elem_of_In, List.filter_In, <- !list_elem_of_In, !elem_of_elements.
      rewrite negb_true_iff, bool_decide_eq_false. cbn. set_solver.
    + apply bool_decide_eq_true. cbn. rewrite lookup_insert_eq. by eexists.
    + done.
Defined.
End Gossip.

(** The peers of a node, and the others that can be reached. *)
Definition linked (nodes : gmap string BlockchainNode) (p q : string) : Prop :=
  ∃ s, nodes !! p = Some s ∧ is_Some (chain_peers s !! q).

(** A transaction reaches every node, once.  A node broadcasts a transaction
    that nobody has, in a network whose peers stay what they are, every one of
    them a node.  However the messages are delivered, every node shows it at
    most once, and in the end the nodes that can be reached, the first apart,
    have shown it and no other node has. *)
Theorem transaction_reaches_all `{Libp2p} b info tx nodes o s n w :
  plain_transaction tx → (8 <= length (bytes_of (t_Hash tx)))%nat → nodes !! o = Some s →
  (∀ p q, linked nodes p q → is_Some (nodes !! q)) → (∀ q x, nodes !! q = Some x → mempool x !! t_Hash tx = None) →
  let r := run (willing false 0) (BroadcastTransaction tx) s in
  nsteps (deliver (mempool_receive b info)) n {| nodes := <[o := final r]> nodes; wire := posted o (mempool_sent (calls r)); shown := [] |} w →
  let u := take 8 (bytes_of (t_Hash tx)) in
  (∀ p, (length (filter (λ x, x.1 = p) (shown w)) <= 1)%nat ∧ filter (λ x, x.1 = p) (shown w) ⊆ [(p, u)])
  ∧ (n <= sum_list_with (λ x, size (dom (chain_peers x.2))) (map_to_list nodes))%nat
  ∧ ((∀ w', ¬ deliver (mempool_receive b info) w w') → wire w = []
     ∧ ∀ p, (p ≠ o → rtc (linked nodes) o p → filter (λ x, x.1 = p) (shown w) = [(p, u)])
            ∧ (p = o ∨ ¬ rtc (linked nodes) o p → filter (λ x, x.1 = p) (shown w) = [])).
Proof.
  intros Htx Hlong Ho Hcl Hfresh r Hs u. set (F := chain_floods b info tx Htx Hlong).
  assert (final r = set_mempool <[t_Hash tx := tx]> s ∧ mempool_sent (calls r) = (λ q, (q, transaction_bytes tx)) <$> elements (dom (chain_peers s))) as [Ef Ec].
  { subst r. unfold BroadcastTransaction, mbind, prog_bind, atomic. cbn [bind run st_modify peer_ids st_gets]. rewrite run_send_all.
    cbn [final calls chain_peers set_mempool]. split; [done | apply sent_sends]. }
  rewrite Ef, Ec in Hs.
  assert (∀ p q, neighbour (Floods0 := F) nodes p q ↔ linked nodes p q) as Hn.
  { intros p q. unfold neighbour, linked. cbn [links F chain_floods]. by setoid_rewrite elem_of_dom. }
  destruct (flooded_from (Floods0 := F) nodes o s (set_mempool <[t_Hash tx := tx]> s) (elements (dom (chain_peers s))) n w) as (H1 & H2 & H3); try done.
  - apply bool_decide_eq_true. cbn. rewrite lookup_insert_eq. by eexists.
  - intros q x Hx N. apply bool_decide_eq_false. rewrite (Hfresh q x Hx). by intros [? ?].
  - intros p q Hpq%Hn. by apply (Hcl p).
  - split; [exact H1 |]. split; [exact H2 |]. intros Hstuck. destruct (H3 Hstuck) as [Hw Hp]. split; [exact Hw |].
    assert (∀ x y, rtc (linked nodes) x y ↔ rtc (neighbour (Floods0 := F) nodes) x y) as Hr.
    { intros x y. split; apply rtc_subrel; intros ? ?; apply Hn. }
    intros p. rewrite Hr. apply Hp.
Qed.

(** ** Where it goes wrong *)

(** A transaction with a hash of fewer than eight bytes ends the program of
    whoever is sent it. *)
Lemma short_hash_panics `{Libp2p} b info p tx s :
  plain_transaction tx → (length (bytes_of (t_Hash tx)) < 8)%nat → mempool s !! t_Hash tx = None → panicked s = false →
  mempool_receive b info p (transaction_bytes tx) s = None.
Proof.
  intros Htx Hlen Hm Hp. unfold mempool_receive. rewrite (handle_transaction_bytes tx p Htx).
  unfold mbind, prog_bind, atomic. cbn [bind run]. unfold add_transaction. rewrite Hm. apply Nat.ltb_lt in Hlen. rewrite Hlen. cbn. by rewrite Hp.
Qed.

(** ** Witnesses *)

Module BlockchainWitness.
#[local] Existing Instance plain_libp2p.
Definition genesis_hash : string := "genesis-hash-abc123".
Definition alice : identity := {| short := "12D3KooA"; chainID := "testnet-1"; genesis := genesis_hash; publicKey := Some [1; 2] |}.
Definition bob : identity := {| short := "12D3KooB"; chainID := "testnet-1"; genesis := genesis_hash; publicKey := Some [3; 4] |}.
Definition no_info (_ : Multiaddr) : result error (string * list Multiaddr) := Err (Errorf "" None).
Notation bob_step := (step (chain_body bob no_info) (λ _ _, True) chain_answers chain_env).

(** Handling a message asks for no other. *)
Ltac asks_code :=
  repeat first
    [ exact I
    | match goal with |- asks _ (ask _) => split; [discriminate | done] | |- asks _ (atomic _) => by intros ? | |- asks _ (go _) => done end
    | apply asks_bind; intros
    | case_match ].
Lemma handle_asks_none p stream data : asks (λ q, q ≠ QMessage) (handle_message bob p stream data).
Proof.
  unfold handle_message, handleHandshakeMessage, on_request, on_response, on_finalize, sendHelloResponse, sendHello, sendHelloFinalize,
    handleConsensusMessage, handleMempoolMessage, handleSyncMessage. asks_code.
Qed.

(** A message arrives and is handled. *)
Definition after_message (m : string * string * list Z) (s : BlockchainNode) : BlockchainNode :=
  final (run (willing false 7) (_ ← handle_message bob m.1.1 m.1.2 m.2; go PMessages) (arrive m s)).
Lemma message_handled m s gs : ∃ gs', rtc bob_step {| shared := s; gos := gs |} {| shared := after_message m s; gos := gs' |}.
Proof.
  destruct m as [[p stream] data]. set (m := (p, stream, data)).
  destruct (run_to_end (chain_body bob no_info) (λ _ _, True) chain_answers chain_env (willing false 7)
    (_ ← handle_message bob p stream data; go PMessages) (arrive m s) (gs ++ [_ ← handle_message bob p stream data; go PMessages]) (length gs)) as [gs' Hr].
  - apply (asks_weaken (λ q, q ≠ QMessage)); [by intros [] ? ? |]. apply asks_bind; [apply handle_asks_none | done].
  - by rewrite lookup_app_r, Nat.sub_diag.
  - exists gs'. eapply rtc_l; [apply (step_env _ _ _ _ {| shared := s; gos := gs |} (arrive m s)); by exists m |].
    eapply rtc_l; [by apply (step_call _ _ _ _ {| shared := arrive m s; gos := gs |} PMessages) |]. cbn [shared gos].
    assert ((gs ++ [handleMessages bob]) !! length gs = Some (handleMessages bob)) as Hl by (by rewrite lookup_app_r, Nat.sub_diag).
    eapply rtc_l; [apply (step_ask _ _ _ _ {| shared := arrive m s; gos := gs ++ [handleMessages bob] |} (length gs) QMessage _ (Some m) Hl) |].
    + cbn. apply elem_of_app. right. by left.
    + cbn [shared gos]. rewrite insert_app_r_alt, Nat.sub_diag by done. exact Hr.
Qed.

(** Alice's hello and her finalize. *)
Definition request : string * string * list Z := ("A"%string, streamHandshake, chain_bytes msgHelloRequest (hello_json (hello_of alice 1))).
Definition finalize : string * string * list Z := ("A"%string, streamHandshake, [msgHelloFinalize]).
Definition let_in : BlockchainNode := after_message finalize (after_message request NewBlockchainNode).

Lemma only_own_chain_witness :
  ∃ gs, rtc bob_step {| shared := NewBlockchainNode; gos := [] |} {| shared := let_in; gos := gs |}
  ∧ chain_peers let_in !! "A"%string = Some {| ps_NodeID := "12D3KooA"; ps_Height := 1; ps_IsOutbound := false; ps_Score := 100; ps_LastSeen := 7 |}
  ∧ ∃ hello, heard bob let_in "A" hello ∧ "12D3KooA"%string = h_NodeID hello.
Proof.
  destruct (message_handled request NewBlockchainNode []) as [gs1 H1].
  destruct (message_handled finalize (after_message request NewBlockchainNode) gs1) as [gs2 H2].
  assert (rtc bob_step {| shared := NewBlockchainNode; gos := [] |} {| shared := let_in; gos := gs2 |}) as Hr by (by etrans).
  exists gs2. split; [exact Hr |].
  assert (chain_peers let_in !! "A"%string = Some {| ps_NodeID := "12D3KooA"; ps_Height := 1; ps_IsOutbound := false; ps_Score := 100; ps_LastSeen := 7 |}) as Hp
    by (vm_compute; reflexivity).
  split; [exact Hp |]. destruct (proj1 (only_own_chain bob no_info _ Hr) _ _ Hp) as (hello & Hh & Hn & _). exact (ex_intro _ hello (conj Hh Hn)).
Defined.

(** A peer of another chain is not let in. *)
Example stranger : after_message ("A"%string, streamHandshake, chain_bytes msgHelloRequest (hello_json (hello_of {| short := "12D3KooA"; chainID := "testnet-2"; genesis := genesis_hash; publicKey := Some [1; 2] |} 1))) NewBlockchainNode
  = arrive ("A"%string, streamHandshake, chain_bytes msgHelloRequest (hello_json (hello_of {| short := "12D3KooA"; chainID := "testnet-2"; genesis := genesis_hash; publicKey := Some [1; 2] |} 1)))
      (enter_progress "A" NewBlockchainNode).2.
Proof. vm_compute. reflexivity. Qed.
End BlockchainWitness.
